(* ===== verification/_CoqProject ===== *)
-Q . S2P
Prelude.v
Arch.v
Env.v
Simd.v
Fpreg.v
Alat.v
Registers.v
Interrupt.v
Iosapic.v
RseMap.v
RseRnat.v
RseOps.v
RsePart.v
RseSteps.v
RseLoads.v
RseFrames.v
RseReturns.v
RseAlloc.v
RseRuns.v
RseContext.v
RseOutside.v
Ras.v
Exception.v
Handlers.v
RseTheorems.v
