(* ===== verification/Prelude.v ===== *)
(** * The IA-64 processor of qemu-system-ia64

    A verification of the parts of the IA-64 target ([src/target/ia64]) and of
    the I/O SAPIC ([src/hw/ia64/ia64_iosapic.c]) that hold the processor's
    state together: the register stack engine, exceptions and interrupts,
    machine checks, the ALAT, and the register views.

    ** The program

    The translator turns guest instructions into TCG code, which calls helper
    functions for everything that is not plain arithmetic.  The helpers in
    [arch/] work on one structure, [CPUIA64State].
    - The register stack engine ([arch/rse.c]) keeps the stacked registers
      r32 to r127 in a ring of 96 physical registers and spills to and fills
      from a backing store in memory, with one NaT collection word for every 63
      registers.  Its loads and stores may fault or be interrupted at any word.
    - [arch/exception.c] raises exceptions, delivers them to the interruption
      vector table and checks for interrupts between instructions; the register
      stack calls it in the windows between its mandatory references.
    - [arch/interrupt.c] is the local SAPIC and the interval timer, which decide
      whether there is an interrupt; [ia64_iosapic.c] sends them the interrupts
      of the devices.
    - [arch/ras.c] logs machine checks and enters the firmware's PMI, machine
      check and INIT handlers, with a snapshot of the registers in memory and one
      of the register stack.
    - [arch/alat.c] is the advanced load address table, invalidated by stores
      of this and of other processors.
    - [arch/system.c], [arch/fp.c], [fpreg.c] and [arch/simd-ops.c] have the
      predicate registers, the banks, the rotating and the spilled forms of the
      floating-point registers, and the packed integer operations.

    ** The files

    - Prelude: machine words as [Z] with explicit wrap-around and their bit
      lemmas ([zbits]), arrays as lists ([aget], [aset]), bit maps, loops
      ([for_range], [while_bits]), record updates, and the monad of state and
      exceptions with its assertion [ensures].
    - Arch: the constants of [cpu.h] and the page attribute checks.
    - Env: [CPUIA64State] and its sub-states, with the field names of
      [cpu.h] and [internals.h].
    - Simd: [arch/simd-ops.c].
    - Fpreg: [fpreg.h] and [fpreg.c].
    - Alat: [arch/alat.c], the data translation it uses of [arch/mmu.c], and
      the RAM write generation of [system/physmem.c].
    - Registers: predicates, banks and [PSR] of [arch/system.c], and the lazy
      rotation of [arch/fp.c].
    - Interrupt: [arch/interrupt.c], and the requests that [arch/ras.c] posts
      to a processor.
    - Iosapic: [hw/ia64/ia64_iosapic.c].
    - RseMap, RseRnat, RseOps: the definitions of [arch/rse.c] (the renaming
      and the copies of a frame; the NaT collections; the operations), with the
      parts of the other files that they call.
    - RsePart, RseSteps, RseLoads, RseFrames, RseReturns, RseAlloc, RseRuns: the
      invariant of the engine and the proof that its operations implement an
      unbounded stack of registers.
    - RseContext: the snapshots of the engine.
    - RseOutside: what the engine does not change.
    - Ras: [arch/ras.c] on the processor.
    - Exception: [arch/exception.c], and the mapping of misses in the boot
      environment of [arch/firmware.c].
    - Handlers: interruption handlers that use the register stack.
    - RseTheorems: the properties of the register stack as a whole.

    ** State and operations

    A C integer is a [Z] in the range of its type, and an operation that can
    leave the range wraps as C does ([u8] to [u64], [~64]); signed counters are
    [Z] and the invariants bound them.  A structure is a record with the fields
    of the source, an enumeration an inductive type, an array a list whose
    length is part of the well-formedness condition.  Pure code is a function,
    code that updates [env] a function from state to state, and code that may
    [longjmp] out (a fault in a load or store, an interrupt, a refused
    instruction) an operation [M E S A] that returns or raises, with the changes
    made so far in both cases.  The names are those of the source; where a
    function is long its parts have definitions of their own.

    What is outside the files above is a parameter with laws.
    - [RseWorld] and [RseWorldLaws] (RseOps): the memory accesses, which may
      fault without effect, the debug registers, the flush of translations and
      the IA-32 engine.  The interrupt delivery is a parameter there as well, and
      [delivering] of Exception instantiates it with the code.
    - [RasWorld] and [RasLaws] (Ras): physical memory.
    - [DeliveryWorld] and [DeliveryLaws] (Exception): the IA-32 engine, the
      firmware's assists and the reset.
    - [Translation] (Alat): the TLB lookup.  The counters of other processors
      are a trace, read at increasing times.
    - The virtual clock of Interrupt is a function of the number of reads.
    The flat memory of RseOps, with an optional fault at a chosen access, has
    all the laws, and the witnesses run on it.

    ** What is shown

    - The register stack: programs of register writes, [alloc], [flushrs] and
      nested calls run as on an unbounded stack of registers, values and NaT
      bits; a call preserves its caller's locals; [flushrs] writes the stack to
      memory; a fault or an interrupt at any mandatory reference leaves the stack
      intact, and an interrupted return can be resumed; the engine's own
      consistency check never fails; every fast path of the frame copies computes
      the same function; no known NaT bit is lost by the latches and the table of
      collections while the table is not full; a snapshot restores the engine.
      The theorems on whole programs are for models without a clean partition,
      which are all models of [cpu.c], and for memory that only the processor
      writes ([RseWorldLaws]).
    - Interruptions: the state of a handler is given exactly; delivery and
      [rfi] are the identity on the interrupted program; a handler that covers
      the frame and uses the register stack is invisible to it; the interrupt
      check takes an external interrupt exactly when nothing comes before it, the
      frame is complete, and it is enabled and deliverable; the windows of the
      register stack are safe with the processor's own delivery.
    - Machine checks: the firmware can resume what a machine check or INIT
      interrupted, whatever it has done to the registers, if it has left the
      saved state alone; a refused PMI stays pending.
    - Interrupts: the request line is up exactly when something can be
      delivered; reading [IVR] and [EOI] implement a stack of in-service vectors;
      an armed timer fires, however often the counter is read meanwhile; a level
      input of the I/O SAPIC to an identifier that a processor keeps is never
      forgotten.
    - The ALAT's indexes agree; a check that hits excludes a store of another
      processor or a device since the load; a store removes exactly the entries
      that share a byte with it; rotations and bank switches move views and not
      registers; spilled registers and packed lanes have their architected
      values.
    - Departures of the code from its comments or from the architecture:
      [rnat_write_misfiles_latch], [uncollected_ifa], [itc_delay_not_first].

    ** Loops and fuel

    Loops over ranges are [for_range].  The other loops have fuel that is
    proved sufficient, or equal to a bound of the code: 64 for loops over the
    bits of a word; the end of the frame for the spans of a copy, each of which
    advances; the number of table entries for the scans of the collections; the
    number of processors for the redirection of an interrupt; the words of the
    dirty partition, or the missing words of the frame, for the mandatory stores
    and loads, each of which moves one word ([flush_loop_spec],
    [new_frame_loop_spec], [frame_loads_loop_spec] and their users show that the loop
    has then done its work).  [ctop_pipeline] gives the iterations of a counted
    loop.

    ** Not modelled

    - The decoder and the translation to TCG: their meaning is that of the TCG
      back ends.
    - The TLB, the VHPT walker and the protection keys of [arch/mmu.c], which
      are entangled with QEMU's own TLB; their results are parameters.
    - The floating-point arithmetic of [arch/fp.c], which calls SoftFloat.
    - The access checks of the application, control and model-specific registers
      of [arch/system.c], other than those with effects on modelled state
      ([AR.RNAT], [AR.BSPSTORE], [TPR], [LID]).
    - [ia64_rse_cloop_fill_st1], a fast path of a store loop through host memory
      pointers.
    - PAL procedures, the firmware interface and its unaligned emulation: tables
      of constants and calls into the board.
    - The IA-32 engine, migration, gdb and dump support, the boards and chipsets,
      and the rest of QEMU.
    - Log messages, trace points and the checks of debug builds. *)
From Stdlib Require Export ZArith Lia Btauto Bool.
From stdpp Require Export base numbers list option tactics.

#[export] Set Warnings "-notation-overridden,-clear-no-such-hyp".
#[global] Open Scope Z_scope.

Declare Scope word_scope.
Delimit Scope word_scope with word.
Notation "x .& y" := (Z.land x y) (at level 40, left associativity) : word_scope.
Notation "x .| y" := (Z.lor x y) (at level 50, left associativity) : word_scope.
Notation "x .^ y" := (Z.lxor x y) (at level 45, left associativity) : word_scope.
Notation "x <<< n" := (Z.shiftl x n) (at level 38, left associativity) : word_scope.
Notation "x >>> n" := (Z.shiftr x n) (at level 38, left associativity) : word_scope.
#[global] Open Scope word_scope.

(** * Machine words *)

(** A [w]-bit unsigned C value is an integer in [0, 2^w). *)
Definition uint (w x : Z) : Prop := 0 <= x < 2 ^ w.

(** Conversion of an integer to a [w]-bit unsigned C type. *)
Definition wrap (w x : Z) : Z := x mod 2 ^ w.

(** Reinterpretation of a [w]-bit pattern as a signed two's complement value. *)
Definition signed (w x : Z) : Z :=
  if wrap w x <? 2 ^ (w - 1) then wrap w x else wrap w x - 2 ^ w.

(** The C operator [~] on a [w]-bit unsigned operand. *)
Definition wnot (w x : Z) : Z := wrap w (Z.lnot x).

(** A C integer used as a condition. *)
Definition truth (x : Z) : bool := negb (x =? 0).

Abbreviation u64 := (wrap 64).
Abbreviation u32 := (wrap 32).
Abbreviation u16 := (wrap 16).
Abbreviation u8 := (wrap 8).
Abbreviation s64 := (signed 64).
Abbreviation s32 := (signed 32).
Abbreviation s16 := (signed 16).
Notation "~64 x" := (wnot 64 x) (at level 35, right associativity) : word_scope.
Notation "~32 x" := (wnot 32 x) (at level 35, right associativity) : word_scope.

Definition UINT64_MAX : Z := 2 ^ 64 - 1.
Definition UINT32_MAX : Z := 2 ^ 32 - 1.
Definition UINT16_MAX : Z := 2 ^ 16 - 1.
Definition INT64_MAX : Z := 2 ^ 63 - 1.
Definition INT16_MAX : Z := 2 ^ 15 - 1.
Definition INT16_MIN : Z := - 2 ^ 15.

(** ** Bit-level reasoning *)

Lemma wrap_spec w x i :
  0 <= w -> Z.testbit (wrap w x) i = (i <? w) && Z.testbit x i.
Proof.
  intros Hw. unfold wrap. destruct (Z.ltb_spec i w); simpl.
  - by rewrite Z.mod_pow2_bits_low.
  - apply Z.mod_pow2_bits_high; lia.
Qed.

Lemma wnot_spec w x i :
  0 <= w -> 0 <= i ->
  Z.testbit (wnot w x) i = (i <? w) && negb (Z.testbit x i).
Proof. intros. unfold wnot. rewrite wrap_spec by done. by rewrite Z.lnot_spec. Qed.

Lemma ones_spec n i : 0 <= n -> 0 <= i -> Z.testbit (Z.ones n) i = (i <? n).
Proof.
  intros. destruct (Z.ltb_spec i n).
  - by apply Z.ones_spec_low.
  - by apply Z.ones_spec_high.
Qed.

Lemma shiftl_spec' a n i :
  0 <= i -> Z.testbit (Z.shiftl a n) i = (n <=? i) && Z.testbit a (i - n).
Proof.
  intros. rewrite Z.shiftl_spec by done. destruct (Z.leb_spec n i); [done|].
  apply Z.testbit_neg_r; lia.
Qed.

Lemma pow2_spec n i : 0 <= n -> Z.testbit (2 ^ n) i = (n =? i).
Proof. intros. by apply Z.pow2_bits_eqb. Qed.

Lemma testbit_1_l i : Z.testbit 1 i = (i =? 0).
Proof. rewrite Z.eqb_sym. exact (pow2_spec 0 i ltac:(lia)). Qed.

Lemma testbit_b2z b i : Z.testbit (Z.b2z b) i = b && (i =? 0).
Proof. destruct b; simpl; [apply testbit_1_l|apply Z.testbit_0_l]. Qed.

Lemma uint_bits w x i : 0 <= w -> uint w x -> w <= i -> Z.testbit x i = false.
Proof.
  intros Hw [H0 H1] Hi. rewrite <- (Z.mod_small x (2 ^ w)) by done.
  by apply Z.mod_pow2_bits_high.
Qed.

Lemma bits_uint w x :
  0 <= w -> (forall i, w <= i -> Z.testbit x i = false) -> uint w x.
Proof.
  intros Hw H. assert (x = x mod 2 ^ w) as ->.
  { apply Z.bits_inj'. intros i Hi. destruct (Z.lt_ge_cases i w).
    - by rewrite Z.mod_pow2_bits_low.
    - rewrite Z.mod_pow2_bits_high by lia. by apply H. }
  apply Z.mod_pos_bound. lia.
Qed.

Lemma uint_testbit w x i :
  0 <= w -> uint w x -> Z.testbit x i = (i <? w) && Z.testbit x i.
Proof.
  intros Hw Hx. destruct (Z.ltb_spec i w); [done|]. by eapply uint_bits.
Qed.

Create Rewrite HintDb zbits.
#[export] Hint Rewrite Z.land_spec Z.lor_spec Z.lxor_spec Z.ldiff_spec
  Z.testbit_0_l testbit_1_l testbit_b2z : zbits.
#[export] Hint Rewrite Z.lnot_spec shiftl_spec' Z.shiftr_spec wrap_spec
  wnot_spec ones_spec pow2_spec using lia : zbits.

(** Case analysis on the comparisons the bit lemmas leave behind. *)
Ltac zcmp :=
  repeat match goal with
  | |- context [?a <? ?b] =>
      destruct (Z.ltb_spec a b); try (exfalso; lia); cbn [andb orb negb]
  | |- context [?a <=? ?b] =>
      destruct (Z.leb_spec a b); try (exfalso; lia); cbn [andb orb negb]
  | |- context [?a =? ?b] =>
      destruct (Z.eqb_spec a b); try (exfalso; lia); cbn [andb orb negb]
  end.

(** Bits above the width of a word known to be in range are zero. *)
Ltac zrange :=
  repeat match goal with
  | H : uint ?w ?x |- context [Z.testbit ?x ?i] =>
      rewrite (uint_bits w x i) by (assumption || lia)
  end.

Ltac zbits_finish :=
  zrange;
  rewrite ?andb_true_r, ?andb_false_r, ?orb_true_r, ?orb_false_r;
  try reflexivity; try btauto;
  try solve [repeat (f_equal; try lia); try lia; try btauto].

(** Rewriting, then the comparisons, twice: a shift inside a shift becomes
    readable only when the outer bound is known. *)
Ltac zbits_step :=
  autorewrite with zbits; zcmp; autorewrite with zbits; zcmp.

(** Equality of two words, bit by bit. *)
Ltac zbits :=
  apply Z.bits_inj'; let i := fresh "i" in let Hi := fresh "Hi" in
  intros i Hi; zbits_step; zbits_finish.

(** ** Ranges *)

Lemma uint_wrap w x : 0 <= w -> uint w (wrap w x).
Proof. intros. apply Z.mod_pos_bound. lia. Qed.

Lemma wrap_small w x : uint w x -> wrap w x = x.
Proof. intros [? ?]. by apply Z.mod_small. Qed.

Lemma wrap_wrap w x : 0 <= w -> wrap w (wrap w x) = wrap w x.
Proof. intros. apply wrap_small, uint_wrap; lia. Qed.

Lemma uint_mono w w' x : 0 <= w <= w' -> uint w x -> uint w' x.
Proof.
  intros Hw [? ?]. split; [done|].
  eapply Z.lt_le_trans; [done|]. apply Z.pow_le_mono_r; lia.
Qed.

Lemma uint_0 w : 0 <= w -> uint w 0.
Proof. split; lia. Qed.

Lemma uint_land_l w x y : 0 <= w -> uint w x -> uint w (x .& y).
Proof.
  intros Hw Hx. apply bits_uint; [done|]. intros i Hi.
  rewrite Z.land_spec. by rewrite (uint_bits w x i).
Qed.

Lemma uint_land_r w x y : 0 <= w -> uint w y -> uint w (x .& y).
Proof. intros. rewrite Z.land_comm. by apply uint_land_l. Qed.

Lemma uint_lor w x y : 0 <= w -> uint w x -> uint w y -> uint w (x .| y).
Proof.
  intros Hw Hx Hy. apply bits_uint; [done|]. intros i Hi.
  rewrite Z.lor_spec. by rewrite (uint_bits w x i), (uint_bits w y i).
Qed.

Lemma uint_lxor w x y : 0 <= w -> uint w x -> uint w y -> uint w (x .^ y).
Proof.
  intros Hw Hx Hy. apply bits_uint; [done|]. intros i Hi.
  rewrite Z.lxor_spec. by rewrite (uint_bits w x i), (uint_bits w y i).
Qed.

Lemma uint_shiftr w x n : 0 <= w -> 0 <= n -> uint w x -> uint w (x >>> n).
Proof.
  intros Hw Hn Hx. apply bits_uint; [done|]. intros i Hi.
  rewrite Z.shiftr_spec by lia. apply (uint_bits w); [done|done|lia].
Qed.

Lemma uint_shiftl w v x n :
  0 <= v -> 0 <= n -> v + n <= w -> uint v x -> uint w (x <<< n).
Proof.
  intros Hv Hn Hw Hx. apply bits_uint; [lia|]. intros i Hi.
  rewrite Z.shiftl_spec by lia. apply (uint_bits v); [done|done|lia].
Qed.

Lemma uint_wnot w x : 0 <= w -> uint w (wnot w x).
Proof. intros. by apply uint_wrap. Qed.

Lemma uint_ones w n : 0 <= n <= w -> uint w (Z.ones n).
Proof.
  intros. apply (uint_mono n); [lia|]. split.
  - rewrite Z.ones_equiv. lia.
  - rewrite Z.ones_equiv. lia.
Qed.

Lemma uint_b2z w b : 0 < w -> uint w (Z.b2z b).
Proof.
  intros. pose proof (Z.pow_gt_1 2 w) as [Hp _]; [lia|].
  split; destruct b; simpl; lia.
Qed.

Create HintDb word.
#[export] Hint Resolve uint_wrap uint_0 uint_land_l uint_lor uint_lxor
  uint_shiftr uint_wnot uint_ones uint_b2z : word.
#[export] Hint Extern 1 (_ <= _) => lia : word.
#[export] Hint Extern 1 (_ < _) => lia : word.
#[export] Hint Extern 1 (_ <= _ < _) => lia : word.
#[export] Hint Extern 1 (_ <= _ <= _) => lia : word.

(** A literal is in range. *)
Ltac uint_const := split; vm_compute; [discriminate | reflexivity].

Lemma wrap_land_mask w n x : 0 <= n <= w -> wrap w x .& (2 ^ n - 1) = wrap n x.
Proof.
  intros. replace (2 ^ n - 1) with (Z.ones n) by (rewrite Z.ones_equiv; lia).
  zbits.
Qed.

Lemma land_mask n x : 0 <= n -> x .& (2 ^ n - 1) = wrap n x.
Proof.
  intros. replace (2 ^ n - 1) with (Z.ones n) by (rewrite Z.ones_equiv; lia).
  by apply Z.land_ones.
Qed.

Lemma land_1 x : x .& 1 = x mod 2.
Proof. exact (Z.land_ones x 1 ltac:(lia)). Qed.

Lemma lor_1 x : x .| 1 = 2 * (x / 2) + 1.
Proof.
  apply Z.bits_inj'. intros i Hi. rewrite Z.lor_spec.
  destruct (decide (i = 0)) as [->|].
  - by rewrite Z.testbit_odd_0, orb_true_r.
  - replace i with (Z.succ (i - 1)) by lia.
    rewrite Z.testbit_odd_succ, <- !Z.div2_bits by lia.
    rewrite (Z.testbit_0_l (i - 1) : Z.testbit (1 / 2) (i - 1) = false).
    apply orb_false_r.
Qed.

(** The values of [signed]. *)
Lemma signed_range w x : 0 < w -> - 2 ^ (w - 1) <= signed w x < 2 ^ (w - 1).
Proof.
  intros Hw. unfold signed. pose proof (uint_wrap w x ltac:(lia)) as [? ?].
  assert (2 ^ w = 2 * 2 ^ (w - 1)).
  { rewrite <- Z.pow_succ_r by lia. f_equal. lia. }
  destruct (Z.ltb_spec (wrap w x) (2 ^ (w - 1))); lia.
Qed.

(** A value in the signed range survives the conversion to unsigned and back. *)
Lemma signed_wrap w x :
  0 < w -> - 2 ^ (w - 1) <= x < 2 ^ (w - 1) -> signed w (wrap w x) = x.
Proof.
  intros Hw Hx. unfold signed. rewrite wrap_wrap by lia. unfold wrap.
  assert (2 ^ w = 2 * 2 ^ (w - 1)).
  { rewrite <- Z.pow_succ_r by lia. f_equal. lia. }
  destruct (Z.lt_ge_cases x 0).
  - replace (x mod 2 ^ w) with (x + 2 ^ w).
    2:{ rewrite <- (Z.mod_small (x + 2 ^ w) (2 ^ w)) by lia.
        rewrite <- (Z.mul_1_l (2 ^ w)) at 1. by rewrite Z.mod_add by lia. }
    destruct (Z.ltb_spec (x + 2 ^ w) (2 ^ (w - 1))); lia.
  - rewrite Z.mod_small by lia. destruct (Z.ltb_spec x (2 ^ (w - 1))); lia.
Qed.

Lemma land_disjoint_add x y : x .& y = 0 -> x .| y = x + y.
Proof. intros H. rewrite <- Z.lxor_lor by done. symmetry. by apply Z.add_nocarry_lxor. Qed.

(** The C test [x & (1 << k)]. *)
Lemma truth_land_pow2 x k : 0 <= k -> truth (x .& 2 ^ k) = Z.testbit x k.
Proof.
  intros Hk. unfold truth. destruct (Z.testbit x k) eqn:E.
  - apply negb_true_iff, Z.eqb_neq. intros H.
    apply (f_equal (fun z => Z.testbit z k)) in H.
    rewrite Z.land_spec, pow2_spec, E, Z.eqb_refl, Z.testbit_0_l in H by done. done.
  - apply negb_false_iff, Z.eqb_eq. apply Z.bits_inj'. intros i Hi.
    rewrite Z.land_spec, pow2_spec, Z.testbit_0_l by done.
    destruct (Z.eqb_spec k i) as [->|]; [by rewrite E|by rewrite andb_false_r].
Qed.

Lemma truth_shiftr_1 x n : 0 <= n -> truth ((x >>> n) .& 1) = Z.testbit x n.
Proof.
  intros. change 1 with (2 ^ 0). by rewrite truth_land_pow2, Z.shiftr_spec by lia.
Qed.

Lemma truth_lor x y : truth (x .| y) = truth x || truth y.
Proof.
  unfold truth. destruct (Z.eqb_spec (x .| y) 0) as [E|E].
  - apply Z.lor_eq_0_iff in E as [-> ->]. done.
  - destruct (Z.eqb_spec x 0) as [->|]; [|done].
    destruct (Z.eqb_spec y 0) as [->|]; done.
Qed.

Lemma shiftl_1_pow2 n : 0 <= n -> 1 <<< n = 2 ^ n.
Proof. intros. rewrite Z.shiftl_mul_pow2 by done. lia. Qed.
#[export] Hint Rewrite shiftl_1_pow2 using lia : zbits.

Lemma bool_ext (a b : bool) : (a = true <-> b = true) -> a = b.
Proof. destruct a, b; intros [H1 H2]; try done; [by rewrite H1|by rewrite H2]. Qed.

(** * Arrays *)

(** A C array is a list; an index is an integer.  An access outside the array
    is undefined behaviour in C; here a read returns the type's inhabitant and
    a write does nothing, and the theorems about the components show that
    their indices are in range. *)
Definition aget {A} `{Inhabited A} (l : list A) (i : Z) : A :=
  if 0 <=? i then default inhabitant (l !! Z.to_nat i) else inhabitant.

Definition aset {A} (l : list A) (i : Z) (x : A) : list A :=
  if 0 <=? i then <[Z.to_nat i := x]> l else l.

Arguments aget : simpl never.
Arguments aset : simpl never.
Arguments wrap : simpl never.
Arguments wnot : simpl never.
Arguments signed : simpl never.
Arguments truth : simpl never.

Abbreviation alen l := (Z.of_nat (length l)).

Lemma aset_length {A} (l : list A) i x : length (aset l i x) = length l.
Proof. unfold aset. destruct (0 <=? i); [apply length_insert|done]. Qed.

Lemma aset_out {A} (l : list A) i x : alen l <= i -> aset l i x = l.
Proof. intros Hi. unfold aset. destruct (0 <=? i); [apply list_insert_ge; lia|done]. Qed.

Lemma aset_aset {A} (l : list A) i x y : aset (aset l i x) i y = aset l i y.
Proof. unfold aset. case_match; [apply list_insert_insert_eq|done]. Qed.

Lemma aset_same {A} `{Inhabited A} (l : list A) i : aset l i (aget l i) = l.
Proof.
  unfold aset, aget. destruct (0 <=? i); [|done]. destruct (l !! Z.to_nat i) as [x|] eqn:E; cbn.
  - by apply list_insert_id.
  - apply list_insert_ge. by apply lookup_ge_None.
Qed.

Section arrays.
Context {A : Type} `{Inhabited A}.
Implicit Types (l : list A).

Lemma aget_aset_eq l i x : 0 <= i < alen l -> aget (aset l i x) i = x.
Proof.
  intros Hi. unfold aget, aset. destruct (Z.leb_spec 0 i); [|lia].
  rewrite list_lookup_insert_eq by lia. done.
Qed.

Lemma aget_aset_ne l i j x : i <> j -> aget (aset l i x) j = aget l j.
Proof.
  intros Hij. unfold aget, aset.
  destruct (Z.leb_spec 0 i); [|done]. destruct (Z.leb_spec 0 j); [|done].
  rewrite list_lookup_insert_ne by lia. done.
Qed.

Lemma aget_aset l i j x :
  0 <= i < alen l -> aget (aset l i x) j = if i =? j then x else aget l j.
Proof.
  intros Hi. destruct (Z.eqb_spec i j) as [<-|]; [by apply aget_aset_eq|].
  by apply aget_aset_ne.
Qed.

Lemma Forall_aset (P : A -> Prop) l i x : Forall P l -> P x -> Forall P (aset l i x).
Proof. intros. unfold aset. case_match; [by apply Forall_insert|done]. Qed.

Lemma Forall_aget (P : A -> Prop) l i : Forall P l -> P inhabitant -> P (aget l i).
Proof.
  intros HF HP. unfold aget. case_match; [|done].
  destruct (l !! Z.to_nat i) eqn:E; [|done]. by eapply Forall_lookup_1.
Qed.

Lemma aget_map {B} `{Inhabited B} (f : B -> A) (l : list B) i :
  0 <= i < alen l -> aget (f <$> l) i = f (aget l i).
Proof.
  intros Hi. unfold aget. destruct (Z.leb_spec 0 i); [|lia].
  rewrite list_lookup_fmap.
  destruct (lookup_lt_is_Some_2 l (Z.to_nat i)) as [x ->]; [lia|done].
Qed.

Lemma aget_imap {B} `{Inhabited B} (f : nat -> B -> A) (l : list B) i :
  0 <= i < alen l -> aget (imap f l) i = f (Z.to_nat i) (aget l i).
Proof.
  intros Hi. unfold aget. destruct (Z.leb_spec 0 i); [|lia].
  rewrite list_lookup_imap.
  destruct (lookup_lt_is_Some_2 l (Z.to_nat i)) as [x ->]; [lia|done].
Qed.

Lemma aget_replicate n (x : A) i : 0 <= i < Z.of_nat n -> aget (replicate n x) i = x.
Proof.
  intros. unfold aget. destruct (Z.leb_spec 0 i); [|lia].
  rewrite lookup_replicate_2; [done|lia].
Qed.

Lemma aget_elem l i : 0 <= i < alen l -> aget l i ∈ l.
Proof.
  intros. unfold aget. destruct (Z.leb_spec 0 i); [|lia].
  destruct (lookup_lt_is_Some_2 l (Z.to_nat i)) as [x Hx]; [lia|].
  rewrite Hx. by eapply list_elem_of_lookup_2.
Qed.

Lemma elem_aget l x : x ∈ l -> exists i, 0 <= i < alen l /\ aget l i = x.
Proof.
  intros (i & Hi)%list_elem_of_lookup. exists (Z.of_nat i).
  pose proof (lookup_lt_Some _ _ _ Hi). split; [lia|].
  unfold aget. destruct (Z.leb_spec 0 (Z.of_nat i)); [|lia].
  by rewrite Nat2Z.id, Hi.
Qed.

Lemma aget_ext l l' :
  length l = length l' ->
  (forall i, 0 <= i < alen l -> aget l i = aget l' i) -> l = l'.
Proof.
  intros Hlen Heq. apply list_eq_same_length with (n := length l); [done|done|].
  intros i x y Hi Hx Hy. specialize (Heq (Z.of_nat i)). unfold aget in Heq.
  destruct (Z.leb_spec 0 (Z.of_nat i)); [|lia].
  rewrite Nat2Z.id, Hx, Hy in Heq. apply Heq. lia.
Qed.

(** [memcpy (dst + d) (src + s) n]: the source is read before the destination
    is written, so the definition also covers [memmove]. *)
Definition memcpy (dst : list A) (d : Z) (src : list A) (s n : Z) : list A :=
  imap (fun k x =>
          let i := Z.of_nat k in
          if (d <=? i) && (i <? d + n) then aget src (s + (i - d)) else x) dst.

#[global] Arguments memcpy : simpl never.

Lemma memcpy_length dst d src s n : length (memcpy dst d src s n) = length dst.
Proof. unfold memcpy. apply length_imap. Qed.

Lemma aget_memcpy dst d src s n i :
  0 <= i < alen dst ->
  aget (memcpy dst d src s n) i =
    if (d <=? i) && (i <? d + n) then aget src (s + (i - d)) else aget dst i.
Proof.
  intros Hi. unfold memcpy. rewrite aget_imap by done.
  rewrite Z2Nat.id by lia. done.
Qed.

End arrays.

(** A concrete array's range, by evaluation. *)
Lemma all_uint w (l : list Z) :
  forallb (fun x => (0 <=? x) && (x <? 2 ^ w)) l = true -> Forall (uint w) l.
Proof.
  induction l as [|x l IH]; cbn [forallb]; [constructor|].
  intros [Hx Hl]%andb_true_iff. constructor; [unfold uint; lia|auto].
Qed.

(** ** Bitmaps

    An array of 64-bit words read as a bitmap. *)
Definition bm_get (m : list Z) (i : Z) : bool := Z.testbit (aget m (i / 64)) (i mod 64).

(** [m[i / 64] |= 1ULL << (i % 64)] and its inverse. *)
Definition bm_set (m : list Z) (i : Z) : list Z :=
  aset m (i / 64) (aget m (i / 64) .| (1 <<< (i mod 64))).
Definition bm_clear (m : list Z) (i : Z) : list Z :=
  aset m (i / 64) (aget m (i / 64) .& ~64 (1 <<< (i mod 64))).

Lemma bm_set_length m i : length (bm_set m i) = length m.
Proof. apply aset_length. Qed.

Lemma bm_clear_length m i : length (bm_clear m i) = length m.
Proof. apply aset_length. Qed.

Lemma div_mod_eq i j : 0 <= i -> 0 <= j -> i / 64 = j / 64 -> i mod 64 = j mod 64 -> i = j.
Proof. intros. rewrite (Z.div_mod i 64), (Z.div_mod j 64) by lia. congruence. Qed.

Lemma bm_get_set m i j :
  0 <= i < 64 * alen m -> 0 <= j -> bm_get (bm_set m i) j = (i =? j) || bm_get m j.
Proof.
  intros Hi Hj. unfold bm_get, bm_set.
  assert (0 <= i / 64 < alen m)
    by (split; [apply Z.div_pos|apply Z.div_lt_upper_bound]; lia).
  pose proof (Z.mod_pos_bound i 64 ltac:(lia)). pose proof (Z.mod_pos_bound j 64 ltac:(lia)).
  rewrite aget_aset by done. destruct (Z.eqb_spec (i / 64) (j / 64)) as [E|E].
  - rewrite Z.lor_spec, shiftl_1_pow2, pow2_spec, orb_comm, <- E by lia. f_equal.
    apply bool_ext. rewrite !Z.eqb_eq. split; [intros; apply div_mod_eq; lia || done|by intros ->].
  - destruct (Z.eqb_spec i j) as [->|]; done.
Qed.

Lemma bm_get_clear m i j :
  0 <= i < 64 * alen m -> 0 <= j ->
  bm_get (bm_clear m i) j = negb (i =? j) && bm_get m j.
Proof.
  intros Hi Hj. unfold bm_get, bm_clear.
  assert (0 <= i / 64 < alen m)
    by (split; [apply Z.div_pos|apply Z.div_lt_upper_bound]; lia).
  pose proof (Z.mod_pos_bound i 64 ltac:(lia)). pose proof (Z.mod_pos_bound j 64 ltac:(lia)).
  rewrite aget_aset by done. destruct (Z.eqb_spec (i / 64) (j / 64)) as [E|E].
  - rewrite Z.land_spec, shiftl_1_pow2, wnot_spec, pow2_spec, andb_comm, <- E by lia.
    f_equal. destruct (Z.ltb_spec (j mod 64) 64); [|lia]. cbn [andb]. f_equal.
    apply bool_ext. rewrite !Z.eqb_eq.
    split; [intros; apply div_mod_eq; lia || done|by intros ->].
  - destruct (Z.eqb_spec i j) as [->|]; done.
Qed.

(** Another position, in or out of range. *)
Lemma bm_get_set_ne m i j : 0 <= i -> 0 <= j -> i <> j -> bm_get (bm_set m i) j = bm_get m j.
Proof.
  intros Hi Hj Hij. destruct (Z.lt_ge_cases i (64 * alen m)).
  - rewrite bm_get_set by lia. by destruct (Z.eqb_spec i j).
  - unfold bm_set. rewrite aset_out; [done|]. apply Z.div_le_lower_bound; lia.
Qed.

Lemma bm_get_clear_ne m i j : 0 <= i -> 0 <= j -> i <> j -> bm_get (bm_clear m i) j = bm_get m j.
Proof.
  intros Hi Hj Hij. destruct (Z.lt_ge_cases i (64 * alen m)).
  - rewrite bm_get_clear by lia. by destruct (Z.eqb_spec i j).
  - unfold bm_clear. rewrite aset_out; [done|]. apply Z.div_le_lower_bound; lia.
Qed.

Lemma bm_get_word m k i : 0 <= i < 64 -> bm_get m (64 * k + i) = Z.testbit (aget m k) i.
Proof.
  intros Hi. unfold bm_get. replace (64 * k + i) with (i + k * 64) by lia.
  rewrite Z.div_add, Z.mod_add, Z.div_small, Z.mod_small by lia. done.
Qed.

(** A test of one bitmap position as the C code writes it. *)
Lemma truth_bm_get m i : truth ((aget m (i / 64) >>> (i mod 64)) .& 1) = bm_get m i.
Proof.
  pose proof (Z.mod_pos_bound i 64 ltac:(lia)). apply truth_shiftr_1. lia.
Qed.

#[global] Arguments bm_get : simpl never.
#[global] Arguments bm_set : simpl never.
#[global] Arguments bm_clear : simpl never.

(** * Loops *)

(** [for (i = m; i < m + n; i++) s = f (s, i)]. *)
Definition for_range {S} (m n : Z) (f : S -> Z -> S) (s : S) : S :=
  foldl f s (seqZ m n).

Arguments for_range : simpl never.

Lemma for_range_nil {S} m n (f : S -> Z -> S) s : n <= 0 -> for_range m n f s = s.
Proof. intros. unfold for_range. by rewrite seqZ_nil. Qed.

Lemma for_range_cons {S} m n (f : S -> Z -> S) s :
  0 < n -> for_range m n f s = for_range (m + 1) (n - 1) f (f s m).
Proof.
  intros. unfold for_range. rewrite seqZ_cons by done. simpl.
  by rewrite <- Z.add_1_r, <- Z.sub_1_r.
Qed.

(** The loop rule: [P i s] holds when the loop variable is [i]. *)
Lemma for_range_ind {S} (P : Z -> S -> Prop) m n f s :
  0 <= n -> P m s ->
  (forall i s, m <= i < m + n -> P i s -> P (i + 1) (f s i)) ->
  P (m + n) (for_range m n f s).
Proof.
  intros Hn. revert m s. pattern n. apply natlike_ind; [|clear n Hn|done].
  - intros m s Hs _. rewrite for_range_nil by lia. by rewrite Z.add_0_r.
  - intros n Hn IH m s Hs Hstep. rewrite for_range_cons by lia.
    replace (m + Z.succ n) with ((m + 1) + n) by lia.
    replace (Z.succ n - 1) with n by lia. apply IH.
    + apply Hstep; [lia|done].
    + intros i s' Hi. apply Hstep. lia.
Qed.

(** A loop whose iterations are independent writes: [P] is kept by every
    iteration. *)
Lemma for_range_inv {S} (P : S -> Prop) m n f s :
  P s -> (forall i s, m <= i < m + n -> P s -> P (f s i)) ->
  P (for_range m n f s).
Proof.
  intros Hs Hf. destruct (Z.le_gt_cases 0 n).
  - apply (for_range_ind (fun _ => P)); auto.
  - rewrite for_range_nil by lia. done.
Qed.

(** Two loops over the same range, related iteration by iteration. *)
Lemma for_range_sim {S T} (R : Z -> S -> T -> Prop) m n f g s t :
  0 <= n -> R m s t ->
  (forall i s t, m <= i < m + n -> R i s t -> R (i + 1) (f s i) (g t i)) ->
  R (m + n) (for_range m n f s) (for_range m n g t).
Proof.
  intros Hn. revert m s t. pattern n. apply natlike_ind; [|clear n Hn|done].
  - intros m s t Hs _. rewrite !for_range_nil by lia. by rewrite Z.add_0_r.
  - intros n Hn IH m s t Hs Hstep.
    rewrite (for_range_cons m _ f), (for_range_cons m _ g) by lia.
    replace (m + Z.succ n) with ((m + 1) + n) by lia.
    replace (Z.succ n - 1) with n by lia. apply IH.
    + apply Hstep; [lia|done].
    + intros i s' t' Hi. apply Hstep. lia.
Qed.

(** ** Iterating over the set bits of a word *)

(** [ctz64 x]: the index of the least significant set bit, 64 for zero. *)
Fixpoint ctz_from (fuel : nat) (i x : Z) : Z :=
  match fuel with
  | O => i
  | S fuel => if Z.testbit x i then i else ctz_from fuel (i + 1) x
  end.

Definition ctz64 (x : Z) : Z := ctz_from 64 0 x.

(** [while (bits) { i = ctz64 (bits); bits &= bits - 1; s = f (s, i); }].  Each
    iteration clears one bit, so 64 iterations are enough for any 64-bit word:
    [while_bits_fold] shows that the loop visits every set bit once, in
    increasing order. *)
Fixpoint while_bits_fuel {S} (fuel : nat) (bits : Z) (f : S -> Z -> S) (s : S) : S :=
  match fuel with
  | O => s
  | Datatypes.S fuel =>
      if truth bits
      then while_bits_fuel fuel (bits .& (bits - 1)) f (f s (ctz64 bits))
      else s
  end.

Definition while_bits {S} (bits : Z) (f : S -> Z -> S) (s : S) : S :=
  while_bits_fuel 64 bits f s.

Definition set_bits_from (m n x : Z) : list Z :=
  List.filter (fun i => Z.testbit x i) (seqZ m n).

(** The indices of the set bits of a 64-bit word, in increasing order. *)
Definition set_bits (x : Z) : list Z := set_bits_from 0 64 x.

Arguments ctz64 : simpl never.
Arguments set_bits : simpl never.
Arguments while_bits : simpl never.

Lemma ctz_from_spec fuel i x :
  (forall j, i <= j < ctz_from fuel i x -> Z.testbit x j = false) /\
  i <= ctz_from fuel i x <= i + Z.of_nat fuel /\
  (ctz_from fuel i x < i + Z.of_nat fuel -> Z.testbit x (ctz_from fuel i x) = true).
Proof.
  revert i. induction fuel as [|fuel IH]; intros i; simpl ctz_from.
  { repeat split; intros; lia. }
  destruct (Z.testbit x i) eqn:E; [repeat split; intros; [lia..|done]|].
  specialize (IH (i + 1)) as (Hz & Hb & Ht). repeat split; [|lia|lia|].
  - intros j Hj. destruct (decide (i = j)) as [->|]; [done|]. apply Hz; lia.
  - intros. apply Ht. lia.
Qed.

Lemma uint_zero_bits w x :
  0 <= w -> uint w x -> (forall j, 0 <= j < w -> Z.testbit x j = false) -> x = 0.
Proof.
  intros Hw Hx H. apply Z.bits_inj'. intros j Hj. rewrite Z.testbit_0_l.
  destruct (Z.lt_ge_cases j w); [by apply H|by apply (uint_bits w)].
Qed.

Lemma ctz64_spec x :
  uint 64 x -> x <> 0 ->
  0 <= ctz64 x < 64 /\ Z.testbit x (ctz64 x) = true /\
  (forall j, 0 <= j < ctz64 x -> Z.testbit x j = false).
Proof.
  intros Hx Hnz. pose proof (ctz_from_spec 64 0 x) as (Hz & Hb & Ht).
  fold (ctz64 x) in *. assert (ctz64 x < 64).
  { destruct (decide (ctz64 x < 64)); [done|]. destruct Hnz.
    apply (uint_zero_bits 64); [lia|done|]. intros; apply Hz; lia. }
  split_and!; [lia|lia|by apply Ht|exact Hz].
Qed.

(** [x & (x - 1)] clears the least significant set bit. *)
Lemma clear_lowest_bit x k j :
  0 <= k -> Z.testbit x k = true ->
  (forall i, 0 <= i < k -> Z.testbit x i = false) -> 0 <= j ->
  Z.testbit (x .& (x - 1)) j = Z.testbit x j && negb (k =? j).
Proof.
  intros Hk Hset Hlow Hj.
  assert (Hx : x = (x >>> (k + 1)) <<< (k + 1) .| 2 ^ k).
  { apply Z.bits_inj'. intros i Hi. zbits_step; subst;
    rewrite ?Hset, ?Hlow, ?orb_false_r by lia; try done. f_equal; lia. }
  assert (Hp : x - 1 = (x >>> (k + 1)) <<< (k + 1) .| Z.ones k).
  { rewrite Hx at 1. rewrite !land_disjoint_add by zbits.
    rewrite Z.ones_equiv. lia. }
  rewrite Z.land_spec, Hp. zbits_step; subst;
    rewrite ?Hlow by lia; try done; zbits_finish.
  replace (j - (k + 1) + (k + 1)) with j by lia. btauto.
Qed.

Lemma filter_bits_ext l x y :
  (forall i, i ∈ l -> Z.testbit x i = Z.testbit y i) ->
  List.filter (fun i => Z.testbit x i) l = List.filter (fun i => Z.testbit y i) l.
Proof. intros H. apply List.filter_ext_in. intros i Hi. apply H. by apply list_elem_of_In. Qed.

Lemma set_bits_from_split x m n k :
  0 <= m <= k -> k < m + n -> Z.testbit x k = true ->
  (forall i, 0 <= i < k -> Z.testbit x i = false) ->
  set_bits_from m n x = k :: set_bits_from m n (x .& (x - 1)).
Proof.
  intros Hm Hn Hset Hlow. unfold set_bits_from.
  replace n with ((k - m) + (m + n - k)) by lia. rewrite seqZ_app by lia.
  replace (m + (k - m)) with k by lia. rewrite (seqZ_cons k) by lia.
  rewrite !filter_app. simpl.
  rewrite Hset, (clear_lowest_bit x k k), Hset, Z.eqb_refl by (try lia; done). simpl.
  assert (Hnil : List.filter (fun i => Z.testbit x i) (seqZ m (k - m)) = []).
  { rewrite (filter_bits_ext _ x 0).
    - induction (seqZ m (k - m)); simpl; rewrite ?Z.testbit_0_l; done.
    - intros i Hi%elem_of_seqZ. rewrite Z.testbit_0_l. apply Hlow. lia. }
  rewrite (filter_bits_ext (seqZ m (k - m)) (x .& (x - 1)) x), Hnil.
  - simpl. f_equal. apply filter_bits_ext. intros i Hi%elem_of_seqZ.
    rewrite (clear_lowest_bit x k) by (try lia; done). zcmp. by rewrite andb_true_r.
  - intros i Hi%elem_of_seqZ. rewrite (clear_lowest_bit x k) by (try lia; done).
    by rewrite Hlow by lia.
Qed.

Lemma foldl_cons {A B} (f : A -> B -> A) a b l : foldl f a (b :: l) = foldl f (f a b) l.
Proof. done. Qed.

Lemma set_bits_0 : set_bits 0 = [].
Proof. vm_compute. reflexivity. Qed.

Lemma set_bits_step x :
  uint 64 x -> x <> 0 -> set_bits x = ctz64 x :: set_bits (x .& (x - 1)).
Proof.
  intros Hx Hnz. destruct (ctz64_spec x Hx Hnz) as (Hr & Hset & Hlow).
  revert Hr Hset Hlow. generalize (ctz64 x). intros k Hr Hset Hlow.
  unfold set_bits. apply set_bits_from_split; [lia|lia|done|done].
Qed.

Lemma while_bits_fuel_S {S} fuel bits (f : S -> Z -> S) s :
  while_bits_fuel (Datatypes.S fuel) bits f s =
    if bits =? 0 then s
    else while_bits_fuel fuel (bits .& (bits - 1)) f (f s (ctz64 bits)).
Proof. cbn [while_bits_fuel]. unfold truth. by destruct (bits =? 0). Qed.

Lemma while_bits_fuel_fold {S} fuel bits (f : S -> Z -> S) s :
  uint 64 bits -> (length (set_bits bits) <= fuel)%nat ->
  while_bits_fuel fuel bits f s = foldl f s (set_bits bits).
Proof.
  revert bits s. induction fuel as [|fuel IH]; intros bits s Hb Hlen.
  { destruct (set_bits bits); [done|cbn [length] in Hlen; lia]. }
  rewrite while_bits_fuel_S.
  destruct (Z.eqb_spec bits 0) as [->|Hnz]; [by rewrite set_bits_0|].
  rewrite set_bits_step, length_cons in Hlen by done.
  rewrite set_bits_step, foldl_cons by done.
  apply IH; [by apply uint_land_l|by apply le_S_n].
Qed.

Lemma set_bits_length x : (length (set_bits x) <= 64)%nat.
Proof. unfold set_bits, set_bits_from. etrans; [apply filter_length_le|]. by rewrite length_seqZ. Qed.

Lemma while_bits_fold {S} bits (f : S -> Z -> S) s :
  uint 64 bits -> while_bits bits f s = foldl f s (set_bits bits).
Proof. intros. apply while_bits_fuel_fold; [done|apply set_bits_length]. Qed.

Lemma elem_of_set_bits x i : i ∈ set_bits x <-> 0 <= i < 64 /\ Z.testbit x i = true.
Proof.
  unfold set_bits, set_bits_from.
  rewrite list_elem_of_In, filter_In, <- list_elem_of_In, elem_of_seqZ.
  by rewrite Z.add_0_l.
Qed.

(** The loop rule of [while_bits]. *)
Lemma while_bits_inv {S} (P : S -> Prop) bits f (s : S) :
  uint 64 bits -> P s ->
  (forall i s, 0 <= i < 64 -> Z.testbit bits i = true -> P s -> P (f s i)) ->
  P (while_bits bits f s).
Proof.
  intros Hb Hs Hf. rewrite while_bits_fold by done.
  assert (Hall : forall i, i ∈ set_bits bits -> 0 <= i < 64 /\ Z.testbit bits i = true)
    by (intros i; apply elem_of_set_bits).
  revert s Hs. induction (set_bits bits) as [|i l IH]; intros s Hs; [done|]. simpl.
  apply IH; [intros; apply Hall; by constructor|].
  destruct (Hall i) as [? ?]; [by constructor|]. by apply Hf.
Qed.

(** Every iteration establishes [Q] for its own index and keeps it for the
    others. *)
Lemma while_bits_each {S} (P : S -> Prop) (Q : Z -> S -> Prop) bits f (s : S) :
  uint 64 bits -> P s ->
  (forall i s, 0 <= i < 64 -> Z.testbit bits i = true -> P s -> P (f s i)) ->
  (forall i s, 0 <= i < 64 -> Z.testbit bits i = true -> P s -> Q i (f s i)) ->
  (forall i j s, i <> j -> 0 <= j < 64 -> Z.testbit bits j = true -> P s -> Q i s -> Q i (f s j)) ->
  forall i, 0 <= i < 64 -> Z.testbit bits i = true -> Q i (while_bits bits f s).
Proof.
  intros Hb Hs HP HQ Hkeep i Hi Hbit. rewrite while_bits_fold by done.
  assert (Hall : forall j, j ∈ set_bits bits -> 0 <= j < 64 /\ Z.testbit bits j = true)
    by (intros j; apply elem_of_set_bits).
  assert (Hin : i ∈ set_bits bits \/ Q i s) by (left; by apply elem_of_set_bits).
  revert s Hs Hin. induction (set_bits bits) as [|j l IH]; intros s Hs Hin.
  { destruct Hin as [Hin|]; [by apply not_elem_of_nil in Hin|done]. }
  rewrite foldl_cons. destruct (Hall j) as [Hj Hbj]; [by constructor|].
  apply IH; [intros; apply Hall; by constructor|by apply HP|].
  destruct (decide (i = j)) as [->|Hne]; [right; by apply HQ|].
  destruct Hin as [[->|Hin]%elem_of_cons|HQi]; [done|by left|right; by apply Hkeep].
Qed.

(** * Record updates *)

(** [Eta R] rebuilds a record from its projections; from it the update of one
    field is obtained by abstracting the eta expansion over its projection. *)
Class Eta (R : Type) := eta : R -> R.

Class Upd {R T : Type} (proj : R -> T) := upd : (T -> T) -> R -> R.
Arguments upd {R T} proj {_} _ _.

Ltac find_upd :=
  match goal with
  | |- @Upd ?R ?T ?proj =>
      let e := eval cbv [eta] in (@eta R _) in
      let e := match e with ?i => eval unfold i in i | ?i => i end in
      let p := eval pattern proj in e in
      lazymatch p with
      | (fun _ => ?c) _ => fail
      | ?body _ =>
          let u := eval cbv beta in
            (fun (f : T -> T) (r : R) => body (fun r' => f (proj r')) r) in
          exact u
      end
  end.
#[export] Hint Extern 0 (Upd _) => find_upd : typeclass_instances.

Declare Scope record_scope.
Notation "x <| p ::= f |>" := (upd p f x)
  (at level 1, p constr at level 0, left associativity,
   format "x  <| p  ::=  f |>") : record_scope.
Notation "x <| p := v |>" := (upd p (fun _ => v) x)
  (at level 1, p constr at level 0, left associativity,
   format "x  <| p  :=  v |>") : record_scope.
(** Updates of a field of a sub-record, and of an array element. *)
Notation "x <| p ; q ::= f |>" := (upd p (upd q f) x)
  (at level 1, p constr at level 0, q constr at level 0, left associativity,
   format "x  <| p ; q  ::=  f |>") : record_scope.
Notation "x <| p ; q := v |>" := (upd p (upd q (fun _ => v)) x)
  (at level 1, p constr at level 0, q constr at level 0, left associativity,
   format "x  <| p ; q  :=  v |>") : record_scope.
Notation "x <| p @ i := v |>" := (upd p (fun l => aset l i v) x)
  (at level 1, p constr at level 0, i constr at level 99, left associativity,
   format "x  <| p  @  i  :=  v |>") : record_scope.
Notation "x <| p ; q @ i := v |>" := (upd p (upd q (fun l => aset l i v)) x)
  (at level 1, p constr at level 0, q constr at level 0, i constr at level 99,
   left associativity, format "x  <| p ; q  @  i  :=  v |>") : record_scope.
#[global] Open Scope record_scope.

(** * State and exceptions *)

(** An operation on a state [S] either returns or leaves by a [longjmp] with an
    exception [E]; in both cases the changes it has made to the state stay. *)
Inductive outcome (E S A : Type) : Type :=
  | Ok (a : A) (s : S)
  | Raise (e : E) (s : S).
Arguments Ok {E S A} a s.
Arguments Raise {E S A} e s.

Definition M (E S A : Type) : Type := S -> outcome E S A.

Section monad.
Context {E S : Type}.

Definition mret {A} (a : A) : M E S A := fun s => Ok a s.
Definition mbind {A B} (m : M E S A) (k : A -> M E S B) : M E S B :=
  fun s => match m s with Ok a s => k a s | Raise e s => Raise e s end.
Definition mget {A} (f : S -> A) : M E S A := fun s => Ok (f s) s.
Definition mmod (f : S -> S) : M E S unit := fun s => Ok tt (f s).
Definition mraise {A} (e : E) : M E S A := fun s => Raise e s.
Definition mwhen (b : bool) (m : M E S unit) : M E S unit :=
  if b then m else mret tt.

(** The state an outcome leaves, however the operation ended. *)
Definition final {A} (o : outcome E S A) : S :=
  match o with Ok _ s => s | Raise _ s => s end.

(** [ensures m P Q]: from this state, a return satisfies [P] and an exception
    satisfies [Q]. *)
Definition ensures {A} (o : outcome E S A) (P : A -> S -> Prop) (Q : E -> S -> Prop) : Prop :=
  match o with Ok a s => P a s | Raise e s => Q e s end.

Lemma ensures_bind {A B} (m : M E S A) (k : A -> M E S B) s P Q P' :
  ensures (m s) P' Q -> (forall a s', P' a s' -> ensures (k a s') P Q) ->
  ensures (mbind m k s) P Q.
Proof. unfold mbind. destruct (m s); simpl; auto. Qed.

Lemma ensures_mono {A} (o : outcome E S A) (P P' : A -> S -> Prop) (Q Q' : E -> S -> Prop) :
  ensures o P Q -> (forall a s, P a s -> P' a s) -> (forall e s, Q e s -> Q' e s) ->
  ensures o P' Q'.
Proof. destruct o; simpl; auto. Qed.

End monad.

Definition is_ok {E S A} (o : outcome E S A) : bool := match o with Ok _ _ => true | Raise _ _ => false end.

Lemma ensures_ok {E S A} (o : outcome E S A) P Q :
  is_ok o = true -> ensures o P Q -> exists a s, o = Ok a s /\ P a s.
Proof. destruct o; [eauto|done]. Qed.

(** A property of the return beside another. *)
Lemma ensures_both {E S A} (o : outcome E S A) P P' Q Q' :
  ensures o P Q -> ensures o P' Q' -> ensures o (fun a s => P a s /\ P' a s) Q.
Proof. by destruct o. Qed.

Declare Scope monad_scope.
Notation "'let!' x := m 'in' k" := (mbind m (fun x => k))
  (at level 10, x name, k at level 200) : monad_scope.
Notation "m ;;; k" := (mbind m (fun _ => k))
  (at level 199, right associativity) : monad_scope.
#[global] Open Scope monad_scope.
