(* ===== verification/Arch.v ===== *)
(** * Architectural constants

    The constants of [target/ia64/cpu.h] and [target/ia64/fpreg.h] that the
    components use, the exception identifiers, and the access-rights and PTE
    checks of [cpu.h]. *)
From S2P Require Import Prelude.

(** ** Register file sizes *)

Definition IA64_GR_COUNT : Z := 128.
Definition IA64_STACKED_GR_BASE : Z := 32.
Definition IA64_STACKED_GR_COUNT : Z := IA64_GR_COUNT - IA64_STACKED_GR_BASE.
Definition IA64_RSE_RNAT_SHADOW_COUNT : Z := IA64_STACKED_GR_COUNT.
Definition IA64_PR_COUNT : Z := 64.
Definition IA64_FR_COUNT : Z := 128.
Definition IA64_ALAT_ENTRIES : Z := 32.

(** ** Processor status register *)

Definition IA64_PSR_BE : Z := 1 <<< 1.
Definition IA64_PSR_UP : Z := 1 <<< 2.
Definition IA64_PSR_AC : Z := 1 <<< 3.
Definition IA64_PSR_MFL : Z := 1 <<< 4.
Definition IA64_PSR_MFH : Z := 1 <<< 5.
Definition IA64_PSR_IC : Z := 1 <<< 13.
Definition IA64_PSR_I : Z := 1 <<< 14.
Definition IA64_PSR_PK : Z := 1 <<< 15.
Definition IA64_PSR_DT : Z := 1 <<< 17.
Definition IA64_PSR_DFL : Z := 1 <<< 18.
Definition IA64_PSR_DFH : Z := 1 <<< 19.
Definition IA64_PSR_SP : Z := 1 <<< 20.
Definition IA64_PSR_PP : Z := 1 <<< 21.
Definition IA64_PSR_DI : Z := 1 <<< 22.
Definition IA64_PSR_SI : Z := 1 <<< 23.
Definition IA64_PSR_DB : Z := 1 <<< 24.
Definition IA64_PSR_LP : Z := 1 <<< 25.
Definition IA64_PSR_TB : Z := 1 <<< 26.
Definition IA64_PSR_RT : Z := 1 <<< 27.
Definition IA64_PSR_CPL_MASK : Z := 3 <<< 32.
Definition IA64_PSR_CPL_SHIFT : Z := 32.
Definition IA64_PSR_IS : Z := 1 <<< 34.
Definition IA64_PSR_MC : Z := 1 <<< 35.
Definition IA64_PSR_IT : Z := 1 <<< 36.
Definition IA64_PSR_ID : Z := 1 <<< 37.
Definition IA64_PSR_DA : Z := 1 <<< 38.
Definition IA64_PSR_DD : Z := 1 <<< 39.
Definition IA64_PSR_SS : Z := 1 <<< 40.
Definition IA64_PSR_RI_MASK : Z := 3 <<< 41.
Definition IA64_PSR_RI_SHIFT : Z := 41.
Definition IA64_PSR_ED : Z := 1 <<< 43.
Definition IA64_PSR_BN : Z := 1 <<< 44.
Definition IA64_PSR_IA : Z := 1 <<< 45.
Definition IA64_PSR_VM : Z := 1 <<< 46.
Definition IA64_PSR_FAULT_SUPPRESS_MASK : Z :=
  IA64_PSR_ID .| IA64_PSR_DA .| IA64_PSR_DD .| IA64_PSR_ED .| IA64_PSR_IA.

Definition IA64_BUNDLE_SIZE : Z := 16.
Definition IA64_IP_BUNDLE_MASK : Z := ~64 (IA64_BUNDLE_SIZE - 1).

Definition ia64_ip_bundle_addr (ip : Z) : Z := ip .& IA64_IP_BUNDLE_MASK.

Definition ia64_psr_cpl (psr : Z) : Z :=
  u8 ((psr .& IA64_PSR_CPL_MASK) >>> IA64_PSR_CPL_SHIFT).

(** ** Register stack configuration, frame markers, previous function state *)

Definition IA64_RSC_MODE : Z := 0x3.
Definition IA64_RSC_PL : Z := 0xc.
Definition IA64_RSC_PL_SHIFT : Z := 2.
Definition IA64_RSC_BE : Z := 0x10.
Definition IA64_RSC_LOADRS_SHIFT : Z := 16.
Definition IA64_RSC_LOADRS_MASK : Z := 0x3fff.

Definition ia64_rsc_pl (rsc : Z) : Z := u8 ((rsc .& IA64_RSC_PL) >>> IA64_RSC_PL_SHIFT).

Definition IA64_CFM_SOF_MASK : Z := 0x7f.
Definition IA64_CFM_SOL_MASK : Z := 0x7f <<< 7.
Definition IA64_CFM_SOL_SHIFT : Z := 7.
Definition IA64_CFM_SOR_MASK : Z := 0x0f <<< 14.
Definition IA64_CFM_SOR_SHIFT : Z := 14.
Definition IA64_CFM_RRB_GR_MASK : Z := 0x7f <<< 18.
Definition IA64_CFM_RRB_GR_SHIFT : Z := 18.
Definition IA64_CFM_RRB_FR_MASK : Z := 0x7f <<< 25.
Definition IA64_CFM_RRB_FR_SHIFT : Z := 25.
Definition IA64_CFM_RRB_PR_MASK : Z := 0x3f <<< 32.
Definition IA64_CFM_RRB_PR_SHIFT : Z := 32.
Definition IA64_IFS_V : Z := 1 <<< 63.
Definition IA64_IFS_IFM_MASK : Z :=
  IA64_CFM_SOF_MASK .| IA64_CFM_SOL_MASK .| IA64_CFM_SOR_MASK .|
  IA64_CFM_RRB_GR_MASK .| IA64_CFM_RRB_FR_MASK .| IA64_CFM_RRB_PR_MASK.

Definition ia64_cfm_frame_fields_valid (sof sol sor : Z) : bool :=
  (sof <=? IA64_STACKED_GR_COUNT) && (sol <=? sof) && (u32 (sor <<< 3) <=? sof).

Definition IA64_PFS_PFM_MASK : Z := (1 <<< 38) - 1.
Definition IA64_PFS_PEC_SHIFT : Z := 52.
Definition IA64_PFS_PEC_MASK : Z := 0x3f <<< IA64_PFS_PEC_SHIFT.
Definition IA64_PFS_PPL_SHIFT : Z := 62.
Definition IA64_PFS_PPL_MASK : Z := 0x3 <<< IA64_PFS_PPL_SHIFT.

(** ** Register indices *)

Definition IA64_CR_DCR : Z := 0.
Definition IA64_CR_ITM : Z := 1.
Definition IA64_CR_IVA : Z := 2.
Definition IA64_CR_PTA : Z := 8.
Definition IA64_CR_IPSR : Z := 16.
Definition IA64_CR_ISR : Z := 17.
Definition IA64_CR_IIP : Z := 19.
Definition IA64_CR_IFA : Z := 20.
Definition IA64_CR_ITIR : Z := 21.
Definition IA64_CR_IIPA : Z := 22.
Definition IA64_CR_IFS : Z := 23.
Definition IA64_CR_IIM : Z := 24.
Definition IA64_CR_IHA : Z := 25.
Definition IA64_CR_SAPIC_LID : Z := 64.
Definition IA64_CR_SAPIC_IVR : Z := 65.
Definition IA64_CR_SAPIC_TPR : Z := 66.
Definition IA64_CR_SAPIC_EOI : Z := 67.
Definition IA64_CR_SAPIC_IRR0 : Z := 68.
Definition IA64_CR_SAPIC_IRR3 : Z := 71.
Definition IA64_CR_ITV : Z := 72.
Definition IA64_CR_PMV : Z := 73.
Definition IA64_CR_CMCV : Z := 74.
Definition IA64_CR_LRR0 : Z := 80.
Definition IA64_CR_LRR1 : Z := 81.

Definition IA64_AR_KR0 : Z := 0.
Definition IA64_AR_KR7 : Z := 7.
Definition IA64_AR_RSC : Z := 16.
Definition IA64_AR_BSP : Z := 17.
Definition IA64_AR_BSPSTORE : Z := 18.
Definition IA64_AR_RNAT : Z := 19.
Definition IA64_AR_FCR : Z := 21.
Definition IA64_AR_EFLAG : Z := 24.
Definition IA64_AR_CSD : Z := 25.
Definition IA64_AR_SSD : Z := 26.
Definition IA64_AR_CFLG : Z := 27.
Definition IA64_AR_FSR : Z := 28.
Definition IA64_AR_FIR : Z := 29.
Definition IA64_AR_FDR : Z := 30.
Definition IA64_AR_CCV : Z := 32.
Definition IA64_AR_UNAT : Z := 36.
Definition IA64_AR_FPSR : Z := 40.
Definition IA64_AR_ITC : Z := 44.
Definition IA64_AR_RUC : Z := 45.
Definition IA64_AR_PFS : Z := 64.
Definition IA64_AR_LC : Z := 65.
Definition IA64_AR_EC : Z := 66.

Definition IA64_SPURIOUS_VECTOR : Z := 0x0F.
Definition IA64_VECTOR_MASKED : Z := 1 <<< 16.
Definition IA64_TPR_MIC_MASK : Z := 0xf0.
Definition IA64_TPR_MMI : Z := 1 <<< 16.
Definition IA64_TPR_WRITABLE_MASK : Z := IA64_TPR_MIC_MASK .| IA64_TPR_MMI.

(** ** Exceptions *)

Inductive IA64Exception : Set :=
  | IA64_EXCP_NONE | IA64_EXCP_BREAK | IA64_EXCP_ILLEGAL
  | IA64_EXCP_RESERVED_TEMPLATE | IA64_EXCP_VHPT_FAULT | IA64_EXCP_ITLB_FAULT
  | IA64_EXCP_DTLB_FAULT | IA64_EXCP_ALT_ITLB | IA64_EXCP_ALT_DTLB
  | IA64_EXCP_DATA_NESTED_TLB | IA64_EXCP_DATA_ACCESS | IA64_EXCP_GENERAL
  | IA64_EXCP_NAT_CONSUMPTION | IA64_EXCP_EXTINT | IA64_EXCP_UNALIGNED
  | IA64_EXCP_PAGE_NOT_PRESENT | IA64_EXCP_INST_ACCESS | IA64_EXCP_DATA_DIRTY
  | IA64_EXCP_INST_ACCESS_BIT | IA64_EXCP_DATA_ACCESS_BIT
  | IA64_EXCP_INST_KEY_MISS | IA64_EXCP_DATA_KEY_MISS
  | IA64_EXCP_KEY_PERMISSION | IA64_EXCP_UNIMPL_DATA_ADDR
  | IA64_EXCP_UNIMPL_INST_ADDR | IA64_EXCP_PRIVILEGED_OP
  | IA64_EXCP_PRIVILEGED_REG | IA64_EXCP_RESERVED_REG_FIELD
  | IA64_EXCP_FP_FAULT | IA64_EXCP_FP_TRAP | IA64_EXCP_DISABLED_ISA_TRANSITION
  | IA64_EXCP_DISABLED_FP | IA64_EXCP_UNSUPPORTED_DATA_REFERENCE
  | IA64_EXCP_VIRTUALIZATION | IA64_EXCP_IA32_EXCEPTION
  | IA64_EXCP_IA32_INTERCEPT | IA64_EXCP_IA32_INTERRUPT
  | IA64_EXCP_TAKEN_BRANCH | IA64_EXCP_SINGLE_STEP | IA64_EXCP_DEBUG
  | IA64_EXCP_LOWER_PRIVILEGE.

#[export] Instance IA64Exception_eq_dec : EqDecision IA64Exception.
Proof. solve_decision. Defined.

#[export] Instance IA64Exception_inhabited : Inhabited IA64Exception :=
  populate IA64_EXCP_NONE.

(** The enumerator values. *)
Definition excp_number (e : IA64Exception) : Z :=
  match e with
  | IA64_EXCP_NONE => 0 | IA64_EXCP_BREAK => 1 | IA64_EXCP_ILLEGAL => 2
  | IA64_EXCP_RESERVED_TEMPLATE => 3 | IA64_EXCP_VHPT_FAULT => 4
  | IA64_EXCP_ITLB_FAULT => 5 | IA64_EXCP_DTLB_FAULT => 6
  | IA64_EXCP_ALT_ITLB => 7 | IA64_EXCP_ALT_DTLB => 8
  | IA64_EXCP_DATA_NESTED_TLB => 9 | IA64_EXCP_DATA_ACCESS => 10
  | IA64_EXCP_GENERAL => 11 | IA64_EXCP_NAT_CONSUMPTION => 12
  | IA64_EXCP_EXTINT => 13 | IA64_EXCP_UNALIGNED => 14
  | IA64_EXCP_PAGE_NOT_PRESENT => 15 | IA64_EXCP_INST_ACCESS => 16
  | IA64_EXCP_DATA_DIRTY => 17 | IA64_EXCP_INST_ACCESS_BIT => 18
  | IA64_EXCP_DATA_ACCESS_BIT => 19 | IA64_EXCP_INST_KEY_MISS => 20
  | IA64_EXCP_DATA_KEY_MISS => 21 | IA64_EXCP_KEY_PERMISSION => 22
  | IA64_EXCP_UNIMPL_DATA_ADDR => 23 | IA64_EXCP_UNIMPL_INST_ADDR => 24
  | IA64_EXCP_PRIVILEGED_OP => 25 | IA64_EXCP_PRIVILEGED_REG => 26
  | IA64_EXCP_RESERVED_REG_FIELD => 27 | IA64_EXCP_FP_FAULT => 28
  | IA64_EXCP_FP_TRAP => 29 | IA64_EXCP_DISABLED_ISA_TRANSITION => 30
  | IA64_EXCP_DISABLED_FP => 31 | IA64_EXCP_UNSUPPORTED_DATA_REFERENCE => 32
  | IA64_EXCP_VIRTUALIZATION => 33 | IA64_EXCP_IA32_EXCEPTION => 34
  | IA64_EXCP_IA32_INTERCEPT => 35 | IA64_EXCP_IA32_INTERRUPT => 36
  | IA64_EXCP_TAKEN_BRANCH => 37 | IA64_EXCP_SINGLE_STEP => 38
  | IA64_EXCP_DEBUG => 39 | IA64_EXCP_LOWER_PRIVILEGE => 40
  end.

(** ** Access rights *)

Definition IA64_TLB_R : Z := 1.
Definition IA64_TLB_W : Z := 2.
Definition IA64_TLB_X : Z := 4.
Definition IA64_TLB_ALL : Z := 7.

Definition ia64_tlb_effective_perm (ar pl access_level : Z) : Z :=
  if (3 <? access_level) || (3 <? pl) then 0
  else
    let rights := ar .& 7 in
    if rights =? 0 then if access_level <=? pl then IA64_TLB_R else 0
    else if rights =? 1 then
      if access_level <=? pl then IA64_TLB_R .| IA64_TLB_X else 0
    else if rights =? 2 then
      if access_level <=? pl then IA64_TLB_R .| IA64_TLB_W else 0
    else if rights =? 3 then if access_level <=? pl then IA64_TLB_ALL else 0
    else if rights =? 4 then
      if pl <? access_level then 0
      else if (access_level =? 0) || (access_level <? pl)
      then IA64_TLB_R .| IA64_TLB_W
      else IA64_TLB_R
    else if rights =? 5 then
      if pl <? access_level then 0
      else if access_level =? 0 then IA64_TLB_ALL else IA64_TLB_R .| IA64_TLB_X
    else if rights =? 6 then
      if pl <? access_level then 0
      else if negb (access_level =? 0) && (access_level =? pl)
      then IA64_TLB_ALL
      else IA64_TLB_R .| IA64_TLB_W
    else if rights =? 7 then
      if access_level =? 0 then IA64_TLB_R .| IA64_TLB_X else IA64_TLB_X
    else 0.

Definition IA64_PTE_PRESENT : Z := 1 <<< 0.
Definition IA64_PTE_ACCESSED : Z := 1 <<< 5.
Definition IA64_PTE_DIRTY : Z := 1 <<< 6.
Definition IA64_PTE_ED : Z := 1 <<< 52.

Definition ia64_pte_exception_for_access_masked
    (pte perm needed : Z) (is_ifetch is_write : bool) (psr deferred : Z)
    : IA64Exception :=
  let access := if is_ifetch then IA64_EXCP_INST_ACCESS else IA64_EXCP_DATA_ACCESS in
  let accessed :=
    if is_ifetch then IA64_EXCP_INST_ACCESS_BIT else IA64_EXCP_DATA_ACCESS_BIT in
  let is_deferred e := truth (deferred .& (1 <<< excp_number e)) in
  if negb (truth (pte .& IA64_PTE_PRESENT)) then IA64_EXCP_PAGE_NOT_PRESENT
  else if negb (perm .& needed =? needed) && negb (is_deferred access) then access
  else if is_ifetch then
    if negb (truth (pte .& IA64_PTE_ACCESSED)) && negb (truth (psr .& IA64_PSR_IA)) &&
       negb (is_deferred accessed)
    then IA64_EXCP_INST_ACCESS_BIT
    else IA64_EXCP_NONE
  else if is_write && negb (truth (pte .& IA64_PTE_DIRTY)) &&
          negb (truth (psr .& IA64_PSR_DA)) && negb (is_deferred IA64_EXCP_DATA_DIRTY)
  then IA64_EXCP_DATA_DIRTY
  else if negb (truth (pte .& IA64_PTE_ACCESSED)) && negb (truth (psr .& IA64_PSR_DA)) &&
          negb (is_deferred accessed)
  then IA64_EXCP_DATA_ACCESS_BIT
  else IA64_EXCP_NONE.

Definition ia64_pte_exception_for_access
    (pte perm needed : Z) (is_ifetch is_write : bool) (psr : Z) : IA64Exception :=
  ia64_pte_exception_for_access_masked pte perm needed is_ifetch is_write psr 0.
