(* ===== verification/Env.v ===== *)
(** * Processor state

    [CPUIA64State] of [target/ia64/cpu.h] with the sub-states of
    [target/ia64/internals.h], as records with the same field names.  A C
    integer field is a [Z], a [bool] field a [bool], an array a list.  The
    IA-32 backing state, the model-specific registers, the floating-point
    transaction, FPSWA and SoftFloat sub-states and the TLB arrays are left
    out: no modelled operation reads or writes them.

    The array sizes that the C declarations fix are part of the
    well-formedness condition of each component. *)
From S2P Require Import Prelude Arch.

(** One advanced-load record; the fields carry the prefix [e_]. *)
Record IA64AlatEntry : Type := mkAlatEntry {
  e_phys_addr : Z;
  e_size : Z;
  e_reg : Z;
  e_fp : bool;
  e_valid : bool
}.

#[export] Instance eta_IA64AlatEntry : Eta IA64AlatEntry := fun s =>
  mkAlatEntry (e_phys_addr s) (e_size s) (e_reg s) (e_fp s) (e_valid s).

#[export] Instance IA64AlatEntry_inhabited : Inhabited IA64AlatEntry :=
  populate (mkAlatEntry 0 0 0 false false).

(** The advanced load address table with its derived indexes. *)
Record IA64AlatState : Type := mkAlatState {
  alat : list IA64AlatEntry;
  alat_active_count : Z;
  alat_reg_slot : list (list Z);
  alat_occupied : Z;
  alat_full : bool;
  write_active : bool;
  write_observed : bool;
  write_generation : Z;
  memory_write_generation : Z
}.

#[export] Instance eta_IA64AlatState : Eta IA64AlatState := fun s =>
  mkAlatState (alat s) (alat_active_count s) (alat_reg_slot s) (alat_occupied s)
    (alat_full s) (write_active s) (write_observed s) (write_generation s)
    (memory_write_generation s).

(** The tagged floating-point register cache. *)
Record IA64FPState : Type := mkFPState {
  fr : list Z;
  fr_nat : list Z;
  fr_sig : list Z;
  fr_ext_mant : list Z;
  fr_ext_exp : list Z;
  fr_ext_sign : list Z;
  fr_ext_valid : list Z;
  fr_int_value : list Z;
  fr_int_origin : list Z;
  rotating_fr_live : bool;
  rotating_fr_materialized_rrb : Z
}.

#[export] Instance eta_IA64FPState : Eta IA64FPState := fun s =>
  mkFPState (fr s) (fr_nat s) (fr_sig s) (fr_ext_mant s) (fr_ext_exp s) (fr_ext_sign s)
    (fr_ext_valid s) (fr_int_value s) (fr_int_origin s) (rotating_fr_live s)
    (rotating_fr_materialized_rrb s).

(** The local SAPIC and the interval timer. *)
Record IA64InterruptState : Type := mkInterruptState {
  pending_extint : Z;
  sapic_xtp : Z;
  sapic_pmi_pending : Z;
  sapic_init_pending : bool;
  sapic_init_reason : Z;
  pal_halt_wake : bool;
  sapic_irr : list Z;
  sapic_isr : list Z;
  itc_last_ns : Z;
  itc_fraction : Z;
  itc_tick_debt : Z;
  itm_armed_value : Z;
  itm_last_match : Z;
  itm_armed : bool;
  itm_last_match_valid : bool
}.

#[export] Instance eta_IA64InterruptState : Eta IA64InterruptState := fun s =>
  mkInterruptState (pending_extint s) (sapic_xtp s) (sapic_pmi_pending s)
    (sapic_init_pending s) (sapic_init_reason s) (pal_halt_wake s) (sapic_irr s)
    (sapic_isr s) (itc_last_ns s) (itc_fraction s) (itc_tick_debt s) (itm_armed_value s)
    (itm_last_match s) (itm_armed s) (itm_last_match_valid s).

(** The exception being raised or delivered. *)
Record IA64ExceptionState : Type := mkExceptionState {
  fault_ip : Z;
  fault_addr : Z;
  fault_imm : Z;
  fault_tmpl : Z;
  exception : IA64Exception;
  fault_exception : IA64Exception;
  fault_slot : Z;
  ia32_trap : bool;
  ia32_transition_trap : bool;
  native_completion_trap : bool;
  psr_before_insn : Z;
  psr_ic_inflight : bool;
  psr_i_deferred : bool;
  psr_suppression_before_insn : Z
}.

#[export] Instance eta_IA64ExceptionState : Eta IA64ExceptionState := fun s =>
  mkExceptionState (fault_ip s) (fault_addr s) (fault_imm s) (fault_tmpl s)
    (exception s) (fault_exception s) (fault_slot s) (ia32_trap s)
    (ia32_transition_trap s) (native_completion_trap s) (psr_before_insn s)
    (psr_ic_inflight s) (psr_i_deferred s) (psr_suppression_before_insn s).

(** The PAL state: registrations, the machine-check log and the pending
    machine checks. *)
Record IA64PalState : Type := mkPalState {
  pal_mc_expected : bool;
  pal_bus_feature_status : Z;
  pal_proc_feature_status : Z;
  pal_mc_save_addr : Z;
  pal_pmi_entry : Z;
  pal_proc_copy_valid : bool;
  pal_proc_copy_addr : Z;
  pal_interrupt_block_addr : Z;
  pal_io_block_addr : Z;
  pal_mc_log_valid : bool;
  pal_cmc_pending : bool;
  pal_mca_pending : bool;
  pal_mca_active : bool;
  pal_init_active : bool;
  pal_mc_severity : Z;
  pal_mc_error_map : Z;
  pal_mc_state_parameter : Z;
  pal_mc_status : Z;
  pal_mc_address : Z;
  pal_mc_information : Z;
  pal_mc_ip : Z;
  pal_mca_entry : Z;
  pal_mca_gp : Z;
  pal_mca_pending_record_id : Z;
  pal_mca_active_record_id : Z;
  pal_init_entry : Z;
  pal_init_gp : Z
}.

#[export] Instance eta_IA64PalState : Eta IA64PalState := fun s =>
  mkPalState (pal_mc_expected s) (pal_bus_feature_status s) (pal_proc_feature_status s) (pal_mc_save_addr s)
    (pal_pmi_entry s) (pal_proc_copy_valid s) (pal_proc_copy_addr s) (pal_interrupt_block_addr s)
    (pal_io_block_addr s) (pal_mc_log_valid s) (pal_cmc_pending s) (pal_mca_pending s) (pal_mca_active s)
    (pal_init_active s) (pal_mc_severity s) (pal_mc_error_map s) (pal_mc_state_parameter s) (pal_mc_status s)
    (pal_mc_address s) (pal_mc_information s) (pal_mc_ip s) (pal_mca_entry s) (pal_mca_gp s)
    (pal_mca_pending_record_id s) (pal_mca_active_record_id s) (pal_init_entry s) (pal_init_gp s).

(** A suspended partial NaT collection; also [IA64RnatWritebackImage], which has the same fields. *)
Record IA64RnatShadowEntry : Type := mkRnatShadowEntry {
  rnat_value : Z;
  rnat_addr : Z;
  rnat_defined : Z;
  rnat_valid : bool
}.

#[export] Instance eta_IA64RnatShadowEntry : Eta IA64RnatShadowEntry := fun s =>
  mkRnatShadowEntry (rnat_value s) (rnat_addr s) (rnat_defined s) (rnat_valid s).

#[export] Instance IA64RnatShadowEntry_inhabited : Inhabited IA64RnatShadowEntry :=
  populate (mkRnatShadowEntry 0 0 0 false).

Abbreviation IA64RnatWritebackImage := IA64RnatShadowEntry.

(** The register stack engine. *)
Record IA64RSEState : Type := mkRSEState {
  rse_pgr : list Z;
  rse_pgr_nat : list Z;
  rse_gr_dirty : list Z;
  rse_bol : Z;
  rse_dirty : Z;
  rse_dirty_nat : Z;
  rse_clean : Z;
  rse_clean_nat : Z;
  rse_invalid : Z;
  rse_cfle : bool;
  rse_access : bool;
  rse_completion_pending : bool;
  rse_completion_demoted : bool;
  rse_completion_psr : Z;
  rse_completion_source_ip : Z;
  rse_completion_source_slot : Z;
  rse_rnat_addr : Z;
  rse_rnat_defined : Z;
  rse_load_rnat : Z;
  rse_load_rnat_addr : Z;
  rse_load_rnat_defined : Z;
  rse_load_rnat_valid : bool;
  rse_writeback_rnat : IA64RnatWritebackImage;
  rse_rnat_shadow : list IA64RnatShadowEntry;
  rse_rnat_shadow_count : Z;
  rse_rnat_shadow_last : Z
}.

#[export] Instance eta_IA64RSEState : Eta IA64RSEState := fun s =>
  mkRSEState (rse_pgr s) (rse_pgr_nat s) (rse_gr_dirty s) (rse_bol s) (rse_dirty s)
    (rse_dirty_nat s) (rse_clean s) (rse_clean_nat s) (rse_invalid s) (rse_cfle s)
    (rse_access s) (rse_completion_pending s) (rse_completion_demoted s)
    (rse_completion_psr s) (rse_completion_source_ip s) (rse_completion_source_slot s)
    (rse_rnat_addr s) (rse_rnat_defined s) (rse_load_rnat s) (rse_load_rnat_addr s)
    (rse_load_rnat_defined s) (rse_load_rnat_valid s) (rse_writeback_rnat s)
    (rse_rnat_shadow s) (rse_rnat_shadow_count s) (rse_rnat_shadow_last s).

(** A saved register stack engine. *)
Record IA64RSEContextState : Type := mkRSEContext {
  ctx_pgr : list Z;
  ctx_pgr_nat : list Z;
  ctx_gr_dirty : list Z;
  ctx_bsp : Z;
  ctx_bspstore : Z;
  ctx_rnat : Z;
  ctx_bol : Z;
  ctx_dirty : Z;
  ctx_dirty_nat : Z;
  ctx_clean : Z;
  ctx_clean_nat : Z;
  ctx_invalid : Z;
  ctx_rnat_addr : Z;
  ctx_rnat_defined : Z;
  ctx_load_rnat : Z;
  ctx_load_rnat_addr : Z;
  ctx_load_rnat_defined : Z;
  ctx_load_rnat_valid : bool;
  ctx_writeback_rnat : IA64RnatWritebackImage;
  ctx_rnat_shadow : list IA64RnatShadowEntry;
  ctx_rnat_shadow_count : Z;
  ctx_cfm_sof : Z;
  ctx_cfm_sol : Z;
  ctx_cfm_sor : Z;
  ctx_cfm_rrb_gr : Z;
  ctx_cfm_rrb_fr : Z;
  ctx_cfm_rrb_pr : Z;
  ctx_cfle : bool;
  ctx_completion_pending : bool;
  ctx_completion_demoted : bool;
  ctx_completion_psr : Z;
  ctx_completion_source_ip : Z;
  ctx_completion_source_slot : Z
}.

(** The processor; [nat_] is the field [nat]. *)
Record CPUIA64State : Type := mkCPU {
  gr : list Z;
  pr : list Z;
  br : list Z;
  ip : Z;
  last_successful_bundle : Z;
  psr : Z;
  nat_ : list Z;
  banked_gr : list Z;
  banked_nat : Z;
  exception_state : IA64ExceptionState;
  cr : list Z;
  pkr : list Z;
  rr : list Z;
  ar : list Z;
  dahr : list Z;
  cfm_sof : Z;
  cfm_sol : Z;
  cfm_sor : Z;
  cfm_rrb_gr : Z;
  cfm_rrb_fr : Z;
  cfm_rrb_pr : Z;
  interrupt : IA64InterruptState;
  pal : IA64PalState;
  rse : IA64RSEState;
  instruction_group_start : bool;
  alat_state : IA64AlatState;
  fp : IA64FPState
}.

#[export] Instance eta_CPUIA64State : Eta CPUIA64State := fun s =>
  mkCPU (gr s) (pr s) (br s) (ip s) (last_successful_bundle s) (psr s) (nat_ s)
    (banked_gr s) (banked_nat s) (exception_state s) (cr s) (pkr s) (rr s) (ar s)
    (dahr s) (cfm_sof s) (cfm_sol s) (cfm_sor s) (cfm_rrb_gr s) (cfm_rrb_fr s)
    (cfm_rrb_pr s) (interrupt s) (pal s) (rse s) (instruction_group_start s)
    (alat_state s) (fp s).

(** How an operation can leave other than by returning: a [cpu_loop_exit] with an
    exception, or a failed [g_assert]. *)
Inductive cpu_exit : Set :=
  | Exit (e : IA64Exception)
  | Assertion.

(** The named control and application registers of [cpu.h]. *)
Definition cr_dcr (env : CPUIA64State) : Z := aget (cr env) IA64_CR_DCR.
Definition cr_itm (env : CPUIA64State) : Z := aget (cr env) IA64_CR_ITM.
Definition cr_iva (env : CPUIA64State) : Z := aget (cr env) IA64_CR_IVA.
Definition cr_ipsr (env : CPUIA64State) : Z := aget (cr env) IA64_CR_IPSR.
Definition cr_iip (env : CPUIA64State) : Z := aget (cr env) IA64_CR_IIP.
Definition cr_ifs (env : CPUIA64State) : Z := aget (cr env) IA64_CR_IFS.
Definition ar_rsc (env : CPUIA64State) : Z := aget (ar env) IA64_AR_RSC.
Definition ar_bsp (env : CPUIA64State) : Z := aget (ar env) IA64_AR_BSP.
Definition ar_bspstore (env : CPUIA64State) : Z := aget (ar env) IA64_AR_BSPSTORE.
Definition ar_rnat (env : CPUIA64State) : Z := aget (ar env) IA64_AR_RNAT.
Definition ar_itc (env : CPUIA64State) : Z := aget (ar env) IA64_AR_ITC.
Definition ar_pfs (env : CPUIA64State) : Z := aget (ar env) IA64_AR_PFS.
Definition ar_lc (env : CPUIA64State) : Z := aget (ar env) IA64_AR_LC.
Definition ar_ec (env : CPUIA64State) : Z := aget (ar env) IA64_AR_EC.

(** ** The zeroed state

    The state of a freshly allocated CPU object, before reset: every scalar is
    zero and every array has its declared size.  It is the concrete state of
    the witnesses. *)
Abbreviation zeros n := (replicate n 0).

Definition zero_alat : IA64AlatState :=
  mkAlatState (replicate 32 inhabitant) 0 [zeros 128; zeros 128] 0 false false false 0 0.

Definition zero_fp : IA64FPState :=
  mkFPState (zeros 128) (zeros 2) (zeros 2) (zeros 128) (zeros 128) (zeros 2)
    (zeros 2) (zeros 128) (zeros 2) false 0.

Definition zero_interrupt : IA64InterruptState :=
  mkInterruptState 0 0 0 false 0 false (zeros 4) (zeros 4) 0 0 0 0 0 false false.

Definition zero_exception : IA64ExceptionState :=
  mkExceptionState 0 0 0 0 IA64_EXCP_NONE IA64_EXCP_NONE 0 false false false 0 false false 0.

Definition zero_rse : IA64RSEState :=
  mkRSEState (zeros 96) (zeros 2) (zeros 2) 0 0 0 0 0 0 false false false false 0 0 0
    0 0 0 0 0 false inhabitant (replicate 96 inhabitant) 0 0.

Definition zero_pal : IA64PalState :=
  mkPalState false 0 0 0 0 false 0 0 0 false false false false false 0 0 0 0 0 0 0 0 0 0 0 0 0.

Definition zero_context : IA64RSEContextState :=
  mkRSEContext (zeros 96) (zeros 2) (zeros 2) 0 0 0 0 0 0 0 0 0 0 0 0 0 0 false inhabitant (replicate 96 inhabitant) 0
    0 0 0 0 0 0 false false false 0 0 0.

Definition zero_env : CPUIA64State :=
  mkCPU (zeros 128) (zeros 64) (zeros 8) 0 0 0 (zeros 2) (zeros 16) 0 zero_exception
    (zeros 128) (zeros 16) (zeros 8) (zeros 128) (zeros 8) 0 0 0 0 0 0 zero_interrupt zero_pal zero_rse
    false zero_alat zero_fp.
