(* ===== verification/Simd.v ===== *)
(** * Packed-integer operations

    The model of [target/ia64/arch/simd-ops.c]: the lane extraction helpers
    and the twelve pure operations of the parallel (multimedia) instructions.
    Every operation builds its result lane by lane in a loop; the theorems give
    the value of each lane of the result, for every operation selector. *)
From S2P Require Import Prelude.

(** ** Definitions *)

Definition simd_lane (value index bits : Z) : Z :=
  (value >>> (index * bits)) .& (u64 (1 <<< bits) - 1).

Definition simd_signed_lane (value index bits : Z) : Z :=
  let lane := simd_lane value index bits in
  s64 (u64 (lane <<< (64 - bits))) >>> (64 - bits).

Definition ia64_simd_pavg_value (op_sel a b : Z) : Z :=
  let sub := (op_sel =? 2) || (op_sel =? 3) in
  let raz := (op_sel =? 4) || (op_sel =? 5) in
  let bits := if (op_sel =? 0) || (op_sel =? 2) || (op_sel =? 4) then 8 else 16 in
  let lanes := 64 / bits in
  let mask := u64 (1 <<< bits) - 1 in
  let ext_mask := u64 (1 <<< (bits + 1)) - 1 in
  for_range 0 lanes (fun result i =>
    let left := simd_lane a i bits in
    let right := simd_lane b i bits in
    let lane :=
      if sub then
        let temp := u64 (left - right) .& ext_mask in
        ((temp >>> 1) .| (temp .& 1)) .& mask
      else if raz then
        (u64 (left + right + 1) >>> 1) .& mask
      else
        let temp := u64 (left + right) in
        ((temp >>> 1) .| (temp .& 1)) .& mask in
    result .| u64 (lane <<< (i * bits))) 0.

Definition ia64_simd_pcmp_value (op_sel a b : Z) : Z :=
  let is_gt := truth (op_sel .& 1) in
  let bits :=
    if (op_sel =? 0) || (op_sel =? 1) then 8
    else if (op_sel =? 2) || (op_sel =? 3) then 16
    else 32 in
  let lanes := 64 / bits in
  let mask := u64 (1 <<< bits) - 1 in
  for_range 0 lanes (fun result i =>
    let left := simd_lane a i bits in
    let right := simd_lane b i bits in
    let lane :=
      if is_gt then
        if simd_signed_lane b i bits <? simd_signed_lane a i bits then mask else 0
      else if left =? right then mask else 0 in
    result .| u64 (lane <<< (i * bits))) 0.

Definition ia64_simd_pminmax_value (op_sel a b : Z) : Z :=
  let bits := if op_sel <=? 1 then 8 else 16 in
  let lanes := 64 / bits in
  let is_max := (op_sel =? 0) || (op_sel =? 2) in
  for_range 0 lanes (fun result i =>
    let left := simd_lane a i bits in
    let right := simd_lane b i bits in
    let lane :=
      if bits =? 16 then
        let signed_left := simd_signed_lane a i bits in
        let signed_right := simd_signed_lane b i bits in
        if is_max then if signed_right <? signed_left then left else right
        else if signed_left <? signed_right then left else right
      else if is_max then if right <? left then left else right
      else if left <? right then left else right in
    result .| u64 (lane <<< (i * bits))) 0.

Definition simd_pmpy2_result (a b : Z) (right_form : bool) : Z :=
  let first_lane := if right_form then 0 else 1 in
  for_range 0 2 (fun result output =>
    let lane := first_lane + output * 2 in
    let product := s16 (simd_lane a lane 16) * s16 (simd_lane b lane 16) in
    result .| u64 (u32 product <<< (output * 32))) 0.

Definition ia64_simd_pmpy_value (op_sel a b shift : Z) : Z :=
  if op_sel <=? 1 then simd_pmpy2_result a b (op_sel =? 1)
  else
    for_range 0 4 (fun result i =>
      let left := simd_lane a i 16 in
      let right := simd_lane b i 16 in
      let product :=
        if op_sel =? 2 then
          let signed_product := s16 left * s16 right in
          u64 (signed_product >>> shift)
        else u64 (left * right) >>> shift in
      result .| u64 ((product .& UINT16_MAX) <<< (i * 16))) 0.

Definition ia64_simd_psad1_value (a b : Z) : Z :=
  for_range 0 8 (fun sum i =>
    let left := simd_lane a i 8 in
    let right := simd_lane b i 8 in
    u64 (sum + (if right <? left then left - right else right - left))) 0.

(** The [g_assert] on [count] is the [None] case. *)
Definition ia64_simd_pshladd2_value (a b count : Z) : option Z :=
  if (1 <=? count) && (count <=? 3) then
    Some (for_range 0 4 (fun result i =>
      let left := simd_signed_lane a i 16 in
      let right := simd_signed_lane b i 16 in
      let shifted := left * (1 <<< count) in
      let lane :=
        if INT16_MAX <? shifted then INT16_MAX
        else if shifted <? INT16_MIN then INT16_MIN
        else Z.max (Z.min (shifted + right) INT16_MAX) INT16_MIN in
      result .| u64 ((u64 lane .& UINT16_MAX) <<< (i * 16))) 0)
  else None.

Definition mux1_perms : list (list Z) :=
  [ [0; 0; 0; 0; 0; 0; 0; 0]; (* @brcst *)
    replicate 8 0; replicate 8 0; replicate 8 0; replicate 8 0;
    replicate 8 0; replicate 8 0; replicate 8 0;
    [0; 4; 2; 6; 1; 5; 3; 7]; (* @mix *)
    [0; 4; 1; 5; 2; 6; 3; 7]; (* @shuf *)
    [0; 2; 4; 6; 1; 3; 5; 7]; (* @alt *)
    [7; 6; 5; 4; 3; 2; 1; 0]; (* @rev *)
    replicate 8 0; replicate 8 0; replicate 8 0; replicate 8 0 ].

Definition ia64_simd_mux_value (op_sel value imm : Z) : Z :=
  if op_sel =? 0 then
    let permutation := aget mux1_perms (imm .& 0xf) in
    for_range 0 8 (fun result i =>
      result .| u64 (simd_lane value (aget permutation i) 8 <<< (i * 8))) 0
  else
    for_range 0 4 (fun result i =>
      let lane := (imm >>> (i * 2)) .& 3 in
      result .| u64 (simd_lane value lane 16 <<< (i * 16))) 0.

Definition ia64_simd_mix_value (op_sel a b : Z) : Z :=
  let bits :=
    if (op_sel =? 0) || (op_sel =? 1) then 8
    else if (op_sel =? 2) || (op_sel =? 3) then 16
    else 32 in
  let left :=
    if (op_sel =? 0) || (op_sel =? 1) then op_sel =? 0
    else if (op_sel =? 2) || (op_sel =? 3) then op_sel =? 2
    else op_sel =? 4 in
  for_range 0 (32 / bits) (fun result i =>
    let lane := 2 * i + (if left then 1 else 0) in
    let result := result .| u64 (simd_lane a lane bits <<< ((2 * i + 1) * bits)) in
    result .| u64 (simd_lane b lane bits <<< ((2 * i) * bits))) 0.

Definition ia64_simd_unpack_value (op_sel a b : Z) : Z :=
  let bits :=
    if (op_sel =? 0) || (op_sel =? 1) then 8
    else if (op_sel =? 2) || (op_sel =? 3) then 16
    else 32 in
  let low :=
    if (op_sel =? 0) || (op_sel =? 1) then op_sel =? 1
    else if (op_sel =? 2) || (op_sel =? 3) then op_sel =? 3
    else op_sel =? 5 in
  let half := 32 / bits in
  let base := if low then 0 else half in
  for_range 0 half (fun result i =>
    let left := simd_lane a (base + i) bits in
    let right := simd_lane b (base + i) bits in
    let result := result .| u64 (right <<< ((2 * i) * bits)) in
    result .| u64 (left <<< ((2 * i + 1) * bits))) 0.

Definition ia64_simd_pack_value (op_sel a b : Z) : Z :=
  let '(input_bits, output_bits, unsigned_saturation) :=
    if op_sel =? 0 then (16, 8, false)
    else if op_sel =? 1 then (16, 8, true)
    else (32, 16, false) in
  let output_max := (1 <<< (output_bits - 1)) - 1 in
  let output_min := - (1 <<< (output_bits - 1)) in
  let unsigned_max := (1 <<< output_bits) - 1 in
  let sources := [a; b] in
  let lanes := 64 / input_bits in
  (for_range 0 2 (fun st source =>
    for_range 0 lanes (fun '(result, output_lane) i =>
      let value := simd_signed_lane (aget sources source) i input_bits in
      let value :=
        if unsigned_saturation : bool then
          if value <? 0 then 0
          else if unsigned_max <? u64 value then unsigned_max
          else value
        else if output_max <? value then output_max
        else if value <? output_min then output_min
        else value in
      let lane := u64 value .& ((1 <<< output_bits) - 1) in
      (result .| u64 (lane <<< (output_lane * output_bits)), output_lane + 1)) st)
    (0, 0)).1.

(** The first index of [lanes] whose lane is zero: the loops of [czx] with their
    [break]. *)
Fixpoint first_zero_lane (value bits : Z) (lanes : list Z) : option Z :=
  match lanes with
  | [] => None
  | i :: rest =>
      if simd_lane value i bits =? 0 then Some i else first_zero_lane value bits rest
  end.

Definition ia64_simd_czx_value (op_sel value : Z) : Z :=
  let bits := if op_sel <=? 1 then 8 else 16 in
  let max_count := 64 / bits in
  if (op_sel =? 0) || (op_sel =? 2) then
    match first_zero_lane value bits (reverse (seqZ 0 max_count)) with
    | Some i => max_count - 1 - i
    | None => max_count
    end
  else
    match first_zero_lane value bits (seqZ 0 max_count) with
    | Some i => i
    | None => max_count
    end.

Definition ia64_simd_sum_value (a b : Z) : Z :=
  for_range 0 2 (fun result i =>
    let left := u64 (simd_lane a (2 * i) 16 + simd_lane a (2 * i + 1) 16) in
    let right := u64 (simd_lane b (2 * i) 16 + simd_lane b (2 * i + 1) 16) in
    let result := result .| u64 (left <<< ((2 + i) * 16)) in
    result .| u64 (right <<< (i * 16))) 0.

(** ** Lanes *)

Lemma simd_lane_testbit v i bits k :
  0 < bits <= 32 -> 0 <= i -> 0 <= k ->
  Z.testbit (simd_lane v i bits) k = (k <? bits) && Z.testbit v (k + i * bits).
Proof.
  intros Hb Hi Hk. unfold simd_lane.
  rewrite shiftl_1_pow2, (wrap_small 64 (2 ^ bits)) by lia || (split; [lia|]; apply Z.pow_lt_mono_r; lia).
  replace (2 ^ bits - 1) with (Z.ones bits) by (rewrite Z.ones_equiv; lia).
  rewrite Z.land_spec, Z.shiftr_spec, ones_spec by lia. btauto.
Qed.

Lemma uint_simd_lane v i bits : 0 < bits <= 32 -> 0 <= i -> uint bits (simd_lane v i bits).
Proof.
  intros. apply bits_uint; [lia|]. intros k Hk.
  rewrite simd_lane_testbit by lia. zcmp. done.
Qed.

Lemma simd_lane_div v i bits :
  0 < bits <= 32 -> 0 <= i -> simd_lane v i bits = (v / 2 ^ (i * bits)) mod 2 ^ bits.
Proof.
  intros. rewrite <- Z.shiftr_div_pow2 by nia. fold (wrap bits (v >>> (i * bits))).
  apply Z.bits_inj'. intros k Hk. rewrite simd_lane_testbit by lia.
  rewrite wrap_spec, Z.shiftr_spec by lia. done.
Qed.


Lemma simd_lane_or r x p q bits :
  0 < bits <= 32 -> 0 <= p -> 0 <= q -> (p + 1) * bits <= 64 -> uint bits x ->
  simd_lane (r .| u64 (x <<< (p * bits))) q bits =
    simd_lane r q bits .| (if p =? q then x else 0).
Proof.
  intros Hb Hp Hq H64 Hx. apply Z.bits_inj'. intros k Hk.
  rewrite Z.lor_spec, !simd_lane_testbit, Z.lor_spec, wrap_spec, shiftl_spec' by lia || nia.
  destruct (Z.ltb_spec k bits); simpl.
  2:{ destruct (p =? q); rewrite ?Z.testbit_0_l; [|done].
      by rewrite (uint_bits bits x k) by (lia || done). }
  f_equal. destruct (Z.eqb_spec p q) as [->|Hne].
  - zcmp; [|nia..]. f_equal. lia.
  - rewrite Z.testbit_0_l. destruct (Z.lt_ge_cases q p).
    + zcmp; [nia|done..].
    + rewrite (uint_bits bits x) by (done || nia). btauto.
Qed.

(** A loop that writes lane [i] in iteration [i]. *)
Lemma simd_lane_loop bits n (f : Z -> Z) (body : Z -> Z -> Z) :
  0 < bits <= 32 -> 0 <= n -> n * bits <= 64 ->
  (forall r i, body r i = r .| u64 (f i <<< (i * bits))) ->
  (forall i, 0 <= i < n -> uint bits (f i)) ->
  forall j, 0 <= j < n -> simd_lane (for_range 0 n body 0) j bits = f j.
Proof.
  intros Hb Hn H64 Hbody Hf.
  enough (H : forall j, 0 <= j ->
    simd_lane (for_range 0 n body 0) j bits = if j <? 0 + n then f j else 0).
  { intros j Hj. rewrite H by lia. zcmp. done. }
  apply (for_range_ind (fun i r => forall j, 0 <= j ->
    simd_lane r j bits = if j <? i then f j else 0)); [lia| |].
  - intros j Hj. zcmp. unfold simd_lane. by rewrite Z.shiftr_0_l, Z.land_0_l.
  - intros i r Hi IH j Hj. rewrite Hbody, simd_lane_or, IH by (try apply Hf; nia).
    zcmp; subst; rewrite ?Z.lor_0_r, ?Z.lor_0_l; done.
Qed.

(** A loop that writes lanes [2 i] and [2 i + 1] in iteration [i]. *)
Lemma simd_lane_loop2 bits n (even odd : Z -> Z) (body : Z -> Z -> Z) :
  0 < bits <= 32 -> 0 <= n -> 2 * n * bits <= 64 ->
  (forall r i, body r i = r .| u64 (odd i <<< ((2 * i + 1) * bits))
                            .| u64 (even i <<< (2 * i * bits))) ->
  (forall i, 0 <= i < n -> uint bits (even i) /\ uint bits (odd i)) ->
  forall j, 0 <= j < n ->
    simd_lane (for_range 0 n body 0) (2 * j) bits = even j /\
    simd_lane (for_range 0 n body 0) (2 * j + 1) bits = odd j.
Proof.
  intros Hb Hn H64 Hbody Hf.
  enough (H : forall j, 0 <= j ->
    simd_lane (for_range 0 n body 0) (2 * j) bits = (if j <? 0 + n then even j else 0) /\
    simd_lane (for_range 0 n body 0) (2 * j + 1) bits = (if j <? 0 + n then odd j else 0)).
  { intros j Hj. destruct (H j) as [-> ->]; [lia|]. zcmp. done. }
  apply (for_range_ind (fun i r => forall j, 0 <= j ->
    simd_lane r (2 * j) bits = (if j <? i then even j else 0) /\
    simd_lane r (2 * j + 1) bits = (if j <? i then odd j else 0))); [lia| |].
  - intros j Hj. zcmp. unfold simd_lane. by rewrite !Z.shiftr_0_l, Z.land_0_l.
  - intros i r Hi IH j Hj. destruct (IH j Hj) as [IHe IHo].
    destruct (Hf i) as [He Ho]; [lia|].
    rewrite Hbody, !simd_lane_or, IHe, IHo by first [done | nia].
    split; zcmp; try (replace j with i in * by lia); rewrite ?Z.lor_0_r, ?Z.lor_0_l; done.
Qed.

(** Loops that only OR 64-bit values into the result return a 64-bit value. *)
Lemma uint_simd_loop n (body : Z -> Z -> Z) :
  (forall r i, uint 64 r -> uint 64 (body r i)) -> uint 64 (for_range 0 n body 0).
Proof. intros H. apply for_range_inv; [by apply uint_0|auto]. Qed.

(** Two words with equal lanes are equal. *)
Lemma simd_lane_ext x y bits n :
  0 < bits <= 32 -> 0 <= n -> n * bits = 64 -> uint 64 x -> uint 64 y ->
  (forall j, 0 <= j < n -> simd_lane x j bits = simd_lane y j bits) -> x = y.
Proof.
  intros Hb Hn H64 Hx Hy H. apply Z.bits_inj'. intros k Hk.
  destruct (Z.lt_ge_cases k 64).
  2:{ by rewrite (uint_bits 64 x), (uint_bits 64 y) by (lia || done). }
  pose proof (Z.div_mod k bits ltac:(lia)) as E.
  pose proof (Z.mod_pos_bound k bits ltac:(lia)).
  assert (0 <= k / bits < n) by (split; [apply Z.div_pos; lia|apply Z.div_lt_upper_bound; lia]).
  specialize (H (k / bits) ltac:(lia)).
  apply (f_equal (fun z => Z.testbit z (k mod bits))) in H.
  rewrite !simd_lane_testbit in H by lia.
  replace (k mod bits + k / bits * bits) with k in H by lia.
  revert H. zcmp. done.
Qed.

(** The signed view of a lane. *)
Lemma simd_signed_lane_spec v i bits :
  0 < bits <= 32 -> 0 <= i ->
  simd_signed_lane v i bits = signed bits (simd_lane v i bits).
Proof.
  intros Hb Hi. pose proof (uint_simd_lane v i bits Hb Hi) as Hl.
  unfold simd_signed_lane. cbv zeta. generalize dependent (simd_lane v i bits).
  intros l Hl. unfold signed.
  assert (Hw : uint 64 (l <<< (64 - bits))) by (apply (uint_shiftl 64 bits); done || lia).
  rewrite (wrap_small 64 (u64 _)), (wrap_small 64), (wrap_small bits)
    by (done || (rewrite wrap_small; done)).
  rewrite Z.shiftr_div_pow2, Z.shiftl_mul_pow2 by lia.
  assert (Hp : 2 ^ (64 - 1) = 2 ^ (bits - 1) * 2 ^ (64 - bits)).
  { rewrite <- Z.pow_add_r by lia. f_equal. lia. }
  assert (Hq : 2 ^ 64 = 2 ^ bits * 2 ^ (64 - bits)).
  { rewrite <- Z.pow_add_r by lia. f_equal. lia. }
  assert (0 < 2 ^ (64 - bits)) by lia.
  destruct (Z.ltb_spec (l * 2 ^ (64 - bits)) (2 ^ (64 - 1))), (Z.ltb_spec l (2 ^ (bits - 1)));
    try nia.
  - by rewrite Z.div_mul by lia.
  - rewrite Hq, <- Z.mul_sub_distr_r, Z.div_mul by lia. done.
Qed.

(** ** Averages, comparisons, minimum and maximum *)

(** Shifting right by one with the lost bit OR-ed back: the rounding of
    [pavg]. *)
Lemma jam_half t n x :
  0 < n -> 0 <= t < 2 ^ (n + 1) -> x = ((t >>> 1) .| (t .& 1)) .& (2 ^ n - 1) ->
  0 <= x < 2 ^ n /\ -1 <= 2 * x - t <= 1 /\ (t mod 2 = 1 -> x mod 2 = 1).
Proof.
  intros Hn Ht ->. replace (2 ^ n - 1) with (Z.ones n) by (rewrite Z.ones_equiv; lia).
  assert (Hh : 2 ^ (n + 1) = 2 * 2 ^ n) by (rewrite Z.pow_add_r by lia; lia).
  assert (E2 : exists q, 2 ^ n = 2 * q).
  { exists (2 ^ (n - 1)). rewrite <- Z.pow_succ_r by lia. f_equal. lia. }
  rewrite Z.shiftr_div_pow2, land_1, Z.land_ones by lia. change (2 ^ 1) with 2.
  pose proof (Z.div_mod t 2 ltac:(lia)). pose proof (Z.mod_pos_bound t 2 ltac:(lia)).
  assert (t mod 2 = 0 \/ t mod 2 = 1) as [E|E] by lia; rewrite E.
  { rewrite Z.lor_0_r, Z.mod_small by lia. lia. }
  rewrite lor_1. pose proof (Z.div_mod (t / 2) 2 ltac:(lia)).
  pose proof (Z.mod_pos_bound (t / 2) 2 ltac:(lia)).
  destruct E2 as [q Eq].
  rewrite Z.mod_small by lia. repeat split; try lia.
  intros _. by rewrite Z.add_comm, Z.mul_comm, Z_mod_plus_full.
Qed.

(** Evaluates the decoding of a concrete selector. *)
Ltac sel_simpl :=
  cbn [Z.eqb Pos.eqb orb andb negb Z.leb Z.ltb Z.compare Pos.compare
       Pos.compare_cont Z.even Z.odd] in *;
  change (64 / 8) with 8 in *; change (64 / 16) with 4 in *;
  change (64 / 32) with 2 in *; change (32 / 8) with 4 in *;
  change (32 / 16) with 2 in *; change (32 / 32) with 1 in *.

(** Case analysis on a selector known to be in 0..5. *)
Ltac sel_cases op_sel :=
  assert (op_sel = 0 \/ op_sel = 1 \/ op_sel = 2 \/ op_sel = 3 \/ op_sel = 4 \/ op_sel = 5)
    as [->|[->|[->|[->|[->| ->]]]]] by lia.

(** Reads a lane of a one-lane-per-iteration loop; [tac] shows that the lane
    value fits. *)
Ltac simd_lanes tac :=
  erewrite simd_lane_loop by first
    [ lia | intros; reflexivity | intros; cbv beta zeta; tac ];
  cbv beta zeta.

Lemma mask_pow2 bits : 0 <= bits <= 32 -> u64 (1 <<< bits) - 1 = 2 ^ bits - 1.
Proof.
  intros. rewrite shiftl_1_pow2, wrap_small by
    (try (split; [lia|apply Z.pow_lt_mono_r]); lia). done.
Qed.

Lemma uint_land_mask x bits : 0 <= bits <= 32 -> uint bits (x .& (u64 (1 <<< bits) - 1)).
Proof.
  intros. rewrite mask_pow2 by done. apply uint_land_r; [lia|].
  unfold uint. lia.
Qed.

(** [x] is half of [t], an inexact half rounded to the odd neighbour. *)
Definition half_to_odd (x t : Z) : Prop :=
  -1 <= 2 * x - t <= 1 /\ (t mod 2 = 1 -> x mod 2 = 1).

Lemma pavg_add_lane bits l r :
  bits = 8 \/ bits = 16 -> uint bits l -> uint bits r ->
  half_to_odd
    (((u64 (l + r) >>> 1) .| (u64 (l + r) .& 1)) .& (u64 (1 <<< bits) - 1)) (l + r).
Proof.
  intros Hb [Hl Hl'] [Hr Hr']. rewrite mask_pow2 by lia.
  assert (2 ^ (bits + 1) = 2 * 2 ^ bits) by (rewrite Z.pow_add_r by lia; lia).
  rewrite (wrap_small 64 (l + r)) by (split; [lia|]; destruct Hb; subst; lia).
  edestruct (jam_half (l + r) bits) as (_ & H1 & H2); [lia|lia|done|]. by split.
Qed.

Lemma pavg_sub_lane bits l r :
  bits = 8 \/ bits = 16 -> uint bits l -> uint bits r ->
  let temp := u64 (l - r) .& (u64 (1 <<< (bits + 1)) - 1) in
  half_to_odd
    (signed bits (((temp >>> 1) .| (temp .& 1)) .& (u64 (1 <<< bits) - 1))) (l - r).
Proof.
  intros Hb [Hl Hl'] [Hr Hr']. cbv zeta. rewrite !mask_pow2 by lia.
  set (temp := u64 (l - r) .& _).
  assert (Ht : temp = if l <? r then l - r + 2 ^ (bits + 1) else l - r).
  { unfold temp. rewrite wrap_land_mask by lia. unfold wrap.
    destruct Hb as [-> | ->]; destruct (Z.ltb_spec l r); Z.div_mod_to_equations; lia. }
  edestruct (jam_half temp bits) as (Hx & H1 & H2); [lia| |reflexivity|].
  { rewrite Ht. destruct Hb as [-> | ->]; destruct (Z.ltb_spec l r); lia. }
  revert Hx H1 H2. generalize (((temp >>> 1) .| (temp .& 1)) .& (2 ^ bits - 1)).
  intros x Hx H1 H2. unfold half_to_odd, signed. rewrite wrap_small by done.
  rewrite Ht in *. clear Ht temp.
  destruct Hb as [-> | ->]; destruct (Z.ltb_spec l r);
    match goal with |- context [?a <? ?b] => destruct (Z.ltb_spec a b) end;
    Z.div_mod_to_equations; lia.
Qed.

Lemma pavg_raz_lane bits l r :
  bits = 8 \/ bits = 16 -> uint bits l -> uint bits r ->
  (u64 (l + r + 1) >>> 1) .& (u64 (1 <<< bits) - 1) = (l + r + 1) / 2.
Proof.
  intros Hb [Hl Hl'] [Hr Hr']. rewrite mask_pow2 by lia.
  replace (2 ^ bits - 1) with (Z.ones bits) by (rewrite Z.ones_equiv; lia).
  rewrite (wrap_small 64) by (split; [lia|]; destruct Hb; subst; lia).
  rewrite Z.shiftr_div_pow2, Z.land_ones, Z.mod_small; [done| |lia..].
  split; [apply Z.div_pos|apply Z.div_lt_upper_bound]; lia.
Qed.

(** The parallel average instructions, on every lane: [pavg] gives half of
    the sum, an inexact half rounded to odd; [pavgsub] gives half of the signed
    difference, rounded in the same way; [pavg.raz] gives half of the sum
    rounded up. *)
Theorem pavg_lanes op_sel a b j :
  0 <= op_sel <= 5 ->
  let bits := if Z.even op_sel then 8 else 16 in
  0 <= j < 64 / bits ->
  let l := simd_lane a j bits in
  let r := simd_lane b j bits in
  let x := simd_lane (ia64_simd_pavg_value op_sel a b) j bits in
  if op_sel <=? 1 then half_to_odd x (l + r)
  else if op_sel <=? 3 then half_to_odd (signed bits x) (l - r)
  else x = (l + r + 1) / 2.
Proof.
  intros Hop bits Hj l r x.
  sel_cases op_sel;
    subst bits; unfold x, ia64_simd_pavg_value; clear x; sel_simpl.
  all: simd_lanes ltac:(by apply uint_land_mask).
  1,2: apply pavg_add_lane; [lia|apply uint_simd_lane; lia..].
  1,2: apply pavg_sub_lane; [lia|apply uint_simd_lane; lia..].
  all: apply pavg_raz_lane; [lia|apply uint_simd_lane; lia..].
Qed.

Lemma pavg_lanes_witness :
  half_to_odd (simd_lane (ia64_simd_pavg_value 0 0x0102 0x0405) 0 8)
    (simd_lane 0x0102 0 8 + simd_lane 0x0405 0 8).
Proof. refine (pavg_lanes 0 0x0102 0x0405 0 _ _); [lia|split; vm_compute; congruence]. Defined.

(** The parallel compares: a lane of the result is all ones when the
    operands' lanes are equal ([pcmp.eq], even selectors) or when the first is
    greater as a signed number ([pcmp.gt], odd selectors), and zero
    otherwise. *)
Theorem pcmp_lanes op_sel a b j :
  0 <= op_sel <= 5 ->
  let bits := 8 * 2 ^ (op_sel / 2) in
  0 <= j < 64 / bits ->
  simd_lane (ia64_simd_pcmp_value op_sel a b) j bits =
    if (if Z.odd op_sel
        then signed bits (simd_lane b j bits) <? signed bits (simd_lane a j bits)
        else simd_lane a j bits =? simd_lane b j bits)
    then 2 ^ bits - 1 else 0.
Proof.
  intros Hop bits Hj.
  sel_cases op_sel;
    subst bits; unfold ia64_simd_pcmp_value, truth; sel_simpl.
  1,2: change (8 * 2 ^ _) with 8 in *.
  3,4: change (8 * 2 ^ _) with 16 in *.
  5,6: change (8 * 2 ^ _) with 32 in *.
  all: sel_simpl.
  all: simd_lanes ltac:(repeat case_match; uint_const).
  all: rewrite ?simd_signed_lane_spec by lia; reflexivity.
Qed.

Lemma pcmp_lanes_witness :
  simd_lane (ia64_simd_pcmp_value 1 0x7f 0x80) 0 8 = 255.
Proof. refine (pcmp_lanes 1 0x7f 0x80 0 _ _); [lia|split; vm_compute; congruence]. Defined.

(** The parallel minimum and maximum: unsigned on bytes, signed on 16-bit
    lanes. *)
Theorem pminmax_lanes a b j :
  (0 <= j < 8 ->
    simd_lane (ia64_simd_pminmax_value 0 a b) j 8 = Z.max (simd_lane a j 8) (simd_lane b j 8) /\
    simd_lane (ia64_simd_pminmax_value 1 a b) j 8 = Z.min (simd_lane a j 8) (simd_lane b j 8)) /\
  (0 <= j < 4 ->
    signed 16 (simd_lane (ia64_simd_pminmax_value 2 a b) j 16) =
      Z.max (signed 16 (simd_lane a j 16)) (signed 16 (simd_lane b j 16)) /\
    signed 16 (simd_lane (ia64_simd_pminmax_value 3 a b) j 16) =
      Z.min (signed 16 (simd_lane a j 16)) (signed 16 (simd_lane b j 16))).
Proof.
  unfold ia64_simd_pminmax_value; sel_simpl. repeat split.
  all: simd_lanes ltac:(repeat case_match; apply uint_simd_lane; lia).
  all: rewrite ?simd_signed_lane_spec by lia.
  all: match goal with |- context [?x <? ?y] => destruct (Z.ltb_spec x y) end; lia.
Qed.

(** ** Multiplication, shift-and-add, sum of absolute differences *)

Lemma uint_u16_mask x : uint 16 (x .& UINT16_MAX).
Proof. apply uint_land_r; [lia|]. uint_const. Qed.

Lemma s16_product x y :
  - 2 ^ (32 - 1) <= s16 x * s16 y < 2 ^ (32 - 1).
Proof.
  pose proof (signed_range 16 x ltac:(lia)). pose proof (signed_range 16 y ltac:(lia)).
  change (2 ^ (32 - 1)) with 2147483648. change (2 ^ (16 - 1)) with 32768 in *. nia.
Qed.

Lemma uint16_product a b i j :
  0 <= i -> 0 <= j -> uint 64 (simd_lane a i 16 * simd_lane b j 16).
Proof.
  intros. pose proof (uint_simd_lane a i 16 ltac:(lia) ltac:(lia)) as [? ?].
  pose proof (uint_simd_lane b j 16 ltac:(lia) ltac:(lia)) as [? ?].
  split; [nia|]. change (2 ^ 16) with 65536 in *. change (2 ^ 64) with 18446744073709551616. nia.
Qed.

(** The parallel multiplies: [pmpy2.l] and [pmpy2.r] give the exact signed
    32-bit products of the odd and of the even lanes; [pmpyshr2] and
    [pmpyshr2.u] give sixteen bits of the signed or unsigned product, starting
    at bit [shift]. *)
Theorem pmpy_lanes a b shift j :
  0 <= shift < 64 ->
  (0 <= j < 2 ->
    signed 32 (simd_lane (ia64_simd_pmpy_value 0 a b shift) j 32) =
      s16 (simd_lane a (2 * j + 1) 16) * s16 (simd_lane b (2 * j + 1) 16) /\
    signed 32 (simd_lane (ia64_simd_pmpy_value 1 a b shift) j 32) =
      s16 (simd_lane a (2 * j) 16) * s16 (simd_lane b (2 * j) 16)) /\
  (0 <= j < 4 ->
    simd_lane (ia64_simd_pmpy_value 2 a b shift) j 16 =
      wrap 16 (s16 (simd_lane a j 16) * s16 (simd_lane b j 16) / 2 ^ shift) /\
    simd_lane (ia64_simd_pmpy_value 3 a b shift) j 16 =
      wrap 16 (simd_lane a j 16 * simd_lane b j 16 / 2 ^ shift)).
Proof.
  intros Hs. unfold ia64_simd_pmpy_value, simd_pmpy2_result; sel_simpl.
  split; intros Hj; split.
  1,2: simd_lanes ltac:(by apply uint_wrap).
  1,2: rewrite signed_wrap by (lia || apply s16_product).
  1,2: do 2 f_equal; f_equal; lia.
  all: simd_lanes ltac:(apply uint_u16_mask).
  all: change UINT16_MAX with (2 ^ 16 - 1).
  - by rewrite wrap_land_mask, Z.shiftr_div_pow2 by lia.
  - rewrite (wrap_small 64), Z.shiftr_div_pow2 by (apply uint16_product; lia) || lia.
    by rewrite land_mask by lia.
Qed.

Lemma pmpy_lanes_witness :
  signed 32 (simd_lane (ia64_simd_pmpy_value 1 0xffff 3 0) 0 32) = -3.
Proof. refine (proj2 (proj1 (pmpy_lanes 0xffff 3 0 0 _) _)); lia. Defined.

(** [psad1] is the exact sum of the absolute differences of the eight byte
    lanes: the 64-bit accumulation never wraps. *)
Theorem psad1_sum a b :
  ia64_simd_psad1_value a b =
    for_range 0 8 (fun sum i => sum + Z.abs (simd_lane a i 8 - simd_lane b i 8)) 0 /\
  0 <= ia64_simd_psad1_value a b <= 8 * 255.
Proof.
  unfold ia64_simd_psad1_value.
  apply (for_range_sim (fun i s t => s = t /\ 0 <= s <= i * 255) 0 8); [lia|lia|].
  intros i s t Hi [<- Hs].
  pose proof (uint_simd_lane a i 8 ltac:(lia) ltac:(lia)) as [? ?].
  pose proof (uint_simd_lane b i 8 ltac:(lia) ltac:(lia)) as [? ?].
  change (2 ^ 8) with 256 in *.
  rewrite wrap_small by (split; case_match; lia). case_match; lia.
Qed.

Lemma signed16_mask x :
  INT16_MIN <= x <= INT16_MAX -> signed 16 (u64 x .& UINT16_MAX) = x.
Proof.
  intros [? ?]. change UINT16_MAX with (2 ^ 16 - 1). rewrite wrap_land_mask by lia.
  apply signed_wrap; [lia|]. unfold INT16_MIN, INT16_MAX in *. lia.
Qed.

(** Clamping to the range of a signed 16-bit lane. *)
Definition clamp16 (x : Z) : Z := Z.max INT16_MIN (Z.min INT16_MAX x).

(** [pshladd2] on every lane: the first operand is shifted left; when the
    shift overflows, the result is the saturated shifted value and the second
    operand is not added; otherwise the sum saturates.  A count outside 1..3
    is refused. *)
Theorem pshladd2_lanes a b count :
  match ia64_simd_pshladd2_value a b count with
  | None => count < 1 \/ 3 < count
  | Some v =>
      1 <= count <= 3 /\
      forall j, 0 <= j < 4 ->
        let shifted := signed 16 (simd_lane a j 16) * 2 ^ count in
        signed 16 (simd_lane v j 16) =
          if decide (INT16_MIN <= shifted <= INT16_MAX)
          then clamp16 (shifted + signed 16 (simd_lane b j 16))
          else clamp16 shifted
  end.
Proof.
  unfold ia64_simd_pshladd2_value.
  destruct (Z.leb_spec 1 count); cbn [andb]; [|by left].
  destruct (Z.leb_spec count 3); cbn [andb]; [|by right].
  split; [done|]. intros j Hj. simd_lanes ltac:(apply uint_u16_mask).
  rewrite shiftl_1_pow2, !simd_signed_lane_spec, signed16_mask by
    (try lia; unfold INT16_MIN, INT16_MAX; repeat case_match; lia).
  unfold clamp16, INT16_MIN, INT16_MAX.
  repeat match goal with |- context [?x <? ?y] => destruct (Z.ltb_spec x y) end;
    case_decide; lia.
Qed.

(** ** Permutations *)

Lemma mux1_perms_range k i : 0 <= i < 8 -> 0 <= aget (aget mux1_perms (k .& 0xf)) i < 8.
Proof.
  intros Hi. assert (Hk : uint 4 (k .& 0xf)) by (apply uint_land_r; [lia|uint_const]).
  revert Hk. generalize (k .& 0xf). intros m [Hm Hm'].
  assert (H : forallb (fun row => (length row =? 8)%nat && forallb (fun x => (0 <=? x) && (x <? 8)) row)
                mux1_perms = true) by reflexivity.
  rewrite List.forallb_forall in H.
  specialize (H (aget mux1_perms m)).
  rewrite andb_true_iff, Nat.eqb_eq, List.forallb_forall in H.
  destruct H as [Hlen H].
  { apply list_elem_of_In, aget_elem. change (length mux1_perms) with 16%nat. lia. }
  specialize (H (aget (aget mux1_perms m) i)). rewrite andb_true_iff in H. 
  destruct H; [|lia].
  apply list_elem_of_In, aget_elem. lia.
Qed.

(** The [mux] instructions permute lanes: [mux1] by its permutation table,
    [mux2] by the selector fields of the immediate. *)
Theorem mux_lanes value imm j :
  (0 <= j < 8 ->
    simd_lane (ia64_simd_mux_value 0 value imm) j 8 =
      simd_lane value (aget (aget mux1_perms (imm .& 0xf)) j) 8) /\
  (0 <= j < 4 ->
    simd_lane (ia64_simd_mux_value 1 value imm) j 16 =
      simd_lane value ((imm / 4 ^ j) mod 4) 16).
Proof.
  unfold ia64_simd_mux_value; sel_simpl. split; intros Hj.
  - simd_lanes ltac:(apply uint_simd_lane; [lia|]; by apply mux1_perms_range); done.
  - assert (Hl : forall i, 0 <= i -> (imm >>> (i * 2)) .& 3 = (imm / 4 ^ i) mod 4).
    { intros i Hi. rewrite (land_mask 2), Z.shiftr_div_pow2 by lia.
      by rewrite Z.mul_comm, Z.pow_mul_r by lia. }
    simd_lanes ltac:(apply uint_simd_lane; [lia|]; rewrite Hl by lia; apply Z.mod_pos_bound; lia).
    by rewrite Hl by lia.
Qed.

(** Byte reversal: [mux1] with [@rev] is its own inverse. *)
Theorem mux1_rev_involutive value :
  uint 64 value -> ia64_simd_mux_value 0 (ia64_simd_mux_value 0 value 0xb) 0xb = value.
Proof.
  intros Hv. apply (simd_lane_ext _ _ 8 8); [lia|lia|lia| |done|].
  { apply uint_simd_loop. intros. apply uint_lor; [lia|done|by apply uint_wrap]. }
  assert (Hrev : forall v j, 0 <= j < 8 ->
    simd_lane (ia64_simd_mux_value 0 v 0xb) j 8 = simd_lane v (7 - j) 8).
  { intros v j Hj. unfold ia64_simd_mux_value; sel_simpl.
    simd_lanes ltac:(apply uint_simd_lane; [lia|]; by apply mux1_perms_range).
    assert (j = 0 \/ j = 1 \/ j = 2 \/ j = 3 \/ j = 4 \/ j = 5 \/ j = 6 \/ j = 7) as D by lia.
    destruct D as [->|[->|[->|[->|[->|[->|[->| ->]]]]]]]; reflexivity. }
  intros j Hj. rewrite !Hrev by lia. f_equal. lia.
Qed.

Lemma mux1_rev_involutive_witness :
  ia64_simd_mux_value 0 (ia64_simd_mux_value 0 0x0102030405060708 0xb) 0xb = 0x0102030405060708.
Proof. apply (mux1_rev_involutive 0x0102030405060708). uint_const. Defined.

Lemma mix_loop_lanes bits d a b j :
  bits = 8 \/ bits = 16 \/ bits = 32 -> 0 <= d <= 1 -> 0 <= j < 32 / bits ->
  let m := for_range 0 (32 / bits) (fun result i =>
    result .| u64 (simd_lane a (2 * i + d) bits <<< ((2 * i + 1) * bits))
           .| u64 (simd_lane b (2 * i + d) bits <<< ((2 * i) * bits))) 0 in
  simd_lane m (2 * j) bits = simd_lane b (2 * j + d) bits /\
  simd_lane m (2 * j + 1) bits = simd_lane a (2 * j + d) bits.
Proof.
  intros Hb Hd Hj m.
  apply (simd_lane_loop2 bits (32 / bits) (fun i => simd_lane b (2 * i + d) bits)
           (fun i => simd_lane a (2 * i + d) bits)); try done.
  all: destruct Hb as [-> | [-> | ->]]; sel_simpl; try lia.
  all: intros; split; apply uint_simd_lane; lia.
Qed.

Lemma unpack_loop_lanes bits base a b j :
  bits = 8 \/ bits = 16 \/ bits = 32 -> 0 <= base -> 0 <= j < 32 / bits ->
  let m := for_range 0 (32 / bits) (fun result i =>
    result .| u64 (simd_lane b (base + i) bits <<< ((2 * i) * bits))
           .| u64 (simd_lane a (base + i) bits <<< ((2 * i + 1) * bits))) 0 in
  simd_lane m (2 * j) bits = simd_lane b (base + j) bits /\
  simd_lane m (2 * j + 1) bits = simd_lane a (base + j) bits.
Proof.
  intros Hb Hd Hj m.
  apply (simd_lane_loop2 bits (32 / bits) (fun i => simd_lane b (base + i) bits)
           (fun i => simd_lane a (base + i) bits)); try done.
  all: try (intros; rewrite <- !Z.lor_assoc; f_equal; apply Z.lor_comm).
  all: destruct Hb as [-> | [-> | ->]]; sel_simpl; try lia.
  all: intros; split; apply uint_simd_lane; lia.
Qed.

(** [mix] and [unpack] interleave lanes of the two operands: odd lanes of
    the result come from the first operand and even lanes from the second;
    [mix] takes the odd ([.l]) or even ([.r]) lanes, [unpack] the high or low
    half. *)
Theorem mix_unpack_lanes op_sel a b j :
  0 <= op_sel <= 5 ->
  let bits := 8 * 2 ^ (op_sel / 2) in
  0 <= j < 32 / bits ->
  (let m := ia64_simd_mix_value op_sel a b in
   let src := 2 * j + (if Z.even op_sel then 1 else 0) in
   simd_lane m (2 * j) bits = simd_lane b src bits /\
   simd_lane m (2 * j + 1) bits = simd_lane a src bits) /\
  (let u := ia64_simd_unpack_value op_sel a b in
   let src := (if Z.even op_sel then 32 / bits else 0) + j in
   simd_lane u (2 * j) bits = simd_lane b src bits /\
   simd_lane u (2 * j + 1) bits = simd_lane a src bits).
Proof.
  intros Hop bits Hj.
  sel_cases op_sel;
    subst bits; unfold ia64_simd_mix_value, ia64_simd_unpack_value; cbv zeta; sel_simpl.
  1,2: change (8 * 2 ^ _) with 8 in *.
  3,4: change (8 * 2 ^ _) with 16 in *.
  5,6: change (8 * 2 ^ _) with 32 in *.
  all: sel_simpl; split.
  all: first [apply mix_loop_lanes | apply unpack_loop_lanes]; first [lia | done].
Qed.

Lemma mix_unpack_lanes_witness :
  simd_lane (ia64_simd_mix_value 0 0x1122 0x3344) 0 8 = 0x33.
Proof.
  refine (proj1 (proj1 (mix_unpack_lanes 0 0x1122 0x3344 0 _ _)));
    [lia|split; vm_compute; congruence].
Defined.

(** ** Saturating pack *)

(** The nested loops of [pack]: output lane [source * n + i] receives the
    converted input lane [i] of the source. *)
Lemma pack_loop_lanes bits n (f : Z -> Z -> Z) j :
  0 < bits <= 32 -> 0 < n -> 2 * n * bits <= 64 ->
  (forall s i, 0 <= i -> uint bits (f s i)) -> 0 <= j < 2 * n ->
  simd_lane
    (for_range 0 2 (fun st source =>
       for_range 0 n (fun '(result, output_lane) i =>
         (result .| u64 (f source i <<< (output_lane * bits)), output_lane + 1)) st)
       (0, 0)).1 j bits = f (j / n) (j mod n).
Proof.
  intros Hb Hn H64 Hf Hj.
  set (inv := fun k (st : Z * Z) => st.2 = k /\ forall j, 0 <= j ->
    simd_lane st.1 j bits = if j <? k then f (j / n) (j mod n) else 0).
  enough (H : inv ((0 + 2) * n) (for_range 0 2 (fun st source =>
       for_range 0 n (fun '(result, output_lane) i =>
         (result .| u64 (f source i <<< (output_lane * bits)), output_lane + 1)) st)
       (0, 0))).
  { destruct H as [_ H]. rewrite H by lia. zcmp. done. }
  apply (for_range_ind (fun s => inv (s * n))); [lia| |].
  { split; [done|]. intros k Hk. zcmp. unfold simd_lane. simpl fst.
    by rewrite Z.shiftr_0_l, Z.land_0_l. }
  intros s st Hs Hst. replace ((s + 1) * n) with (s * n + (0 + n)) by lia.
  apply (for_range_ind (fun i => inv (s * n + i))); [lia|by rewrite Z.add_0_r|].
  intros i [r o] Hi [Ho Hr]. cbn [fst snd] in *. subst o. split; [simpl; lia|].
  intros k Hk. cbn [fst].
  rewrite simd_lane_or, Hr by first [apply Hf; lia | nia].
  destruct (Z.eqb_spec (s * n + i) k) as [<-|].
  - zcmp. rewrite Z.lor_0_l.
    rewrite Z.div_add_l, Z.div_small, Z.add_0_r, Z.add_comm, Z.mod_add, Z.mod_small by lia.
    done.
  - rewrite Z.lor_0_r. zcmp; done.
Qed.

Definition clamp (lo hi x : Z) : Z := Z.max lo (Z.min hi x).

Lemma pack_signed_value bits x :
  bits = 8 \/ bits = 16 -> - 2 ^ 31 <= x < 2 ^ 31 ->
  signed bits (u64 (if (1 <<< (bits - 1)) - 1 <? x then (1 <<< (bits - 1)) - 1
                    else if x <? - (1 <<< (bits - 1)) then - (1 <<< (bits - 1)) else x)
               .& ((1 <<< bits) - 1)) =
  clamp (- 2 ^ (bits - 1)) (2 ^ (bits - 1) - 1) x.
Proof.
  intros Hb Hx. rewrite !shiftl_1_pow2, wrap_land_mask by lia.
  rewrite signed_wrap; [|lia|]; unfold clamp; repeat case_match; lia.
Qed.

(** C40. [pack2.sss], [pack2.uss] and [pack4.sss]: the low half of the result
    holds the saturated lanes of the first operand and the high half those of
    the second, saturated to the signed or unsigned range of the narrower
    lane. *)
Theorem pack_lanes a b :
  (forall j, 0 <= j < 8 ->
    let x := signed 16 (simd_lane (if j <? 4 then a else b) (j mod 4) 16) in
    signed 8 (simd_lane (ia64_simd_pack_value 0 a b) j 8) = clamp (-128) 127 x /\
    simd_lane (ia64_simd_pack_value 1 a b) j 8 = clamp 0 255 x) /\
  (forall j, 0 <= j < 4 ->
    signed 16 (simd_lane (ia64_simd_pack_value 2 a b) j 16) =
      clamp (-32768) 32767
        (signed 32 (simd_lane (if j <? 2 then a else b) (j mod 2) 32))).
Proof.
  assert (Hsrc : forall j n, 0 < n -> 0 <= j < 2 * n ->
    aget [a; b] (j / n) = if j <? n then a else b).
  { intros j n Hn Hj. zcmp; [by rewrite Z.div_small by lia|].
    by replace (j / n) with 1 by (apply Z.div_unique with (r := j - n); lia). }
  assert (Hlane : forall v j n bits, 0 < bits <= 32 -> 0 < n ->
    simd_signed_lane v (j mod n) bits = signed bits (simd_lane v (j mod n) bits)).
  { intros. apply simd_signed_lane_spec; [done|]. apply Z.mod_pos_bound. lia. }
  assert (Hrange : forall v j n bits, 0 < bits <= 32 -> 0 < n ->
    - 2 ^ 31 <= simd_signed_lane v (j mod n) bits < 2 ^ 31).
  { intros v j n bits Hb Hn. rewrite Hlane by done.
    pose proof (signed_range bits (simd_lane v (j mod n) bits) ltac:(lia)).
    pose proof (Z.pow_le_mono_r 2 (bits - 1) 31 ltac:(lia) ltac:(lia)). lia. }
  assert (Hfit : forall w x, w = 8 \/ w = 16 -> uint w (x .& ((1 <<< w) - 1))).
  { intros w x Hw. rewrite shiftl_1_pow2, land_mask by lia. apply uint_wrap. lia. }
  unfold ia64_simd_pack_value. sel_simpl. split; intros j Hj; [split|].
  - erewrite (pack_loop_lanes 8 4) by first [lia | intros; cbv zeta; apply Hfit; lia].
    cbv beta zeta. rewrite pack_signed_value by (try apply Hrange; lia).
    by rewrite Hlane, Hsrc by lia.
  - erewrite (pack_loop_lanes 8 4) by first [lia | intros; cbv zeta; apply Hfit; lia].
    cbv beta zeta. pose proof (Hrange (aget [a; b] (j / 4)) j 4 16 ltac:(lia) ltac:(lia)) as Hr.
    rewrite Hlane, Hsrc in * by lia. revert Hr.
    generalize (signed 16 (simd_lane (if j <? 4 then a else b) (j mod 4) 16)); intros x Hr.
    rewrite shiftl_1_pow2, wrap_land_mask by lia. unfold clamp.
    destruct (Z.ltb_spec x 0); [rewrite wrap_small by uint_const; lia|].
    rewrite (wrap_small 64 x) by (unfold uint; lia).
    destruct (Z.ltb_spec (2 ^ 8 - 1) x); rewrite wrap_small by (unfold uint; lia); lia.
  - erewrite (pack_loop_lanes 16 2) by first [lia | intros; cbv zeta; apply Hfit; lia].
    cbv beta zeta. rewrite pack_signed_value by (try apply Hrange; lia).
    by rewrite Hlane, Hsrc by lia.
Qed.

(** ** Compute zero index *)

Lemma first_zero_lane_seq value bits m n :
  0 <= n ->
  match first_zero_lane value bits (seqZ m n) with
  | Some i => m <= i < m + n /\ simd_lane value i bits = 0 /\
              forall k, m <= k < i -> simd_lane value k bits <> 0
  | None => forall k, m <= k < m + n -> simd_lane value k bits <> 0
  end.
Proof.
  intros Hn. revert m. pattern n. apply natlike_ind; [|clear n Hn|done].
  { intros m. rewrite seqZ_nil by lia. intros k Hk. lia. }
  intros n Hn IH m. rewrite seqZ_cons by lia. replace (Z.pred (Z.succ n)) with n by lia.
  cbn [first_zero_lane]. destruct (Z.eqb_spec (simd_lane value m bits) 0) as [E|E].
  { split_and!; [lia|lia|done|intros; lia]. }
  specialize (IH (Z.succ m)). destruct (first_zero_lane value bits (seqZ (Z.succ m) n)) as [i|].
  - destruct IH as (Hi & Hz & Hk). split_and!; [lia|lia|done|].
    intros k Hkr. destruct (decide (k = m)) as [->|]; [done|]. apply Hk. lia.
  - intros k Hkr. destruct (decide (k = m)) as [->|]; [done|]. apply IH. lia.
Qed.

Lemma first_zero_lane_rev value bits n :
  0 <= n ->
  match first_zero_lane value bits (reverse (seqZ 0 n)) with
  | Some i => 0 <= i < n /\ simd_lane value i bits = 0 /\
              forall k, i < k < n -> simd_lane value k bits <> 0
  | None => forall k, 0 <= k < n -> simd_lane value k bits <> 0
  end.
Proof.
  intros Hn. pattern n. apply natlike_ind; [|clear n Hn|done].
  { rewrite seqZ_nil by lia. intros k Hk. lia. }
  intros n Hn IH. rewrite <- Z.add_1_r, seqZ_app, reverse_app by lia.
  rewrite (seqZ_cons (0 + n)), seqZ_nil by lia. rewrite Z.add_0_l.
  rewrite reverse_singleton. cbn [app first_zero_lane].
  destruct (Z.eqb_spec (simd_lane value n bits) 0) as [E|E].
  { split_and!; [lia|lia|done|intros; lia]. }
  destruct (first_zero_lane value bits (reverse (seqZ 0 n))) as [i|].
  - destruct IH as (Hi & Hz & Hk). split_and!; [lia|lia|done|].
    intros k Hkr. destruct (decide (k = n)) as [->|]; [done|]. apply Hk. lia.
  - intros k Hkr. destruct (decide (k = n)) as [->|]; [done|]. apply IH. lia.
Qed.

(** [n] is the distance to the first zero lane along [pos], or the lane count
    [max] when there is none. *)
Definition zero_index (value bits max : Z) (pos : Z -> Z) (n : Z) : Prop :=
  0 <= n <= max /\
  (forall i, 0 <= i < n -> simd_lane value (pos i) bits <> 0) /\
  (n < max -> simd_lane value (pos n) bits = 0).

(** [czx]: the index of the first zero lane, counted from the left (even
    selectors) or from the right (odd selectors), or the number of lanes when
    no lane is zero. *)
Theorem czx_zero_index op_sel value :
  0 <= op_sel <= 3 ->
  let bits := if op_sel <=? 1 then 8 else 16 in
  let max := 64 / bits in
  zero_index value bits max (fun i => if Z.even op_sel then max - 1 - i else i)
    (ia64_simd_czx_value op_sel value).
Proof.
  intros Hop. cbv zeta.
  assert (Hr : forall bits max, 0 <= max -> zero_index value bits max (fun i => i)
    match first_zero_lane value bits (seqZ 0 max) with Some i => i | None => max end).
  { intros bits max Hm. pose proof (first_zero_lane_seq value bits 0 max Hm) as H.
    destruct (first_zero_lane _ _ _) as [i|].
    - destruct H as (Hi & Hz & Hk). split_and!; [lia|lia|done|done].
    - split_and!; [lia|lia|done|lia]. }
  assert (Hl : forall bits max, 0 <= max -> zero_index value bits max (fun i => max - 1 - i)
    match first_zero_lane value bits (reverse (seqZ 0 max)) with
    | Some i => max - 1 - i | None => max end).
  { intros bits max Hm. pose proof (first_zero_lane_rev value bits max Hm) as H.
    destruct (first_zero_lane _ _ _) as [i|].
    - destruct H as (Hi & Hz & Hk). split_and!; [lia|lia|intros; apply Hk; lia|].
      intros _. by replace (max - 1 - (max - 1 - i)) with i by lia.
    - split_and!; [lia|lia|intros; apply H; lia|lia]. }
  assert (op_sel = 0 \/ op_sel = 1 \/ op_sel = 2 \/ op_sel = 3) as [->|[->|[->| ->]]] by lia;
    unfold ia64_simd_czx_value; sel_simpl; first [apply Hr; lia | apply Hl; lia].
Qed.

Lemma czx_zero_index_witness :
  zero_index 0x0102000304050607 8 8 (fun i => 7 - i) (ia64_simd_czx_value 0 0x0102000304050607).
Proof. refine (czx_zero_index 0 0x0102000304050607 _). lia. Defined.

(** ** The values of the unit test

    The inputs and expected results of [tests/unit/test-ia64-simd.c]. *)

Example unit_pavg1 :
  ia64_simd_pavg_value 0 0x0001020304050607 0x0807060504030201 = 0x0404040404040404.
Proof. vm_compute. reflexivity. Qed.

Example unit_pcmp_eq1 :
  ia64_simd_pcmp_value 0 0x0011223344556677 0x0011aa3344bb6677 = 0xffff00ffff00ffff.
Proof. vm_compute. reflexivity. Qed.

Example unit_pmpy2 :
  ia64_simd_pmpy_value 0 0x0004000300020001 0x0008000700060005 0 = 0x000000200000000c /\
  ia64_simd_pmpy_value 1 0x0004000300020001 0x0008000700060005 0 = 0x0000001500000005.
Proof. vm_compute. split; reflexivity. Qed.

Example unit_permutations :
  ia64_simd_mux_value 0 0x5a 0 = 0x5a5a5a5a5a5a5a5a /\
  ia64_simd_mux_value 1 0x4444333322221111 0x1b = 0x1111222233334444 /\
  ia64_simd_mix_value 2 0x4444333322221111 0x8888777766665555 = 0x4444888822226666 /\
  ia64_simd_unpack_value 3 0x4444333322221111 0x8888777766665555 = 0x2222666611115555 /\
  ia64_simd_unpack_value 2 0x4444333322221111 0x8888777766665555 = 0x4444888833337777.
Proof. vm_compute. repeat split; reflexivity. Qed.

Example unit_saturation :
  ia64_simd_pack_value 1 0x010000ff0001ffff 0x7fff0080007f8000 = 0xff807f00ffff0100 /\
  ia64_simd_pshladd2_value 0xc0003fffbfff4000 0x000100010001ffff 1 = Some 0x80017fff80007fff.
Proof. vm_compute. split; reflexivity. Qed.

Example unit_czx_sum :
  ia64_simd_czx_value 1 0x0000000000020201 = 3 /\
  ia64_simd_czx_value 0 0x0102000000000000 = 2 /\
  ia64_simd_sum_value 0x0004000300020001 0x0008000700060005 = 0x00070003000f000b.
Proof. vm_compute. repeat split; reflexivity. Qed.
