(* ===== verification/Fpreg.v ===== *)
(** * Floating-point register representation

    The model of [target/ia64/fpreg.h] and [target/ia64/fpreg.c]: the tagged
    register cache ([fr], with NaT, integer and extended-format tags), its
    conversion to and from the architected 128-bit spill format, and the IEEE
    interchange conversions.

    The theorems show that the cache loses nothing: a fill followed by a spill
    gives back the 82 architected bits, setf/getf round-trip on every binary32
    and binary64 value, and an operation on one register leaves every other
    register's spill image alone. *)
From S2P Require Import Prelude Arch Env.

(** ** Definitions *)

Definition IA64_FP_REG_INTEGER_EXP : Z := 0x1003e.
Definition IA64_FP_REG_NATVAL_EXP : Z := 0x1fffe.
Definition IA64_FP_REG_SPECIAL_EXP : Z := 0x1ffff.
Definition IA64_FP_SIGNIFICAND_INTEGER_BIT : Z := 1 <<< 63.
Definition IA64_FP_SPILL_EXP_SIGN_MASK : Z := 0x3ffff.
Definition IA64_FP_SINGLE_EXP_BASE : Z := 0x0ff80.
Definition IA64_FP_SINGLE_FRAC_MASK : Z := (1 <<< 23) - 1.
Definition IA64_FP_DOUBLE_EXP_BASE : Z := 0x0fc00.
Definition IA64_FP_DOUBLE_MAX_EXP : Z := 0x103fe.
Definition IA64_FP_DOUBLE_FRAC_MASK : Z := (1 <<< 52) - 1.
Definition IA64_FP_DOUBLE_LOW_MASK : Z := (1 <<< 11) - 1.
Definition IA64_FR_ONE : Z := 0x3ff0000000000000.
Definition IA64_FR_ZERO_INDEX : Z := 0.
Definition IA64_FR_ONE_INDEX : Z := 1.

Definition ia64_fpreg_tag_bit (reg : Z) : Z := 1 <<< (reg mod 64).

Definition ia64_fpreg_mark_written (env : CPUIA64State) (reg : Z) : CPUIA64State :=
  if reg <=? 1 then env
  else
    let env := env <| psr ::= fun p => p .| (if 32 <=? reg then IA64_PSR_MFH else IA64_PSR_MFL) |> in
    if 32 <=? reg then env <| fp; rotating_fr_live := true |> else env.

(** [tags[reg / 64] &= mask] and [tags[reg / 64] |= bit]. *)
Definition tag_and (tags : list Z) (reg mask : Z) : list Z :=
  aset tags (reg / 64) (aget tags (reg / 64) .& mask).
Definition tag_or (tags : list Z) (reg bit : Z) : list Z :=
  aset tags (reg / 64) (aget tags (reg / 64) .| bit).

Definition ia64_fpreg_clear_tags (env : CPUIA64State) (reg : Z) : CPUIA64State :=
  let mask := ~64 (ia64_fpreg_tag_bit reg) in
  env <| fp; fr_nat ::= fun t => tag_and t reg mask |>
      <| fp; fr_sig ::= fun t => tag_and t reg mask |>
      <| fp; fr_ext_valid ::= fun t => tag_and t reg mask |>
      <| fp; fr_int_origin ::= fun t => tag_and t reg mask |>
      <| fp; fr_int_value @ reg := 0 |>.

Definition tag_test (tags : list Z) (reg : Z) : bool :=
  truth ((aget tags (reg / 64) >>> (reg mod 64)) .& 1).

Definition ia64_fpreg_is_nat (env : CPUIA64State) (reg : Z) : bool :=
  (1 <? reg) && (reg <? IA64_FR_COUNT) && tag_test (fr_nat (fp env)) reg.

Definition ia64_fpreg_is_integer (env : CPUIA64State) (reg : Z) : bool :=
  (1 <? reg) && (reg <? IA64_FR_COUNT) && tag_test (fr_sig (fp env)) reg.

Definition ia64_fpreg_from_binary64 (env : CPUIA64State) (reg value : Z) : CPUIA64State :=
  if reg <=? 1 then env
  else
    let env := ia64_fpreg_clear_tags env reg in
    let env := env <| fp; fr @ reg := value |> in
    ia64_fpreg_mark_written env reg.

(** Returns the sign, exponent and significand, or [None] for [false]. *)
Definition ia64_fpreg_get_extended (env : CPUIA64State) (reg : Z) : option (bool * Z * Z) :=
  if (reg <=? 1) || (IA64_FR_COUNT <=? reg) || negb (tag_test (fr_ext_valid (fp env)) reg)
  then None
  else Some (tag_test (fr_ext_sign (fp env)) reg,
             aget (fr_ext_exp (fp env)) reg,
             aget (fr_ext_mant (fp env)) reg).

(** The conversions return significand, exponent and sign. *)
Definition binary64_to_register_format (value : Z) : Z * Z * bool :=
  let frac := value .& IA64_FP_DOUBLE_FRAC_MASK in
  let binary_exp := (value >>> 52) .& 0x7ff in
  let sign := truth (value >>> 63) in
  if binary_exp =? 0 then
    if frac =? 0 then (0, 0, sign)
    else (u64 (frac <<< 11), IA64_FP_DOUBLE_EXP_BASE + 1, sign)
  else if binary_exp =? 0x7ff then
    (IA64_FP_SIGNIFICAND_INTEGER_BIT .| u64 (frac <<< 11), IA64_FP_REG_SPECIAL_EXP, sign)
  else
    (IA64_FP_SIGNIFICAND_INTEGER_BIT .| u64 (frac <<< 11),
     IA64_FP_DOUBLE_EXP_BASE + binary_exp, sign).

Definition binary32_to_register_format (value : Z) : Z * Z * bool :=
  let frac := value .& IA64_FP_SINGLE_FRAC_MASK in
  let binary_exp := (value >>> 23) .& 0xff in
  let sign := truth (value >>> 31) in
  if binary_exp =? 0 then
    if frac =? 0 then (0, 0, sign)
    else (u64 (frac <<< 40), IA64_FP_SINGLE_EXP_BASE + 1, sign)
  else if binary_exp =? 0xff then
    (IA64_FP_SIGNIFICAND_INTEGER_BIT .| u64 (frac <<< 40), IA64_FP_REG_SPECIAL_EXP, sign)
  else
    (IA64_FP_SIGNIFICAND_INTEGER_BIT .| u64 (frac <<< 40),
     IA64_FP_SINGLE_EXP_BASE + binary_exp, sign).

Definition register_format_to_binary32 (sig exp : Z) (sign : bool) : Z :=
  let value := Z.b2z sign <<< 31 in
  let value :=
    if truth (sig .& IA64_FP_SIGNIFICAND_INTEGER_BIT)
    then value .| u32 ((((exp >>> 9) .& 0x80) .| (exp .& 0x7f)) <<< 23)
    else value in
  value .| u32 ((sig >>> 40) .& IA64_FP_SINGLE_FRAC_MASK).

Definition register_format_to_binary64 (sig exp : Z) (sign : bool) : Z :=
  let value := Z.b2z sign <<< 63 in
  let value :=
    if truth (sig .& IA64_FP_SIGNIFICAND_INTEGER_BIT)
    then value .| u64 ((((exp >>> 6) .& 0x400) .| (exp .& 0x3ff)) <<< 52)
    else value in
  value .| ((sig >>> 11) .& IA64_FP_DOUBLE_FRAC_MASK).

Definition register_format_to_binary64_exact (sig exp : Z) (sign : bool) : option Z :=
  let result := Z.b2z sign <<< 63 in
  if (sig .& (IA64_FP_SIGNIFICAND_INTEGER_BIT .| IA64_FP_DOUBLE_LOW_MASK)
        =? IA64_FP_SIGNIFICAND_INTEGER_BIT) &&
     (u32 (exp - (IA64_FP_DOUBLE_EXP_BASE + 1))
        <=? IA64_FP_DOUBLE_MAX_EXP - (IA64_FP_DOUBLE_EXP_BASE + 1))
  then
    let result := result .| u64 (u32 (exp - IA64_FP_DOUBLE_EXP_BASE) <<< 52) in
    Some (result .| ((sig >>> 11) .& IA64_FP_DOUBLE_FRAC_MASK))
  else if (sig =? 0) && (exp =? 0) then Some result
  else None.

(** The spill image [(low, high)] of a register. *)
Definition ia64_fpreg_to_spill (env : CPUIA64State) (reg : Z) : Z * Z :=
  let '(low, exp, sign) :=
    if ia64_fpreg_is_nat env reg then (0, IA64_FP_REG_NATVAL_EXP, false)
    else match ia64_fpreg_get_extended env reg with
    | Some (sign, exp, mant) => (mant, exp, sign)
    | None =>
        if ia64_fpreg_is_integer env reg then
          (aget (fr (fp env)) reg, IA64_FP_REG_INTEGER_EXP, false)
        else
          binary64_to_register_format
            (if reg =? IA64_FR_ZERO_INDEX then 0
             else if reg =? IA64_FR_ONE_INDEX then IA64_FR_ONE
             else aget (fr (fp env)) reg)
    end in
  (low, (exp .& 0x1ffff) .| (Z.b2z sign <<< 17)).

Definition ia64_fpreg_from_spill (env : CPUIA64State) (reg low high : Z) : CPUIA64State :=
  if reg <=? 1 then env
  else
    let high := high .& IA64_FP_SPILL_EXP_SIGN_MASK in
    let exp := high .& 0x1ffff in
    let sign := truth ((high >>> 17) .& 1) in
    let bit := ia64_fpreg_tag_bit reg in
    let env := ia64_fpreg_clear_tags env reg in
    let env :=
      if negb sign && (exp =? IA64_FP_REG_NATVAL_EXP) && (low =? 0) then
        env <| fp; fr @ reg := 0 |> <| fp; fr_nat ::= fun t => tag_or t reg bit |>
      else if negb sign && (exp =? IA64_FP_REG_INTEGER_EXP) then
        env <| fp; fr @ reg := low |>
            <| fp; fr_sig ::= fun t => tag_or t reg bit |>
            <| fp; fr_int_value @ reg := low |>
            <| fp; fr_int_origin ::= fun t => tag_or t reg bit |>
      else match register_format_to_binary64_exact low exp sign with
      | Some compact => env <| fp; fr @ reg := compact |>
      | None =>
          env <| fp; fr @ reg := 0 |>
              <| fp; fr_ext_mant @ reg := low |>
              <| fp; fr_ext_exp @ reg := exp |>
              <| fp; fr_ext_sign ::= fun t =>
                   if sign then tag_or t reg bit else tag_and t reg (~64 bit) |>
              <| fp; fr_ext_valid ::= fun t => tag_or t reg bit |>
      end in
    ia64_fpreg_mark_written env reg.

Definition ia64_fpreg_from_binary32 (env : CPUIA64State) (reg value : Z) : CPUIA64State :=
  let '(sig, exp, sign) := binary32_to_register_format value in
  ia64_fpreg_from_spill env reg sig (exp .| (Z.b2z sign <<< 17)).

Definition ia64_fpreg_to_binary32 (env : CPUIA64State) (reg : Z) : Z :=
  let '(low, high) := ia64_fpreg_to_spill env reg in
  register_format_to_binary32 low (high .& 0x1ffff) (truth ((high >>> 17) .& 1)).

Definition ia64_fpreg_to_binary64 (env : CPUIA64State) (reg : Z) : Z :=
  let '(low, high) := ia64_fpreg_to_spill env reg in
  register_format_to_binary64 low (high .& 0x1ffff) (truth ((high >>> 17) .& 1)).

(** ** Well-formedness *)

(** The array sizes of [IA64FPState]. *)
Record fp_wf (s : IA64FPState) : Prop := {
  wf_fr : length (fr s) = 128%nat;
  wf_fr_nat : length (fr_nat s) = 2%nat;
  wf_fr_sig : length (fr_sig s) = 2%nat;
  wf_fr_ext_mant : length (fr_ext_mant s) = 128%nat;
  wf_fr_ext_exp : length (fr_ext_exp s) = 128%nat;
  wf_fr_ext_sign : length (fr_ext_sign s) = 2%nat;
  wf_fr_ext_valid : length (fr_ext_valid s) = 2%nat;
  wf_fr_int_value : length (fr_int_value s) = 128%nat;
  wf_fr_int_origin : length (fr_int_origin s) = 2%nat
}.

Lemma tag_test_bm t r : tag_test t r = bm_get t r.
Proof. apply truth_bm_get. Qed.

Lemma tag_test_or t i j :
  length t = 2%nat -> 0 <= i < 128 -> 0 <= j ->
  tag_test (tag_or t i (ia64_fpreg_tag_bit i)) j = (i =? j) || tag_test t j.
Proof. intros Ht Hi Hj. rewrite !tag_test_bm. apply bm_get_set; rewrite ?Ht; lia. Qed.

Lemma tag_test_and t i j :
  length t = 2%nat -> 0 <= i < 128 -> 0 <= j ->
  tag_test (tag_and t i (~64 (ia64_fpreg_tag_bit i))) j = negb (i =? j) && tag_test t j.
Proof. intros Ht Hi Hj. rewrite !tag_test_bm. apply bm_get_clear; rewrite ?Ht; lia. Qed.

Lemma tag_or_length t i b : length (tag_or t i b) = length t.
Proof. apply aset_length. Qed.

Lemma tag_and_length t i b : length (tag_and t i b) = length t.
Proof. apply aset_length. Qed.

#[local] Arguments tag_or : simpl never.
#[local] Arguments tag_and : simpl never.
#[local] Arguments tag_test : simpl never.
#[local] Arguments ia64_fpreg_tag_bit : simpl never.

(** Reads of updated tag words and arrays, on a well-formed state. *)
Create Rewrite HintDb fpreg.
#[local] Hint Rewrite tag_or_length tag_and_length @aset_length : fpreg.
#[local] Hint Rewrite tag_test_or tag_test_and @aget_aset
  using (autorewrite with fpreg; first [assumption | lia]) : fpreg.

Lemma fp_wf_clear_tags env reg : fp_wf (fp env) -> fp_wf (fp (ia64_fpreg_clear_tags env reg)).
Proof. intros []; constructor; cbn; autorewrite with fpreg; done. Qed.

Lemma fp_wf_mark_written env reg : fp_wf (fp env) -> fp_wf (fp (ia64_fpreg_mark_written env reg)).
Proof.
  intros []. unfold ia64_fpreg_mark_written. repeat case_match; constructor; cbn; done.
Qed.

Lemma to_spill_mark_written env reg r :
  ia64_fpreg_to_spill (ia64_fpreg_mark_written env reg) r = ia64_fpreg_to_spill env r.
Proof.
  unfold ia64_fpreg_mark_written. destruct (reg <=? 1); [done|].
  destruct (32 <=? reg); reflexivity.
Qed.

Lemma fp_wf_from_spill env reg low high :
  fp_wf (fp env) -> fp_wf (fp (ia64_fpreg_from_spill env reg low high)).
Proof.
  intros Hwf. unfold ia64_fpreg_from_spill. destruct (reg <=? 1); [done|].
  apply fp_wf_mark_written. destruct Hwf.
  repeat case_match; constructor; cbn; repeat case_match; autorewrite with fpreg; done.
Qed.

(** ** Conversions *)

Lemma truth_b2z b : truth (Z.b2z b) = b.
Proof. by destruct b. Qed.

(** The three fields of an assembled binary64 word. *)
Lemma binary64_fields sign be frac :
  uint 11 be -> uint 52 frac ->
  let v := (Z.b2z sign <<< 63) .| (be <<< 52) .| frac in
  v .& Z.ones 52 = frac /\ (v >>> 52) .& Z.ones 11 = be /\ v >>> 63 = Z.b2z sign.
Proof.
  intros Hbe Hfrac v. subst v. split_and!; zbits.
Qed.

Lemma normal_significand sig :
  uint 64 sig ->
  sig .& (IA64_FP_SIGNIFICAND_INTEGER_BIT .| IA64_FP_DOUBLE_LOW_MASK) =
    IA64_FP_SIGNIFICAND_INTEGER_BIT ->
  IA64_FP_SIGNIFICAND_INTEGER_BIT .|
    u64 (((sig >>> 11) .& IA64_FP_DOUBLE_FRAC_MASK) <<< 11) = sig.
Proof.
  intros Hsig H.
  change IA64_FP_SIGNIFICAND_INTEGER_BIT with (2 ^ 63) in *.
  change IA64_FP_DOUBLE_LOW_MASK with (Z.ones 11) in *.
  change IA64_FP_DOUBLE_FRAC_MASK with (Z.ones 52).
  assert (Hb : forall i, 0 <= i ->
    Z.testbit sig i && ((63 =? i) || (i <? 11)) = (63 =? i)).
  { intros i Hi. apply (f_equal (fun z => Z.testbit z i)) in H.
    by rewrite Z.land_spec, Z.lor_spec, pow2_spec, ones_spec in H by lia. }
  apply Z.bits_inj'. intros i Hi. specialize (Hb i Hi). revert Hb.
  zbits_step; zrange; destruct (Z.testbit sig i) eqn:E; try done; intros _.
  - replace (i - 11 + 11) with i by lia. by rewrite E.
  - replace (i - 11 + 11) with i by lia. by rewrite E.
Qed.

(** [binary64_to_register_format] undoes [register_format_to_binary64_exact]:
    the compact form is used only when it loses nothing. *)
Lemma exact_register_format sig exp sign v :
  uint 64 sig -> uint 17 exp ->
  register_format_to_binary64_exact sig exp sign = Some v ->
  binary64_to_register_format v = (sig, exp, sign).
Proof.
  intros Hsig Hexp. unfold register_format_to_binary64_exact.
  unfold IA64_FP_DOUBLE_EXP_BASE, IA64_FP_DOUBLE_MAX_EXP.
  destruct (Z.eqb_spec (sig .& (IA64_FP_SIGNIFICAND_INTEGER_BIT .| IA64_FP_DOUBLE_LOW_MASK))
              IA64_FP_SIGNIFICAND_INTEGER_BIT) as [Hs|]; cbn [andb].
  2:{ destruct (Z.eqb_spec sig 0) as [->|], (Z.eqb_spec exp 0) as [->|]; cbn [andb]; try done.
      intros [= <-]. by destruct sign. }
  destruct (Z.leb_spec (u32 (exp - (0xfc00 + 1))) (0x103fe - (0xfc00 + 1))) as [He|].
  2:{ destruct (Z.eqb_spec sig 0) as [->|], (Z.eqb_spec exp 0) as [->|]; done. }
  assert (Hrange : 0xfc01 <= exp <= 0x103fe).
  { unfold wrap in He. destruct Hexp. Z.div_mod_to_equations. lia. }
  rewrite (wrap_small 32 (exp - 0xfc00)) by (unfold uint; lia).
  remember (exp - 0xfc00) as be eqn:Hbe.
  assert (uint 11 be) by (unfold uint; lia).
  rewrite (wrap_small 64 (be <<< 52)) by (apply (uint_shiftl 64 11); done || lia).
  intros [= <-].
  pose proof (normal_significand sig Hsig Hs) as Hnorm.
  assert (Hfrac : uint 52 ((sig >>> 11) .& IA64_FP_DOUBLE_FRAC_MASK))
    by (apply uint_land_r; [lia|uint_const]).
  destruct (binary64_fields sign be _ H Hfrac) as (E1 & E2 & E3).
  unfold binary64_to_register_format.
  change 0x7ff with (Z.ones 11). change IA64_FP_DOUBLE_FRAC_MASK with (Z.ones 52) in *.
  rewrite E1, E2, E3, truth_b2z, Hnorm.
  destruct (Z.eqb_spec be 0); [lia|]. destruct (Z.eqb_spec be (Z.ones 11)) as [Ho|].
  { change (Z.ones 11) with 0x7ff in Ho. lia. }
  unfold IA64_FP_DOUBLE_EXP_BASE. do 2 f_equal. lia.
Qed.

(** ** The spill image *)

(** A spill depends only on the register's own tags and values. *)
Lemma to_spill_ext env env' r :
  (1 < r -> tag_test (fr_nat (fp env)) r = tag_test (fr_nat (fp env')) r /\
            tag_test (fr_sig (fp env)) r = tag_test (fr_sig (fp env')) r /\
            tag_test (fr_ext_valid (fp env)) r = tag_test (fr_ext_valid (fp env')) r /\
            tag_test (fr_ext_sign (fp env)) r = tag_test (fr_ext_sign (fp env')) r /\
            aget (fr_ext_exp (fp env)) r = aget (fr_ext_exp (fp env')) r /\
            aget (fr_ext_mant (fp env)) r = aget (fr_ext_mant (fp env')) r /\
            aget (fr (fp env)) r = aget (fr (fp env')) r) ->
  0 <= r -> ia64_fpreg_to_spill env r = ia64_fpreg_to_spill env' r.
Proof.
  intros H Hr. unfold ia64_fpreg_to_spill, ia64_fpreg_is_nat, ia64_fpreg_is_integer,
    ia64_fpreg_get_extended.
  destruct (Z.ltb_spec 1 r) as [Hlt|Hle].
  - destruct (H Hlt) as (-> & -> & -> & -> & -> & -> & ->). reflexivity.
  - assert (r = 0 \/ r = 1) as [-> | ->] by lia; reflexivity.
Qed.

(** A fill changes only the register it names: every other register
    spills to the same image as before. *)
Theorem from_spill_other env reg low high r :
  fp_wf (fp env) -> 0 <= reg < IA64_FR_COUNT -> 0 <= r -> r <> reg ->
  ia64_fpreg_to_spill (ia64_fpreg_from_spill env reg low high) r = ia64_fpreg_to_spill env r.
Proof.
  unfold IA64_FR_COUNT. intros [] Hreg Hr Hne.
  unfold ia64_fpreg_from_spill. destruct (reg <=? 1); [done|].
  rewrite to_spill_mark_written. apply to_spill_ext; [|done]. intros Hlt.
  repeat case_match; cbn; autorewrite with fpreg;
    (destruct (Z.eqb_spec reg r); [lia|]); done.
Qed.

Lemma from_spill_other_witness :
  ia64_fpreg_to_spill (ia64_fpreg_from_spill zero_env 33 7 0x1003e) 34 =
    ia64_fpreg_to_spill zero_env 34.
Proof. apply (from_spill_other zero_env 33 7 0x1003e 34); [by constructor|done|lia|lia]. Defined.

Lemma spill_high_fields high :
  let exp := (high .& IA64_FP_SPILL_EXP_SIGN_MASK) .& 0x1ffff in
  let sign := truth (((high .& IA64_FP_SPILL_EXP_SIGN_MASK) >>> 17) .& 1) in
  uint 17 exp /\
  (exp .& 0x1ffff) .| (Z.b2z sign <<< 17) = high .& IA64_FP_SPILL_EXP_SIGN_MASK.
Proof.
  cbv zeta. split; [apply uint_land_r; [lia|uint_const]|].
  change 0x1ffff with (Z.ones 17). change IA64_FP_SPILL_EXP_SIGN_MASK with (Z.ones 18).
  rewrite truth_shiftr_1 by lia.
  apply Z.bits_inj'. intros i Hi. zbits_step; try done; zbits_finish.
  replace i with 17 by lia. done.
Qed.

Lemma to_spill_from_spill env reg low high :
  fp_wf (fp env) -> 2 <= reg < IA64_FR_COUNT -> uint 64 low ->
  ia64_fpreg_to_spill (ia64_fpreg_from_spill env reg low high) reg =
    (low, high .& IA64_FP_SPILL_EXP_SIGN_MASK).
Proof.
  unfold IA64_FR_COUNT. intros [] Hreg Hlow.
  destruct (spill_high_fields high) as [Hexp Hhigh]. rewrite <- Hhigh.
  unfold ia64_fpreg_from_spill. destruct (Z.leb_spec reg 1); [lia|].
  rewrite to_spill_mark_written.
  revert Hexp. generalize ((high .& IA64_FP_SPILL_EXP_SIGN_MASK) .& 0x1ffff) as exp.
  generalize (truth (((high .& IA64_FP_SPILL_EXP_SIGN_MASK) >>> 17) .& 1)) as sign.
  clear Hhigh. intros sign exp Hexp.
  unfold ia64_fpreg_to_spill, ia64_fpreg_is_nat, ia64_fpreg_get_extended,
    ia64_fpreg_is_integer, IA64_FR_COUNT.
  destruct (Z.ltb_spec 1 reg); [|lia]. destruct (Z.ltb_spec reg 128); [|lia].
  destruct (Z.leb_spec reg 1); [lia|]. destruct (Z.leb_spec 128 reg); [lia|].
  cbn [andb orb].
  destruct (negb sign && (exp =? IA64_FP_REG_NATVAL_EXP) && (low =? 0)) eqn:Hnat.
  { apply andb_true_iff in Hnat as [[Hs He]%andb_true_iff Hl].
    destruct sign; [done|]. apply Z.eqb_eq in He, Hl. subst.
    cbn. autorewrite with fpreg. by rewrite Z.eqb_refl. }
  destruct (negb sign && (exp =? IA64_FP_REG_INTEGER_EXP)) eqn:Hint.
  { apply andb_true_iff in Hint as [Hs He]. destruct sign; [done|].
    apply Z.eqb_eq in He. subst.
    cbn. autorewrite with fpreg. rewrite Z.eqb_refl. cbn. reflexivity. }
  destruct (register_format_to_binary64_exact low exp sign) as [v|] eqn:Hv.
  { cbn. autorewrite with fpreg. rewrite Z.eqb_refl. cbn.
    destruct (Z.eqb_spec reg IA64_FR_ZERO_INDEX) as [E|]; [unfold IA64_FR_ZERO_INDEX in E; lia|].
    destruct (Z.eqb_spec reg IA64_FR_ONE_INDEX) as [E|]; [unfold IA64_FR_ONE_INDEX in E; lia|].
    by rewrite (exact_register_format low exp sign v). }
  cbn. destruct sign; autorewrite with fpreg; rewrite Z.eqb_refl; reflexivity.
Qed.

(** C39. Spill and fill are inverse: after a fill with any 128-bit image the
    register spills to the same significand and to the same exponent and sign,
    whichever of the four internal representations the fill has chosen; the
    bits above bit 17 of the high word are ignored. *)
Theorem spill_fill_roundtrip env reg low high :
  fp_wf (fp env) -> 2 <= reg < IA64_FR_COUNT -> uint 64 low ->
  ia64_fpreg_to_spill (ia64_fpreg_from_spill env reg low high) reg =
    (low, high .& IA64_FP_SPILL_EXP_SIGN_MASK).
Proof. intros. by apply to_spill_from_spill. Qed.

(** ** IEEE interchange formats *)

(** Exhaustive check of a boolean property of a bounded field. *)
Lemma forall_range (P : Z -> bool) n :
  forallb P (seqZ 0 n) = true -> forall x, 0 <= x < n -> P x = true.
Proof.
  rewrite List.forallb_forall. intros H x Hx. apply H, list_elem_of_In, elem_of_seqZ. lia.
Qed.

Lemma spill_fill_roundtrip_witness :
  ia64_fpreg_to_spill (ia64_fpreg_from_spill zero_env 2 5 0x3ffff) 2 = (5, 0x3ffff).
Proof.
  apply (spill_fill_roundtrip zero_env 2 5 0x3ffff); [by constructor|done|uint_const].
Defined.

Lemma double_exponent be :
  0 <= be < 2048 ->
  let exp := if be =? 0x7ff then IA64_FP_REG_SPECIAL_EXP else IA64_FP_DOUBLE_EXP_BASE + be in
  ((exp >>> 6) .& 0x400) .| (exp .& 0x3ff) = be /\ exp .& 0x1ffff = exp.
Proof.
  intros Hbe exp.
  pose proof (forall_range (fun be =>
    let exp := if be =? 0x7ff then IA64_FP_REG_SPECIAL_EXP else IA64_FP_DOUBLE_EXP_BASE + be in
    (((exp >>> 6) .& 0x400) .| (exp .& 0x3ff) =? be) && (exp .& 0x1ffff =? exp))
    2048 ltac:(vm_compute; reflexivity) be Hbe) as H.
  cbv beta zeta in H. apply andb_true_iff in H. by rewrite !Z.eqb_eq in H.
Qed.

Lemma single_exponent be :
  0 <= be < 256 ->
  let exp := if be =? 0xff then IA64_FP_REG_SPECIAL_EXP else IA64_FP_SINGLE_EXP_BASE + be in
  ((exp >>> 9) .& 0x80) .| (exp .& 0x7f) = be /\ exp .& 0x1ffff = exp.
Proof.
  intros Hbe exp.
  pose proof (forall_range (fun be =>
    let exp := if be =? 0xff then IA64_FP_REG_SPECIAL_EXP else IA64_FP_SINGLE_EXP_BASE + be in
    (((exp >>> 9) .& 0x80) .| (exp .& 0x7f) =? be) && (exp .& 0x1ffff =? exp))
    256 ltac:(vm_compute; reflexivity) be Hbe) as H.
  cbv beta zeta in H. apply andb_true_iff in H. by rewrite !Z.eqb_eq in H.
Qed.

(** A word of sign, [e]-bit exponent and [f]-bit fraction is its fields. *)
Lemma ieee_fields e f v :
  0 < e -> 0 < f -> uint (e + f + 1) v ->
  v = (Z.b2z (Z.testbit v (e + f)) <<< (e + f)) .|
      (((v >>> f) .& Z.ones e) <<< f) .| (v .& Z.ones f).
Proof.
  intros He Hf Hv. apply Z.bits_inj'. intros i Hi.
  zbits_step; zrange; try btauto; try done.
  - replace i with (e + f) by lia. btauto.
  - replace (i - f + f) with i by lia. btauto.
Qed.

Lemma truth_sign w v : 0 <= w -> uint (w + 1) v -> truth (v >>> w) = Z.testbit v w.
Proof.
  intros Hw Hv. rewrite <- truth_shiftr_1 by done. f_equal. zbits.
Qed.

Lemma binary64_register_format v :
  uint 64 v ->
  let '(sig, exp, sign) := binary64_to_register_format v in
  register_format_to_binary64 sig exp sign = v /\ exp .& 0x1ffff = exp /\ uint 64 sig.
Proof.
  intros Hv. unfold binary64_to_register_format, register_format_to_binary64.
  change IA64_FP_SIGNIFICAND_INTEGER_BIT with (2 ^ 63).
  change IA64_FP_DOUBLE_FRAC_MASK with (Z.ones 52). change 0x7ff with (Z.ones 11).
  rewrite (truth_sign 63) by (done || lia).
  pose proof (ieee_fields 11 52 v ltac:(lia) ltac:(lia) Hv) as Hf. change (11 + 52) with 63 in Hf.
  assert (Hfrac : uint 52 (v .& Z.ones 52)) by (apply uint_land_r; [lia|uint_const]).
  assert (Hbe : uint 11 ((v >>> 52) .& Z.ones 11)) by (apply uint_land_r; [lia|uint_const]).
  revert Hf Hfrac Hbe. generalize (v .& Z.ones 52) as frac.
  generalize ((v >>> 52) .& Z.ones 11) as be. generalize (Z.testbit v 63) as sign.
  intros sign be frac -> Hfrac Hbe. clear Hv.
  rewrite (wrap_small 64) by (apply (uint_shiftl 64 52); lia || done).
  destruct (Z.eqb_spec be 0) as [->|Hnz].
  { destruct (Z.eqb_spec frac 0) as [->|].
    - rewrite truth_land_pow2 by lia. cbn [Z.testbit]. split_and!; [by destruct sign|done|uint_const].
    - rewrite truth_land_pow2, shiftl_spec' by lia. zrange. rewrite andb_false_r.
      split_and!; [|done|apply (uint_shiftl 64 52); lia || done].
      rewrite Z.shiftl_0_l, Z.lor_0_r. f_equal. zbits. }
  assert (Hi : truth ((2 ^ 63 .| frac <<< 11) .& 2 ^ 63) = true)
    by (rewrite truth_land_pow2 by lia; zbits_step; done).
  assert (Hfr : ((2 ^ 63 .| frac <<< 11) >>> 11) .& Z.ones 52 = frac) by zbits.
  destruct (double_exponent be Hbe) as [He1 He2].
  change 0x7ff with (Z.ones 11) in *.
  destruct (be =? Z.ones 11); rewrite Hi, Hfr, He1, wrap_small by
    (apply (uint_shiftl 64 11); lia || done); split_and!; try done.
  all: apply uint_lor; [lia|uint_const|apply (uint_shiftl 64 52); lia || done].
Qed.

Lemma binary32_register_format v :
  uint 32 v ->
  let '(sig, exp, sign) := binary32_to_register_format v in
  register_format_to_binary32 sig exp sign = v /\ exp .& 0x1ffff = exp /\ uint 64 sig.
Proof.
  intros Hv. unfold binary32_to_register_format, register_format_to_binary32.
  change IA64_FP_SIGNIFICAND_INTEGER_BIT with (2 ^ 63).
  change IA64_FP_SINGLE_FRAC_MASK with (Z.ones 23). change 0xff with (Z.ones 8).
  rewrite (truth_sign 31) by (done || lia).
  pose proof (ieee_fields 8 23 v ltac:(lia) ltac:(lia) Hv) as Hf. change (8 + 23) with 31 in Hf.
  assert (Hfrac : uint 23 (v .& Z.ones 23)) by (apply uint_land_r; [lia|uint_const]).
  assert (Hbe : uint 8 ((v >>> 23) .& Z.ones 8)) by (apply uint_land_r; [lia|uint_const]).
  revert Hf Hfrac Hbe. generalize (v .& Z.ones 23) as frac.
  generalize ((v >>> 23) .& Z.ones 8) as be. generalize (Z.testbit v 31) as sign.
  intros sign be frac -> Hfrac Hbe. clear Hv.
  rewrite (wrap_small 64) by (apply (uint_shiftl 64 23); lia || done).
  destruct (Z.eqb_spec be 0) as [->|Hnz].
  { destruct (Z.eqb_spec frac 0) as [->|].
    - rewrite truth_land_pow2 by lia. cbn [Z.testbit]. split_and!; [by destruct sign|done|uint_const].
    - rewrite truth_land_pow2, shiftl_spec' by lia. zrange. rewrite andb_false_r.
      split_and!; [|done|apply (uint_shiftl 64 23); lia || done].
      rewrite Z.shiftl_0_l, Z.lor_0_r. f_equal. zbits. }
  assert (Hi : truth ((2 ^ 63 .| frac <<< 40) .& 2 ^ 63) = true)
    by (rewrite truth_land_pow2 by lia; zbits_step; done).
  assert (Hfr : ((2 ^ 63 .| frac <<< 40) >>> 40) .& Z.ones 23 = frac) by zbits.
  destruct (single_exponent be Hbe) as [He1 He2].
  change 0xff with (Z.ones 8) in *.
  destruct (be =? Z.ones 8); rewrite Hi, Hfr, He1, !(wrap_small 32) by
    first [apply (uint_shiftl 32 8); lia || done | apply (uint_mono 23); lia || done]; split_and!; try done.
  all: apply uint_lor; [lia|uint_const|apply (uint_shiftl 64 23); lia || done].
Qed.

Lemma spill_high_join exp sign :
  exp .& 0x1ffff = exp ->
  let high := exp .| (Z.b2z sign <<< 17) in
  high .& 0x1ffff = exp /\ truth ((high >>> 17) .& 1) = sign /\
  high .& IA64_FP_SPILL_EXP_SIGN_MASK = high.
Proof.
  change 0x1ffff with (Z.ones 17). intros Hexp high. subst high.
  change IA64_FP_SPILL_EXP_SIGN_MASK with (Z.ones 18).
  assert (Hu : uint 17 exp) by (rewrite <- Hexp; apply uint_land_r; [lia|uint_const]).
  rewrite truth_shiftr_1 by lia. split_and!; [zbits| |zbits].
  zbits_step. zrange. by destruct sign.
Qed.

(** [setf.d] then [getf.d]: every binary64 value, denormals, infinities
    and NaNs included, comes back unchanged from the register it was written
    to. *)
Theorem binary64_roundtrip env reg v :
  fp_wf (fp env) -> 2 <= reg < IA64_FR_COUNT -> uint 64 v ->
  ia64_fpreg_to_binary64 (ia64_fpreg_from_binary64 env reg v) reg = v.
Proof.
  unfold IA64_FR_COUNT. intros [] Hreg Hv.
  assert (Hspill : ia64_fpreg_to_spill (ia64_fpreg_from_binary64 env reg v) reg =
    let '(sig, exp, sign) := binary64_to_register_format v in
    (sig, (exp .& 0x1ffff) .| (Z.b2z sign <<< 17))).
  { unfold ia64_fpreg_from_binary64. destruct (Z.leb_spec reg 1); [lia|].
    rewrite to_spill_mark_written. unfold ia64_fpreg_to_spill, ia64_fpreg_is_nat,
      ia64_fpreg_get_extended, ia64_fpreg_is_integer, IA64_FR_ZERO_INDEX, IA64_FR_ONE_INDEX.
    cbn. autorewrite with fpreg. rewrite !Z.eqb_refl. cbn.
    rewrite !andb_false_r, orb_true_r.
    destruct (Z.eqb_spec reg 0), (Z.eqb_spec reg 1); [lia..|]. reflexivity. }
  unfold ia64_fpreg_to_binary64. rewrite Hspill.
  pose proof (binary64_register_format v Hv) as H.
  destruct (binary64_to_register_format v) as [[sig exp] sign].
  destruct H as (H & He & _). destruct (spill_high_join exp sign He) as (E1 & E2 & _).
  by rewrite He, E1, E2.
Qed.

Lemma binary64_roundtrip_witness :
  ia64_fpreg_to_binary64 (ia64_fpreg_from_binary64 zero_env 127 0x7ff8000000000001) 127 =
    0x7ff8000000000001.
Proof.
  apply (binary64_roundtrip zero_env 127); [by constructor|done|uint_const].
Defined.

(** [setf.s] then [getf.s]: every binary32 value comes back unchanged. *)
Theorem binary32_roundtrip env reg v :
  fp_wf (fp env) -> 2 <= reg < IA64_FR_COUNT -> uint 32 v ->
  ia64_fpreg_to_binary32 (ia64_fpreg_from_binary32 env reg v) reg = v.
Proof.
  intros Hwf Hreg Hv. unfold ia64_fpreg_from_binary32, ia64_fpreg_to_binary32.
  pose proof (binary32_register_format v Hv) as H.
  destruct (binary32_to_register_format v) as [[sig exp] sign]. destruct H as (H & He & Hsig).
  destruct (spill_high_join exp sign He) as (E1 & E2 & E3).
  rewrite to_spill_from_spill by done. by rewrite E3, E1, E2.
Qed.

Lemma binary32_roundtrip_witness :
  ia64_fpreg_to_binary32 (ia64_fpreg_from_binary32 zero_env 8 0x80000001) 8 = 0x80000001.
Proof. apply (binary32_roundtrip zero_env 8); [by constructor|done|uint_const]. Defined.
