(* ===== verification/Alat.v ===== *)
(** * The advanced load address table

    The model of [target/ia64/arch/alat.c] (the helpers of [helper-alat.c] only
    forward to it).  The table is local to a processor; what other processors
    and devices do to memory is seen through shared counters: a store sequence
    per CPU, odd while a store is in progress, and the generation and
    active-writer counters of [system/physmem.c].

    The counters of the others are given by a trace, a function from time to
    their values; every atomic read of the code reads the trace at the current
    time and advances it by one, so a statement about all traces is a statement
    about all interleavings.  The processor's own sequence and its own
    contributions to the generation are part of the state.

    Address translation with PSR.dt set is a parameter (class [Translation]). *)
From S2P Require Import Prelude Arch Env.

Inductive IA64MemorySpeculation : Set :=
  | IA64_MEM_NON_SPECULATIVE
  | IA64_MEM_LIMITED_SPECULATION
  | IA64_MEM_SPECULATIVE.

(** [ia64_data_address_to_mapped_phys_attr] of [mmu.c] for a data reference at
    the current privilege level: the physical address and its attribute. *)
Class Translation : Type :=
  mapped_phys_attr : CPUIA64State -> Z -> option (Z * IA64MemorySpeculation).

(** ** Shared counters *)

(** What other agents have published: [memory_write_generation] without this
    processor's increments, [memory_write_active_writers], and the store
    sequence of each CPU. *)
Record shared : Type := mkShared {
  sh_generation : Z;
  sh_active_writers : Z;
  sh_sequence : Z -> Z
}.

(** The state of the operations: the processor, its own store sequence
    ([alat_write_sequence]), how often it has advanced the generation itself,
    and the time. *)
Record alat_sys : Type := mkAlatSys {
  cpu_env : CPUIA64State;
  own_sequence : Z;
  own_advances : Z;
  now : nat
}.

#[export] Instance eta_alat_sys : Eta alat_sys := fun s =>
  mkAlatSys (cpu_env s) (own_sequence s) (own_advances s) (now s).

Abbreviation AM := (M cpu_exit alat_sys).

(** ** Table operations without memory samples *)

Abbreviation amap f s := (s <| alat_state ::= f |>).

(** [alat_reg_slot[fp][reg]]. *)
Definition slot_get (t : list (list Z)) (is_fp : bool) (r : Z) : Z :=
  aget (aget t (Z.b2z is_fp)) r.
Definition slot_set (t : list (list Z)) (is_fp : bool) (r v : Z) : list (list Z) :=
  aset t (Z.b2z is_fp) (aset (aget t (Z.b2z is_fp)) r v).

Abbreviation reg_slot a := (slot_get (alat_reg_slot a)).

(** The entry is named by its index, which is [entry - alat] in the source. *)
Definition ia64_alat_invalidate_entry (a : IA64AlatState) (i : Z) : IA64AlatState :=
  let entry := aget (alat a) i in
  if negb (e_valid entry) then a
  else
    let a := a <| alat @ i := entry <| e_valid := false |> |> in
    let a := a <| alat_reg_slot ::= fun t => slot_set t (e_fp entry) (e_reg entry) 0 |> in
    let a := a <| alat_occupied ::= fun o => o .& ~32 (1 <<< i) |> in
    if 0 <? alat_active_count a then a <| alat_active_count ::= fun c => c - 1 |> else a.

Definition ia64_alat_clear (a : IA64AlatState) : IA64AlatState :=
  let a := a <| alat_reg_slot := [replicate 128 0; replicate 128 0] |> in
  let a := a <| alat_occupied := 0 |> in
  if alat_active_count a =? 0 then a
  else
    let a := for_range 0 IA64_ALAT_ENTRIES (fun a i =>
      a <| alat ::= fun t => aset t i ((aget t i) <| e_valid := false |>) |>) a in
    a <| alat_active_count := 0 |>.

Definition ia64_invalidate_alat_reg_range (a : IA64AlatState) (first last : Z) (is_fp : bool)
    : IA64AlatState :=
  while_bits (alat_occupied a) (fun a i =>
    let e := aget (alat a) i in
    if eqb (e_fp e) is_fp && (first <=? e_reg e) && (e_reg e <? last)
    then ia64_alat_invalidate_entry a i else a) a.

Definition ia64_ranges_overlap (start size other_start other_size : Z) : bool :=
  if (size =? 0) || (other_size =? 0) then false
  else
    let end_ := u64 (start + size - 1) in
    let end_ := if end_ <? start then UINT64_MAX else end_ in
    let other_end := u64 (other_start + other_size - 1) in
    let other_end := if other_end <? other_start then UINT64_MAX else other_end in
    (start <=? other_end) && (other_start <=? end_).

Definition IA64_ROTATING_FR_BASE : Z := 32.

Definition ia64_invalidate_stacked_alat (env : CPUIA64State) : CPUIA64State :=
  amap (fun a => ia64_invalidate_alat_reg_range a IA64_STACKED_GR_BASE IA64_GR_COUNT false) env.

Definition ia64_invalidate_rotating_fp_alat (env : CPUIA64State) : CPUIA64State :=
  amap (fun a => ia64_invalidate_alat_reg_range a IA64_ROTATING_FR_BASE IA64_FR_COUNT true) env.

Definition ia64_alat_invalidate_register (a : IA64AlatState) (r : Z) (is_fp : bool)
    : IA64AlatState :=
  if IA64_GR_COUNT <=? r then a
  else
    let i := reg_slot a is_fp r - 1 in
    if 0 <=? i then ia64_alat_invalidate_entry a i else a.

Definition ia64_alat_invalidate_reg (env : CPUIA64State) (r : Z) : CPUIA64State :=
  amap (fun a => ia64_alat_invalidate_register a r false) env.

Definition ia64_alat_invalidate_fp_reg (env : CPUIA64State) (r : Z) : CPUIA64State :=
  amap (fun a => ia64_alat_invalidate_register a r true) env.

Definition ia64_memory_allows_advanced_load (spec : IA64MemorySpeculation) : bool :=
  match spec with IA64_MEM_NON_SPECULATIVE => false | _ => true end.

Definition IA64_PHYS_UC_BIT : Z := 1 <<< 63.

Definition ia64_physical_address (addr : Z) : Z := addr .& ~64 IA64_PHYS_UC_BIT.

Definition ia64_data_address_to_phys_attr `{Translation} (env : CPUIA64State) (va : Z)
    : option (Z * IA64MemorySpeculation) :=
  if negb (truth (psr env .& IA64_PSR_DT)) then
    Some (ia64_physical_address va,
          if truth (va .& IA64_PHYS_UC_BIT) then IA64_MEM_NON_SPECULATIVE
          else IA64_MEM_LIMITED_SPECULATION)
  else mapped_phys_attr env va.

Definition ia64_data_address_to_phys `{Translation} (env : CPUIA64State) (va : Z) : option Z :=
  fst <$> ia64_data_address_to_phys_attr env va.

(** ** Operations that sample the counters *)

Section sampling.
Context `{Translation}.
(** The trace of the other agents, the number of CPUs and this CPU's index. *)
Variable T : nat -> shared.
Variable ncpu self : Z.

(** One atomic read of what the others have published. *)
Definition sample {A} (f : shared -> alat_sys -> A) : AM A := fun s =>
  Ok (f (T (now s)) s) (s <| now ::= S |>).

Definition physical_memory_write_generation : AM Z :=
  sample (fun sh s => u64 (sh_generation sh + own_advances s)).

Definition physical_memory_write_generation_changed (generation : Z) : AM bool :=
  let! active_before := sample (fun sh _ => sh_active_writers sh) in
  let! current_generation := physical_memory_write_generation in
  let! active_after := sample (fun sh _ => sh_active_writers sh) in
  mret (truth active_before || truth active_after ||
        negb (current_generation =? generation)).

Definition physical_memory_write_generation_advance : AM unit :=
  mmod (fun s => s <| own_advances ::= fun n => n + 1 |>).

(** [alat_write_sequence] of CPU [i]. *)
Definition load_sequence (i : Z) : AM Z :=
  sample (fun sh s => u64 (if i =? self then own_sequence s else sh_sequence sh i)).

(** The loop over the CPUs; the second result is the [active] flag. *)
Fixpoint cpu_foreach (cpus : list Z) (generation : Z) (active : bool) : AM (Z * bool) :=
  match cpus with
  | [] => mret (generation, active)
  | i :: cpus =>
      let! sequence := load_sequence i in
      cpu_foreach cpus (u64 (generation + sequence)) (active || truth (sequence .& 1))
  end.

Definition ia64_alat_cpu_generation : AM (Z * bool) :=
  if ncpu =? 1 then
    let! sequence := load_sequence self in
    mret (sequence, truth (sequence .& 1))
  else cpu_foreach (seqZ 0 ncpu) 0 false.

Definition ia64_alat_memory_generation : AM Z :=
  let! g := physical_memory_write_generation in
  let! c := ia64_alat_cpu_generation in
  mret (u64 (g + c.1)).

Definition ia64_alat_memory_generation_changed (generation : Z) : AM bool :=
  let! external := physical_memory_write_generation in
  let! c := ia64_alat_cpu_generation in
  let current := u64 (external + c.1) in
  if c.2 || negb (current =? generation) then mret true
  else physical_memory_write_generation_changed external.

Definition get_alat : AM IA64AlatState := mget (fun s => alat_state (cpu_env s)).
Definition mod_alat (f : IA64AlatState -> IA64AlatState) : AM unit :=
  mmod (fun s => s <| cpu_env; alat_state ::= f |>).

Definition ia64_alat_sync_memory_writes : AM bool :=
  let! generation := ia64_alat_memory_generation in
  let! a := get_alat in
  if negb (generation =? memory_write_generation a) then
    mod_alat (fun a => (ia64_alat_clear a) <| memory_write_generation := generation |>) ;;;
    mret true
  else mret false.

Definition ia64_alat_memory_window_changed (generation : Z) : AM bool :=
  let! changed := ia64_alat_memory_generation_changed generation in
  if negb changed then mret false
  else
    mod_alat ia64_alat_clear ;;;
    let! g := ia64_alat_memory_generation in
    mod_alat (fun a => a <| memory_write_generation := g |>) ;;;
    mret true.

Definition ia64_invalidate_alat_phys_range (pa size : Z) : AM unit :=
  let! a := get_alat in
  if alat_active_count a =? 0 then mret tt
  else
    let! synced := ia64_alat_sync_memory_writes in
    if (synced : bool) then mret tt
    else
      mod_alat (fun a =>
        while_bits (alat_occupied a) (fun a i =>
          if ia64_ranges_overlap pa size (e_phys_addr (aget (alat a) i)) (e_size (aget (alat a) i))
          then ia64_alat_invalidate_entry a i else a) a).

Definition ia64_invalidate_alat_store (addr size : Z) : AM unit :=
  let! a := get_alat in
  if alat_active_count a =? 0 then mret tt
  else
    let! pa := mget (fun s => ia64_data_address_to_phys (cpu_env s) addr) in
    match pa with
    | None => mret tt
    | Some pa => ia64_invalidate_alat_phys_range pa size
    end.

Definition ia64_alat_chk_a (va r : Z) : AM Z :=
  let! a := get_alat in
  let! found_gen :=
    if negb (alat_active_count a =? 0) then
      let! synced := ia64_alat_sync_memory_writes in
      let! a := get_alat in
      if (synced : bool) then mret (false, 0)
      else mret ((r <? IA64_GR_COUNT) &&
                 (truth (reg_slot a false r) || truth (reg_slot a true r)),
                 memory_write_generation a)
    else mret (false, 0) in
  let! changed :=
    if found_gen.1 then ia64_alat_memory_window_changed found_gen.2 else mret true in
  if negb changed then mret 0
  else
    mmod (fun s => s <| cpu_env; cr @ IA64_CR_IFA := va |>) ;;;
    mraise (Exit IA64_EXCP_GENERAL).

Definition ia64_alat_invala : AM unit :=
  mod_alat ia64_alat_clear ;;;
  let! g := ia64_alat_memory_generation in
  mod_alat (fun a => a <| memory_write_generation := g |>).

Definition ia64_alat_load_begin : AM Z :=
  ia64_alat_sync_memory_writes ;;;
  let! a := get_alat in
  mret (memory_write_generation a).

(** Publication of an entry in slot [i]: lines 262-271 of [ia64_set_alat]. *)
Definition alat_publish (a : IA64AlatState) (i r size : Z) (is_fp : bool) (pa : Z)
    : IA64AlatState :=
  let a := if negb (e_valid (aget (alat a) i))
           then a <| alat_active_count ::= fun c => c + 1 |> else a in
  let a := a <| alat @ i := mkAlatEntry pa (u8 size) (u8 r) is_fp true |> in
  let a := a <| alat_reg_slot ::= fun t => slot_set t is_fp r (i + 1) |> in
  a <| alat_occupied ::= fun o => o .| (1 <<< i) |>.

Definition ia64_set_alat (r addr size : Z) (is_fp : bool) (generation pa : Z) : AM unit :=
  if IA64_GR_COUNT <=? r then mret tt
  else
    let! changed := ia64_alat_memory_window_changed generation in
    if (changed : bool) then mret tt
    else
      let! s := mget (fun s => s) in
      let pa :=
        if pa =? UINT64_MAX then
          match ia64_data_address_to_phys_attr (cpu_env s) addr with
          | Some (pa, spec) => if ia64_memory_allows_advanced_load spec then Some pa else None
          | None => None
          end
        else Some pa in
      match pa with
      | None => mret tt
      | Some pa =>
          let a := alat_state (cpu_env s) in
          let i := reg_slot a is_fp r - 1 in
          if (i <? 0) && (alat_occupied a =? UINT32_MAX) then mret tt
          else
            let i := if i <? 0 then ctz64 (~32 (alat_occupied a)) else i in
            mod_alat (fun a => alat_publish a i r size is_fp pa) ;;;
            ia64_alat_memory_window_changed generation ;;;
            mret tt
      end.

Definition ia64_alat_set (r addr size generation : Z) : AM unit :=
  ia64_set_alat r addr size false generation UINT64_MAX.

Definition ia64_alat_set_fp (r addr size generation : Z) : AM unit :=
  mwhen (1 <? r) (ia64_set_alat r addr size true generation UINT64_MAX).

Definition ia64_alat_set_pa (r addr size generation pa : Z) (is_fp : bool) : AM unit :=
  mwhen (negb is_fp || (1 <? r)) (ia64_set_alat r addr size is_fp generation pa).

(** The slot, or -1, and the generation it was looked up at. *)
Definition ia64_find_alat_reg (r : Z) (is_fp close_window : bool) : AM (Z * Z) :=
  let! a := get_alat in
  if (IA64_GR_COUNT <=? r) || (alat_active_count a =? 0) then mret (-1, 0)
  else
    let! synced := ia64_alat_sync_memory_writes in
    if (synced : bool) then mret (-1, 0)
    else
      let! a := get_alat in
      let generation := memory_write_generation a in
      let found := reg_slot a is_fp r - 1 in
      if (0 <=? found) && close_window then
        let! changed := ia64_alat_memory_window_changed generation in
        mret (if (changed : bool) then -1 else found, generation)
      else mret (found, generation).

Definition ia64_alat_matches_addr (env : CPUIA64State) (entry : IA64AlatEntry) (addr size : Z)
    : bool :=
  if negb (e_size entry =? size) then false
  else match ia64_data_address_to_phys env addr with
  | None => false
  | Some pa => e_phys_addr entry =? pa
  end.

Definition ia64_check_load_alat (r : Z) (is_fp verify_addr : bool) (addr size : Z) (clear : bool)
    : AM Z :=
  if is_fp && (r <=? 1) then mret 0
  else
    let! ig := ia64_find_alat_reg r is_fp verify_addr in
    let i := ig.1 in
    if i <? 0 then mret 0
    else
      let! s := mget (fun s => s) in
      let entry := aget (alat (alat_state (cpu_env s))) i in
      if verify_addr && negb (ia64_alat_matches_addr (cpu_env s) entry addr size) then
        mwhen clear (mod_alat (fun a => ia64_alat_invalidate_entry a i)) ;;; mret 0
      else
        let! changed := ia64_alat_memory_window_changed ig.2 in
        if (changed : bool) then mret 0
        else
          mwhen clear (mod_alat (fun a => ia64_alat_invalidate_entry a i)) ;;; mret 1.

Definition ia64_alat_check_load (r : Z) (clear : bool) : AM Z :=
  ia64_check_load_alat r false false 0 0 clear.
Definition ia64_alat_check_load_addr (r addr size : Z) (clear : bool) : AM Z :=
  ia64_check_load_alat r false true addr size clear.
Definition ia64_alat_check_load_fp (r : Z) (clear : bool) : AM Z :=
  ia64_check_load_alat r true false 0 0 clear.
Definition ia64_alat_check_load_fp_addr (r addr size : Z) (clear : bool) : AM Z :=
  ia64_check_load_alat r true true addr size clear.

(** [g_assert]. *)
Definition massert (b : bool) : AM unit := if b then mret tt else mraise Assertion.

Definition ia64_alat_notify_store : AM unit :=
  let! a := get_alat in
  if negb (alat_full a) then mret tt
  else
    massert (negb (write_active a)) ;;;
    physical_memory_write_generation_advance ;;;
    ia64_alat_invala.

Definition ia64_alat_write_begin : AM unit :=
  let! a := get_alat in
  massert (negb (write_active a)) ;;;
  mod_alat (fun a => a <| write_generation := memory_write_generation a |>
                       <| write_observed := alat_full a |>
                       <| write_active := true |>) ;;;
  let! a := get_alat in
  if write_observed a then
    let! sequence := mget own_sequence in
    massert (negb (truth (sequence .& 1))) ;;;
    mmod (fun s => s <| own_sequence := u64 (sequence + 1) |>)
  else mret tt.

Definition ia64_alat_write_take_token : AM bool :=
  let! a := get_alat in
  massert (write_active a) ;;;
  let observed := write_observed a in
  mod_alat (fun a => a <| write_active := false |> <| write_observed := false |>) ;;;
  mwhen observed
    (let! sequence := mget own_sequence in
     massert (truth (sequence .& 1)) ;;;
     mmod (fun s => s <| own_sequence := u64 (sequence + 1) |>)) ;;;
  mret observed.

Definition ia64_alat_write_finish (addr size : Z) (precise : bool) : AM unit :=
  let! a := get_alat in
  let generation := write_generation a in
  let! observed := ia64_alat_write_take_token in
  let expected := u64 (generation + 2) in
  let! a := get_alat in
  if observed && negb (alat_active_count a =? 0) then
    let! lost :=
      if negb precise || negb (memory_write_generation a =? generation) then mret true
      else ia64_alat_memory_generation_changed expected in
    if (lost : bool) then ia64_alat_invala
    else
      mod_alat (fun a => a <| memory_write_generation := expected |>) ;;;
      ia64_invalidate_alat_store addr size
  else mret tt.

Definition ia64_alat_write_end (addr size : Z) : AM unit :=
  ia64_alat_write_finish addr size true.

Definition ia64_alat_write_cancel : AM unit :=
  let! observed := ia64_alat_write_take_token in
  mwhen observed
    (mod_alat (fun a => a <| memory_write_generation ::= fun g => u64 (g + 2) |>)).

Definition ia64_alat_write_abort : AM unit :=
  let! a := get_alat in
  mwhen (write_active a) (ia64_alat_write_finish 0 0 false).

End sampling.

(** ** The coherence invariant *)

Definition count_valid (l : list IA64AlatEntry) : Z :=
  Z.of_nat (length (List.filter e_valid l)).

(** The shape of the register index. *)
Definition slots_ok (t : list (list Z)) : Prop :=
  length t = 2%nat /\ forall b, length (aget t (Z.b2z b)) = 128%nat.

(** The derived indexes describe the entries exactly: the bitmap is the set of
    valid slots, the count is their number, and the register index maps a
    register to its slot and back, so a register has at most one entry. *)
Record alat_ok (a : IA64AlatState) : Prop := {
  ok_entries : length (alat a) = 32%nat;
  ok_slots : slots_ok (alat_reg_slot a);
  ok_occupied_range : uint 32 (alat_occupied a);
  ok_occupied i : 0 <= i < 32 -> Z.testbit (alat_occupied a) i = e_valid (aget (alat a) i);
  ok_count : alat_active_count a = count_valid (alat a);
  ok_entry i : 0 <= i < 32 -> e_valid (aget (alat a) i) = true ->
    0 <= e_reg (aget (alat a) i) < 128 /\
    reg_slot a (e_fp (aget (alat a) i)) (e_reg (aget (alat a) i)) = i + 1;
  ok_slot b r : 0 <= r < 128 -> reg_slot a b r <> 0 ->
    1 <= reg_slot a b r <= 32 /\
    let e := aget (alat a) (reg_slot a b r - 1) in
    e_valid e = true /\ e_fp e = b /\ e_reg e = r
}.

Lemma count_valid_aset l i x :
  0 <= i < alen l ->
  count_valid (aset l i x) = count_valid l - Z.b2z (e_valid (aget l i)) + Z.b2z (e_valid x).
Proof.
  intros Hi. unfold aset, aget. destruct (Z.leb_spec 0 i); [|lia].
  assert (Hn : (Z.to_nat i < length l)%nat) by lia. revert Hn.
  generalize (Z.to_nat i) as n. clear i Hi H. unfold count_valid.
  induction l as [|y l IH]; intros n Hn; [simpl in Hn; lia|].
  destruct n as [|n]; simpl.
  - destruct (e_valid x), (e_valid y); simpl; lia.
  - specialize (IH n ltac:(simpl in Hn; lia)). simpl in IH.
    destruct (e_valid y); simpl; lia.
Qed.

Lemma count_valid_pos l i : 0 <= i < alen l -> e_valid (aget l i) = true -> 0 < count_valid l.
Proof.
  intros Hi Hv. pose proof (count_valid_aset l i (mkAlatEntry 0 0 0 false false) Hi) as H.
  rewrite Hv in H. simpl in H. unfold count_valid in *. lia.
Qed.

Lemma slot_get_set t b r v b' r' :
  slots_ok t -> 0 <= r < 128 ->
  slot_get (slot_set t b r v) b' r' = if eqb b b' && (r =? r') then v else slot_get t b' r'.
Proof.
  intros [H2 H128] Hr. unfold slot_get, slot_set.
  rewrite aget_aset by (rewrite H2; destruct b; simpl; lia).
  destruct b, b'; cbn [Z.b2z Z.eqb Pos.eqb eqb andb]; try done.
  - rewrite aget_aset; [done|]. specialize (H128 true). simpl in H128. lia.
  - rewrite aget_aset; [done|]. specialize (H128 false). simpl in H128. lia.
Qed.

Lemma slots_ok_set t b r v : slots_ok t -> slots_ok (slot_set t b r v).
Proof.
  intros [H2 H128]. unfold slot_set. split; [by rewrite aset_length|]. intros b'.
  rewrite aget_aset by (rewrite H2; destruct b; simpl; lia).
  destruct b, b'; cbn [Z.b2z Z.eqb Pos.eqb]; rewrite ?aset_length; apply H128 || apply (H128 true) || apply (H128 false).
Qed.

#[local] Arguments slot_get : simpl never.
#[local] Arguments slot_set : simpl never.

Lemma alat_ok_invalidate a i :
  alat_ok a -> 0 <= i < 32 -> alat_ok (ia64_alat_invalidate_entry a i).
Proof.
  intros Hok Hi. pose proof Hok as [Hlen Ht Hor Ho Hc He Hs].
  unfold ia64_alat_invalidate_entry.
  destruct (e_valid (aget (alat a) i)) eqn:Hv; [|done]. cbn [negb].
  destruct (He i Hi Hv) as [Hr Hslot].
  assert (Hpos : 0 < alat_active_count a)
    by (rewrite Hc; apply (count_valid_pos _ i); [lia|done]).
  cbn. destruct (Z.ltb_spec 0 (alat_active_count a)); [|lia].
  set (e := aget (alat a) i) in *.
  assert (Hget : forall j, aget (aset (alat a) i e <| e_valid := false |>) j =
    if i =? j then e <| e_valid := false |> else aget (alat a) j)
    by (intros; apply aget_aset; lia).
  constructor; cbn.
  - by rewrite aset_length.
  - by apply slots_ok_set.
  - by apply uint_land_l; [lia|].
  - intros j Hj. rewrite Hget, Z.land_spec, shiftl_1_pow2, wnot_spec, pow2_spec, Ho by lia.
    destruct (Z.ltb_spec j 32); [|lia].
    destruct (Z.eqb_spec i j); cbn; [apply andb_false_r|apply andb_true_r].
  - rewrite count_valid_aset, Hc by lia. fold e. rewrite Hv. simpl. lia.
  - intros j Hj. rewrite Hget. destruct (Z.eqb_spec i j); cbn; [done|].
    intros Hvj. destruct (He j Hj Hvj) as [Hrj Hsj]. split; [done|].
    rewrite slot_get_set by done. destruct (eqb _ _ && _) eqn:E; [|done].
    apply andb_true_iff in E as [E1%eqb_prop E2%Z.eqb_eq]. rewrite <- E1, <- E2 in Hsj. lia.
  - intros b r Hrr. rewrite slot_get_set by done.
    destruct (eqb (e_fp e) b && (e_reg e =? r)) eqn:E; [done|].
    intros Hne. destruct (Hs b r Hrr Hne) as (Hsr & Hev & Hef & Her). split; [done|].
    rewrite Hget. destruct (Z.eqb_spec i (reg_slot a b r - 1)) as [Heq|]; [|done].
    rewrite <- Heq in Hef, Her. fold e in Hef, Her.
    by rewrite Hef, Her, eqb_reflx, Z.eqb_refl in E.
Qed.

(** Clearing the table. *)
Lemma clear_loop a :
  length (alat a) = 32%nat ->
  let a' := for_range 0 IA64_ALAT_ENTRIES (fun a i =>
    a <| alat ::= fun t => aset t i ((aget t i) <| e_valid := false |>) |>) a in
  length (alat a') = 32%nat /\
  (forall i, 0 <= i < 32 -> e_valid (aget (alat a') i) = false) /\
  alat_reg_slot a' = alat_reg_slot a /\ alat_occupied a' = alat_occupied a.
Proof.
  change IA64_ALAT_ENTRIES with 32. intros Hlen.
  enough (H : forall i, 0 <= i < 32 ->
    let a' := for_range 0 32 (fun a i =>
      a <| alat ::= fun t => aset t i ((aget t i) <| e_valid := false |>) |>) a in
    length (alat a') = 32%nat /\ (i < 0 + 32 -> e_valid (aget (alat a') i) = false) /\
    alat_reg_slot a' = alat_reg_slot a /\ alat_occupied a' = alat_occupied a).
  { split_and!; [apply (H 0)|intros i Hi; apply H|apply (H 0)|apply (H 0)]; lia. }
  intros k Hk.
  apply (for_range_ind (fun i a' => length (alat a') = 32%nat /\
    (k < i -> e_valid (aget (alat a') k) = false) /\
    alat_reg_slot a' = alat_reg_slot a /\ alat_occupied a' = alat_occupied a)).
  - lia.
  - split_and!; [done|lia|done|done].
  - intros i a' Hi (Hl & Hv & Hs & Ho). cbn. rewrite aset_length. split_and!; [done| |done|done].
    intros Hki. rewrite aget_aset by lia.
    destruct (Z.eqb_spec i k); [done|]. apply Hv. lia.
Qed.

Lemma count_valid_none l : (forall i, 0 <= i < alen l -> e_valid (aget l i) = false) -> count_valid l = 0.
Proof.
  intros H. unfold count_valid. destruct (List.filter e_valid l) as [|e l'] eqn:E; [done|].
  assert (Hin : List.In e (List.filter e_valid l)) by (rewrite E; by left).
  apply List.filter_In in Hin as [Hin Hv]. apply list_elem_of_In in Hin.
  destruct (elem_aget l e Hin) as (i & Hi & He). specialize (H i Hi). congruence.
Qed.

Lemma count_valid_0 l i : count_valid l = 0 -> 0 <= i < alen l -> e_valid (aget l i) = false.
Proof.
  intros H Hi. destruct (e_valid (aget l i)) eqn:E; [|done].
  pose proof (count_valid_pos l i Hi E). lia.
Qed.

Lemma zero_slots_ok : slots_ok [replicate 128 0; replicate 128 0].
Proof. split; [done|]. by intros []. Qed.

Lemma zero_slot b r : 0 <= r < 128 -> slot_get [replicate 128 0; replicate 128 0] b r = 0.
Proof. intros. unfold slot_get. destruct b; apply aget_replicate; lia. Qed.

(** An empty table is coherent. *)
Lemma alat_ok_empty a :
  length (alat a) = 32%nat -> alat_reg_slot a = [replicate 128 0; replicate 128 0] ->
  alat_occupied a = 0 -> alat_active_count a = 0 ->
  (forall i, 0 <= i < 32 -> e_valid (aget (alat a) i) = false) -> alat_ok a.
Proof.
  intros Hl Hs Ho Hc Hv. constructor.
  - done.
  - rewrite Hs. apply zero_slots_ok.
  - rewrite Ho. by apply uint_0.
  - intros i Hi. by rewrite Ho, Z.testbit_0_l, Hv.
  - rewrite Hc. symmetry. apply count_valid_none. rewrite Hl. apply Hv.
  - intros i Hi E. by rewrite Hv in E.
  - intros b r Hr E. by rewrite Hs, zero_slot in E.
Qed.

Lemma clear_empty a :
  alat_ok a ->
  let a' := ia64_alat_clear a in
  alat_ok a' /\ alat_active_count a' = 0 /\
  (forall b r, 0 <= r < 128 -> reg_slot a' b r = 0) /\
  (forall i, 0 <= i < 32 -> e_valid (aget (alat a') i) = false).
Proof.
  intros [Hlen Ht Hor Ho Hc He Hs]. unfold ia64_alat_clear. cbv zeta. cbn [alat_active_count upd].
  destruct (Z.eqb_spec (alat_active_count a) 0) as [E|E].
  - assert (Hv : forall i, 0 <= i < 32 -> e_valid (aget (alat a) i) = false).
    { intros i Hi. apply count_valid_0; [congruence|lia]. }
    split_and!; cbn; [apply alat_ok_empty; done|done|apply zero_slot|done].
  - set (b := a <| alat_reg_slot := _ |> <| alat_occupied := 0 |>).
    assert (Hb : length (alat b) = 32%nat) by done.
    generalize (clear_loop b Hb). cbv zeta. generalize (for_range 0 IA64_ALAT_ENTRIES (fun a i =>
      a <| alat ::= fun t => aset t i ((aget t i) <| e_valid := false |>) |>) b) as c.
    intros c (Hl & Hv & Hs' & Ho').
    split_and!; [apply alat_ok_empty|done| |]; cbn; try done.
    rewrite Hs'. apply zero_slot.
Qed.

Lemma entry_eta (e : IA64AlatEntry) v : e_valid e = v -> e = e <| e_valid := v |>.
Proof. intros <-. by destruct e. Qed.

Lemma clear_loop_entry a i :
  length (alat a) = 32%nat -> 0 <= i < 32 ->
  exists v, aget (alat (for_range 0 IA64_ALAT_ENTRIES (fun a i =>
    a <| alat ::= fun t => aset t i ((aget t i) <| e_valid := false |>) |>) a)) i =
    (aget (alat a) i) <| e_valid := v |>.
Proof.
  change IA64_ALAT_ENTRIES with 32. intros Hlen Hi.
  refine (proj2 (for_range_inv (fun a' => length (alat a') = 32%nat /\
    exists v, aget (alat a') i = (aget (alat a) i) <| e_valid := v |>) _ _ _ _ _ _)).
  - split; [done|]. eexists. by apply entry_eta.
  - intros j a' Hj [Hl [v E]]. cbn. rewrite aset_length, aget_aset by lia. split; [done|].
    destruct (Z.eqb_spec j i) as [->|]; [rewrite E|]; by eexists.
Qed.

(** Clearing leaves every field of an entry but its validity. *)
Lemma clear_entries a i :
  alat_ok a -> 0 <= i < 32 ->
  aget (alat (ia64_alat_clear a)) i = (aget (alat a) i) <| e_valid := false |>.
Proof.
  intros Hok Hi. destruct (clear_empty a Hok) as (_ & _ & _ & Hv). specialize (Hv i Hi).
  enough (E : exists v, aget (alat (ia64_alat_clear a)) i = (aget (alat a) i) <| e_valid := v |>).
  { destruct E as [v E]. rewrite E in Hv |- *. cbn in Hv. by rewrite Hv. }
  clear Hv. unfold ia64_alat_clear. cbv zeta. cbn [alat_active_count upd].
  destruct (alat_active_count a =? 0).
  { eexists. by apply entry_eta. }
  set (b := a <| alat_reg_slot := _ |> <| alat_occupied := 0 |>).
  assert (Hb : length (alat b) = 32%nat) by apply (ok_entries a Hok).
  generalize (clear_loop_entry b i Hb Hi).
  generalize (for_range 0 IA64_ALAT_ENTRIES (fun a i =>
    a <| alat ::= fun t => aset t i ((aget t i) <| e_valid := false |>) |>) b) as c.
  intros c [v E]. by exists v.
Qed.

(** The slot that [ia64_set_alat] uses: the register's own, or a free one. *)
Definition alat_target (a : IA64AlatState) (is_fp : bool) (r i : Z) : Prop :=
  0 <= i < 32 /\
  (reg_slot a is_fp r = i + 1 \/
   reg_slot a is_fp r = 0 /\ e_valid (aget (alat a) i) = false).

Lemma alat_target_spec a is_fp r :
  alat_ok a -> 0 <= r < 128 ->
  let i := reg_slot a is_fp r - 1 in
  (i <? 0) && (alat_occupied a =? UINT32_MAX) = false ->
  alat_target a is_fp r (if i <? 0 then ctz64 (~32 (alat_occupied a)) else i).
Proof.
  intros [Hlen Ht Hor Ho Hc He Hs] Hr i Hfull. unfold alat_target. subst i.
  destruct (Z.eq_dec (reg_slot a is_fp r) 0) as [E|E].
  - rewrite E in *. change (0 - 1 <? 0) with true in *. cbn [andb] in Hfull.
    apply Z.eqb_neq in Hfull.
    assert (Hw : uint 64 (~32 (alat_occupied a)))
      by (apply (uint_mono 32); [lia|]; by apply uint_wnot).
    assert (Hnz : ~32 (alat_occupied a) <> 0).
    { intros Hz. apply Hfull. apply Z.bits_inj'. intros j Hj.
      change UINT32_MAX with (Z.ones 32). rewrite ones_spec by lia.
      apply (f_equal (fun z => Z.testbit z j)) in Hz. revert Hz.
      rewrite Z.testbit_0_l, wnot_spec by lia. zcmp; [|intros _; by apply (uint_bits 32)].
      by destruct (Z.testbit (alat_occupied a) j). }
    destruct (ctz64_spec _ Hw Hnz) as (Hb & Hset & _).
    revert Hb Hset. generalize (ctz64 (~32 (alat_occupied a))) as k. intros k Hb Hset.
    rewrite wnot_spec in Hset by lia. apply andb_true_iff in Hset as [Hk Hset].
    apply Z.ltb_lt in Hk. split; [lia|]. right. split; [done|].
    rewrite <- Ho by lia. by destruct (Z.testbit (alat_occupied a) k).
  - destruct (Hs is_fp r Hr E) as (Hsr & _). destruct (Z.ltb_spec (reg_slot a is_fp r - 1) 0); [lia|].
    split; [lia|]. left. lia.
Qed.

Lemma alat_ok_publish a i r size is_fp pa :
  alat_ok a -> 0 <= r < 128 -> alat_target a is_fp r i ->
  alat_ok (alat_publish a i r size is_fp pa).
Proof.
  intros [Hlen Ht Hor Ho Hc He Hs] Hr [Hi Htgt]. unfold alat_publish. cbv zeta.
  assert (Hr8 : u8 r = r) by (apply wrap_small; unfold uint; lia). rewrite Hr8.
  set (e := mkAlatEntry pa (u8 size) r is_fp true).
  set (a1 := if negb (e_valid (aget (alat a) i)) then _ else _).
  assert (Hf : alat a1 = alat a /\ alat_reg_slot a1 = alat_reg_slot a /\
    alat_occupied a1 = alat_occupied a /\
    alat_active_count a1 = alat_active_count a + 1 - Z.b2z (e_valid (aget (alat a) i))).
  { unfold a1. destruct (e_valid (aget (alat a) i)); cbn; split_and!; try done; lia. }
  clearbody a1. destruct Hf as (Fa & Fs & Fo & Fc).
  assert (Hget : forall j, aget (aset (alat a) i e) j = if i =? j then e else aget (alat a) j)
    by (intros; apply aget_aset; lia).
  assert (Hother : forall b r', 0 <= r' < 128 -> reg_slot a b r' = i + 1 -> b = is_fp /\ r' = r).
  { intros b r' Hr' E. destruct (Hs b r' Hr' ltac:(lia)) as (_ & Hv & Hb & Hrr).
    rewrite E in Hv, Hb, Hrr. replace (i + 1 - 1) with i in * by lia.
    destruct Htgt as [E'|[_ E']]; [|congruence].
    destruct (Hs is_fp r Hr ltac:(lia)) as (_ & _ & Hb' & Hr''). rewrite E' in Hb', Hr''.
    replace (i + 1 - 1) with i in * by lia. split; congruence. }
  constructor; cbn; rewrite ?Fa, ?Fs, ?Fo, ?Fc.
  - by rewrite aset_length.
  - by apply slots_ok_set.
  - apply uint_lor; [lia|done|]. rewrite shiftl_1_pow2 by lia.
    split; [lia|]. apply Z.pow_lt_mono_r; lia.
  - intros j Hj. rewrite Hget, Z.lor_spec, shiftl_1_pow2, pow2_spec, Ho by lia.
    destruct (Z.eqb_spec i j); [apply orb_true_r|apply orb_false_r].
  - rewrite count_valid_aset, Hc by lia. simpl. lia.
  - intros j Hj. rewrite Hget. destruct (Z.eqb_spec i j) as [<-|Hne].
    + intros _. subst e. cbn. split; [done|]. by rewrite slot_get_set, eqb_reflx, Z.eqb_refl by done.
    + intros Hv. destruct (He j Hj Hv) as [Hrj Hsj]. split; [done|].
      rewrite slot_get_set by done. destruct (eqb _ _ && _) eqn:E; [|done].
      apply andb_true_iff in E as [E1%eqb_prop E2%Z.eqb_eq]. rewrite <- E1, <- E2 in Hsj.
      destruct Htgt as [E'|[E' _]]; lia.
  - intros b r' Hr'. rewrite slot_get_set by done.
    destruct (eqb is_fp b && (r =? r')) eqn:E.
    + apply andb_true_iff in E as [E1%eqb_prop E2%Z.eqb_eq]. subst b r'. intros _.
      replace (i + 1 - 1) with i by lia. rewrite Hget, Z.eqb_refl. split; [lia|done].
    + intros Hne. destruct (Hs b r' Hr' Hne) as (Hsr & Hrest). split; [done|].
      rewrite Hget. destruct (Z.eqb_spec i (reg_slot a b r' - 1)); [|done].
      destruct (Hother b r' Hr' ltac:(lia)) as [-> ->].
      by rewrite eqb_reflx, Z.eqb_refl in E.
Qed.

(** Fields outside the table do not matter for coherence. *)
Lemma alat_ok_ext a a' :
  alat a' = alat a -> alat_reg_slot a' = alat_reg_slot a ->
  alat_occupied a' = alat_occupied a -> alat_active_count a' = alat_active_count a ->
  alat_ok a -> alat_ok a'.
Proof. intros E1 E2 E3 E4 []; constructor; rewrite ?E1, ?E2, ?E3, ?E4; done. Qed.

(** A loop over the occupied slots that invalidates some of them. *)
Lemma alat_ok_sweep a (p : IA64AlatState -> Z -> bool) :
  alat_ok a ->
  alat_ok (while_bits (alat_occupied a) (fun a i =>
    if p a i then ia64_alat_invalidate_entry a i else a) a).
Proof.
  intros Hok. pose proof (ok_occupied_range a Hok) as Hr.
  apply while_bits_inv; [by apply (uint_mono 32); [lia|]|done|].
  intros i a' Hi Hb Hok'. destruct (p a' i); [|done]. apply alat_ok_invalidate; [done|].
  destruct (Z.lt_ge_cases i 32); [lia|]. by rewrite (uint_bits 32 _ i) in Hb by (lia || done).
Qed.

Lemma alat_ok_reg_range a first last is_fp :
  alat_ok a -> alat_ok (ia64_invalidate_alat_reg_range a first last is_fp).
Proof. intros. by apply (alat_ok_sweep a (fun a i => _ && _ && _)). Qed.

Lemma alat_ok_invalidate_register a r is_fp :
  alat_ok a -> 0 <= r -> alat_ok (ia64_alat_invalidate_register a r is_fp).
Proof.
  intros Hok Hr. unfold ia64_alat_invalidate_register, IA64_GR_COUNT.
  destruct (Z.leb_spec 128 r); [done|].
  destruct (Z.leb_spec 0 (reg_slot a is_fp r - 1)); [|done].
  apply alat_ok_invalidate; [done|].
  destruct (ok_slot a Hok is_fp r ltac:(lia) ltac:(lia)) as [? _]. lia.
Qed.

(** ** Preservation by every operation *)

Definition sys_ok (s : alat_sys) : Prop := alat_ok (alat_state (cpu_env s)).

(** An operation keeps the table coherent, however it ends. *)
Definition keeps {A} (m : AM A) : Prop := forall s, sys_ok s -> sys_ok (final (m s)).

Lemma keeps_ret {A} (a : A) : keeps (mret a).
Proof. by intros s Hs. Qed.

Lemma keeps_raise {A} e : keeps (mraise e : AM A).
Proof. by intros s Hs. Qed.

Lemma keeps_get {A} (f : alat_sys -> A) : keeps (mget f).
Proof. by intros s Hs. Qed.

Lemma keeps_bind {A B} (m : AM A) (k : A -> AM B) :
  keeps m -> (forall a, keeps (k a)) -> keeps (mbind m k).
Proof.
  intros Hm Hk s Hs. unfold mbind. specialize (Hm s Hs).
  destruct (m s) as [a s'|e s']; simpl in *; [by apply Hk|done].
Qed.

Lemma keeps_if {A} (b : bool) (m m' : AM A) : keeps m -> keeps m' -> keeps (if b then m else m').
Proof. by destruct b. Qed.

Lemma keeps_when b m : keeps m -> keeps (mwhen b m).
Proof. unfold mwhen. intros. apply keeps_if; [done|apply keeps_ret]. Qed.

Lemma keeps_mod_alat (f : IA64AlatState -> IA64AlatState) :
  (forall a, alat_ok a -> alat_ok (f a)) -> keeps (mod_alat f).
Proof. intros Hf s Hs. apply Hf, Hs. Qed.

(** A change of the processor's sequence, clock or other state. *)
Lemma keeps_mod_other (f : alat_sys -> alat_sys) :
  (forall s, alat_state (cpu_env (f s)) = alat_state (cpu_env s)) -> keeps (mmod f).
Proof. intros Hf s Hs. unfold sys_ok in *. simpl. by rewrite Hf. Qed.

Lemma keeps_sample {A} T (f : shared -> alat_sys -> A) : keeps (sample T f).
Proof. by intros s Hs. Qed.

Create HintDb alat.
#[local] Hint Resolve keeps_ret keeps_raise keeps_get keeps_bind keeps_if keeps_when
  keeps_sample alat_ok_invalidate alat_ok_reg_range : alat.

(** Decomposes an operation into its steps. *)
Ltac keeps_step :=
  match goal with
  | |- forall _, _ => intro
  | |- keeps (mbind _ _) => apply keeps_bind
  | |- keeps (if _ then _ else _) => apply keeps_if
  | |- keeps (match ?x with _ => _ end) => destruct x
  | |- keeps (mmod _) => apply keeps_mod_other; intros; reflexivity
  | |- keeps _ => solve [eauto with alat nocore]
  end.
Ltac keeps := repeat keeps_step.

Section preservation.
Context `{Translation}.
Variable T : nat -> shared.
Variable ncpu self : Z.

Lemma keeps_cpu_foreach cpus g active : keeps (cpu_foreach T self cpus g active).
Proof. revert g active. induction cpus; intros; cbn [cpu_foreach]; [keeps|]. unfold load_sequence. keeps. Qed.
#[local] Hint Resolve keeps_cpu_foreach : alat.

Lemma keeps_memory_generation : keeps (ia64_alat_memory_generation T ncpu self).
Proof.
  unfold ia64_alat_memory_generation, physical_memory_write_generation, ia64_alat_cpu_generation,
    load_sequence. keeps.
Qed.
#[local] Hint Resolve keeps_memory_generation : alat.

Lemma keeps_generation_changed g : keeps (ia64_alat_memory_generation_changed T ncpu self g).
Proof.
  unfold ia64_alat_memory_generation_changed, physical_memory_write_generation_changed,
    physical_memory_write_generation, ia64_alat_cpu_generation, load_sequence. keeps.
Qed.
#[local] Hint Resolve keeps_generation_changed : alat.

Lemma alat_ok_clear a : alat_ok a -> alat_ok (ia64_alat_clear a).
Proof. intros Hok. by destruct (clear_empty a Hok). Qed.

Lemma keeps_clear : keeps (mod_alat ia64_alat_clear).
Proof. apply keeps_mod_alat, alat_ok_clear. Qed.

Lemma keeps_set_generation (f : IA64AlatState -> Z) :
  keeps (mod_alat (fun a => a <| memory_write_generation := f a |>)).
Proof. apply keeps_mod_alat. intros a Ha. by apply (alat_ok_ext a). Qed.

Lemma keeps_clear_generation g :
  keeps (mod_alat (fun a => (ia64_alat_clear a) <| memory_write_generation := g |>)).
Proof. apply keeps_mod_alat. intros a Ha. apply (alat_ok_ext (ia64_alat_clear a)); [done..|by apply alat_ok_clear]. Qed.
#[local] Hint Resolve keeps_clear keeps_set_generation keeps_clear_generation : alat.

Lemma keeps_sync : keeps (ia64_alat_sync_memory_writes T ncpu self).
Proof. unfold ia64_alat_sync_memory_writes, get_alat. keeps. Qed.

Lemma keeps_window g : keeps (ia64_alat_memory_window_changed T ncpu self g).
Proof. unfold ia64_alat_memory_window_changed. keeps. Qed.
#[local] Hint Resolve keeps_sync keeps_window : alat.

Lemma keeps_phys_range pa size : keeps (ia64_invalidate_alat_phys_range T ncpu self pa size).
Proof.
  unfold ia64_invalidate_alat_phys_range, get_alat. keeps.
  apply keeps_mod_alat. intros b Hb.
  by apply (alat_ok_sweep b (fun a i => ia64_ranges_overlap pa size _ _)).
Qed.
#[local] Hint Resolve keeps_phys_range : alat.

Lemma keeps_store addr size : keeps (ia64_invalidate_alat_store T ncpu self addr size).
Proof. unfold ia64_invalidate_alat_store, get_alat. keeps. Qed.

Lemma keeps_invala : keeps (ia64_alat_invala T ncpu self).
Proof. unfold ia64_alat_invala. keeps. Qed.
#[local] Hint Resolve keeps_store keeps_invala : alat.

Lemma keeps_load_begin : keeps (ia64_alat_load_begin T ncpu self).
Proof. unfold ia64_alat_load_begin, get_alat. keeps. Qed.

Lemma keeps_chk_a va r : keeps (ia64_alat_chk_a T ncpu self va r).
Proof. unfold ia64_alat_chk_a, get_alat. keeps. Qed.

Lemma keeps_set r addr size is_fp g pa :
  0 <= r -> keeps (ia64_set_alat T ncpu self r addr size is_fp g pa).
Proof.
  intros Hr. unfold ia64_set_alat, IA64_GR_COUNT. destruct (Z.leb_spec 128 r); [keeps|].
  apply keeps_bind; [keeps|]. intros changed. apply keeps_if; [keeps|].
  intros s Hs. unfold mbind at 1, mget.
  destruct (if pa =? UINT64_MAX then _ else _) as [pa'|]; [|done].
  destruct ((_ <? 0) && _) eqn:Hfull; [done|].
  assert (Hpub : sys_ok (s <| cpu_env; alat_state ::= fun a =>
    alat_publish a (if reg_slot (alat_state (cpu_env s)) is_fp r - 1 <? 0
                    then ctz64 (~32 (alat_occupied (alat_state (cpu_env s))))
                    else reg_slot (alat_state (cpu_env s)) is_fp r - 1) r size is_fp pa' |>)).
  { apply alat_ok_publish; [done|lia|]. apply alat_target_spec; [done|lia|done]. }
  unfold mbind at 1, mod_alat, mmod. cbn beta iota.
  revert Hpub. generalize (s <| cpu_env; alat_state ::= fun a => alat_publish a
    (if reg_slot (alat_state (cpu_env s)) is_fp r - 1 <? 0
     then ctz64 (~32 (alat_occupied (alat_state (cpu_env s))))
     else reg_slot (alat_state (cpu_env s)) is_fp r - 1) r size is_fp pa' |>).
  intros s' Hs'. revert s' Hs'. change (keeps (ia64_alat_memory_window_changed T ncpu self g ;;; mret tt)).
  keeps.
Qed.
#[local] Hint Resolve keeps_set : alat.

Lemma keeps_find r is_fp close : keeps (ia64_find_alat_reg T ncpu self r is_fp close).
Proof. unfold ia64_find_alat_reg, get_alat. keeps. Qed.
#[local] Hint Resolve keeps_find : alat.

(** Invalidating a slot, in range or not. *)
Lemma alat_ok_invalidate_any a i : alat_ok a -> alat_ok (ia64_alat_invalidate_entry a i).
Proof.
  intros Hok. destruct (decide (0 <= i < 32)); [by apply alat_ok_invalidate|].
  unfold ia64_alat_invalidate_entry.
  assert (E : aget (alat a) i = inhabitant).
  { unfold aget. destruct (Z.leb_spec 0 i); [|done].
    rewrite lookup_ge_None_2; [done|]. rewrite (ok_entries a Hok). lia. }
  by rewrite E.
Qed.

Lemma keeps_invalidate_entry i : keeps (mod_alat (fun a => ia64_alat_invalidate_entry a i)).
Proof. apply keeps_mod_alat. intros a. apply alat_ok_invalidate_any. Qed.
#[local] Hint Resolve keeps_invalidate_entry : alat.

Lemma keeps_check r is_fp verify addr size clear :
  keeps (ia64_check_load_alat T ncpu self r is_fp verify addr size clear).
Proof. unfold ia64_check_load_alat. keeps. Qed.

Lemma keeps_assert b : keeps (massert b).
Proof. unfold massert. keeps. Qed.
#[local] Hint Resolve keeps_assert : alat.

Lemma keeps_notify : keeps (ia64_alat_notify_store T ncpu self).
Proof.
  unfold ia64_alat_notify_store, physical_memory_write_generation_advance, get_alat. keeps.
Qed.

Lemma keeps_write_begin : keeps ia64_alat_write_begin.
Proof.
  unfold ia64_alat_write_begin, get_alat. keeps.
  apply keeps_mod_alat. intros b Hb. by apply (alat_ok_ext b).
Qed.

Lemma keeps_take_token : keeps ia64_alat_write_take_token.
Proof.
  unfold ia64_alat_write_take_token, get_alat. keeps.
  - apply keeps_mod_alat. intros b Hb. by apply (alat_ok_ext b).
  - apply keeps_when. keeps.
Qed.
#[local] Hint Resolve keeps_take_token : alat.

Lemma keeps_write_finish addr size precise :
  keeps (ia64_alat_write_finish T ncpu self addr size precise).
Proof. unfold ia64_alat_write_finish, get_alat. keeps. Qed.
#[local] Hint Resolve keeps_write_finish : alat.

Lemma keeps_write_cancel : keeps ia64_alat_write_cancel.
Proof.
  unfold ia64_alat_write_cancel. keeps. apply keeps_when, keeps_mod_alat.
  intros b Hb. by apply (alat_ok_ext b).
Qed.

Lemma keeps_write_abort : keeps (ia64_alat_write_abort T ncpu self).
Proof. unfold ia64_alat_write_abort, get_alat. keeps. Qed.

End preservation.

(** ** What invalidation removes *)

Lemma ranges_overlap_spec start size other_start other_size :
  uint 64 start -> uint 64 size -> uint 64 other_start -> uint 64 other_size ->
  ia64_ranges_overlap start size other_start other_size = true <->
  exists x, uint 64 x /\ start <= x < start + size /\ other_start <= x < other_start + other_size.
Proof.
  intros [? Hs] [? Hz] [? Ho] [? Hoz]. unfold ia64_ranges_overlap, uint.
  destruct (Z.eqb_spec size 0) as [->|]; cbn [orb]; [split; [done|intros (x & ?); lia]|].
  destruct (Z.eqb_spec other_size 0) as [->|]; [split; [done|intros (x & ?); lia]|].
  assert (Hend : forall a b, 0 <= a < 2 ^ 64 -> 0 < b < 2 ^ 64 ->
    (if u64 (a + b - 1) <? a then UINT64_MAX else u64 (a + b - 1)) =
    Z.min (2 ^ 64 - 1) (a + b - 1)).
  { intros a b Ha Hb. unfold wrap, UINT64_MAX. destruct (Z.lt_ge_cases (a + b - 1) (2 ^ 64)).
    - rewrite Z.mod_small by lia. destruct (Z.ltb_spec (a + b - 1) a); lia.
    - replace (a + b - 1) with ((a + b - 1 - 2 ^ 64) + 1 * 2 ^ 64) by lia.
      rewrite Z.mod_add, Z.mod_small by lia.
      destruct (Z.ltb_spec (a + b - 1 - 2 ^ 64) a); lia. }
  rewrite !Hend, andb_true_iff, !Z.leb_le by lia. split.
  - intros [? ?]. exists (Z.max start other_start). lia.
  - intros (x & Hx). lia.
Qed.

(** Invalidating a slot touches only the validity of its entry. *)
Lemma invalidate_entries a i j :
  alat_ok a -> 0 <= i < 32 ->
  aget (alat (ia64_alat_invalidate_entry a i)) j =
    if i =? j then (aget (alat a) j) <| e_valid := false |> else aget (alat a) j.
Proof.
  intros Hok Hi. pose proof (ok_entries a Hok) as Hlen. unfold ia64_alat_invalidate_entry.
  destruct (e_valid (aget (alat a) i)) eqn:Hv; cbn [negb].
  - cbn. destruct (0 <? alat_active_count a); cbn; rewrite aget_aset by lia;
      by destruct (Z.eqb_spec i j) as [->|].
  - destruct (Z.eqb_spec i j) as [->|]; [|done].
    destruct (aget (alat a) j) as [? ? ? ? []]; cbn in *; done.
Qed.

(** A sweep that invalidates the occupied entries satisfying [p] does exactly
    that. *)
Lemma sweep_entries a (p : IA64AlatEntry -> bool) i :
  alat_ok a -> (forall e b, p (e <| e_valid := b |>) = p e) -> 0 <= i < 32 ->
  aget (alat (while_bits (alat_occupied a) (fun a i =>
    if p (aget (alat a) i) then ia64_alat_invalidate_entry a i else a) a)) i =
  (aget (alat a) i) <| e_valid := e_valid (aget (alat a) i) && negb (p (aget (alat a) i)) |>.
Proof.
  intros Hok Hp Hi. pose proof (ok_occupied_range a Hok) as Hr.
  assert (Hu : uint 64 (alat_occupied a)) by (apply (uint_mono 32); [lia|done]).
  assert (Hlt : forall j, Z.testbit (alat_occupied a) j = true -> j < 32).
  { intros j Hb. destruct (Z.lt_ge_cases j 32); [done|].
    by rewrite (uint_bits 32 _ j) in Hb by (lia || done). }
  (* outside slot [i] nothing happens to entry [i] *)
  assert (Hstep : forall j a', 0 <= j < 64 -> Z.testbit (alat_occupied a) j = true ->
    alat_ok a' -> i <> j -> aget (alat (if p (aget (alat a') j)
      then ia64_alat_invalidate_entry a' j else a')) i = aget (alat a') i).
  { intros j a' Hj Hb Hok' Hne. destruct (p _); [|done].
    rewrite invalidate_entries by (done || (specialize (Hlt j Hb); lia)).
    destruct (Z.eqb_spec j i); [congruence|done]. }
  assert (Hkeep : forall j a', 0 <= j < 64 -> Z.testbit (alat_occupied a) j = true ->
    alat_ok a' -> alat_ok (if p (aget (alat a') j) then ia64_alat_invalidate_entry a' j else a')).
  { intros j a' Hj Hb Hok'. destruct (p _); [|done]. apply alat_ok_invalidate; [done|].
    specialize (Hlt j Hb). lia. }
  set (e := aget (alat a) i) in *. destruct (e_valid e) eqn:Hv; cbn [andb].
  - assert (Hbit : Z.testbit (alat_occupied a) i = true) by (rewrite (ok_occupied a Hok); done).
    set (e' := e <| e_valid := negb (p e) |>).
    assert (Hit : forall a', alat_ok a' -> aget (alat a') i = e \/ aget (alat a') i = e' ->
      aget (alat (if p (aget (alat a') i) then ia64_alat_invalidate_entry a' i else a')) i = e').
    { intros a' Hok' He. assert (Hpe : p (aget (alat a') i) = p e)
        by (destruct He as [-> | ->]; [done|apply Hp]).
      rewrite Hpe. subst e'. destruct (p e) eqn:Ep; cbn [negb] in *.
      - rewrite invalidate_entries, Z.eqb_refl by done. by destruct He as [-> | ->].
      - destruct He as [-> | ->]; [|done]. clear -Hv. destruct e; cbn in *. by subst. }
    refine (while_bits_each
      (fun a' => alat_ok a' /\ (aget (alat a') i = e \/ aget (alat a') i = e'))
      (fun k a' => k = i -> aget (alat a') i = e') _ _ _ Hu _ _ _ _ i _ Hbit eq_refl);
      [by auto| | | |lia].
    + intros j a' Hj Hb [Hok' He]. split; [by apply Hkeep|].
      destruct (decide (i = j)) as [<-|]; [right; by apply Hit|by rewrite Hstep].
    + intros j a' Hj Hb [Hok' He] ->. by apply Hit.
    + intros k j a' Hkj Hj Hb [Hok' He] HQ ->. rewrite Hstep by done. by apply HQ.
  - assert (Hbit : Z.testbit (alat_occupied a) i = false) by (rewrite (ok_occupied a Hok); done).
    transitivity e; [|clear -Hv; destruct e; cbn in *; by subst].
    apply (while_bits_inv (fun a' => alat_ok a' /\ aget (alat a') i = e)); [done|done|].
    intros j a' Hj Hb [Hok' He]. split; [by apply Hkeep|].
    rewrite Hstep by congruence. done.
Qed.

(** ** Sequences of calls *)

(** The entry points of [alat.c], and the passage of time between them.  The
    register numbers are unsigned. *)
Inductive alat_call : Type :=
  | CallInvala
  | CallLoadBegin
  | CallSet (r : N) (addr size generation : Z)
  | CallSetFp (r : N) (addr size generation : Z)
  | CallSetPa (r : N) (addr size generation pa : Z) (is_fp : bool)
  | CallChkA (va r : Z)
  | CallCheckLoad (r : Z) (clear : bool)
  | CallCheckLoadAddr (r addr size : Z) (clear : bool)
  | CallCheckLoadFp (r : Z) (clear : bool)
  | CallCheckLoadFpAddr (r addr size : Z) (clear : bool)
  | CallInvalidateReg (r : N)
  | CallInvalidateFpReg (r : N)
  | CallInvalidateStacked
  | CallInvalidateRotatingFp
  | CallInvalidatePhysRange (pa size : Z)
  | CallInvalidateStore (addr size : Z)
  | CallNotifyStore
  | CallWriteBegin
  | CallWriteEnd (addr size : Z)
  | CallWriteCancel
  | CallWriteAbort
  | CallWait (n : nat).

Section calls.
Context `{Translation}.
Variable T : nat -> shared.
Variable ncpu self : Z.

Definition mod_env (f : CPUIA64State -> CPUIA64State) : AM unit :=
  mmod (fun s => s <| cpu_env ::= f |>).

Definition run_call (c : alat_call) : AM unit :=
  match c with
  | CallInvala => ia64_alat_invala T ncpu self
  | CallLoadBegin => ia64_alat_load_begin T ncpu self ;;; mret tt
  | CallSet r addr size g => ia64_alat_set T ncpu self (Z.of_N r) addr size g
  | CallSetFp r addr size g => ia64_alat_set_fp T ncpu self (Z.of_N r) addr size g
  | CallSetPa r addr size g pa b => ia64_alat_set_pa T ncpu self (Z.of_N r) addr size g pa b
  | CallChkA va r => ia64_alat_chk_a T ncpu self va r ;;; mret tt
  | CallCheckLoad r c => ia64_alat_check_load T ncpu self r c ;;; mret tt
  | CallCheckLoadAddr r addr size c =>
      ia64_alat_check_load_addr T ncpu self r addr size c ;;; mret tt
  | CallCheckLoadFp r c => ia64_alat_check_load_fp T ncpu self r c ;;; mret tt
  | CallCheckLoadFpAddr r addr size c =>
      ia64_alat_check_load_fp_addr T ncpu self r addr size c ;;; mret tt
  | CallInvalidateReg r => mod_env (fun e => ia64_alat_invalidate_reg e (Z.of_N r))
  | CallInvalidateFpReg r => mod_env (fun e => ia64_alat_invalidate_fp_reg e (Z.of_N r))
  | CallInvalidateStacked => mod_env ia64_invalidate_stacked_alat
  | CallInvalidateRotatingFp => mod_env ia64_invalidate_rotating_fp_alat
  | CallInvalidatePhysRange pa size => ia64_invalidate_alat_phys_range T ncpu self pa size
  | CallInvalidateStore addr size => ia64_invalidate_alat_store T ncpu self addr size
  | CallNotifyStore => ia64_alat_notify_store T ncpu self
  | CallWriteBegin => ia64_alat_write_begin
  | CallWriteEnd addr size => ia64_alat_write_end T ncpu self addr size
  | CallWriteCancel => ia64_alat_write_cancel
  | CallWriteAbort => ia64_alat_write_abort T ncpu self
  | CallWait n => mmod (fun s => s <| now ::= Nat.add n |>)
  end.

(** The state after a sequence of calls; a call that raises leaves its state
    and the processor continues with the next call. *)
Definition run_calls (cs : list alat_call) (s : alat_sys) : alat_sys :=
  foldl (fun s c => final (run_call c s)) s cs.

Lemma keeps_run_call c : keeps (run_call c).
Proof.
  destruct c; cbn [run_call];
    unfold ia64_alat_set, ia64_alat_set_fp, ia64_alat_set_pa, ia64_alat_check_load,
      ia64_alat_check_load_addr, ia64_alat_check_load_fp, ia64_alat_check_load_fp_addr,
      ia64_alat_write_end;
    try apply keeps_when;
    repeat (apply keeps_bind; [|intros; apply keeps_ret]);
    auto using keeps_invala, keeps_load_begin, keeps_chk_a, keeps_check, keeps_phys_range,
      keeps_store, keeps_notify, keeps_write_begin, keeps_write_finish, keeps_write_cancel,
      keeps_write_abort.
  1-3: apply keeps_set; lia.
  all: intros s Hs; unfold sys_ok in *; cbn.
  - apply alat_ok_invalidate_register; [done|lia].
  - apply alat_ok_invalidate_register; [done|lia].
  - by apply alat_ok_reg_range.
  - by apply alat_ok_reg_range.
  - done.
Qed.

Lemma run_calls_ok cs s : sys_ok s -> sys_ok (run_calls cs s).
Proof.
  revert s. induction cs as [|c cs IH]; intros s Hs; [done|].
  apply (IH (final (run_call c s))). by apply keeps_run_call.
Qed.

(** C14. The derived indexes of the ALAT always agree with its entries: from a
    coherent table, every sequence of calls, under every behaviour of the other
    processors, leads to a coherent table; in particular a register never has
    two entries. *)
Theorem alat_calls_coherent cs s :
  sys_ok s ->
  let a := alat_state (cpu_env (run_calls cs s)) in
  alat_ok a /\
  forall i j, 0 <= i < 32 -> 0 <= j < 32 ->
    e_valid (aget (alat a) i) = true -> e_valid (aget (alat a) j) = true ->
    e_reg (aget (alat a) i) = e_reg (aget (alat a) j) ->
    e_fp (aget (alat a) i) = e_fp (aget (alat a) j) -> i = j.
Proof.
  intros Hs. pose proof (run_calls_ok cs s Hs) as Hok. split; [done|]. intros i j Hi Hj Hvi Hvj Hr Hf.
  destruct (ok_entry _ Hok i Hi Hvi) as [_ Ei]. destruct (ok_entry _ Hok j Hj Hvj) as [_ Ej].
  rewrite Hr, Hf, Ej in Ei. lia.
Qed.

(** *** The value of a sample *)

Definition at_time (n : nat) (s : alat_sys) : alat_sys := s <| now := n |>.

Definition seq_at (own : Z) (t : nat) (i : Z) : Z :=
  u64 (if i =? self then own else sh_sequence (T t) i).

(** The sequences of [cpus], the first read at time [t], the next one later. *)
Fixpoint seq_sum (own : Z) (t : nat) (cpus : list Z) : Z :=
  match cpus with
  | [] => 0
  | i :: cpus => seq_at own t i + seq_sum own (S t) cpus
  end.

Fixpoint seq_active (own : Z) (t : nat) (cpus : list Z) : bool :=
  match cpus with
  | [] => false
  | i :: cpus => Z.odd (seq_at own t i) || seq_active own (S t) cpus
  end.

Definition gen_at (adv : Z) (t : nat) : Z := u64 (sh_generation (T t) + adv).

(** A whole sample that starts at time [t] and takes [sample_len] reads. *)
Definition total_at (own adv : Z) (t : nat) : Z :=
  gen_at adv t + seq_sum own (S t) (seqZ 0 ncpu).
Definition sample_len : nat := S (Z.to_nat ncpu).

Lemma truth_odd x : truth (x .& 1) = Z.odd x.
Proof. rewrite <- Z.bit0_odd. exact (truth_land_pow2 x 0 ltac:(lia)). Qed.

Lemma u64_add_l x y : u64 (u64 x + y) = u64 (x + y).
Proof. unfold wrap. by rewrite Zplus_mod_idemp_l. Qed.

Lemma u64_add_r x y : u64 (x + u64 y) = u64 (x + y).
Proof. unfold wrap. by rewrite Zplus_mod_idemp_r. Qed.

Lemma cpu_foreach_spec cpus g act s :
  uint 64 g ->
  cpu_foreach T self cpus g act s =
    Ok (u64 (g + seq_sum (own_sequence s) (now s) cpus),
        act || seq_active (own_sequence s) (now s) cpus)
       (at_time (now s + length cpus) s).
Proof.
  revert g act s. induction cpus as [|i cpus IH]; intros g act s Hg; cbn [cpu_foreach].
  - cbn. unfold mret, at_time. destruct s; cbn.
    by rewrite Z.add_0_r, wrap_small, orb_false_r, Nat.add_0_r.
  - unfold mbind at 1, load_sequence, sample. cbn beta iota.
    rewrite IH by (by apply uint_wrap). unfold at_time. cbn. fold (seq_at (own_sequence s) (now s) i).
    rewrite u64_add_l, truth_odd, <- orb_assoc, <- plus_n_Sm. do 2 f_equal.
    by rewrite Z.add_assoc.
Qed.

Hypothesis Hself : 0 <= self < ncpu.

Lemma cpu_generation_spec s :
  ia64_alat_cpu_generation T ncpu self s =
    Ok (u64 (seq_sum (own_sequence s) (now s) (seqZ 0 ncpu)),
        seq_active (own_sequence s) (now s) (seqZ 0 ncpu))
       (at_time (now s + Z.to_nat ncpu) s).
Proof.
  unfold ia64_alat_cpu_generation. destruct (Z.eqb_spec ncpu 1) as [E|E].
  - rewrite E in *. assert (Hs0 : self = 0) by lia. change (seqZ 0 1) with [0].
    unfold mbind, load_sequence, sample, mret, at_time. cbn [seq_sum seq_active].
    unfold seq_at. rewrite Hs0. cbn [Z.eqb].
    rewrite Z.add_0_r, wrap_wrap, truth_odd, orb_false_r by lia.
    cbn. by rewrite Nat.add_1_r.
  - rewrite cpu_foreach_spec by (by apply uint_0). rewrite length_seqZ. done.
Qed.

Lemma memory_generation_spec s :
  ia64_alat_memory_generation T ncpu self s =
    Ok (u64 (total_at (own_sequence s) (own_advances s) (now s)))
       (at_time (now s + sample_len) s).
Proof.
  unfold ia64_alat_memory_generation, physical_memory_write_generation.
  unfold mbind at 1, sample. cbn beta iota. unfold mbind at 1.
  rewrite cpu_generation_spec. cbn. unfold mret, at_time, sample_len, total_at, gen_at. cbn.
  by rewrite u64_add_r, <- plus_n_Sm.
Qed.

(** The re-examination of the external counters that ends a window opened by
    a sample at time [u]: three reads at successive instants find no active
    writer, the generation of that sample, and again no active writer. *)
Definition settled_at (adv : Z) (u w : nat) : Prop :=
  sh_active_writers (T w) = 0 /\ gen_at adv (S w) = gen_at adv u /\
  sh_active_writers (T (S (S w))) = 0.

Lemma write_generation_changed_spec g s :
  exists b, physical_memory_write_generation_changed T g s = Ok b (at_time (now s + 3) s) /\
    (b = false -> sh_active_writers (T (now s)) = 0 /\ gen_at (own_advances s) (S (now s)) = g /\
      sh_active_writers (T (S (S (now s)))) = 0).
Proof.
  eexists. split.
  - unfold physical_memory_write_generation_changed, physical_memory_write_generation, mbind,
      sample, mret, at_time. cbn -[Nat.add].
    replace (now s + 3)%nat with (S (S (S (now s)))) by lia. reflexivity.
  - unfold truth. intros [[H1 H2]%orb_false_iff H3]%orb_false_iff.
    apply negb_false_iff, Z.eqb_eq in H1, H2, H3. done.
Qed.

(** The closing sample of a window. *)
Lemma generation_changed_spec g s :
  exists b t, ia64_alat_memory_generation_changed T ncpu self g s = Ok b (at_time t s) /\
    (now s + sample_len <= t)%nat /\
    (b = false ->
      u64 (total_at (own_sequence s) (own_advances s) (now s)) = g /\
      seq_active (own_sequence s) (S (now s)) (seqZ 0 ncpu) = false /\
      exists w, (now s <= w /\ S (S w) < t)%nat /\ settled_at (own_advances s) (now s) w).
Proof.
  unfold ia64_alat_memory_generation_changed, physical_memory_write_generation at 1.
  unfold mbind at 1, sample. cbn beta iota. unfold mbind at 1. rewrite cpu_generation_spec.
  cbn -[Nat.add]. rewrite u64_add_r.
  change (u64 (sh_generation (T (now s)) + own_advances s)) with (gen_at (own_advances s) (now s)).
  change (gen_at (own_advances s) (now s) + seq_sum (own_sequence s) (S (now s)) (seqZ 0 ncpu))
    with (total_at (own_sequence s) (own_advances s) (now s)).
  destruct (seq_active _ _ _) eqn:Ha; cbn [orb].
  { exists true, (now s + sample_len)%nat. split_and!; [|lia|done].
    unfold mret, at_time, sample_len. cbn. by rewrite <- plus_n_Sm. }
  destruct (Z.eqb_spec (u64 (total_at (own_sequence s) (own_advances s) (now s))) g) as [Eg|]; cbn [negb].
  2:{ exists true, (now s + sample_len)%nat. split_and!; [|lia|done].
      unfold mret, at_time, sample_len. cbn. by rewrite <- plus_n_Sm. }
  set (s2 := at_time _ _).
  destruct (write_generation_changed_spec (gen_at (own_advances s) (now s)) s2) as (b & E & Hb).
  exists b, (now s + sample_len + 3)%nat. rewrite E.
  assert (Hn : now s2 = (now s + sample_len)%nat) by (unfold s2, at_time, sample_len; cbn; lia).
  split_and!; [by rewrite Hn|lia|]. intros [H1 [H2 H3]]%Hb.
  split_and!; [done|done|]. exists (now s2). split; [lia|]. by split_and!.
Qed.

(** *** Equal samples exclude activity *)

(** The counters only grow, and have not wrapped around: the sum of the
    counters at any time, with [own] and [adv] for this processor, fits in 64
    bits. *)
Record trace_ok (own adv : Z) : Prop := {
  tr_sequence t i : 0 <= sh_sequence (T t) i <= sh_sequence (T (S t)) i;
  tr_generation t : 0 <= sh_generation (T t) <= sh_generation (T (S t));
  tr_own : 0 <= own /\ 0 <= adv;
  tr_bound t : sh_generation (T t) + adv +
    foldr (fun i n => (if i =? self then own else sh_sequence (T t) i) + n) 0 (seqZ 0 ncpu) < 2 ^ 64
}.

Lemma mono_le (f : nat -> Z) t u : (forall t, f t <= f (S t)) -> (t <= u)%nat -> f t <= f u.
Proof. intros Hf. induction 1 as [|u Hle IH]; [lia|]. specialize (Hf u). lia. Qed.

Section equal_samples.
Variable own adv : Z.
Hypothesis Htr : trace_ok own adv.

Definition raw_seq (t : nat) (i : Z) : Z := if i =? self then own else sh_sequence (T t) i.

Lemma raw_seq_mono t u i : (t <= u)%nat -> 0 <= raw_seq t i <= raw_seq u i.
Proof.
  intros Htu. unfold raw_seq. pose proof (tr_own _ _ Htr). destruct (i =? self); [lia|].
  pose proof (tr_sequence _ _ Htr t i). split; [lia|].
  apply (mono_le (fun t => sh_sequence (T t) i)); [|done]. intros v. apply (tr_sequence _ _ Htr).
Qed.

Lemma raw_gen_mono t u : (t <= u)%nat -> 0 <= sh_generation (T t) <= sh_generation (T u).
Proof.
  intros Htu. pose proof (tr_generation _ _ Htr t). split; [lia|].
  apply (mono_le (fun t => sh_generation (T t))); [|done]. intros v. apply (tr_generation _ _ Htr).
Qed.

Definition raw_sum (t : nat) (cpus : list Z) : Z := foldr (fun i n => raw_seq t i + n) 0 cpus.

Lemma raw_sum_nonneg t cpus : 0 <= raw_sum t cpus.
Proof.
  unfold raw_sum. induction cpus as [|i cpus IH]; cbn [foldr]; [lia|].
  pose proof (raw_seq_mono t t i (le_n t)). lia.
Qed.

Lemma raw_seq_bound t i : i ∈ seqZ 0 ncpu -> raw_seq t i < 2 ^ 64.
Proof.
  intros Hin. pose proof (tr_bound _ _ Htr t) as Hb.
  pose proof (raw_gen_mono t t (le_n t)). pose proof (tr_own _ _ Htr).
  change (foldr (fun i n => (if i =? self then own else sh_sequence (T t) i) + n) 0 (seqZ 0 ncpu))
    with (raw_sum t (seqZ 0 ncpu)) in Hb.
  assert (raw_seq t i <= raw_sum t (seqZ 0 ncpu)); [|lia].
  clear Hb. induction Hin as [j l|j k l Hin IH]; unfold raw_sum; cbn [foldr].
  - pose proof (raw_sum_nonneg t l). unfold raw_sum in *. lia.
  - pose proof (raw_seq_mono t t k (le_n t)). unfold raw_sum in *. lia.
Qed.

Lemma seq_at_raw t i : i ∈ seqZ 0 ncpu -> seq_at own t i = raw_seq t i.
Proof.
  intros Hin. apply wrap_small. pose proof (raw_seq_mono t t i (le_n t)).
  pose proof (raw_seq_bound t i Hin). unfold uint. fold (raw_seq t i). lia.
Qed.

Lemma gen_at_raw t : gen_at adv t = sh_generation (T t) + adv.
Proof.
  apply wrap_small. pose proof (tr_bound _ _ Htr t) as Hb.
  pose proof (raw_gen_mono t t (le_n t)). pose proof (tr_own _ _ Htr).
  pose proof (raw_sum_nonneg t (seqZ 0 ncpu)). unfold raw_sum, raw_seq in *. unfold uint. lia.
Qed.

(** Staggered sums grow with the starting time and stay below a simultaneous
    sum at a later time. *)
Lemma seq_sum_mono cpus t u :
  (forall i, i ∈ cpus -> i ∈ seqZ 0 ncpu) -> (t <= u)%nat ->
  0 <= seq_sum own t cpus <= seq_sum own u cpus.
Proof.
  revert t u. induction cpus as [|i cpus IH]; intros t u Hin Htu; cbn [seq_sum]; [lia|].
  rewrite !seq_at_raw by (apply Hin; by constructor).
  pose proof (raw_seq_mono t u i Htu).
  specialize (IH (S t) (S u) ltac:(intros; apply Hin; by constructor) ltac:(lia)). lia.
Qed.

Lemma seq_sum_raw cpus t u :
  (forall i, i ∈ cpus -> i ∈ seqZ 0 ncpu) -> (t + length cpus <= u)%nat ->
  seq_sum own t cpus <= raw_sum u cpus.
Proof.
  revert t. induction cpus as [|i cpus IH]; intros t Hin Htu; [done|]. cbn [seq_sum length] in *.
  rewrite seq_at_raw by (apply Hin; by constructor).
  specialize (IH (S t) ltac:(intros; apply Hin; by constructor) ltac:(lia)).
  pose proof (raw_seq_mono t u i ltac:(lia)). unfold raw_sum in *. cbn [foldr]. lia.
Qed.

Lemma total_small t : 0 <= total_at own adv t < 2 ^ 64.
Proof.
  unfold total_at. rewrite gen_at_raw. pose proof (raw_gen_mono t t (le_n t)).
  pose proof (tr_own _ _ Htr).
  pose proof (seq_sum_mono (seqZ 0 ncpu) (S t) (S t) ltac:(done) ltac:(lia)).
  pose proof (seq_sum_raw (seqZ 0 ncpu) (S t) (S t + length (seqZ 0 ncpu)) ltac:(done) ltac:(lia)).
  pose proof (raw_gen_mono t (S t + length (seqZ 0 ncpu)) ltac:(lia)).
  pose proof (tr_bound _ _ Htr (S t + length (seqZ 0 ncpu))) as Hb.
  unfold raw_sum, raw_seq in *. lia.
Qed.

(** If the staggered sums agree then every CPU's sequence is the same at its
    two sampling times. *)
Lemma seq_sum_eq cpus t u :
  (forall i, i ∈ cpus -> i ∈ seqZ 0 ncpu) -> (t <= u)%nat ->
  seq_sum own t cpus = seq_sum own u cpus ->
  forall i, i ∈ cpus -> exists k, (k < length cpus)%nat /\
    raw_seq (t + k) i = raw_seq (u + k) i /\
    (seq_active own u cpus = false -> Z.odd (raw_seq (u + k) i) = false).
Proof.
  revert t u. induction cpus as [|j cpus IH]; intros t u Hin Htu Heq i Hi.
  { by apply not_elem_of_nil in Hi. }
  cbn [seq_sum seq_active length] in *.
  assert (Hj : j ∈ seqZ 0 ncpu) by (apply Hin; by constructor).
  assert (Hin' : forall i, i ∈ cpus -> i ∈ seqZ 0 ncpu) by (intros; apply Hin; by constructor).
  rewrite !seq_at_raw in * by done.
  pose proof (raw_seq_mono t u j Htu) as M1.
  pose proof (seq_sum_mono cpus (S t) (S u) Hin' ltac:(lia)) as M2.
  apply elem_of_cons in Hi as [->|Hi].
  - exists 0%nat. rewrite !Nat.add_0_r. split_and!; [lia|lia|]. by intros [? _]%orb_false_iff.
  - destruct (IH (S t) (S u) Hin' ltac:(lia) ltac:(lia) i Hi) as (k & Hk & He & Ho).
    exists (S k). rewrite <- !plus_n_Sm. split_and!; [lia|done|].
    intros [_ Hact]%orb_false_iff. by apply Ho.
Qed.

(** Two equal samples, the second with no store in progress: between them no
    other CPU's sequence and no generation has moved. *)
Lemma equal_samples_quiet t u :
  (t + sample_len <= u)%nat -> total_at own adv t = total_at own adv u ->
  seq_active own (S u) (seqZ 0 ncpu) = false ->
  forall v, (t + sample_len <= v <= u)%nat ->
    sh_generation (T v) = sh_generation (T u) /\
    forall i, 0 <= i < ncpu -> i <> self ->
      sh_sequence (T v) i = sh_sequence (T u) i /\ Z.odd (sh_sequence (T v) i) = false.
Proof.
  unfold sample_len. intros Htu Heq Hact v Hv. unfold total_at in Heq. rewrite !gen_at_raw in Heq.
  pose proof (raw_gen_mono t v ltac:(lia)). pose proof (raw_gen_mono v u ltac:(lia)).
  pose proof (seq_sum_mono (seqZ 0 ncpu) (S t) (S u) ltac:(done) ltac:(lia)).
  split; [lia|]. intros i Hi Hne.
  assert (Hin : i ∈ seqZ 0 ncpu) by (apply elem_of_seqZ; lia).
  destruct (seq_sum_eq (seqZ 0 ncpu) (S t) (S u) ltac:(done) ltac:(lia) ltac:(lia) i Hin)
    as (k & Hk & He & Ho). rewrite length_seqZ in Hk.
  pose proof (raw_seq_mono (S t + k) v i ltac:(lia)). pose proof (raw_seq_mono v u i ltac:(lia)).
  pose proof (raw_seq_mono u (S u + k) i ltac:(lia)). specialize (Ho Hact).
  unfold raw_seq in *. destruct (Z.eqb_spec i self); [done|].
  assert (E : sh_sequence (T v) i = sh_sequence (T (S u + k)) i) by lia.
  split; [lia|]. by rewrite E.
Qed.

Lemma equal_samples_generation t u :
  (t + sample_len <= u)%nat -> total_at own adv t = total_at own adv u ->
  sh_generation (T t) = sh_generation (T u).
Proof.
  unfold sample_len. intros Htu Heq. unfold total_at in Heq. rewrite !gen_at_raw in Heq.
  pose proof (raw_gen_mono t u ltac:(lia)).
  pose proof (seq_sum_mono (seqZ 0 ncpu) (S t) (S u) ltac:(done) ltac:(lia)). lia.
Qed.

(** A generation read twice with the same result did not move in between. *)
Lemma equal_generations_quiet t u v :
  sh_generation (T t) = sh_generation (T u) -> (t <= v <= u)%nat ->
  sh_generation (T v) = sh_generation (T t).
Proof.
  intros E Hv. pose proof (raw_gen_mono t v ltac:(lia)). pose proof (raw_gen_mono v u ltac:(lia)).
  lia.
Qed.

(** A device that stores to RAM: at [b] its
    [physical_memory_write_external_begin] is visible, at [p] the advance of
    the generation by its [physical_memory_write_external_end], at [e] the
    decrement that follows.  The bytes are written after [b] and before
    [p]. *)
Record device_store (b p e : nat) : Prop := {
  ds_order : (b <= p <= e)%nat;
  ds_active t : (b <= t < e)%nat -> 0 < sh_active_writers (T t);
  ds_advance : exists p', p = S p' /\ sh_generation (T p') < sh_generation (T p)
}.

(** Settled counters leave a device store two places: before the sample that
    opened the window, or after the first of the closing reads. *)
Lemma settled_excludes b p e t u w :
  sh_generation (T t) = sh_generation (T u) -> (t <= u <= w)%nat -> settled_at adv u w ->
  device_store b p e -> (p <= t \/ w < b)%nat.
Proof.
  intros Etu Hle (Hw & Hgen & _) [Hord Hact (p' & -> & Hadv)].
  rewrite !gen_at_raw in Hgen.
  destruct (Nat.le_gt_cases (S p') t) as [|Hp]; [by left|]. right.
  destruct (Nat.lt_ge_cases w b) as [|Hb]; [done|].
  destruct (Nat.lt_ge_cases w e) as [He|He]; [specialize (Hact w ltac:(lia)); lia|].
  pose proof (raw_gen_mono t p' ltac:(lia)). pose proof (raw_gen_mono (S p') (S w) ltac:(lia)). lia.
Qed.
End equal_samples.
(** *** Lookups and checks *)

Abbreviation table s := (alat_state (cpu_env s)).

Lemma sync_spec s :
  let g := u64 (total_at (own_sequence s) (own_advances s) (now s)) in
  let s1 := at_time (now s + sample_len) s in
  ia64_alat_sync_memory_writes T ncpu self s =
    if g =? memory_write_generation (table s) then Ok false s1
    else Ok true (s1 <| cpu_env; alat_state ::= fun a =>
                    (ia64_alat_clear a) <| memory_write_generation := g |> |>).
Proof.
  cbv zeta. unfold ia64_alat_sync_memory_writes. unfold mbind at 1.
  rewrite memory_generation_spec. unfold mbind at 1, get_alat, mget. cbn beta iota.
  change (table (at_time (now s + sample_len) s)) with (table s).
  destruct (_ =? memory_write_generation (table s)); reflexivity.
Qed.

Lemma window_spec g s :
  exists t, (now s <= t)%nat /\
  (ia64_alat_memory_window_changed T ncpu self g s = Ok false (at_time t s) /\
     u64 (total_at (own_sequence s) (own_advances s) (now s)) = g /\
     seq_active (own_sequence s) (S (now s)) (seqZ 0 ncpu) = false /\
     (exists w, (now s <= w /\ S (S w) < t)%nat /\ settled_at (own_advances s) (now s) w) \/
   exists g', ia64_alat_memory_window_changed T ncpu self g s =
     Ok true (at_time t s <| cpu_env; alat_state ::= fun a =>
                (ia64_alat_clear a) <| memory_write_generation := g' |> |>)).
Proof.
  destruct (generation_changed_spec g s) as (b & t & E & Ht & Hb).
  assert (Hw : ia64_alat_memory_window_changed T ncpu self g s =
    if b then
      let g' := u64 (total_at (own_sequence s) (own_advances s) t) in
      Ok true (at_time (t + sample_len) s <| cpu_env; alat_state ::= fun a =>
                 (ia64_alat_clear a) <| memory_write_generation := g' |> |>)
    else Ok false (at_time t s)).
  { unfold ia64_alat_memory_window_changed. unfold mbind at 1. rewrite E.
    destruct b; cbn [negb]; [|done].
    unfold mbind at 1, mod_alat, mmod. cbn beta iota. unfold mbind. by rewrite memory_generation_spec. }
  rewrite Hw. destruct b; cbv zeta.
  - exists (t + sample_len)%nat. split; [unfold sample_len; lia|]. right. by eexists.
  - exists t. split; [unfold sample_len in Ht; lia|]. left. split; [done|]. by apply Hb.
Qed.

(** A successful lookup has changed nothing but the time. *)
Lemma find_spec r is_fp close s :
  exists i g s', ia64_find_alat_reg T ncpu self r is_fp close s = Ok (i, g) s' /\
    (0 <= i -> exists t, (now s <= t)%nat /\ s' = at_time t s /\
      g = memory_write_generation (table s) /\ i = reg_slot (table s) is_fp r - 1).
Proof.
  unfold ia64_find_alat_reg. unfold mbind at 1, get_alat, mget. cbn beta iota.
  destruct ((IA64_GR_COUNT <=? r) || _); [by eexists _, _, _|].
  unfold mbind at 1. rewrite sync_spec.
  destruct (_ =? memory_write_generation (table s)); [|by eexists _, _, _].
  unfold mbind at 1. cbn beta iota.
  change (table (at_time (now s + sample_len) s)) with (table s).
  destruct ((0 <=? _) && close).
  - unfold mbind. destruct (window_spec (memory_write_generation (table s))
      (at_time (now s + sample_len) s)) as (t & Ht & [(E & _)|(g' & E)]); rewrite E.
    + eexists _, _, _. split; [reflexivity|]. intros _. exists t.
      split_and!; [cbn in Ht; lia|done|done|done].
    + eexists _, _, _. split; [reflexivity|]. lia.
  - eexists _, _, _. split; [reflexivity|]. intros _. exists (now s + sample_len)%nat.
    split_and!; [lia|done|done|done].
Qed.

(** What a successful check has established. *)
Lemma check_success r is_fp verify addr size clear s s' :
  ia64_check_load_alat T ncpu self r is_fp verify addr size clear s = Ok 1 s' ->
  exists u, (now s <= u <= now s')%nat /\
    u64 (total_at (own_sequence s) (own_advances s) u) = memory_write_generation (table s) /\
    seq_active (own_sequence s) (S u) (seqZ 0 ncpu) = false /\
    exists w, (u <= w /\ S (S w) < now s')%nat /\ settled_at (own_advances s) u w.
Proof.
  unfold ia64_check_load_alat. destruct (is_fp && (r <=? 1)); [done|].
  unfold mbind at 1. destruct (find_spec r is_fp verify s) as (i & g & s1 & E & Hi). rewrite E.
  cbn [fst snd]. destruct (Z.ltb_spec i 0); [done|].
  destruct (Hi ltac:(lia)) as (t & Ht & -> & -> & _).
  unfold mbind at 1, mget. cbn beta iota.
  destruct (verify && _); [unfold mwhen; by destruct clear|].
  unfold mbind at 1. destruct (window_spec (memory_write_generation (table s)) (at_time t s))
    as (t' & Ht' & [(E' & Hg & Ha & w & Hw & Hset)|(g' & E')]); rewrite E'; [|done].
  cbn in Ht', Hg, Ha, Hw. intros Hok.
  assert (Hnow : now s' = t').
  { unfold mwhen, mod_alat, mbind, mmod, mret in Hok. destruct clear; by injection Hok as <-. }
  exists t. rewrite Hnow. split_and!; [lia|lia|done|done|]. by exists w.
Qed.
Lemma load_begin_spec s :
  exists s1, ia64_alat_load_begin T ncpu self s =
      Ok (u64 (total_at (own_sequence s) (own_advances s) (now s))) s1 /\
    now s1 = (now s + sample_len)%nat /\
    own_sequence s1 = own_sequence s /\ own_advances s1 = own_advances s.
Proof.
  unfold ia64_alat_load_begin. unfold mbind at 1. rewrite sync_spec.
  destruct (Z.eqb_spec (u64 (total_at (own_sequence s) (own_advances s) (now s)))
              (memory_write_generation (table s))) as [->|]; by eexists.
Qed.

(** C15. An advanced load that is still good when it is checked has seen no
    store of another agent.  Take the generation sample that precedes the load
    and a later check that succeeds at the same table generation, this
    processor having made no store of its own in between, and counters that do
    not wrap around.  Whatever the interleaving, no other CPU's store sequence
    has changed in the window and none was odd (a store in progress), and there
    is an instant [w] of the check such that: the external generation is the
    same from the sample to the instant after [w]; no external writer is active
    at [w], nor two instants later; and every device store was published before
    the sample or begins after [w]. *)
Theorem check_excludes_remote_stores s0 g s1 s2 r is_fp verify addr size clear s3 :
  trace_ok (own_sequence s0) (own_advances s0) ->
  ia64_alat_load_begin T ncpu self s0 = Ok g s1 ->
  own_sequence s2 = own_sequence s0 -> own_advances s2 = own_advances s0 ->
  memory_write_generation (table s2) = g -> (now s1 <= now s2)%nat ->
  ia64_check_load_alat T ncpu self r is_fp verify addr size clear s2 = Ok 1 s3 ->
  (forall t i, (now s1 <= t <= now s2)%nat -> 0 <= i < ncpu -> i <> self ->
    sh_sequence (T t) i = sh_sequence (T (now s1)) i /\ Z.odd (sh_sequence (T t) i) = false) /\
  exists w, (now s2 <= w /\ S (S w) < now s3)%nat /\
    (forall t, (now s0 <= t <= S w)%nat -> sh_generation (T t) = sh_generation (T (now s0))) /\
    sh_active_writers (T w) = 0 /\ sh_active_writers (T (S (S w))) = 0 /\
    (forall b p e, device_store b p e -> (p <= now s0 \/ w < b)%nat).
Proof.
  intros Htr Hload Hown Hadv Hgen Hle Hchk.
  destruct (load_begin_spec s0) as (s1' & E & Hnow & _). rewrite E in Hload.
  injection Hload as Hg <-.
  destruct (check_success _ _ _ _ _ _ _ _ Hchk) as (u & Hu & Hsum & Hact & w & Hw & Hset).
  rewrite Hown, Hadv, Hgen, <- Hg in *.
  rewrite !wrap_small in Hsum by (apply total_small; done).
  assert (Hlen : (now s0 + sample_len <= u)%nat) by lia.
  pose proof (equal_samples_generation _ _ Htr _ _ Hlen (eq_sym Hsum)) as Egen.
  pose proof (equal_samples_quiet _ _ Htr _ _ Hlen (eq_sym Hsum) Hact) as Hq.
  split.
  - intros t i Ht Hi Hne.
    destruct (proj2 (Hq t ltac:(lia)) i Hi Hne), (proj2 (Hq (now s1') ltac:(lia)) i Hi Hne).
    split; congruence.
  - exists w. pose proof Hset as (Hw0 & Hgw & Hw2). rewrite !(gen_at_raw _ _ Htr) in Hgw.
    split_and!; [lia|lia| |done|done|].
    + intros t Ht. apply (equal_generations_quiet _ _ Htr _ (S w)); [lia|done].
    + intros b p e Hds. eapply settled_excludes; [done|done| |done|done]. lia.
Qed.

Lemma phys_range_run pa size s :
  let g := u64 (total_at (own_sequence s) (own_advances s) (now s)) in
  let s1 := at_time (now s + sample_len) s in
  ia64_invalidate_alat_phys_range T ncpu self pa size s =
    Ok tt (if alat_active_count (table s) =? 0 then s
           else if g =? memory_write_generation (table s) then
             s1 <| cpu_env; alat_state ::= fun a => while_bits (alat_occupied a) (fun a i =>
               if ia64_ranges_overlap pa size (e_phys_addr (aget (alat a) i)) (e_size (aget (alat a) i))
               then ia64_alat_invalidate_entry a i else a) a |>
           else s1 <| cpu_env; alat_state ::= fun a =>
                  (ia64_alat_clear a) <| memory_write_generation := g |> |>).
Proof.
  cbv zeta. unfold ia64_invalidate_alat_phys_range. unfold mbind at 1, get_alat, mget.
  cbn beta iota. destruct (alat_active_count (table s) =? 0); [done|].
  unfold mbind at 1. rewrite sync_spec. by destruct (_ =? memory_write_generation (table s)).
Qed.

(** The verdict on one entry, from the computed overlap. *)
Lemma entry_kept (e e' : IA64AlatEntry) (o : bool) (fresh meets : Prop) :
  e' = e <| e_valid := e_valid e && negb o |> -> fresh -> (o = true <-> meets) ->
  e' = e <| e_valid := e_valid e' |> /\ (e_valid e' = true <-> e_valid e = true /\ fresh /\ ~ meets).
Proof. intros -> Hf <-. cbn. destruct (e_valid e), o; naive_solver. Qed.

Lemma entry_dropped (e e' : IA64AlatEntry) (kept : Prop) :
  e' = e <| e_valid := false |> -> ~ kept ->
  e' = e <| e_valid := e_valid e' |> /\ (e_valid e' = true <-> kept).
Proof. intros -> Hk. cbn. naive_solver. Qed.

(** C32. A store leaves no stale entry and removes nothing else.  [g] is the
    generation sample of the call.  If it is the one the table was filled
    under, the entries left are exactly the valid ones that share no byte with
    the stored range; if another agent has stored in the meantime, none is
    left.  The address, size and register of every entry are unchanged.  The
    addresses and sizes are 64-bit values, and ranges end at the top of the
    address space. *)
Theorem phys_range_exact pa size s :
  sys_ok s -> uint 64 pa -> uint 64 size ->
  (forall i, 0 <= i < 32 -> let e := aget (alat (table s)) i in
     uint 64 (e_phys_addr e) /\ uint 64 (e_size e)) ->
  exists g sg s', ia64_alat_memory_generation T ncpu self s = Ok g sg /\
    ia64_invalidate_alat_phys_range T ncpu self pa size s = Ok tt s' /\
    forall i, 0 <= i < 32 ->
      let e := aget (alat (table s)) i in
      let e' := aget (alat (table s')) i in
      e' = e <| e_valid := e_valid e' |> /\
      (e_valid e' = true <->
        e_valid e = true /\ g = memory_write_generation (table s) /\
        ~ exists x, uint 64 x /\ pa <= x < pa + size /\
            e_phys_addr e <= x < e_phys_addr e + e_size e).
Proof.
  intros Hs Hpa Hsize Hent. eexists _, _, _. split; [apply memory_generation_spec|].
  split; [apply phys_range_run|]. intros i Hi. cbv zeta. destruct (Hent i Hi) as [Ha Hz].
  destruct (Z.eqb_spec (alat_active_count (table s)) 0) as [Hc|_].
  { assert (Hv : e_valid (aget (alat (table s)) i) = false).
    { apply count_valid_0; [by rewrite <- (ok_count _ Hs)|rewrite (ok_entries _ Hs); lia]. }
    split; [by apply entry_eta|]. rewrite Hv. naive_solver. }
  destruct (Z.eqb_spec (u64 (total_at (own_sequence s) (own_advances s) (now s)))
    (memory_write_generation (table s))) as [Hg|Hg].
  - eapply entry_kept; [|done|by apply ranges_overlap_spec].
    by apply (sweep_entries (table s)
      (fun e => ia64_ranges_overlap pa size (e_phys_addr e) (e_size e))).
  - apply entry_dropped; [|tauto]. by apply (clear_entries (table s)).
Qed.

End calls.

(** C36. Register invalidation is exact: [ia64_invalidate_stacked_alat] (used
    when the register frame moves) removes the entries of the general registers
    32 to 127 and keeps every other entry, and
    [ia64_invalidate_rotating_fp_alat] does the same for the floating-point
    registers 32 to 127. *)
Theorem stacked_invalidation_exact env i :
  alat_ok (alat_state env) -> 0 <= i < 32 ->
  let e := aget (alat (alat_state env)) i in
  let stacked := (32 <=? e_reg e) && (e_reg e <? 128) in
  aget (alat (alat_state (ia64_invalidate_stacked_alat env))) i =
    e <| e_valid := e_valid e && negb (negb (e_fp e) && stacked) |> /\
  aget (alat (alat_state (ia64_invalidate_rotating_fp_alat env))) i =
    e <| e_valid := e_valid e && negb (e_fp e && stacked) |>.
Proof.
  intros Hok Hi e stacked. unfold ia64_invalidate_stacked_alat, ia64_invalidate_rotating_fp_alat,
    ia64_invalidate_alat_reg_range. cbn -[while_bits]. split.
  - rewrite (sweep_entries (alat_state env) (fun e => eqb (e_fp e) false &&
      (IA64_STACKED_GR_BASE <=? e_reg e) && (e_reg e <? IA64_GR_COUNT))) by done.
    fold e. unfold stacked, IA64_STACKED_GR_BASE, IA64_GR_COUNT. rewrite <- andb_assoc.
    by destruct (e_fp e).
  - rewrite (sweep_entries (alat_state env) (fun e => eqb (e_fp e) true &&
      (IA64_ROTATING_FR_BASE <=? e_reg e) && (e_reg e <? IA64_FR_COUNT))) by done.
    fold e. unfold stacked, IA64_ROTATING_FR_BASE, IA64_FR_COUNT. rewrite <- andb_assoc.
    by destruct (e_fp e).
Qed.

(** ** Witnesses *)

(** A two-processor system in which the other processor does nothing, and no
    address is mapped. *)
Definition no_mapping : Translation := fun _ _ => None.
Definition quiet_trace (_ : nat) : shared := mkShared 0 0 (fun _ => 0).
Definition alat_start : alat_sys := mkAlatSys zero_env 0 0 0.

Lemma alat_start_ok : sys_ok alat_start.
Proof. apply alat_ok_empty; try done. intros i Hi. cbn [alat alat_state cpu_env alat_start zero_env zero_alat].
  by rewrite aget_replicate by lia.
Qed.

Lemma quiet_trace_ok : trace_ok quiet_trace 2 0 0 0.
Proof. constructor; [intros; simpl; lia|intros; simpl; lia|lia|intros; vm_compute; done]. Qed.

Lemma alat_calls_coherent_witness :
  alat_ok (alat_state (cpu_env
    (@run_calls no_mapping quiet_trace 2 0
       [CallLoadBegin; CallSetPa 40 0x1000 8 0 0x1000 false; CallInvalidateStacked] alat_start))).
Proof.
  exact (proj1 (@alat_calls_coherent no_mapping quiet_trace 2 0 _ alat_start alat_start_ok)).
Defined.

(** The state after an advanced load to r40. *)
Definition alat_loaded : alat_sys :=
  @run_calls no_mapping quiet_trace 2 0
    [CallLoadBegin; CallSetPa 40 0x1000 8 0 0x1000 false] alat_start.

Lemma check_excludes_remote_stores_witness :
  let s1 := final (@ia64_alat_load_begin quiet_trace 2 0 alat_start) in
  let s3 := final (@ia64_check_load_alat no_mapping quiet_trace 2 0 40 false false 0 0 true alat_loaded) in
  exists w, (now alat_loaded <= w /\ S (S w) < now s3)%nat /\
    sh_active_writers (quiet_trace w) = 0 /\ sh_active_writers (quiet_trace (S (S w))) = 0.
Proof.
  intros s1 s3.
  assert (H : exists w, (now alat_loaded <= w /\ S (S w) < now s3)%nat /\
    (forall t, (now alat_start <= t <= S w)%nat ->
      sh_generation (quiet_trace t) = sh_generation (quiet_trace (now alat_start))) /\
    sh_active_writers (quiet_trace w) = 0 /\ sh_active_writers (quiet_trace (S (S w))) = 0 /\
    (forall b p e, device_store quiet_trace b p e -> (p <= now alat_start \/ w < b)%nat)).
  { refine (proj2 (@check_excludes_remote_stores no_mapping quiet_trace 2 0 _
      alat_start 0 s1 alat_loaded 40 false false 0 0 true s3 quiet_trace_ok _ _ _ _ _ _)).
    all: vm_compute; first [reflexivity | lia | (split; congruence)]. }
  destruct H as (w & Hw & _ & H1 & H2 & _). by exists w.
Defined.

Lemma alat_loaded_ranges i :
  0 <= i < 32 -> let e := aget (alat (alat_state (cpu_env alat_loaded))) i in
  uint 64 (e_phys_addr e) /\ uint 64 (e_size e).
Proof.
  intros Hi e.
  assert (Hall : forallb (fun e => (0 <=? e_phys_addr e) && (e_phys_addr e <? 2 ^ 64) &&
    ((0 <=? e_size e) && (e_size e <? 2 ^ 64))) (alat (alat_state (cpu_env alat_loaded))) = true)
    by (vm_compute; reflexivity).
  assert (Hlen : length (alat (alat_state (cpu_env alat_loaded))) = 32%nat) by (vm_compute; done).
  rewrite List.forallb_forall in Hall. specialize (Hall e). fold e in Hall. unfold uint.
  assert (He : List.In e (alat (alat_state (cpu_env alat_loaded)))).
  { apply list_elem_of_In, aget_elem. rewrite Hlen. lia. }
  specialize (Hall He). lia.
Qed.

(** A store to the last byte of the advanced load removes its entry. *)
Lemma phys_range_exact_witness :
  exists s', @ia64_invalidate_alat_phys_range quiet_trace 2 0 0x1007 1 alat_loaded = Ok tt s' /\
    e_valid (aget (alat (alat_state (cpu_env s'))) 0) <> true.
Proof.
  destruct (@phys_range_exact quiet_trace 2 0 ltac:(lia) 0x1007 1 alat_loaded)
    as (g & sg & s' & _ & E & H).
  - apply (@run_calls_ok no_mapping), alat_start_ok.
  - by vm_compute.
  - by vm_compute.
  - exact alat_loaded_ranges.
  - exists s'. split; [done|]. intros Hv. apply (proj2 (H 0 ltac:(lia))) in Hv as (_ & _ & Hn).
    apply Hn. exists 0x1007. vm_compute. intuition congruence.
Defined.

Lemma stacked_invalidation_exact_witness :
  e_valid (aget (alat (alat_state (ia64_invalidate_stacked_alat zero_env))) 0) = false.
Proof.
  rewrite (proj1 (stacked_invalidation_exact zero_env 0 alat_start_ok ltac:(lia))). reflexivity.
Defined.
