(* ===== verification/Registers.v ===== *)
(** * Register views

    The parts of the register file that a rename base or a bank switch maps:
    the NaT bits of the general registers and the banked registers
    ([arch/rse.c], [arch/system.c]), the predicate registers with their
    rotation ([arch/system.c]) and the rotating floating-point registers
    ([arch/fp.c]).  [env->pr] and [env->fp.fr] hold the current logical view;
    a change of a rename base must move the view and not the registers. *)
From S2P Require Import Prelude Arch Env Fpreg Alat.
From stdpp Require Import list.
Local Open Scope Z_scope.

(** ** Definitions *)

Definition ia64_gr_nat_get (env : CPUIA64State) (reg : Z) : bool :=
  if reg =? 0 then false
  else truth ((aget (nat_ env) (reg / 64) >>> (reg mod 64)) .& 1).

Definition ia64_gr_nat_set (env : CPUIA64State) (reg : Z) (nat : bool) : CPUIA64State :=
  if reg =? 0 then env
  else if nat then env <| nat_ ::= fun m => bm_set m reg |>
  else env <| nat_ ::= fun m => bm_clear m reg |>.

Definition ia64_swap_banked_gr (env : CPUIA64State) : CPUIA64State :=
  for_range 0 16 (fun env i =>
    let reg := 16 + i in
    let value := aget (gr env) reg in
    let nat := ia64_gr_nat_get env reg in
    let env := env <| gr @ reg := aget (banked_gr env) i |> in
    let env := ia64_gr_nat_set env reg (truth ((banked_nat env >>> i) .& 1)) in
    let env := env <| banked_gr @ i := value |> in
    if nat then env <| banked_nat ::= fun b => u16 (b .| u16 (1 <<< i)) |>
    else env <| banked_nat ::= fun b => u16 (b .& u16 (~32 (1 <<< i))) |>) env.

Definition IA64_PR_TRUE : Z := 0.
Definition IA64_PR_ROTATING_BASE : Z := 16.
Definition IA64_PR_ROTATING_COUNT : Z := IA64_PR_COUNT - IA64_PR_ROTATING_BASE.
Definition IA64_PR_ROTATING_MASK : Z := (1 <<< IA64_PR_ROTATING_COUNT) - 1.

Definition ia64_normalize_rrb_pr_slow (rrb : Z) : Z := rrb mod IA64_PR_ROTATING_COUNT.

Definition ia64_normalize_rrb_pr (rrb : Z) : Z :=
  if IA64_PR_ROTATING_COUNT <=? rrb then ia64_normalize_rrb_pr_slow rrb else rrb.

Definition ia64_rotl_pr (value shift : Z) : Z :=
  let value := value .& IA64_PR_ROTATING_MASK in
  if shift =? 0 then value
  else (u64 (value <<< shift) .| (value >>> (IA64_PR_ROTATING_COUNT - shift))) .&
       IA64_PR_ROTATING_MASK.

Definition ia64_rotr_pr (value shift : Z) : Z :=
  let value := value .& IA64_PR_ROTATING_MASK in
  if shift =? 0 then value
  else ((value >>> shift) .| u64 (value <<< (IA64_PR_ROTATING_COUNT - shift))) .&
       IA64_PR_ROTATING_MASK.

(** A pointer into [pr] is the array with an offset [p]. *)
Definition ia64_pack_pr_bit (pr : list Z) (p bit : Z) : Z := (aget pr (p + bit) .& 1) <<< bit.

Definition ia64_pack_pr8 (pr : list Z) (p : Z) : Z :=
  ia64_pack_pr_bit pr p 0 .| ia64_pack_pr_bit pr p 1 .| ia64_pack_pr_bit pr p 2 .|
  ia64_pack_pr_bit pr p 3 .| ia64_pack_pr_bit pr p 4 .| ia64_pack_pr_bit pr p 5 .|
  ia64_pack_pr_bit pr p 6 .| ia64_pack_pr_bit pr p 7.

Definition ia64_unpack_pr_bit (pr : list Z) (p value bit : Z) : list Z :=
  aset pr (p + bit) ((value >>> bit) .& 1).

Definition ia64_unpack_pr8 (pr : list Z) (p value : Z) : list Z :=
  let pr := ia64_unpack_pr_bit pr p value 0 in
  let pr := ia64_unpack_pr_bit pr p value 1 in
  let pr := ia64_unpack_pr_bit pr p value 2 in
  let pr := ia64_unpack_pr_bit pr p value 3 in
  let pr := ia64_unpack_pr_bit pr p value 4 in
  let pr := ia64_unpack_pr_bit pr p value 5 in
  let pr := ia64_unpack_pr_bit pr p value 6 in
  ia64_unpack_pr_bit pr p value 7.

Definition ia64_system_read_pr (env : CPUIA64State) : Z :=
  let rrb := ia64_normalize_rrb_pr (cfm_rrb_pr env) in
  let value := ia64_pack_pr8 (pr env) IA64_PR_TRUE .| 1 in
  let value := value .| (ia64_pack_pr8 (pr env) (IA64_PR_TRUE + 8) <<< 8) in
  let rotating := ia64_pack_pr8 (pr env) IA64_PR_ROTATING_BASE in
  let rotating := rotating .| (ia64_pack_pr8 (pr env) (IA64_PR_ROTATING_BASE + 8) <<< 8) in
  let rotating := rotating .| (ia64_pack_pr8 (pr env) (IA64_PR_ROTATING_BASE + 16) <<< 16) in
  let rotating := rotating .| (ia64_pack_pr8 (pr env) (IA64_PR_ROTATING_BASE + 24) <<< 24) in
  let rotating := rotating .| (ia64_pack_pr8 (pr env) (IA64_PR_ROTATING_BASE + 32) <<< 32) in
  let rotating := rotating .| (ia64_pack_pr8 (pr env) (IA64_PR_ROTATING_BASE + 40) <<< 40) in
  value .| (ia64_rotl_pr rotating rrb <<< IA64_PR_ROTATING_BASE).

(** The body of the loop [while (mask) { logical = ctz64(mask); ... }]. *)
Definition write_pr_bit (p value : Z) (pr : list Z) (logical : Z) : list Z :=
  aset pr (p + logical) ((value >>> logical) .& 1).

Definition ia64_system_write_pr (env : CPUIA64State) (value mask : Z) : CPUIA64State :=
  let nonrotating_mask := mask .& 0xfffe in
  let rotating_mask := mask >>> IA64_PR_ROTATING_BASE in
  let rotating_value := value >>> IA64_PR_ROTATING_BASE in
  let rrb := ia64_normalize_rrb_pr (cfm_rrb_pr env) in
  let p := pr env in
  let p :=
    if nonrotating_mask =? 0xfffe then
      let p := ia64_unpack_pr8 p IA64_PR_TRUE value in
      ia64_unpack_pr8 p (IA64_PR_TRUE + 8) (value >>> 8)
    else while_bits nonrotating_mask (write_pr_bit 0 value) p in
  let rotating_mask := ia64_rotr_pr rotating_mask rrb in
  let rotating_value := ia64_rotr_pr rotating_value rrb in
  let p :=
    if rotating_mask =? IA64_PR_ROTATING_MASK then
      let p := ia64_unpack_pr8 p IA64_PR_ROTATING_BASE rotating_value in
      let p := ia64_unpack_pr8 p (IA64_PR_ROTATING_BASE + 8) (rotating_value >>> 8) in
      let p := ia64_unpack_pr8 p (IA64_PR_ROTATING_BASE + 16) (rotating_value >>> 16) in
      let p := ia64_unpack_pr8 p (IA64_PR_ROTATING_BASE + 24) (rotating_value >>> 24) in
      let p := ia64_unpack_pr8 p (IA64_PR_ROTATING_BASE + 32) (rotating_value >>> 32) in
      ia64_unpack_pr8 p (IA64_PR_ROTATING_BASE + 40) (rotating_value >>> 40)
    else while_bits rotating_mask (write_pr_bit IA64_PR_ROTATING_BASE rotating_value) p in
  env <| pr := aset p IA64_PR_TRUE 1 |>.

(** The rotations of an array segment that the predicate and the
    floating-point code share: [values[base .. base + count)] moves down by
    [shift] places.  Moves between overlapping ranges read the old array. *)
Definition rebase_down_one (values : list Z) (base count : Z) : list Z :=
  aset (memcpy values base values (base + 1) (count - 1)) (base + count - 1) (aget values base).

Definition rebase_up_one (values : list Z) (base count : Z) : list Z :=
  aset (memcpy values (base + 1) values base (count - 1)) base (aget values (base + count - 1)).

Definition ia64_set_cfm_rrb_pr_slow (env : CPUIA64State) (new_rrb old_rrb : Z) : CPUIA64State :=
  let old_rrb := if IA64_PR_ROTATING_COUNT <=? old_rrb
                 then old_rrb mod IA64_PR_ROTATING_COUNT else old_rrb in
  let new_rrb := if IA64_PR_ROTATING_COUNT <=? new_rrb
                 then new_rrb mod IA64_PR_ROTATING_COUNT else new_rrb in
  if new_rrb =? old_rrb then env <| cfm_rrb_pr := new_rrb |>
  else
    let shift := if old_rrb <=? new_rrb then new_rrb - old_rrb
                 else new_rrb + IA64_PR_ROTATING_COUNT - old_rrb in
    let p :=
      if shift =? 1 then rebase_down_one (pr env) IA64_PR_ROTATING_BASE IA64_PR_ROTATING_COUNT
      else if shift =? IA64_PR_ROTATING_COUNT - 1 then
        rebase_up_one (pr env) IA64_PR_ROTATING_BASE IA64_PR_ROTATING_COUNT
      else
        let first := IA64_PR_ROTATING_COUNT - shift in
        let old_pr := memcpy (replicate 48 0) 0 (pr env) IA64_PR_ROTATING_BASE
                        IA64_PR_ROTATING_COUNT in
        let p := memcpy (pr env) IA64_PR_ROTATING_BASE old_pr shift first in
        memcpy p (IA64_PR_ROTATING_BASE + first) old_pr 0 shift in
    env <| cfm_rrb_pr := new_rrb |> <| pr := aset p IA64_PR_TRUE 1 |>.

Definition ia64_set_cfm_rrb_pr (env : CPUIA64State) (new_rrb : Z) : CPUIA64State :=
  let old_rrb := cfm_rrb_pr env in
  if (new_rrb =? old_rrb) && (new_rrb <? IA64_PR_ROTATING_COUNT) then env
  else ia64_set_cfm_rrb_pr_slow env new_rrb old_rrb.

Definition ia64_rotate_cfm_rrb_pr_right (env : CPUIA64State) : CPUIA64State :=
  let old_rrb := cfm_rrb_pr env in
  let p := rebase_up_one (pr env) IA64_PR_ROTATING_BASE IA64_PR_ROTATING_COUNT in
  let old_rrb := ia64_normalize_rrb_pr old_rrb in
  env <| cfm_rrb_pr := if truth old_rrb then old_rrb - 1 else IA64_PR_ROTATING_COUNT - 1 |>
      <| pr := aset p IA64_PR_TRUE 1 |>.

(** ** Rotating floating-point registers *)

Definition IA64_ROTATING_FR_COUNT : Z := IA64_FR_COUNT - IA64_ROTATING_FR_BASE.

(** Also [ia64_rebase_rotating_fr_u32], which differs in the element type. *)
Definition ia64_rebase_rotating_fr_u64 (values : list Z) (shift : Z) : list Z :=
  if shift =? 1 then rebase_down_one values IA64_ROTATING_FR_BASE IA64_ROTATING_FR_COUNT
  else if shift =? IA64_ROTATING_FR_COUNT - 1 then
    rebase_up_one values IA64_ROTATING_FR_BASE IA64_ROTATING_FR_COUNT
  else
    let tmp := for_range 0 IA64_ROTATING_FR_COUNT (fun tmp i =>
      let src := (i + shift) mod IA64_ROTATING_FR_COUNT in
      aset tmp i (aget values (IA64_ROTATING_FR_BASE + src))) (replicate 96 0) in
    memcpy values IA64_ROTATING_FR_BASE tmp 0 IA64_ROTATING_FR_COUNT.

(** The [__uint128_t] arithmetic wraps at 128 bits. *)
Definition ia64_rebase_rotating_fr_bits (bits : list Z) (shift : Z) : list Z :=
  let low_nonrotating := aget bits 0 .& UINT32_MAX in
  let mask := (1 <<< 96) - 1 in
  let rotating := wrap 128 (aget bits 1 <<< 32) .| (aget bits 0 >>> 32) in
  let rotating :=
    ((rotating >>> shift) .| wrap 128 (rotating <<< (IA64_ROTATING_FR_COUNT - shift))) .& mask in
  let bits := aset bits 0 (low_nonrotating .| u64 (wrap 128 (rotating <<< 32))) in
  aset bits 1 (u64 (rotating >>> 32)).

Definition ia64_rebase_rotating_fr (env : CPUIA64State) (shift : Z) : CPUIA64State :=
  let rotating_word0_mask := u64 (UINT64_MAX <<< IA64_ROTATING_FR_BASE) in
  let f := fp env in
  let has_ext := truth (aget (fr_ext_valid f) 0 .& rotating_word0_mask) ||
                 truth (aget (fr_ext_valid f) 1) in
  let has_int := truth (aget (fr_int_origin f) 0 .& rotating_word0_mask) ||
                 truth (aget (fr_int_origin f) 1) in
  let f := f <| fr ::= fun v => ia64_rebase_rotating_fr_u64 v shift |> in
  let f := if has_int then f <| fr_int_value ::= fun v => ia64_rebase_rotating_fr_u64 v shift |>
           else f in
  let f := if has_ext
           then f <| fr_ext_mant ::= fun v => ia64_rebase_rotating_fr_u64 v shift |>
                  <| fr_ext_exp ::= fun v => ia64_rebase_rotating_fr_u64 v shift |>
           else f in
  let f := f <| fr_nat ::= fun b => ia64_rebase_rotating_fr_bits b shift |>
             <| fr_sig ::= fun b => ia64_rebase_rotating_fr_bits b shift |>
             <| fr_ext_sign ::= fun b => ia64_rebase_rotating_fr_bits b shift |>
             <| fr_ext_valid ::= fun b => ia64_rebase_rotating_fr_bits b shift |>
             <| fr_int_origin ::= fun b => ia64_rebase_rotating_fr_bits b shift |> in
  let f := f <| fr_sig ::= fun b =>
    aset b 0 (aget b 0 .& ~64 (aget (fr_nat f) 0 .& rotating_word0_mask)) |> in
  let f := f <| fr_sig ::= fun b => aset b 1 (aget b 1 .& ~64 aget (fr_nat f) 1) |> in
  env <| fp := f |>.

Definition ia64_normalize_rrb_fr (rrb : Z) : Z := rrb mod IA64_ROTATING_FR_COUNT.

Definition ia64_sync_rotating_fr (env : CPUIA64State) : CPUIA64State :=
  let new_rrb := cfm_rrb_fr env in
  let old_rrb := rotating_fr_materialized_rrb (fp env) in
  let env :=
    if negb (new_rrb =? old_rrb) && rotating_fr_live (fp env) then
      let shift := if old_rrb <=? new_rrb then new_rrb - old_rrb
                   else new_rrb + IA64_ROTATING_FR_COUNT - old_rrb in
      ia64_rebase_rotating_fr env shift
    else env in
  env <| fp; rotating_fr_materialized_rrb := new_rrb |>.

Definition ia64_set_cfm_rrb_fr (env : CPUIA64State) (new_rrb : Z) : CPUIA64State :=
  let old_rrb := cfm_rrb_fr env in
  let new_rrb := if IA64_ROTATING_FR_COUNT <=? new_rrb
                 then ia64_normalize_rrb_fr new_rrb else new_rrb in
  if new_rrb =? old_rrb then env
  else
    let env := env <| cfm_rrb_fr := new_rrb |> in
    if negb (rotating_fr_live (fp env))
    then env <| fp; rotating_fr_materialized_rrb := new_rrb |>
    else ia64_invalidate_rotating_fp_alat env.

(** Where a logical register is in the physical file. *)
Definition ia64_fpswa_physical_fr (env : CPUIA64State) (reg : Z) : Z :=
  if reg <? IA64_ROTATING_FR_BASE then reg
  else IA64_ROTATING_FR_BASE +
       (reg - IA64_ROTATING_FR_BASE + cfm_rrb_fr env) mod IA64_ROTATING_FR_COUNT.

Definition ia64_fpswa_physical_pr (env : CPUIA64State) (reg : Z) : Z :=
  if reg <? 16 then reg else 16 + (reg - 16 + cfm_rrb_pr env) mod 48.

(** ** Rotation of an array segment *)

Lemma mod_wrap c x : 0 <= x < 2 * c -> x mod c = if x <? c then x else x - c.
Proof.
  intros Hx. destruct (Z.ltb_spec x c); [apply Z.mod_small; lia|].
  symmetry. apply (Z.mod_unique x c 1); lia.
Qed.

(** [v'] is [v] with the segment of [count] elements at [base] moved down by
    [shift] places. *)
Definition rotated (v v' : list Z) (base count shift : Z) : Prop :=
  length v' = length v /\
  forall i, 0 <= i < alen v ->
    aget v' i = if (base <=? i) && (i <? base + count)
                then aget v (base + (i - base + shift) mod count) else aget v i.

Lemma rebase_down_one_rotated v base count :
  0 <= base -> 0 < count -> base + count <= alen v ->
  rotated v (rebase_down_one v base count) base count 1.
Proof.
  intros Hb Hc Hl. unfold rebase_down_one. split; [by rewrite aset_length, memcpy_length|].
  intros i Hi. rewrite aget_aset by (rewrite memcpy_length; lia).
  rewrite aget_memcpy by done.
  destruct (Z.eqb_spec (base + count - 1) i) as [<-|].
  - zcmp. replace (base + count - 1 - base + 1) with count by lia.
    rewrite Z.mod_same by lia. f_equal. lia.
  - zcmp; try done. rewrite Z.mod_small by lia. f_equal. lia.
Qed.

Lemma rebase_up_one_rotated v base count :
  0 <= base -> 0 < count -> base + count <= alen v ->
  rotated v (rebase_up_one v base count) base count (count - 1).
Proof.
  intros Hb Hc Hl. unfold rebase_up_one. split; [by rewrite aset_length, memcpy_length|].
  intros i Hi. rewrite aget_aset by (rewrite memcpy_length; lia).
  rewrite aget_memcpy by done.
  destruct (Z.eqb_spec base i) as [<-|].
  - zcmp. rewrite Z.mod_small by lia. f_equal. lia.
  - zcmp; try done. rewrite mod_wrap by lia. zcmp. f_equal. lia.
Qed.

(** Two copies through a temporary. *)
Lemma rebase_copy_rotated v base count shift n :
  0 <= base -> 0 < shift < count -> base + count <= alen v -> Z.of_nat n = count ->
  let old := memcpy (replicate n 0) 0 v base count in
  rotated v (memcpy (memcpy v base old shift (count - shift)) (base + (count - shift)) old 0 shift)
    base count shift.
Proof.
  intros Hb Hs Hl Hn old.
  assert (Hold : forall k, 0 <= k < count -> aget old k = aget v (base + k)).
  { intros k Hk. subst old. rewrite aget_memcpy by (rewrite length_replicate; lia). zcmp.
    f_equal. lia. }
  split; [by rewrite !memcpy_length|].
  intros i Hi. rewrite !aget_memcpy by (rewrite ?memcpy_length; done). zcmp; try done.
  - rewrite mod_wrap by lia. zcmp. rewrite Hold by lia. f_equal. lia.
  - rewrite mod_wrap by lia. zcmp. rewrite Hold by lia. f_equal. lia.
Qed.

Lemma rotated_id v base count : 0 < count -> rotated v v base count 0.
Proof.
  intros Hc. split; [done|]. intros i Hi. zcmp; try done.
  rewrite Z.mod_small by lia. f_equal. lia.
Qed.

(** ** Predicates *)

(** The predicates proper: bit [i] of the physical predicate file. *)
Definition phys_pr (env : CPUIA64State) (i : Z) : bool :=
  if i <? 16 then Z.testbit (aget (pr env) i) 0
  else Z.testbit (aget (pr env) (16 + (i - 16 - cfm_rrb_pr env) mod 48)) 0.

Lemma normalize_rrb_pr rrb : 0 <= rrb -> ia64_normalize_rrb_pr rrb = rrb mod 48.
Proof.
  intros H. unfold ia64_normalize_rrb_pr, ia64_normalize_rrb_pr_slow.
  change IA64_PR_ROTATING_COUNT with 48. destruct (Z.leb_spec 48 rrb); [done|].
  symmetry. apply Z.mod_small. lia.
Qed.

Lemma pack_pr_bit_spec pr p k j : 0 <= k -> 0 <= j ->
  Z.testbit (ia64_pack_pr_bit pr p k) j = (j =? k) && Z.testbit (aget pr (p + k)) 0.
Proof.
  intros Hk Hj. unfold ia64_pack_pr_bit. rewrite land_1, Z.shiftl_spec by done.
  rewrite <- Z.bit0_mod. change (Z.b2z ?b) with (Z.b2z b).
  destruct (Z.leb_spec k j).
  - rewrite testbit_b2z. rewrite andb_comm. f_equal. apply bool_ext. rewrite !Z.eqb_eq. lia.
  - rewrite Z.testbit_neg_r by lia. zcmp. done.
Qed.

Lemma pack_pr8_spec pr p j : 0 <= j ->
  Z.testbit (ia64_pack_pr8 pr p) j = (j <? 8) && Z.testbit (aget pr (p + j)) 0.
Proof.
  intros Hj. unfold ia64_pack_pr8. rewrite !Z.lor_spec, !pack_pr_bit_spec by lia.
  destruct (Z.ltb_spec j 8).
  - assert (j = 0 \/ j = 1 \/ j = 2 \/ j = 3 \/ j = 4 \/ j = 5 \/ j = 6 \/ j = 7) as Hc by lia.
    destruct Hc as [->|[->|[->|[->|[->|[->|[->| ->]]]]]]]; cbn [Z.eqb Pos.eqb andb orb];
      rewrite ?orb_false_r; done.
  - zcmp. done.
Qed.

Lemma rotl_pr_spec v s i : 0 <= s < 48 -> 0 <= i ->
  Z.testbit (ia64_rotl_pr v s) i = (i <? 48) && Z.testbit v ((i - s) mod 48).
Proof.
  intros Hs Hi. unfold ia64_rotl_pr.
  change IA64_PR_ROTATING_MASK with (Z.ones 48). change IA64_PR_ROTATING_COUNT with 48.
  replace ((i - s) mod 48) with (if i <? 48 then if s <=? i then i - s else i - s + 48
                                 else (i - s) mod 48).
  2: { zcmp; try done.
       - symmetry. apply Z.mod_small; lia.
       - apply (Z.mod_unique _ 48 (-1)); lia. }
  destruct (Z.eqb_spec s 0) as [->|].
  - zbits_step; rewrite ?andb_true_r, ?andb_false_r; try done. f_equal. lia.
  - zbits_step; rewrite ?andb_true_r, ?andb_false_r, ?orb_false_r, ?Z.testbit_neg_r by lia;
      cbn [andb orb]; try done; f_equal; lia.
Qed.

Lemma rotr_pr_spec v s i : 0 <= s < 48 -> 0 <= i ->
  Z.testbit (ia64_rotr_pr v s) i = (i <? 48) && Z.testbit v ((i + s) mod 48).
Proof.
  intros Hs Hi. unfold ia64_rotr_pr.
  change IA64_PR_ROTATING_MASK with (Z.ones 48). change IA64_PR_ROTATING_COUNT with 48.
  replace ((i + s) mod 48) with (if i <? 48 then if i + s <? 48 then i + s else i + s - 48
                                 else (i + s) mod 48).
  2: { zcmp; try done; symmetry; rewrite mod_wrap by lia; zcmp; done. }
  destruct (Z.eqb_spec s 0) as [->|].
  - zbits_step; rewrite ?andb_true_r, ?andb_false_r; try done. f_equal. lia.
  - zbits_step; rewrite ?andb_true_r, ?andb_false_r, ?orb_false_r, ?Z.testbit_neg_r by lia;
      cbn [andb orb]; try done; f_equal; lia.
Qed.

Lemma shiftr_land_1 v k : 0 <= k -> (v >>> k) .& 1 = Z.b2z (Z.testbit v k).
Proof. intros Hk. rewrite land_1, Z.shiftr_div_pow2 by done. symmetry. by apply Z.testbit_spec'. Qed.

Lemma read_pr_spec env i :
  0 <= cfm_rrb_pr env -> 0 <= i ->
  Z.testbit (ia64_system_read_pr env) i = (i <? 64) && ((i =? 0) || phys_pr env i).
Proof.
  intros Hr Hi. unfold ia64_system_read_pr, phys_pr. cbv zeta.
  rewrite normalize_rrb_pr by done. change IA64_PR_ROTATING_BASE with 16.
  change IA64_PR_TRUE with 0.
  set (rot := Z.lor _ (ia64_pack_pr8 (pr env) (16 + 40) <<< 40)).
  assert (Hrot : forall j, 0 <= j < 48 -> Z.testbit rot j = Z.testbit (aget (pr env) (16 + j)) 0).
  { intros j Hj. subst rot. rewrite !Z.lor_spec, !shiftl_spec', !pack_pr8_spec by lia.
    zcmp; rewrite ?pack_pr8_spec by lia; zcmp; cbn [orb andb]; rewrite ?orb_false_r; f_equal; f_equal; lia. }
  clearbody rot.
  pose proof (Z.mod_pos_bound (cfm_rrb_pr env) 48 ltac:(lia)) as Hm.
  rewrite !Z.lor_spec, !shiftl_spec', testbit_1_l, !pack_pr8_spec by lia.
  destruct (Z.ltb_spec i 16).
  - destruct (Z.ltb_spec i 64); [|lia]. destruct (Z.leb_spec 16 i); [lia|].
    cbn [andb orb]. rewrite orb_false_r.
    destruct (Z.eqb_spec i 0) as [->|]; [by rewrite orb_true_r|].
    zcmp; rewrite ?pack_pr8_spec by lia; zcmp; cbn [orb]; rewrite ?orb_false_r; done || (f_equal; f_equal; lia).
  - destruct (Z.leb_spec 16 i); [|lia]. destruct (Z.leb_spec 8 i); [|lia].
    rewrite pack_pr8_spec by lia. rewrite rotl_pr_spec by lia. zcmp; cbn [orb andb]; try done.
    rewrite Hrot by (apply Z.mod_pos_bound; lia).
    rewrite Zminus_mod_idemp_r. done.
Qed.

Lemma read_pr_ext env env' :
  0 <= cfm_rrb_pr env -> 0 <= cfm_rrb_pr env' ->
  (forall i, 1 <= i < 64 -> phys_pr env i = phys_pr env' i) ->
  ia64_system_read_pr env = ia64_system_read_pr env'.
Proof.
  intros H H' Hp. apply Z.bits_inj'. intros i Hi. rewrite !read_pr_spec by done.
  zcmp; cbn [andb orb]; try done. apply Hp. lia.
Qed.

Lemma unpack_pr8_length pr p v : length (ia64_unpack_pr8 pr p v) = length pr.
Proof. unfold ia64_unpack_pr8, ia64_unpack_pr_bit. cbv zeta. by rewrite !aset_length. Qed.

Lemma unpack_pr8_get pr p v i :
  0 <= p -> p + 8 <= alen pr ->
  aget (ia64_unpack_pr8 pr p v) i =
    if (p <=? i) && (i <? p + 8) then Z.b2z (Z.testbit v (i - p)) else aget pr i.
Proof.
  intros Hp Hl. unfold ia64_unpack_pr8, ia64_unpack_pr_bit. cbv zeta.
  rewrite !aget_aset by (rewrite ?aset_length; lia). rewrite !shiftr_land_1 by lia.
  zcmp; try done; f_equal; f_equal; lia.
Qed.

Lemma fold_write_pr p v l pr i :
  0 <= p -> Forall (fun k => 0 <= k /\ p + k < alen pr) l ->
  aget (foldl (write_pr_bit p v) pr l) i =
    if decide (i - p ∈ l) then Z.b2z (Z.testbit v (i - p)) else aget pr i.
Proof.
  intros Hp. revert pr. induction l as [|k l IH]; intros pr HF.
  { rewrite decide_False by apply not_elem_of_nil. done. }
  apply Forall_cons in HF as [[Hk Hlen] HF]. rewrite foldl_cons, IH.
  2: { eapply Forall_impl; [exact HF|]. unfold write_pr_bit. rewrite aset_length. done. }
  unfold write_pr_bit at 1. rewrite aget_aset, shiftr_land_1 by lia.
  destruct (decide (i - p ∈ l)) as [Hin|Hin].
  - rewrite decide_True by (by right). done.
  - destruct (Z.eqb_spec (p + k) i).
    + rewrite decide_True by (apply elem_of_cons; left; lia). f_equal. f_equal. lia.
    + rewrite decide_False; [done|]. rewrite elem_of_cons. intros [?|?]; [lia|done].
Qed.

Lemma fold_write_pr_length p v l pr : length (foldl (write_pr_bit p v) pr l) = length pr.
Proof.
  revert pr. induction l as [|k l IH]; intros pr; [done|]. rewrite foldl_cons, IH.
  apply aset_length.
Qed.

(** The sparse path: one write per bit of the mask. *)
Lemma while_write_pr p v mask pr w i :
  0 <= p -> 0 <= w <= 64 -> uint w mask -> p + w <= alen pr -> 0 <= i ->
  aget (while_bits mask (write_pr_bit p v) pr) i =
    if (p <=? i) && Z.testbit mask (i - p) then Z.b2z (Z.testbit v (i - p)) else aget pr i.
Proof.
  intros Hp Hw Hm Hl Hi. rewrite while_bits_fold by (apply (uint_mono w); lia || done). rewrite fold_write_pr.
  - destruct (decide (i - p ∈ set_bits mask)) as [Hin|Hin]; rewrite elem_of_set_bits in Hin.
    + destruct Hin as [? ->]. zcmp. done.
    + destruct (Z.leb_spec p i); [|done]. cbn [andb].
      destruct (Z.testbit mask (i - p)) eqn:E; [|done]. exfalso. apply Hin. split; [|done].
      destruct (Z.le_gt_cases w (i - p)); [|lia].
      rewrite (uint_bits w) in E by (lia || done). done.
  - done.
  - apply Forall_forall. intros k [? Hk]%elem_of_set_bits. split; [lia|].
    destruct (Z.le_gt_cases w k); [|lia]. rewrite (uint_bits w) in Hk by (lia || done). done.
Qed.

(** The dense path needs the whole mask set, bit by bit. *)
Lemma full_mask x m : x = m -> forall i, Z.testbit x i = Z.testbit m i.
Proof. by intros ->. Qed.

Lemma write_low_get p v m i :
  alen p = 64 -> uint 64 m -> 1 <= i < 64 ->
  aget (if m .& 0xfffe =? 0xfffe
        then ia64_unpack_pr8 (ia64_unpack_pr8 p 0 v) (0 + 8) (v >>> 8)
        else while_bits (m .& 0xfffe) (write_pr_bit 0 v) p) i =
  if (i <? 16) && Z.testbit m i then Z.b2z (Z.testbit v i) else aget p i.
Proof.
  intros Hl Hm Hi. destruct (Z.eqb_spec (m .& 0xfffe) 0xfffe) as [E|E].
  - rewrite !unpack_pr8_get by (rewrite ?unpack_pr8_length; lia).
    pose proof (full_mask _ _ E i) as Hb. change 0xfffe with (Z.ones 15 <<< 1) in Hb.
    rewrite Z.land_spec, shiftl_spec', ones_spec in Hb by lia. revert Hb.
    zcmp; cbn [andb]; rewrite ?andb_true_r; try lia; intros Hb; try done; rewrite ?Hb; try done.
    all: rewrite ?Z.shiftr_spec by lia; do 2 f_equal; lia.
  - rewrite (while_write_pr 0 v _ _ 16); try lia.
    2: { apply uint_land_r; [lia|]. uint_const. }
    change 0xfffe with (Z.ones 15 <<< 1). rewrite Z.sub_0_r. zbits_step; rewrite ?andb_true_r, ?andb_false_r; done.
Qed.

Lemma write_high_get p v m i :
  alen p = 64 -> uint 48 m -> 0 <= i < 64 ->
  aget (if m =? IA64_PR_ROTATING_MASK
        then let p := ia64_unpack_pr8 p 16 v in
             let p := ia64_unpack_pr8 p (16 + 8) (v >>> 8) in
             let p := ia64_unpack_pr8 p (16 + 16) (v >>> 16) in
             let p := ia64_unpack_pr8 p (16 + 24) (v >>> 24) in
             let p := ia64_unpack_pr8 p (16 + 32) (v >>> 32) in
             ia64_unpack_pr8 p (16 + 40) (v >>> 40)
        else while_bits m (write_pr_bit 16 v) p) i =
  if (16 <=? i) && Z.testbit m (i - 16) then Z.b2z (Z.testbit v (i - 16)) else aget p i.
Proof.
  intros Hl Hm Hi. destruct (Z.eqb_spec m IA64_PR_ROTATING_MASK) as [->|].
  - cbv zeta. rewrite !unpack_pr8_get by (rewrite ?unpack_pr8_length; lia).
    change IA64_PR_ROTATING_MASK with (Z.ones 48).
    destruct (Z.leb_spec 16 i); [rewrite ones_spec by lia|]; zcmp; cbn [andb]; try done;
      rewrite ?Z.shiftr_spec by lia; do 2 f_equal; lia.
  - rewrite (while_write_pr 16 v m p 48) by (lia || done). done.
Qed.

Lemma uint_rotr v s : 0 <= s < 48 -> uint 48 (ia64_rotr_pr v s).
Proof.
  intros Hs. apply bits_uint; [lia|]. intros i Hi.
  destruct (Z.leb_spec 0 i); [|lia]. rewrite rotr_pr_spec by lia. zcmp. done.
Qed.

Lemma write_pr_get env v m i :
  alen (pr env) = 64 -> 0 <= cfm_rrb_pr env -> uint 64 m -> 1 <= i < 64 ->
  aget (pr (ia64_system_write_pr env v m)) i =
  let k := ia64_fpswa_physical_pr env i in
  if Z.testbit m k then Z.b2z (Z.testbit v k) else aget (pr env) i.
Proof.
  intros Hl Hr Hm Hi. unfold ia64_system_write_pr, ia64_fpswa_physical_pr.
  rewrite normalize_rrb_pr by done.
  change IA64_PR_ROTATING_BASE with 16. change IA64_PR_TRUE with 0. cbv zeta.
  set (low := if m .& 0xfffe =? 0xfffe then _ else _).
  assert (Hlow : alen low = 64 /\ forall i, 1 <= i < 64 ->
    aget low i = if (i <? 16) && Z.testbit m i then Z.b2z (Z.testbit v i) else aget (pr env) i).
  { split.
    - subst low. destruct (_ =? _); [by rewrite !unpack_pr8_length|].
      rewrite while_bits_fold, fold_write_pr_length; [done|]. apply uint_land_l; [lia|done].
    - intros j Hj. apply write_low_get; done. }
  clearbody low. destruct Hlow as [Hll Hlow].
  pose proof (Z.mod_pos_bound (cfm_rrb_pr env) 48 ltac:(lia)) as Hrr.
  pose proof (write_high_get low (ia64_rotr_pr (v >>> 16) (cfm_rrb_pr env mod 48))
    (ia64_rotr_pr (m >>> 16) (cfm_rrb_pr env mod 48)) i Hll (uint_rotr _ _ Hrr) ltac:(lia)) as Hh.
  cbv zeta in Hh.
  change (pr (upd ?p ?f ?x)) with (f (pr x)). cbv beta.
  rewrite aget_aset_ne by lia. rewrite Hh, Hlow by lia. clear Hh.
  destruct (Z.ltb_spec i 16); destruct (Z.leb_spec 16 i); try lia; cbn [andb]; [done|].
  rewrite !rotr_pr_spec by lia. destruct (Z.ltb_spec (i - 16) 48); [|lia]. cbn [andb].
  rewrite Zplus_mod_idemp_r.
  pose proof (Z.mod_pos_bound (i - 16 + cfm_rrb_pr env) 48 ltac:(lia)).
  rewrite !Z.shiftr_spec by lia. rewrite (Z.add_comm _ 16). done.
Qed.

Lemma physical_pr_inverse i r : 16 <= i < 64 -> 0 <= r ->
  16 + (16 + (i - 16 - r) mod 48 - 16 + r) mod 48 = i.
Proof.
  intros Hi Hr. replace (16 + (i - 16 - r) mod 48 - 16 + r) with ((i - 16 - r) mod 48 + r) by lia.
  rewrite Zplus_mod_idemp_l. replace (i - 16 - r + r) with (i - 16) by lia.
  rewrite Z.mod_small by lia. lia.
Qed.

Lemma write_pr_phys env v m i :
  alen (pr env) = 64 -> 0 <= cfm_rrb_pr env -> uint 64 m -> 1 <= i < 64 ->
  phys_pr (ia64_system_write_pr env v m) i =
    if Z.testbit m i then Z.testbit v i else phys_pr env i.
Proof.
  intros Hl Hr Hm Hi. unfold phys_pr.
  change (cfm_rrb_pr (ia64_system_write_pr env v m)) with (cfm_rrb_pr env).
  destruct (Z.ltb_spec i 16).
  - rewrite write_pr_get by (done || lia). unfold ia64_fpswa_physical_pr. zcmp. cbv zeta.
    destruct (Z.testbit m i); [by rewrite testbit_b2z, andb_true_r|done].
  - pose proof (Z.mod_pos_bound (i - 16 - cfm_rrb_pr env) 48 ltac:(lia)).
    rewrite write_pr_get by (done || lia). unfold ia64_fpswa_physical_pr. zcmp. cbv zeta.
    rewrite physical_pr_inverse by lia.
    destruct (Z.testbit m i); [by rewrite testbit_b2z, andb_true_r|done].
Qed.

(** C31. [mov pr=r, mask] then [mov r=pr]: the masked predicates have the
    written value, the others keep theirs, and [p0] is one — whatever the
    rename base, on the dense and the sparse path. *)
Theorem read_write_pr env v m :
  alen (pr env) = 64 -> 0 <= cfm_rrb_pr env -> uint 64 v -> uint 64 m ->
  ia64_system_read_pr (ia64_system_write_pr env v m) =
    (v .& m) .| (ia64_system_read_pr env .& ~64 m) .| 1.
Proof.
  intros Hl Hr Hv Hm. apply Z.bits_inj'. intros i Hi.
  rewrite !Z.lor_spec, !Z.land_spec, wnot_spec, testbit_1_l, !read_pr_spec by (done || lia).
  destruct (Z.eqb_spec i 0) as [->|]; [by rewrite !orb_true_r|].
  destruct (Z.ltb_spec i 64).
  - rewrite write_pr_phys by (done || lia). cbn [andb orb].
    destruct (Z.testbit m i); cbn [negb]; rewrite ?andb_true_r, ?andb_false_r, ?orb_false_r; done.
  - rewrite (uint_bits 64 v) by (done || lia). done.
Qed.

Lemma read_write_pr_witness :
  ia64_system_read_pr (ia64_system_write_pr (zero_env <| cfm_rrb_pr := 5 |>) 0x123456789abcdef0
    0xffff00000000fffe) = 0x123400000000def1.
Proof.
  rewrite read_write_pr; [vm_compute; reflexivity|reflexivity|cbn; lia|uint_const|uint_const].
Defined.

Lemma phys_pr_rotated env env' p shift i :
  alen (pr env) = 64 -> rotated (pr env) p 16 48 shift -> pr env' = aset p 0 1 ->
  (cfm_rrb_pr env' - cfm_rrb_pr env) mod 48 = shift mod 48 -> 1 <= i < 64 ->
  phys_pr env' i = phys_pr env i.
Proof.
  intros Hl [_ Hrot] Hp Hs Hi. unfold phys_pr. rewrite Hp.
  destruct (Z.ltb_spec i 16).
  - rewrite aget_aset_ne by lia. rewrite Hrot by lia. zcmp. done.
  - pose proof (Z.mod_pos_bound (i - 16 - cfm_rrb_pr env') 48 ltac:(lia)).
    rewrite aget_aset_ne by lia. rewrite Hrot by lia. zcmp. do 3 f_equal.
    replace (16 + (i - 16 - cfm_rrb_pr env') mod 48 - 16 + shift)
      with ((i - 16 - cfm_rrb_pr env') mod 48 + shift) by lia.
    rewrite Zplus_mod_idemp_l, <- Zplus_mod_idemp_r, <- Hs, Zplus_mod_idemp_r. f_equal. lia.
Qed.

Lemma mod_48_sub a b :
  (a mod 48 - b) mod 48 = (a - b) mod 48 /\ (a - b mod 48) mod 48 = (a - b) mod 48.
Proof. split; [apply Zminus_mod_idemp_l|apply Zminus_mod_idemp_r]. Qed.

Lemma set_rrb_pr_slow_spec env new :
  alen (pr env) = 64 -> 0 <= cfm_rrb_pr env -> 0 <= new ->
  let env' := ia64_set_cfm_rrb_pr_slow env new (cfm_rrb_pr env) in
  cfm_rrb_pr env' = new mod 48 /\ forall i, 1 <= i < 64 -> phys_pr env' i = phys_pr env i.
Proof.
  intros Hl Ho Hn. unfold ia64_set_cfm_rrb_pr_slow.
  fold (ia64_normalize_rrb_pr_slow (cfm_rrb_pr env)) (ia64_normalize_rrb_pr (cfm_rrb_pr env)).
  fold (ia64_normalize_rrb_pr_slow new) (ia64_normalize_rrb_pr new).
  rewrite !normalize_rrb_pr by done.
  change IA64_PR_ROTATING_COUNT with 48. change IA64_PR_ROTATING_BASE with 16.
  change IA64_PR_TRUE with 0. cbv zeta.
  pose proof (Z.mod_pos_bound (cfm_rrb_pr env) 48 ltac:(lia)).
  pose proof (Z.mod_pos_bound new 48 ltac:(lia)).
  destruct (Z.eqb_spec (new mod 48) (cfm_rrb_pr env mod 48)) as [E|E].
  { split; [done|]. intros i Hi. unfold phys_pr.
    change (cfm_rrb_pr (env <| cfm_rrb_pr := new mod 48 |>)) with (new mod 48).
    change (pr (env <| cfm_rrb_pr := new mod 48 |>)) with (pr env).
    rewrite E, (proj2 (mod_48_sub _ _)). done. }
  set (shift := if _ <=? _ then _ else _).
  assert (Hshift : 0 < shift < 48 /\ (new mod 48 - cfm_rrb_pr env) mod 48 = shift mod 48).
  { subst shift. rewrite <- (proj2 (mod_48_sub _ (cfm_rrb_pr env))). zcmp; split; try lia.
    replace (new mod 48 + 48 - cfm_rrb_pr env mod 48)
      with (new mod 48 - cfm_rrb_pr env mod 48 + 1 * 48) by lia.
    rewrite Z.mod_add by lia. done. }
  clearbody shift. destruct Hshift as [Hs Hm]. split; [done|]. intros i Hi.
  eapply (phys_pr_rotated env _ _ shift); [done| |reflexivity|exact Hm|done].
  destruct (Z.eqb_spec shift 1) as [->|]; [apply rebase_down_one_rotated; lia|].
  destruct (Z.eqb_spec shift (48 - 1)) as [->|]; [apply rebase_up_one_rotated; lia|].
  apply (rebase_copy_rotated (pr env) 16 48 shift 48); lia.
Qed.

Lemma rotate_pr_right_spec env :
  alen (pr env) = 64 -> 0 <= cfm_rrb_pr env ->
  let env' := ia64_rotate_cfm_rrb_pr_right env in
  cfm_rrb_pr env' = (cfm_rrb_pr env - 1) mod 48 /\
  forall i, 1 <= i < 64 -> phys_pr env' i = phys_pr env i.
Proof.
  intros Hl Hr. unfold ia64_rotate_cfm_rrb_pr_right. rewrite normalize_rrb_pr by done.
  change IA64_PR_ROTATING_COUNT with 48. change IA64_PR_ROTATING_BASE with 16.
  change IA64_PR_TRUE with 0. cbv zeta.
  pose proof (Z.mod_pos_bound (cfm_rrb_pr env) 48 ltac:(lia)).
  set (new := if truth _ then _ else _).
  assert (Hnew : new = (cfm_rrb_pr env - 1) mod 48).
  { subst new. rewrite <- Zminus_mod_idemp_l. unfold truth.
    destruct (Z.eqb_spec (cfm_rrb_pr env mod 48) 0) as [->|]; cbn [negb]; [done|].
    symmetry. apply Z.mod_small. lia. }
  clearbody new. subst new. split; [done|]. intros i Hi.
  eapply (phys_pr_rotated env _ _ (48 - 1)); [done| |reflexivity| |done].
  - apply rebase_up_one_rotated; lia.
  - change (cfm_rrb_pr (upd pr ?f ?x)) with (cfm_rrb_pr x).
    change (cfm_rrb_pr (env <| cfm_rrb_pr := ?v |>)) with v.
    rewrite Zminus_mod_idemp_l. replace (cfm_rrb_pr env - 1 - cfm_rrb_pr env) with (-1) by lia. done.
Qed.

(** Changing the predicate rename base moves the logical view and not the
    predicates: [mov r=pr] reads the same value after [ia64_set_cfm_rrb_pr]
    and after the loop branches' [ia64_rotate_cfm_rrb_pr_right], and the new
    base is the requested one modulo 48. *)
Theorem rename_keeps_predicates env new :
  alen (pr env) = 64 -> 0 <= cfm_rrb_pr env -> 0 <= new ->
  ia64_system_read_pr (ia64_set_cfm_rrb_pr env new) = ia64_system_read_pr env /\
  cfm_rrb_pr (ia64_set_cfm_rrb_pr env new) = new mod 48 /\
  ia64_system_read_pr (ia64_rotate_cfm_rrb_pr_right env) = ia64_system_read_pr env /\
  cfm_rrb_pr (ia64_rotate_cfm_rrb_pr_right env) = (cfm_rrb_pr env - 1) mod 48.
Proof.
  intros Hl Ho Hn.
  destruct (set_rrb_pr_slow_spec env new Hl Ho Hn) as [Hc Hp].
  destruct (rotate_pr_right_spec env Hl Ho) as [Hc' Hp'].
  pose proof (Z.mod_pos_bound new 48 ltac:(lia)).
  pose proof (Z.mod_pos_bound (cfm_rrb_pr env - 1) 48 ltac:(lia)).
  rewrite Hc'. split_and!; [| |apply read_pr_ext; auto; lia|done].
  - unfold ia64_set_cfm_rrb_pr. cbv zeta. case_match; [done|]. apply read_pr_ext; auto; lia.
  - unfold ia64_set_cfm_rrb_pr. cbv zeta. change IA64_PR_ROTATING_COUNT with 48.
    destruct (Z.eqb_spec new (cfm_rrb_pr env)); cbn [andb]; [|done].
    destruct (Z.ltb_spec new 48); [|done]. rewrite Z.mod_small; lia.
Qed.

Lemma rename_keeps_predicates_witness :
  ia64_system_read_pr (ia64_set_cfm_rrb_pr
    (ia64_system_write_pr (zero_env <| cfm_rrb_pr := 5 |>) 0xaaaa5555ffff0001 UINT64_MAX) 31) =
  0xaaaa5555ffff0001.
Proof.
  refine (eq_trans (proj1 (rename_keeps_predicates
    (ia64_system_write_pr (zero_env <| cfm_rrb_pr := 5 |>) 0xaaaa5555ffff0001 UINT64_MAX) 31
    _ _ _)) _); [vm_compute; reflexivity|vm_compute; discriminate|lia|vm_compute; reflexivity].
Defined.

(** ** NaT bits and register banks *)

Lemma gr_nat_get_bm env r : r <> 0 -> ia64_gr_nat_get env r = bm_get (nat_ env) r.
Proof.
  intros Hr. unfold ia64_gr_nat_get. destruct (Z.eqb_spec r 0); [done|]. apply truth_bm_get.
Qed.

(** The registers and banks have their declared sizes and widths. *)
Record banks_wf (env : CPUIA64State) : Prop := {
  bk_gr : length (gr env) = 128%nat;
  bk_nat : length (nat_ env) = 2%nat;
  bk_nat_u : Forall (uint 64) (nat_ env);
  bk_banked : length (banked_gr env) = 16%nat;
  bk_banked_nat : uint 16 (banked_nat env)
}.

(** The state when the first [i] registers of the bank have been exchanged. *)
Record swapped (env : CPUIA64State) (i : Z) (s : CPUIA64State) : Prop := {
  sw_frame : s = env <| gr := gr s |> <| nat_ := nat_ s |>
                     <| banked_gr := banked_gr s |> <| banked_nat := banked_nat s |>;
  sw_wf : banks_wf s;
  sw_gr : forall r, 0 <= r < 128 ->
    aget (gr s) r = if (16 <=? r) && (r <? 16 + i) then aget (banked_gr env) (r - 16)
                    else aget (gr env) r;
  sw_nat : forall r, 0 <= r < 128 ->
    bm_get (nat_ s) r = if (16 <=? r) && (r <? 16 + i) then Z.testbit (banked_nat env) (r - 16)
                        else bm_get (nat_ env) r;
  sw_banked : forall k, 0 <= k < 16 ->
    aget (banked_gr s) k = if k <? i then aget (gr env) (16 + k) else aget (banked_gr env) k;
  sw_banked_nat : forall k, 0 <= k < 16 ->
    Z.testbit (banked_nat s) k = if k <? i then bm_get (nat_ env) (16 + k)
                                 else Z.testbit (banked_nat env) k
}.

Lemma gr_nat_set_spec env r b :
  length (nat_ env) = 2%nat -> Forall (uint 64) (nat_ env) -> 0 < r < 128 ->
  exists n, ia64_gr_nat_set env r b = env <| nat_ := n |> /\ length n = 2%nat /\
    Forall (uint 64) n /\ forall j, 0 <= j -> bm_get n j = if r =? j then b else bm_get (nat_ env) j.
Proof.
  intros Hl Hu Hr. unfold ia64_gr_nat_set. destruct (Z.eqb_spec r 0); [lia|].
  pose proof (Z.mod_pos_bound r 64 ltac:(lia)).
  destruct b.
  - exists (bm_set (nat_ env) r). split_and!; [done|by rewrite bm_set_length| |].
    + apply Forall_aset; [done|]. apply uint_lor; [lia|apply Forall_aget; [done|uint_const]|].
      apply (uint_shiftl 64 1); lia || (split; lia).
    + intros j Hj. rewrite bm_get_set by lia. by destruct (r =? j).
  - exists (bm_clear (nat_ env) r). split_and!; [done|by rewrite bm_clear_length| |].
    + apply Forall_aset; [done|]. apply uint_land_l; [lia|apply Forall_aget; [done|uint_const]].
    + intros j Hj. rewrite bm_get_clear by lia. by destruct (r =? j).
Qed.

(** A 16-bit word with one bit replaced, as the C code writes it. *)
Lemma u16_replace b i (x : bool) :
  uint 16 b -> 0 <= i < 16 ->
  let b' := if x then u16 (b .| u16 (1 <<< i)) else u16 (b .& u16 (~32 (1 <<< i))) in
  uint 16 b' /\ forall k, 0 <= k < 16 -> Z.testbit b' k = if i =? k then x else Z.testbit b k.
Proof.
  intros Hb Hi. cbv zeta. split; [destruct x; auto with word|].
  intros k Hk. destruct x; rewrite shiftl_1_pow2 by lia; zbits_step;
    rewrite ?orb_true_r, ?orb_false_r, ?andb_true_r, ?andb_false_r; done.
Qed.

Lemma swap_step env i s :
  0 <= i < 16 -> swapped env i s ->
  swapped env (i + 1)
    (let reg := 16 + i in
     let value := aget (gr s) reg in
     let nat := ia64_gr_nat_get s reg in
     let s := s <| gr @ reg := aget (banked_gr s) i |> in
     let s := ia64_gr_nat_set s reg (truth ((banked_nat s >>> i) .& 1)) in
     let s := s <| banked_gr @ i := value |> in
     if nat then s <| banked_nat ::= fun b => u16 (b .| u16 (1 <<< i)) |>
     else s <| banked_nat ::= fun b => u16 (b .& u16 (~32 (1 <<< i))) |>).
Proof.
  intros Hi [Hf [Hg1 Hn1 Hnu Hb1 Hbn1] Hg Hn Hb Hbn]. cbv zeta.
  rewrite gr_nat_get_bm by lia. rewrite (Hn (16 + i)) by lia. rewrite (Hg (16 + i)) by lia.
  rewrite (Hb i) by lia. zcmp.
  match goal with |- context [ia64_gr_nat_set ?s1 _ ?b] =>
    destruct (gr_nat_set_spec s1 (16 + i) b Hn1 Hnu ltac:(lia)) as (n & En & Hnl & Hnu' & Hn');
    change b with (truth ((banked_nat s >>> i) .& 1)) in Hn'; change (nat_ s1) with (nat_ s) in Hn'
  end.
  rewrite En. clear En.
  rewrite truth_shiftr_1 in Hn' by lia. rewrite Hbn in Hn' by lia.
  destruct (Z.ltb_spec i i) as [?|_] in Hn'; [lia|].
  destruct (u16_replace (banked_nat s) i (bm_get (nat_ env) (16 + i)) Hbn1 Hi) as [Hu Hb'].
  set (x := bm_get (nat_ env) (16 + i)) in *.
  match goal with |- swapped _ _ ?t => set (t' := t) end.
  assert (Ht : t' = env <| gr := aset (gr s) (16 + i) (aget (banked_gr env) i) |> <| nat_ := n |>
    <| banked_gr := aset (banked_gr s) i (aget (gr env) (16 + i)) |>
    <| banked_nat := if x then u16 (banked_nat s .| u16 (1 <<< i))
                     else u16 (banked_nat s .& u16 (~32 (1 <<< i))) |>).
  { subst t'. rewrite Hf. destruct x; reflexivity. }
  rewrite Ht. clear t' Ht. constructor; cbn [gr nat_ banked_gr banked_nat upd].
  - reflexivity.
  - constructor; cbn; rewrite ?aset_length; done.
  - cbn. intros r Hr. rewrite aget_aset by lia. rewrite Hg by done. zcmp; try done. f_equal. lia.
  - cbn. intros r Hr. rewrite Hn' by lia. rewrite Hn by done. zcmp; try done. f_equal. lia.
  - cbn. intros k Hk. rewrite aget_aset by lia. rewrite Hb by done. zcmp; try done. f_equal. lia.
  - cbn -[Z.testbit]. intros k Hk. rewrite Hb' by done. rewrite Hbn by done. subst x. zcmp; try done. f_equal. lia.
Qed.

Lemma swap_swapped env : banks_wf env -> swapped env 16 (ia64_swap_banked_gr env).
Proof.
  intros Hwf. unfold ia64_swap_banked_gr. apply (for_range_ind (swapped env) 0 16).
  - lia.
  - constructor; [by destruct env|done|..]; intros; zcmp; done.
  - intros i s Hi. apply swap_step. lia.
Qed.

Lemma bitmap_ext n n' :
  length n = 2%nat -> length n' = 2%nat -> Forall (uint 64) n -> Forall (uint 64) n' ->
  (forall r, 0 <= r < 128 -> bm_get n r = bm_get n' r) -> n = n'.
Proof.
  intros Hl Hl' Hu Hu' Hb. apply aget_ext; [by rewrite Hl, Hl'|]. intros i Hi.
  assert (Hui : uint 64 (aget n i)) by (apply Forall_aget; [done|uint_const]).
  assert (Hui' : uint 64 (aget n' i)) by (apply Forall_aget; [done|uint_const]).
  apply Z.bits_inj'. intros k Hk. destruct (Z.ltb_spec k 64).
  - specialize (Hb (64 * i + k) ltac:(lia)). unfold bm_get in Hb.
    replace (64 * i + k) with (k + i * 64) in Hb by lia.
    rewrite Z.div_add, Z.mod_add, Z.div_small, Z.mod_small in Hb by lia. done.
  - by rewrite !(uint_bits 64) by (done || lia).
Qed.

Lemma swap_involutive env : banks_wf env -> ia64_swap_banked_gr (ia64_swap_banked_gr env) = env.
Proof.
  intros Hwf. pose proof (swap_swapped env Hwf) as Hs. pose proof (swap_swapped _ (sw_wf _ _ _ Hs)) as Ht.
  revert Hs Ht. generalize (ia64_swap_banked_gr env) as s. intros s Hs.
  generalize (ia64_swap_banked_gr s) as t. intros t Ht.
  destruct (sw_wf _ _ _ Ht) as [], Hwf as [].
  rewrite (sw_frame _ _ _ Ht), (sw_frame _ _ _ Hs).
  assert (gr t = gr env) as ->.
  { apply aget_ext; [congruence|]. intros r Hr. rewrite (sw_gr _ _ _ Ht) by lia.
    zcmp; [rewrite (sw_banked _ _ _ Hs) by lia|rewrite (sw_gr _ _ _ Hs) by lia..];
      zcmp; try done; f_equal; lia. }
  assert (nat_ t = nat_ env) as ->.
  { apply bitmap_ext; try done. intros r Hr. rewrite (sw_nat _ _ _ Ht) by lia.
    zcmp; [rewrite (sw_banked_nat _ _ _ Hs) by lia|rewrite (sw_nat _ _ _ Hs) by lia..];
      zcmp; try done; f_equal; lia. }
  assert (banked_gr t = banked_gr env) as ->.
  { apply aget_ext; [congruence|]. intros k Hk. rewrite (sw_banked _ _ _ Ht) by lia.
    zcmp. rewrite (sw_gr _ _ _ Hs) by lia. zcmp. f_equal. lia. }
  assert (banked_nat t = banked_nat env) as ->.
  { apply Z.bits_inj'. intros k Hk. destruct (Z.ltb_spec k 16);
      [|by rewrite !(uint_bits 16) by (done || lia)].
    rewrite (sw_banked_nat _ _ _ Ht) by lia. zcmp. rewrite (sw_nat _ _ _ Hs) by lia.
    zcmp. f_equal. lia. }
  by destruct env.
Qed.

(** A bank switch exchanges [gr16]..[gr31] with the banked copies, values
    and NaT bits, and leaves every other register alone; a second switch
    restores the state. *)
Theorem swap_banked_exchanges env :
  banks_wf env ->
  let env' := ia64_swap_banked_gr env in
  (forall k, 0 <= k < 16 ->
    aget (gr env') (16 + k) = aget (banked_gr env) k /\
    aget (banked_gr env') k = aget (gr env) (16 + k) /\
    ia64_gr_nat_get env' (16 + k) = Z.testbit (banked_nat env) k /\
    Z.testbit (banked_nat env') k = ia64_gr_nat_get env (16 + k)) /\
  (forall r, 0 <= r < 128 -> ~ 16 <= r < 32 ->
    aget (gr env') r = aget (gr env) r /\ ia64_gr_nat_get env' r = ia64_gr_nat_get env r) /\
  ia64_swap_banked_gr env' = env.
Proof.
  intros Hwf. pose proof (swap_swapped env Hwf) as Hs. cbv zeta. pose proof (swap_involutive env Hwf) as Ht.
  revert Hs Ht. generalize (ia64_swap_banked_gr env) as s. intros s Hs Ht.
  split_and!.
  - intros k Hk. rewrite !gr_nat_get_bm by lia.
    rewrite (sw_gr _ _ _ Hs), (sw_banked _ _ _ Hs), (sw_nat _ _ _ Hs), (sw_banked_nat _ _ _ Hs) by lia.
    zcmp. split_and!; f_equal; lia.
  - intros r Hr Hn. rewrite (sw_gr _ _ _ Hs) by lia. split; [zcmp; try done; lia|].
    destruct (Z.eq_dec r 0) as [->|]; [done|]. rewrite !gr_nat_get_bm by done.
    rewrite (sw_nat _ _ _ Hs) by lia. zcmp; try done; lia.
  - done.
Qed.

Lemma swap_banked_exchanges_witness :
  aget (gr (ia64_swap_banked_gr (zero_env <| banked_gr @ 3 := 7 |>))) 19 = 7.
Proof.
  refine (proj1 (proj1 (swap_banked_exchanges (zero_env <| banked_gr @ 3 := 7 |>) _) 3 _)); [|lia].
  constructor; try reflexivity; [apply (Forall_replicate (uint 64) 2 0)|]; uint_const.
Defined.

(** ** Rotating floating-point registers *)

Lemma rebase_fr_u64_rotated v shift :
  alen v = 128 -> 0 < shift < 96 ->
  rotated v (ia64_rebase_rotating_fr_u64 v shift) 32 96 shift.
Proof.
  intros Hl Hs. unfold ia64_rebase_rotating_fr_u64.
  change IA64_ROTATING_FR_BASE with 32. change IA64_ROTATING_FR_COUNT with 96.
  destruct (Z.eqb_spec shift 1) as [->|]; [apply rebase_down_one_rotated; lia|].
  destruct (Z.eqb_spec shift (96 - 1)) as [->|]; [apply rebase_up_one_rotated; lia|].
  set (f := fun tmp i => aset tmp i _).
  assert (Htmp : alen (for_range 0 96 f (replicate 96 0)) = 96 /\
    forall k, 0 <= k < 0 + 96 ->
      aget (for_range 0 96 f (replicate 96 0)) k = aget v (32 + (k + shift) mod 96)).
  { apply (for_range_ind (fun i t => alen t = 96 /\
      forall k, 0 <= k < i -> aget t k = aget v (32 + (k + shift) mod 96))); [lia| |].
    - split; [done|intros; lia].
    - intros i t Hi [Ht Hk]. subst f. cbv beta. split; [by rewrite aset_length|].
      intros k Hki. rewrite aget_aset by lia. zcmp; [by subst|]. apply Hk. lia. }
  revert Htmp. generalize (for_range 0 96 f (replicate 96 0)) as tmp. intros tmp [Ht Hk].
  split; [apply memcpy_length|]. intros i Hi. rewrite aget_memcpy by done. zcmp; try done.
  rewrite Hk by lia. done.
Qed.

(** A tag word pair rotates like the registers it describes. *)
Definition bits_rotated (b b' : list Z) (shift : Z) : Prop :=
  length b' = 2%nat /\ Forall (uint 64) b' /\
  forall r, 0 <= r < 128 ->
    bm_get b' r = if 32 <=? r then bm_get b (32 + (r - 32 + shift) mod 96) else bm_get b r.

Lemma pair_wf b : length b = 2%nat -> Forall (uint 64) b ->
  exists x y, b = [x; y] /\ uint 64 x /\ uint 64 y.
Proof.
  intros Hl Hu. destruct b as [|x [|y [|]]]; try done. exists x, y.
  apply Forall_cons in Hu as [? Hu]. apply Forall_cons in Hu as [? _]. done.
Qed.

Lemma bm_get_pair x y r : 0 <= r < 128 ->
  bm_get [x; y] r = if r <? 64 then Z.testbit x r else Z.testbit y (r - 64).
Proof.
  intros Hr. destruct (Z.ltb_spec r 64).
  - replace r with (64 * 0 + r) at 1 by lia. rewrite bm_get_word by lia. done.
  - replace r with (64 * 1 + (r - 64)) at 1 by lia. rewrite bm_get_word by lia. done.
Qed.

Lemma rebase_fr_bits_rotated b shift :
  length b = 2%nat -> Forall (uint 64) b -> 0 < shift < 96 ->
  bits_rotated b (ia64_rebase_rotating_fr_bits b shift) shift.
Proof.
  intros Hl Hu Hs. destruct (pair_wf b Hl Hu) as (x & y & -> & Hx & Hy).
  unfold ia64_rebase_rotating_fr_bits. change IA64_ROTATING_FR_COUNT with 96.
  change ((1 <<< 96) - 1) with (Z.ones 96). change (aget [x; y] 0) with x.
  change (aget [x; y] 1) with y. change UINT32_MAX with (Z.ones 32).
  set (rot := wrap 128 (y <<< 32) .| (x >>> 32)).
  assert (Hrot : forall j, 0 <= j -> Z.testbit rot j =
    if j <? 96 then bm_get [x; y] (32 + j) else false).
  { intros j Hj. subst rot. destruct (Z.ltb_spec j 96); [rewrite bm_get_pair by lia|];
      zbits_step; zrange; rewrite ?orb_false_r; cbn [orb]; try done; f_equal; lia. }
  clearbody rot.
  set (rot' := Z.land _ (Z.ones 96)).
  assert (Hrot' : forall j, 0 <= j -> Z.testbit rot' j =
    if j <? 96 then bm_get [x; y] (32 + (j + shift) mod 96) else false).
  { intros j Hj. subst rot'. zbits_step; rewrite ?Hrot by lia; zcmp; cbn [orb andb];
      rewrite ?andb_true_r, ?andb_false_r, ?orb_false_r; try done;
      rewrite mod_wrap by lia; zcmp; do 2 f_equal; lia. }
  clearbody rot'.
  change (aset (aset [x; y] 0 ?a) 1 ?c) with [a; c].
  split_and!; [done| |].
  { rewrite !Forall_cons, Forall_nil. split_and!; auto with word. }
  intros r Hr. rewrite bm_get_pair by done.
  destruct (Z.ltb_spec r 64).
  - zbits_step; rewrite ?Hrot' by lia; cbn [orb]; rewrite ?orb_false_r, ?andb_true_r, ?andb_false_r.
    + rewrite bm_get_pair by lia. zcmp. done.
    + zcmp. done.
  - zbits_step. rewrite Hrot' by lia. zcmp. do 2 f_equal. f_equal. lia.
Qed.

(** The tag words of the register cache are 64-bit. *)
Record tags_wf (s : IA64FPState) : Prop := {
  tg_nat : Forall (uint 64) (fr_nat s);
  tg_sig : Forall (uint 64) (fr_sig s);
  tg_sign : Forall (uint 64) (fr_ext_sign s);
  tg_valid : Forall (uint 64) (fr_ext_valid s);
  tg_origin : Forall (uint 64) (fr_int_origin s)
}.

(** What can be read of a register: its spill image, which every access path
    agrees on, and its integer image when it has one. *)
Definition fr_contents (env : CPUIA64State) (r : Z) : (Z * Z) * option Z :=
  (ia64_fpreg_to_spill env r,
   if bm_get (fr_int_origin (fp env)) r then Some (aget (fr_int_value (fp env)) r) else None).

(** Register [r] of [env'] has the contents of register [q] of [env]. *)
Record fr_same (env env' : CPUIA64State) (r q : Z) : Prop := {
  fs_index : r = q \/ (32 <= r < 128 /\ 32 <= q < 128);
  fs_fr : aget (fr (fp env')) r = aget (fr (fp env)) q;
  fs_nat : bm_get (fr_nat (fp env')) r = bm_get (fr_nat (fp env)) q;
  fs_sig : bm_get (fr_nat (fp env)) q = false ->
    bm_get (fr_sig (fp env')) r = bm_get (fr_sig (fp env)) q;
  fs_valid : bm_get (fr_ext_valid (fp env')) r = bm_get (fr_ext_valid (fp env)) q;
  fs_ext : bm_get (fr_ext_valid (fp env)) q = true ->
    bm_get (fr_ext_sign (fp env')) r = bm_get (fr_ext_sign (fp env)) q /\
    aget (fr_ext_exp (fp env')) r = aget (fr_ext_exp (fp env)) q /\
    aget (fr_ext_mant (fp env')) r = aget (fr_ext_mant (fp env)) q;
  fs_origin : bm_get (fr_int_origin (fp env')) r = bm_get (fr_int_origin (fp env)) q;
  fs_int : bm_get (fr_int_origin (fp env)) q = true ->
    aget (fr_int_value (fp env')) r = aget (fr_int_value (fp env)) q
}.

Lemma fr_same_contents env env' r q : fr_same env env' r q -> fr_contents env' r = fr_contents env q.
Proof.
  intros [Hi Hfr Hnat Hsig Hval Hext Ho Hint]. unfold fr_contents. rewrite Ho.
  apply (f_equal2 pair).
  2: { destruct (bm_get (fr_int_origin (fp env)) q) eqn:E; [|done]. by rewrite Hint. }
  unfold ia64_fpreg_to_spill.
  assert (Hidx : (1 <? r) = (1 <? q) /\ (r <? IA64_FR_COUNT) = (q <? IA64_FR_COUNT) /\
    (r <=? 1) = (q <=? 1) /\ (IA64_FR_COUNT <=? r) = (IA64_FR_COUNT <=? q) /\
    (r =? IA64_FR_ZERO_INDEX) = (q =? IA64_FR_ZERO_INDEX) /\
    (r =? IA64_FR_ONE_INDEX) = (q =? IA64_FR_ONE_INDEX)).
  { unfold IA64_FR_COUNT, IA64_FR_ZERO_INDEX, IA64_FR_ONE_INDEX.
    destruct Hi as [->|?]; [done|]. split_and!; apply bool_ext; lia. }
  destruct Hidx as (H1 & H2 & H3 & H4 & H5 & H6).
  unfold ia64_fpreg_is_nat, ia64_fpreg_get_extended, ia64_fpreg_is_integer.
  rewrite !tag_test_bm, H1, H2, H3, H4, H5, H6, Hnat, Hfr, Hval.
  destruct (bm_get (fr_ext_valid (fp env)) q).
  - destruct Hext as (-> & -> & ->); [done|].
    destruct (bm_get (fr_nat (fp env)) q); [|rewrite (Hsig eq_refl); reflexivity].
    rewrite !andb_true_r. destruct (Z.ltb_spec 1 q), (Z.leb_spec q 1); try lia;
      destruct (Z.ltb_spec q IA64_FR_COUNT), (Z.leb_spec IA64_FR_COUNT q); try lia; done.
  - cbn [negb]. rewrite !orb_true_r.
    destruct (bm_get (fr_nat (fp env)) q); [|rewrite (Hsig eq_refl); reflexivity].
    rewrite !andb_true_r.
    destruct ((1 <? q) && (q <? IA64_FR_COUNT)); done.
Qed.

(** The shortcut for arrays with no live rotating entry. *)
Lemma has_tag b q :
  length b = 2%nat -> Forall (uint 64) b -> 32 <= q < 128 -> bm_get b q = true ->
  truth (aget b 0 .& u64 (UINT64_MAX <<< 32)) || truth (aget b 1) = true.
Proof.
  intros Hl Hu Hq. destruct (pair_wf b Hl Hu) as (x & y & -> & Hx & Hy).
  rewrite bm_get_pair by lia. change (aget [x; y] 0) with x. change (aget [x; y] 1) with y.
  unfold truth. intros Hb. apply orb_true_iff. rewrite !negb_true_iff, !Z.eqb_neq.
  destruct (Z.ltb_spec q 64); [left|right]; intros E.
  - assert (Z.testbit (x .& u64 (UINT64_MAX <<< 32)) q = false) as Hf by (rewrite E; apply Z.bits_0).
    change UINT64_MAX with (Z.ones 64) in Hf. revert Hf. zbits_step. rewrite Hb. done.
  - rewrite E, Z.bits_0 in Hb. done.
Qed.

Lemma rotated_get v v' shift r : rotated v v' 32 96 shift -> alen v = 128 -> 0 <= r < 128 ->
  aget v' r = aget v (if 32 <=? r then 32 + (r - 32 + shift) mod 96 else r).
Proof.
  intros [_ Hrot] Hl Hr. rewrite Hrot by lia. zcmp; done.
Qed.

Lemma sig_clear_nat s n r :
  length s = 2%nat -> length n = 2%nat -> Forall (uint 64) s -> Forall (uint 64) n ->
  0 <= r < 128 -> bm_get n r = false ->
  let s' := aset s 0 (aget s 0 .& ~64 (aget n 0 .& u64 (UINT64_MAX <<< 32))) in
  bm_get (aset s' 1 (aget s' 1 .& ~64 aget n 1)) r = bm_get s r.
Proof.
  intros Hs Hn Hsu Hnu Hr. destruct (pair_wf s Hs Hsu) as (x & y & -> & Hx & Hy).
  destruct (pair_wf n Hn Hnu) as (u & v & -> & Hu & Hv). cbv zeta.
  change (aget [x; y] 0) with x. change (aget [u; v] 0) with u. change (aget [u; v] 1) with v.
  change (aset [x; y] 0 ?a) with [a; y]. change (aget [?a; y] 1) with y.
  change (aset [?a; y] 1 ?c) with [a; c]. rewrite !bm_get_pair by done.
  change UINT64_MAX with (Z.ones 64).
  destruct (Z.ltb_spec r 64); intros Hf; zbits_step; rewrite Hf; cbn [andb negb];
    by rewrite ?andb_true_r.
Qed.

#[local] Arguments ia64_rebase_rotating_fr_u64 : simpl never.
#[local] Arguments ia64_rebase_rotating_fr_bits : simpl never.

Lemma rebase_fr_same env shift r :
  fp_wf (fp env) -> tags_wf (fp env) -> 0 < shift < 96 -> 0 <= r < 128 ->
  fr_same env (ia64_rebase_rotating_fr env shift) r
    (if 32 <=? r then 32 + (r - 32 + shift) mod 96 else r).
Proof.
  intros Hw Htg Hs Hr. set (q := if 32 <=? r then _ else r).
  assert (Hq : (r = q /\ r < 32) \/ (32 <= r < 128 /\ 32 <= q < 128)).
  { subst q. pose proof (Z.mod_pos_bound (r - 32 + shift) 96 ltac:(lia)). zcmp; lia. }
  assert (Hget : forall v, length v = 128%nat ->
    aget (ia64_rebase_rotating_fr_u64 v shift) r = aget v q).
  { intros v Hv. apply (rotated_get _ _ shift); [apply rebase_fr_u64_rotated|..]; lia. }
  assert (Hbit : forall b, length b = 2%nat -> Forall (uint 64) b ->
    bm_get (ia64_rebase_rotating_fr_bits b shift) r = bm_get b q).
  { intros b Hb Hu. destruct (rebase_fr_bits_rotated b shift Hb Hu Hs) as (_ & _ & ->); [|done].
    subst q. by destruct (32 <=? r). }
  pose proof (fun b Hb Hu => rebase_fr_bits_rotated b shift Hb Hu Hs) as Hrot.
  assert (Hhas : forall b v (has : bool), length b = 2%nat -> Forall (uint 64) b -> length v = 128%nat ->
    has = truth (aget b 0 .& u64 (UINT64_MAX <<< IA64_ROTATING_FR_BASE)) || truth (aget b 1) ->
    bm_get b q = true ->
    aget (if has then ia64_rebase_rotating_fr_u64 v shift else v) r = aget v q).
  { intros b v has Hb Hu Hv Eh Hbq. destruct Hq as [[Hrq ?]|[_ Hq]].
    - destruct has; [by apply Hget|by rewrite Hrq].
    - change IA64_ROTATING_FR_BASE with 32 in Eh. rewrite Eh, (has_tag b q) by done. by apply Hget. }
  unfold ia64_rebase_rotating_fr. cbv zeta.
  set (has_ext := truth (aget (fr_ext_valid _) 0 .& _) || _).
  set (has_int := truth (aget (fr_int_origin _) 0 .& _) || _).
  pose proof (fun v H => Hhas (fr_ext_valid (fp env)) v has_ext
    (wf_fr_ext_valid _ Hw) (tg_valid _ Htg) H eq_refl) as He.
  pose proof (fun v H => Hhas (fr_int_origin (fp env)) v has_int
    (wf_fr_int_origin _ Hw) (tg_origin _ Htg) H eq_refl) as Ho.
  clearbody has_ext has_int. clear Hhas. destruct Hw, Htg.
  constructor; [lia|..]; destruct has_ext, has_int; cbn; auto.
  all: intros Hn; rewrite <- (Hbit (fr_sig (fp env))) by done;
    apply sig_clear_nat; try done; try (by apply Hrot); by rewrite Hbit.
Qed.

(** The base that the register array currently reflects. *)
Definition materialized (env : CPUIA64State) : Z := rotating_fr_materialized_rrb (fp env).

(** The contents of a physical rotating register. *)
Definition phys_fr (env : CPUIA64State) (k : Z) : (Z * Z) * option Z :=
  fr_contents env (32 + (k - 32 - materialized env) mod 96).

Lemma sync_fr_contents env r :
  fp_wf (fp env) -> tags_wf (fp env) -> rotating_fr_live (fp env) = true ->
  0 <= cfm_rrb_fr env < 96 -> 0 <= materialized env < 96 -> 0 <= r < 128 ->
  fr_contents (ia64_sync_rotating_fr env) r =
  fr_contents env (if 32 <=? r then 32 + (r - 32 + (cfm_rrb_fr env - materialized env)) mod 96
                   else r).
Proof.
  intros Hwf Ht Hlive Hc Hm Hr. unfold ia64_sync_rotating_fr. rewrite Hlive, andb_true_r.
  change IA64_ROTATING_FR_COUNT with 96. fold (materialized env). cbv zeta.
  change (fr_contents (?e <| fp; rotating_fr_materialized_rrb := ?v |>) r) with (fr_contents e r).
  destruct (Z.eqb_spec (cfm_rrb_fr env) (materialized env)) as [->|]; cbn [negb].
  { zcmp; [|done]. rewrite Z.sub_diag, Z.add_0_r, Z.mod_small by lia. f_equal. lia. }
  set (shift := if _ <=? _ then _ else _).
  assert (Hs : 0 < shift < 96 /\ forall x, (x + shift) mod 96 =
    (x + (cfm_rrb_fr env - materialized env)) mod 96).
  { subst shift. zcmp; (split; [lia|]); intros x; [done|].
    replace (x + (cfm_rrb_fr env + 96 - materialized env))
      with (x + (cfm_rrb_fr env - materialized env) + 1 * 96) by lia.
    rewrite Z.mod_add by lia. done. }
  destruct Hs as [Hs Hmod]. rewrite <- Hmod. apply fr_same_contents, rebase_fr_same; done.
Qed.

(** C27. The lazy rotation of the floating-point registers is invisible:
    changing the rename base and materialising the accumulated rotation
    ([ia64_sync_rotating_fr]) both leave the contents of every physical
    register unchanged, and after materialisation the array is the view at the
    current base, in which a logical register is found at the place
    [ia64_fpswa_physical_fr] names. *)
Theorem lazy_fr_rotation env new k :
  fp_wf (fp env) -> tags_wf (fp env) -> rotating_fr_live (fp env) = true ->
  0 <= cfm_rrb_fr env < 96 -> 0 <= materialized env < 96 -> 0 <= new -> 32 <= k < 128 ->
  phys_fr (ia64_set_cfm_rrb_fr env new) k = phys_fr env k /\
  phys_fr (ia64_sync_rotating_fr env) k = phys_fr env k /\
  fr_contents (ia64_sync_rotating_fr env) k = phys_fr env (ia64_fpswa_physical_fr env k) /\
  materialized (ia64_sync_rotating_fr env) = cfm_rrb_fr env.
Proof.
  intros Hwf Ht Hlive Hc Hm Hn Hk.
  assert (Hsync : materialized (ia64_sync_rotating_fr env) = cfm_rrb_fr env) by done.
  pose proof (Z.mod_pos_bound (k - 32 - cfm_rrb_fr env) 96 ltac:(lia)).
  split_and!; [| | |done].
  - unfold ia64_set_cfm_rrb_fr. cbv zeta. case_match; [done|].
    change (rotating_fr_live (fp (env <| cfm_rrb_fr := _ |>))) with (rotating_fr_live (fp env)).
    rewrite Hlive. done.
  - unfold phys_fr at 1. rewrite Hsync, sync_fr_contents by (done || lia). zcmp.
    unfold phys_fr. f_equal. f_equal.
    replace (32 + (k - 32 - cfm_rrb_fr env) mod 96 - 32 + (cfm_rrb_fr env - materialized env))
      with ((k - 32 - cfm_rrb_fr env) mod 96 + (cfm_rrb_fr env - materialized env)) by lia.
    rewrite Zplus_mod_idemp_l. f_equal. lia.
  - rewrite sync_fr_contents by (done || lia). zcmp.
    unfold phys_fr, ia64_fpswa_physical_fr. change IA64_ROTATING_FR_BASE with 32.
    change IA64_ROTATING_FR_COUNT with 96. zcmp. f_equal. f_equal.
    replace (32 + (k - 32 + cfm_rrb_fr env) mod 96 - 32 - materialized env)
      with ((k - 32 + cfm_rrb_fr env) mod 96 - materialized env) by lia.
    rewrite Zminus_mod_idemp_l. f_equal. lia.
Qed.

(** A register file with one live rotating register, [f40], rotated by three. *)
Definition rotating_example : CPUIA64State :=
  (ia64_fpreg_from_binary64 zero_env 40 0x4010000000000000) <| cfm_rrb_fr := 3 |>.

Lemma lazy_fr_rotation_witness :
  fr_contents (ia64_sync_rotating_fr rotating_example) 37 = phys_fr rotating_example 40.
Proof.
  refine (proj1 (proj2 (proj2 (lazy_fr_rotation rotating_example 0 37 _ _ _ _ _ _ _))));
    [constructor; reflexivity| |reflexivity|split; vm_compute; done
    |split; vm_compute; done|lia|lia].
  constructor; apply all_uint; vm_compute; reflexivity.
Defined.
