(* ===== verification/Interrupt.v ===== *)
(** * Local SAPIC and interval timer

    The model of [target/ia64/arch/interrupt.c].  A processor is an [IA64CPU]:
    its architectural state, the [CPU_INTERRUPT_HARD] request, the interval
    timer's host deadline and the queue of work that other threads have posted
    with [async_run_on_cpu].  The virtual clock is a function from the number
    of reads made so far to nanoseconds, so that every call of
    [ia64_itc_clock_ns] may see a later time. *)
From S2P Require Import Prelude Arch Env Registers.
From stdpp Require Import relations sorting list.
Local Open Scope Z_scope.

(** ** Definitions *)

Inductive IA64SapicDeliveryMode : Set :=
  | IA64_SAPIC_DELIVERY_INT
  | IA64_SAPIC_DELIVERY_INT_REDIRECT
  | IA64_SAPIC_DELIVERY_PMI
  | IA64_SAPIC_DELIVERY_NMI
  | IA64_SAPIC_DELIVERY_INIT
  | IA64_SAPIC_DELIVERY_EXTINT
  | IA64_SAPIC_DELIVERY_OTHER.  (* 3 and 6, not enumerated *)

#[export] Instance delivery_eq_dec : EqDecision IA64SapicDeliveryMode.
Proof. solve_decision. Defined.

Inductive IA64SapicDestinationMode : Set :=
  | IA64_SAPIC_DESTINATION_PHYSICAL
  | IA64_SAPIC_DESTINATION_LOGICAL.

(** Work posted to a processor. *)
Inductive cpu_work : Set :=
  | SetIrqWork (vector : Z)
  | SetSpecialWork (delivery : IA64SapicDeliveryMode) (vector : Z)
  | ItmTimerWork
  | RecordMachineCheckWork (severity status address information : Z)
  | RequestMcaWork (entry gp record_id severity : Z)
  | SetInitEntryWork (entry gp : Z).

Record IA64BootInfo : Type := mkBootInfo {
  firmware_base : Z;
  firmware_size : Z;
  pal_entry : Z;
  firmware_entry : Z;
  global_pointer : Z;
  boot_iva : Z;
  boot_bsp : Z;
  stack_pointer : Z;
  boot_rsc : Z;
  low_ram_size : Z;
  firmware_arg0 : Z;
  firmware_arg1 : Z;
  firmware_arg2 : Z;
  io_port_base : Z;
  interrupt_block_base : Z;
  powered_off : bool;
  firmware_args_valid : bool;
  platform_addresses_valid : bool
}.

Record IA64CPU : Type := mkIA64CPU {
  env : CPUIA64State;
  cpu_index : Z;
  interrupt_hard : bool;        (* CPU_INTERRUPT_HARD *)
  halted : bool;
  is_self : bool;               (* qemu_cpu_is_self: the running thread is this vCPU *)
  itm_timer : option Z;         (* deadline of the host timer *)
  work_queue : list cpu_work;
  clock_reads : nat;
  boot_info : IA64BootInfo;
  boot_info_valid : bool;
  mca_rse : IA64RSEContextState;
  mca_rse_valid : bool;
  firmware_compat_flags : Z;
  core_id : Z;
  thread_id : Z
}.

#[export] Instance eta_IA64CPU : Eta IA64CPU := fun s =>
  mkIA64CPU (env s) (cpu_index s) (interrupt_hard s) (halted s) (is_self s)
    (itm_timer s) (work_queue s) (clock_reads s) (boot_info s) (boot_info_valid s) (mca_rse s) (mca_rse_valid s)
    (firmware_compat_flags s) (core_id s) (thread_id s).

(** A processor object without boot information, as its fields are allocated. *)
Definition zero_cpu (e : CPUIA64State) (self : bool) : IA64CPU :=
  mkIA64CPU e 0 false false self None [] 0 (mkBootInfo 0 0 0 0 0 0 0 0 0 0 0 0 0 0 0 false false false) false
    zero_context false 0 0 0.

#[export] Instance IA64CPU_inhabited : Inhabited IA64CPU :=
  populate (zero_cpu zero_env false).

Definition IA64_SAPIC_LID_ID_MASK : Z := 0xff <<< 24.
Definition IA64_SAPIC_LID_EID_MASK : Z := 0xff <<< 16.
Definition IA64_SAPIC_XTP_DISABLE : Z := 0x80.
Definition IA64_SAPIC_XTP_PRIORITY_MASK : Z := 0x0f.
Definition IA64_SAPIC_XTP_WRITABLE_MASK : Z :=
  IA64_SAPIC_XTP_DISABLE .| IA64_SAPIC_XTP_PRIORITY_MASK.
Definition NANOSECONDS_PER_SECOND : Z := 1000000000.

Definition ia64_sapic_lid (id eid : Z) : Z := (id <<< 24) .| (eid <<< 16).

Definition ia64_external_interrupt_vector_valid (vector : Z) : bool :=
  (vector =? 0) || (vector =? 2) || (16 <=? vector).

Abbreviation lid cpu := (aget (cr (env cpu)) IA64_CR_SAPIC_LID).

Definition ia64_cpu_by_sapic_id (cpus : list IA64CPU) (id eid : Z) : option nat :=
  fst <$> list_find (fun cpu =>
    (lid cpu) .& (IA64_SAPIC_LID_ID_MASK .| IA64_SAPIC_LID_EID_MASK) = ia64_sapic_lid id eid) cpus.

Definition ia64_sapic_set_xtp (cpu : IA64CPU) (xtp : Z) : IA64CPU :=
  cpu <| env; interrupt ::= fun i => i <| sapic_xtp := xtp .& IA64_SAPIC_XTP_WRITABLE_MASK |> |>.

Definition ia64_sapic_get_xtp (cpu : IA64CPU) : Z := sapic_xtp (interrupt (env cpu)).

Definition UINT_MAX : Z := UINT32_MAX.

(** The loop of [sapic_redirect_target] over the remaining CPUs; [k] is the
    position of the first of them in the list. *)
Fixpoint redirect_loop (requested_eid requested_index : Z) (k : nat) (cpus : list IA64CPU)
    (selected : option nat) (best_priority best_order : Z) : option nat :=
  match cpus with
  | [] => selected
  | cs :: cpus =>
      let xtp := ia64_sapic_get_xtp cs in
      if negb ((lid cs) .& IA64_SAPIC_LID_EID_MASK =? requested_eid) ||
         truth (xtp .& IA64_SAPIC_XTP_DISABLE)
      then redirect_loop requested_eid requested_index (S k) cpus selected best_priority best_order
      else
        let priority := xtp .& IA64_SAPIC_XTP_PRIORITY_MASK in
        let index := Z.max (cpu_index cs) 0 in
        let order := (Z.b2z (index <? requested_index) <<< 32) .| index in
        if (priority <? best_priority) ||
           ((priority =? best_priority) && (order <? best_order))
        then redirect_loop requested_eid requested_index (S k) cpus (Some k) priority order
        else redirect_loop requested_eid requested_index (S k) cpus selected best_priority best_order
  end.

Definition sapic_redirect_target (cpus : list IA64CPU) (requested : nat) : nat :=
  let r := cpus !!! requested in
  let requested_eid := (lid r) .& IA64_SAPIC_LID_EID_MASK in
  let requested_index := Z.max (cpu_index r) 0 in
  match redirect_loop requested_eid requested_index 0 cpus None UINT_MAX UINT64_MAX with
  | Some k => k
  | None => requested
  end.

Definition sapic_vector_active (bitmap : list Z) (vector : Z) : bool :=
  truth (aget bitmap (vector / 64) .& (1 <<< (vector mod 64))).

Definition sapic_vector_priority (vector : Z) : Z :=
  if vector =? 2 then 257
  else if vector =? 0 then 256
  else if 16 <=? vector then vector
  else -1.

Definition sapic_vector_priority_class (vector : Z) : Z :=
  if 16 <=? vector then vector >>> 4 else -1.

(** [clz64], 64 for zero. *)
Definition clz64 (x : Z) : Z := if x =? 0 then 64 else 63 - Z.log2 x.

Fixpoint find_highest_from (bitmap : list Z) (words : list Z) : Z :=
  match words with
  | [] => IA64_SPURIOUS_VECTOR
  | word :: words =>
      let active := aget bitmap word in
      let active := if word =? 0 then active .& ~64 0xffff else active in
      if truth active then word * 64 + 63 - clz64 active
      else find_highest_from bitmap words
  end.

Definition sapic_find_highest_normal (bitmap : list Z) : Z :=
  find_highest_from bitmap [3; 2; 1; 0].

Definition sapic_find_isr (e : CPUIA64State) : Z :=
  if sapic_vector_active (sapic_isr (interrupt e)) 2 then 2
  else if sapic_vector_active (sapic_isr (interrupt e)) 0 then 0
  else sapic_find_highest_normal (sapic_isr (interrupt e)).

Definition sapic_vector_unmasked (e : CPUIA64State) (vector : Z) : bool :=
  let tpr := aget (cr e) IA64_CR_SAPIC_TPR in
  let isr := sapic_find_isr e in
  let vector_priority := sapic_vector_priority vector in
  let vector_class := sapic_vector_priority_class vector in
  if vector_priority <=? sapic_vector_priority isr then false
  else if vector =? 2 then true
  else if vector =? 0 then negb (truth (tpr .& IA64_TPR_MMI))
  else negb (truth (tpr .& IA64_TPR_MMI)) &&
       ((tpr .& IA64_TPR_MIC_MASK) >>> 4 <? u64 vector_class).

Definition sapic_find_irr (e : CPUIA64State) : Z :=
  if sapic_vector_active (sapic_irr (interrupt e)) 2 && sapic_vector_unmasked e 2 then 2
  else if sapic_vector_active (sapic_irr (interrupt e)) 0 && sapic_vector_unmasked e 0 then 0
  else
    let vector := sapic_find_highest_normal (sapic_irr (interrupt e)) in
    if negb (vector =? IA64_SPURIOUS_VECTOR) && sapic_vector_unmasked e vector then vector
    else IA64_SPURIOUS_VECTOR.

(** The conditions other than a deliverable vector that request an
    interruption. *)
Definition sapic_special (e : CPUIA64State) : bool :=
  (pal_mca_pending (pal e) && negb (truth (psr e .& IA64_PSR_MC))) ||
  (sapic_init_pending (interrupt e) && negb (truth (psr e .& IA64_PSR_MC))) ||
  (truth (sapic_pmi_pending (interrupt e)) && truth (psr e .& IA64_PSR_IC) &&
   negb (pal_pmi_entry (pal e) =? 0)).

Definition ia64_sapic_update_interrupt (cpu : IA64CPU) : IA64CPU :=
  if sapic_special (env cpu) || negb (sapic_find_irr (env cpu) =? IA64_SPURIOUS_VECTOR)
  then cpu <| interrupt_hard := true |>
  else cpu <| interrupt_hard := false |>.

Definition ia64_sapic_has_pending (e : CPUIA64State) : bool :=
  negb (sapic_find_irr e =? IA64_SPURIOUS_VECTOR).
Definition ia64_sapic_has_pmi (e : CPUIA64State) : bool :=
  negb (sapic_pmi_pending (interrupt e) =? 0).
Definition ia64_sapic_has_init (e : CPUIA64State) : bool := sapic_init_pending (interrupt e).

Definition ia64_sapic_accept_pmi (cpu : IA64CPU) : Z * IA64CPU :=
  let pending := sapic_pmi_pending (interrupt (env cpu)) in
  if pending =? 0 then (-1, cpu)
  else
    let vector := 31 - (clz64 pending - 32) in
    let cpu := cpu <| env; interrupt ::= fun i =>
      i <| sapic_pmi_pending ::= fun p => u16 (p .& ~32 (1 <<< vector)) |> |> in
    (vector, ia64_sapic_update_interrupt cpu).

Definition ia64_sapic_accept_init (cpu : IA64CPU) : bool * IA64CPU :=
  if negb (sapic_init_pending (interrupt (env cpu))) then (false, cpu)
  else
    let cpu := cpu <| env; interrupt ::= fun i =>
      i <| sapic_init_pending := false |> <| sapic_init_reason := 0 |> |> in
    (true, ia64_sapic_update_interrupt cpu).

(** [bitmap[idx] |= 1ULL << bit] and [bitmap[idx] &= ~(1ULL << bit)] are
    [bm_set] and [bm_clear] of the prelude. *)
Definition ia64_sapic_accept (cpu : IA64CPU) : Z * IA64CPU :=
  let vector := sapic_find_irr (env cpu) in
  if negb (vector =? IA64_SPURIOUS_VECTOR) then
    let cpu := cpu <| env; interrupt ::= fun i =>
      i <| sapic_irr ::= fun m => bm_clear m vector |>
        <| sapic_isr ::= fun m => bm_set m vector |> |> in
    (vector, ia64_sapic_update_interrupt cpu)
  else (vector, cpu).

Definition ia64_sapic_eoi (cpu : IA64CPU) : IA64CPU :=
  let vector := sapic_find_isr (env cpu) in
  let cpu :=
    if negb (vector =? IA64_SPURIOUS_VECTOR) then
      cpu <| env; interrupt ::= fun i => i <| sapic_isr ::= fun m => bm_clear m vector |> |>
    else cpu in
  ia64_sapic_update_interrupt cpu.

Definition ia64_sapic_get_ivr (cpu : IA64CPU) : Z * IA64CPU := ia64_sapic_accept cpu.

(** The cases of [ia64_system_write_cr] for the task priority register and the
    local identifier. *)
Definition write_cr_tpr (cpu : IA64CPU) (value : Z) : IA64CPU :=
  let cpu := cpu <| env; cr @ IA64_CR_SAPIC_TPR := value .& IA64_TPR_WRITABLE_MASK |> in
  ia64_sapic_update_interrupt cpu.

Definition write_cr_lid (cpu : IA64CPU) (value : Z) : IA64CPU :=
  cpu <| env; cr @ IA64_CR_SAPIC_LID :=
    value .& (IA64_SAPIC_LID_ID_MASK .| IA64_SAPIC_LID_EID_MASK) |>.

(** Every change of the processor status register goes through here. *)
Definition ia64_set_psr (cpu : IA64CPU) (value : Z) : IA64CPU :=
  let changed := psr (env cpu) .^ value in
  let cpu :=
    if truth (changed .& IA64_PSR_IC)
    then cpu <| env; exception_state ::= fun x => x <| psr_ic_inflight := true |> |> else cpu in
  let cpu :=
    if negb (truth (value .& IA64_PSR_I)) || truth (value .& IA64_PSR_IS)
    then cpu <| env; exception_state ::= fun x => x <| psr_i_deferred := false |> |>
    else if truth (changed .& IA64_PSR_I) && psr_ic_inflight (exception_state (env cpu))
    then cpu <| env; exception_state ::= fun x => x <| psr_i_deferred := true |> |>
    else cpu in
  let cpu := if truth (changed .& IA64_PSR_BN) then cpu <| env ::= ia64_swap_banked_gr |> else cpu in
  let cpu := cpu <| env; psr := value |> in
  if truth (changed .& (IA64_PSR_I .| IA64_PSR_IC .| IA64_PSR_MC .| IA64_PSR_IS))
  then ia64_sapic_update_interrupt cpu else cpu.

Definition ia64_sapic_set_irq_work (cpu : IA64CPU) (host_int : Z) : IA64CPU :=
  let vector := u8 host_int in
  let cpu := cpu <| env; interrupt ::= fun i => i <| sapic_irr ::= fun m => bm_set m vector |> |> in
  ia64_sapic_update_interrupt cpu.

Definition async_run_on_cpu (cpu : IA64CPU) (w : cpu_work) : IA64CPU :=
  cpu <| work_queue ::= fun q => q ++ [w] |>.

Definition ia64_sapic_set_irq (cpu : IA64CPU) (vector : Z) : IA64CPU :=
  if is_self cpu then ia64_sapic_set_irq_work cpu vector
  else async_run_on_cpu cpu (SetIrqWork vector).

(** The [g_assert] on the delivery mode holds for the two callers. *)
Definition ia64_sapic_set_special_work (cpu : IA64CPU) (delivery : IA64SapicDeliveryMode)
    (vector : Z) : IA64CPU :=
  let vector := u8 vector in
  let cpu :=
    if decide (delivery = IA64_SAPIC_DELIVERY_PMI) then
      cpu <| env; interrupt ::= fun i =>
        i <| sapic_pmi_pending ::= fun p => u16 (p .| (1 <<< vector)) |> |>
    else
      cpu <| env; interrupt ::= fun i =>
        (if negb (sapic_init_pending i) || (sapic_init_reason i <? vector)
         then i <| sapic_init_reason := vector |> else i) <| sapic_init_pending := true |> |> in
  ia64_sapic_update_interrupt cpu.

Definition ia64_sapic_set_init (cpu : IA64CPU) (reason : Z) : IA64CPU :=
  if is_self cpu then ia64_sapic_set_special_work cpu IA64_SAPIC_DELIVERY_INIT reason
  else async_run_on_cpu cpu (SetSpecialWork IA64_SAPIC_DELIVERY_INIT reason).

Definition sapic_deliver_to (cpu : IA64CPU) (delivery : IA64SapicDeliveryMode) (vector : Z)
    : IA64CPU :=
  match delivery with
  | IA64_SAPIC_DELIVERY_PMI | IA64_SAPIC_DELIVERY_INIT =>
      if is_self cpu then ia64_sapic_set_special_work cpu delivery vector
      else async_run_on_cpu cpu (SetSpecialWork delivery vector)
  | _ => ia64_sapic_set_irq cpu vector
  end.

(** The vector that a transaction delivers and whether it redirects, or [None]
    when the transaction is refused: the [switch] of [ia64_sapic_deliver]. *)
Definition deliver_vector (redirect : bool) (delivery : IA64SapicDeliveryMode) (vector : Z)
    : option (bool * Z) :=
  match delivery with
  | IA64_SAPIC_DELIVERY_INT_REDIRECT =>
      if ia64_external_interrupt_vector_valid vector then Some (true, vector) else None
  | IA64_SAPIC_DELIVERY_INT =>
      if ia64_external_interrupt_vector_valid vector then Some (redirect, vector) else None
  | IA64_SAPIC_DELIVERY_NMI => Some (redirect, 2)
  | IA64_SAPIC_DELIVERY_EXTINT => Some (redirect, 0)
  | IA64_SAPIC_DELIVERY_PMI => if 4 <=? vector then None else Some (redirect, vector)
  | IA64_SAPIC_DELIVERY_INIT => Some (redirect, 0)
  | IA64_SAPIC_DELIVERY_OTHER => None
  end.

Definition ia64_sapic_deliver (cpus : list IA64CPU) (destination_mode : IA64SapicDestinationMode)
    (id eid : Z) (redirect : bool) (delivery : IA64SapicDeliveryMode) (vector : Z)
    : bool * list IA64CPU :=
  match destination_mode with
  | IA64_SAPIC_DESTINATION_LOGICAL => (false, cpus)
  | IA64_SAPIC_DESTINATION_PHYSICAL =>
      match deliver_vector redirect delivery vector with
      | None => (false, cpus)
      | Some (redirect, vector) =>
          match ia64_cpu_by_sapic_id cpus id eid with
          | None => (false, cpus)
          | Some k =>
              let k :=
                if redirect && bool_decide (delivery <> IA64_SAPIC_DELIVERY_NMI) &&
                   bool_decide (delivery <> IA64_SAPIC_DELIVERY_EXTINT)
                then sapic_redirect_target cpus k else k in
              (true, alter (fun cpu => sapic_deliver_to cpu delivery vector) k cpus)
          end
      end
  end.

(** ** The interval timer *)

Definition ia64_itv_vector (e : CPUIA64State) : Z :=
  let vector := u8 (aget (cr e) IA64_CR_ITV .& 0xFF) in
  if ia64_external_interrupt_vector_valid vector then vector else -1.

Definition ia64_itv_masked (e : CPUIA64State) : bool :=
  truth (aget (cr e) IA64_CR_ITV .& IA64_VECTOR_MASKED).

Definition ia64_itm_interrupt_active (e : CPUIA64State) : bool :=
  let vector := ia64_itv_vector e in
  (0 <=? vector) && sapic_vector_active (sapic_isr (interrupt e)) vector.

(** The ticks and the final fraction. *)
Definition ia64_itc_ticks_for_ns (elapsed_ns frequency_hz initial_fraction : Z) : Z * Z :=
  if elapsed_ns <? NANOSECONDS_PER_SECOND then
    let fraction := u64 (elapsed_ns * frequency_hz + initial_fraction) in
    (fraction / NANOSECONDS_PER_SECOND, u32 (fraction mod NANOSECONDS_PER_SECOND))
  else
    let seconds := elapsed_ns / NANOSECONDS_PER_SECOND in
    let nanoseconds := elapsed_ns mod NANOSECONDS_PER_SECOND in
    let fraction := u64 (nanoseconds * frequency_hz + initial_fraction) in
    let ticks := u64 (seconds * frequency_hz) in
    (u64 (ticks + fraction / NANOSECONDS_PER_SECOND),
     u32 (fraction mod NANOSECONDS_PER_SECOND)).

(** [muldiv64]: the 96-bit product divided, reduced to 64 bits. *)
Definition muldiv64 (a b c : Z) : Z := u64 (a * b / c).

Section timer.
(** The model's oscillator and the virtual clock, by number of reads. *)
Variable itc_frequency_hz : Z.
Variable clock : nat -> Z.

Definition ia64_itc_delay_ns (e : CPUIA64State) (delta_ticks : Z) : Z :=
  let i := interrupt e in
  if UINT64_MAX - itc_tick_debt i <? delta_ticks then INT64_MAX
  else
    let required_ticks := delta_ticks + itc_tick_debt i in
    let maximum_ticks :=
      (ia64_itc_ticks_for_ns INT64_MAX itc_frequency_hz (itc_fraction i)).1 in
    if maximum_ticks <? required_ticks then INT64_MAX
    else
      let delay_ns := muldiv64 required_ticks NANOSECONDS_PER_SECOND itc_frequency_hz in
      if (ia64_itc_ticks_for_ns delay_ns itc_frequency_hz (itc_fraction i)).1 <? required_ticks
      then u64 (delay_ns + 1) else delay_ns.

Definition ia64_itc_clock_ns (cpu : IA64CPU) : Z * IA64CPU :=
  (clock (clock_reads cpu), cpu <| clock_reads ::= S |>).

Abbreviation set_int f cpu := (cpu <| env; interrupt ::= f |>).
Abbreviation set_ar_itc v cpu := (cpu <| env; ar @ IA64_AR_ITC := v |>).

Definition ia64_itc_sync (cpu : IA64CPU) : IA64CPU :=
  let '(now, cpu) := ia64_itc_clock_ns cpu in
  let i := interrupt (env cpu) in
  let elapsed := now - itc_last_ns i in
  if 0 <? elapsed then
    let '(ticks, fraction) := ia64_itc_ticks_for_ns elapsed itc_frequency_hz (itc_fraction i) in
    let cpu := set_int (fun i => i <| itc_fraction := fraction |> <| itc_last_ns := now |>) cpu in
    if ticks <=? itc_tick_debt i then
      set_int (fun i => i <| itc_tick_debt ::= fun d => d - ticks |>) cpu
    else
      let ticks := ticks - itc_tick_debt i in
      let cpu := set_int (fun i => i <| itc_tick_debt := 0 |>) cpu in
      set_ar_itc (u64 (ar_itc (env cpu) + ticks)) cpu
  else cpu.

Definition ia64_itc_advance_pending_itm (cpu : IA64CPU) : IA64CPU :=
  let cpu := ia64_itc_sync cpu in
  let i := interrupt (env cpu) in
  if negb (itm_armed i) && itm_last_match_valid i && ia64_itm_interrupt_active (env cpu) &&
     (s64 (u64 (ar_itc (env cpu) - (itm_last_match i + 1))) <? 0)
  then
    let ticks := u64 (itm_last_match i + 1 - ar_itc (env cpu)) in
    let cpu := set_ar_itc (u64 (ar_itc (env cpu) + ticks)) cpu in
    set_int (fun i => i <| itc_tick_debt :=
      if UINT64_MAX - itc_tick_debt i <? ticks then UINT64_MAX else itc_tick_debt i + ticks |>) cpu
  else cpu.

Definition ia64_itm_raise (cpu : IA64CPU) (itm_value : Z) : IA64CPU :=
  let vector := ia64_itv_vector (env cpu) in
  if vector <? 0 then cpu
  else
    let i := interrupt (env cpu) in
    if itm_last_match_valid i && (itm_last_match i =? itm_value)
    then ia64_sapic_update_interrupt cpu
    else
      let cpu := set_int (fun i => i <| itm_last_match := itm_value |>
                                     <| itm_last_match_valid := true |>) cpu in
      ia64_sapic_set_irq cpu vector.

Definition ia64_itm_update_pending (cpu : IA64CPU) (itc itm_value : Z) (was_armed : bool)
    : bool * IA64CPU :=
  let delta_ticks := s64 (u64 (itm_value - itc)) in
  let vector := ia64_itv_vector (env cpu) in
  if vector <? 0 then (true, cpu)
  else if ia64_itv_masked (env cpu) then (true, cpu)
  else if 0 <? delta_ticks then (false, cpu)
  else if (delta_ticks =? 0) || was_armed then (true, ia64_itm_raise cpu itm_value)
  else (true, cpu).

(** Signed arithmetic wraps: the program is compiled with [-fwrapv]. *)
Definition ia64_itm_update (cpu : IA64CPU) (itm_value : Z) : IA64CPU :=
  let was_armed := itm_armed (interrupt (env cpu)) &&
                   (itm_armed_value (interrupt (env cpu)) =? itm_value) in
  let cpu := ia64_itc_advance_pending_itm cpu in
  let itc := ar_itc (env cpu) in
  let delta_ticks := s64 (u64 (itm_value - itc)) in
  let '(done, cpu) := ia64_itm_update_pending cpu itc itm_value was_armed in
  if done : bool then
    let cpu := cpu <| itm_timer := None |> in
    let cpu := set_int (fun i => i <| itm_armed := false |>) cpu in
    ia64_itc_advance_pending_itm cpu
  else
    let delay_ns := ia64_itc_delay_ns (env cpu) (u64 delta_ticks) in
    let cpu := set_int (fun i => i <| itm_armed := true |> <| itm_armed_value := itm_value |>) cpu in
    let deadline_ns :=
      if (delay_ns =? INT64_MAX) ||
         (s64 (u64 (INT64_MAX - s64 delay_ns)) <? itc_last_ns (interrupt (env cpu)))
      then INT64_MAX
      else itc_last_ns (interrupt (env cpu)) + s64 delay_ns in
    cpu <| itm_timer := Some deadline_ns |>.

Definition ia64_itm_timer_work (cpu : IA64CPU) : IA64CPU :=
  if negb (itm_armed (interrupt (env cpu))) then cpu
  else
    let was_armed := itm_armed (interrupt (env cpu)) in
    let cpu := set_int (fun i => i <| itm_armed := false |>) cpu in
    let itm := aget (cr (env cpu)) IA64_CR_ITM in
    let cpu := ia64_itc_advance_pending_itm cpu in
    let '(done, cpu) := ia64_itm_update_pending cpu (ar_itc (env cpu)) itm was_armed in
    if done : bool then cpu else ia64_itm_update cpu itm.

Definition ia64_itm_timer_cb (cpu : IA64CPU) : IA64CPU :=
  if is_self cpu then ia64_itm_timer_work cpu else async_run_on_cpu cpu ItmTimerWork.

Definition ia64_itc_check_timer (cpu : IA64CPU) : IA64CPU :=
  let cpu := ia64_itc_advance_pending_itm cpu in
  let was_armed := itm_armed (interrupt (env cpu)) &&
                   (itm_armed_value (interrupt (env cpu)) =? cr_itm (env cpu)) in
  let cpu :=
    if was_armed && (s64 (u64 (cr_itm (env cpu) - ar_itc (env cpu))) <=? 0)
    then set_int (fun i => i <| itm_armed := false |>) cpu else cpu in
  let cpu := (ia64_itm_update_pending cpu (ar_itc (env cpu)) (cr_itm (env cpu)) was_armed).2 in
  ia64_itc_advance_pending_itm cpu.

Definition ia64_itc_enter_halt (cpu : IA64CPU) : IA64CPU :=
  let cpu := ia64_itc_advance_pending_itm cpu in
  ia64_itm_update cpu (cr_itm (env cpu)).

Definition ia64_itc_read (cpu : IA64CPU) : Z * IA64CPU :=
  let cpu := ia64_itc_advance_pending_itm cpu in
  (ar_itc (env cpu), cpu).

Definition ia64_itc_write (cpu : IA64CPU) (value : Z) : IA64CPU :=
  let cpu := set_ar_itc value cpu in
  let '(now, cpu) := ia64_itc_clock_ns cpu in
  set_int (fun i => i <| itc_last_ns := now |> <| itc_fraction := 0 |>
                      <| itc_tick_debt := 0 |> <| itm_last_match_valid := false |>) cpu.

(** *** Machine-check requests

    The part of [arch/ras.c] that other threads call: a record of a machine
    check, a request to enter its handler, and the registration of the INIT
    handler.  The work functions run on the processor. *)

Definition ia64_ras_processor_state_parameter (e : CPUIA64State) (severity : Z) : Z :=
  let value := (1 <<< 5) .| (1 <<< 6) .| (1 <<< 7) .| (1 <<< 8) .| (1 <<< 12) .| (1 <<< 13) .| (1 <<< 14) .|
               (1 <<< 17) .| (1 <<< 20) .| (1 <<< 24) .| (1 <<< 25) .| (1 <<< 26) .| (1 <<< 27) .| (1 <<< 29) .|
               (1 <<< 30) .| (1 <<< 31) .| (1 <<< 61) in
  let value := if severity =? 2 then value .| (1 <<< 18) else value in
  if pal_mc_expected (pal e) then value .| (1 <<< 19) else value.

Definition ia64_ras_update_cmc (cpu : IA64CPU) : IA64CPU :=
  let cmcv := aget (cr (env cpu)) IA64_CR_CMCV in
  let vector := u8 cmcv in
  if negb (pal_cmc_pending (pal (env cpu))) || truth (cmcv .& IA64_VECTOR_MASKED) ||
     negb (ia64_external_interrupt_vector_valid vector)
  then cpu
  else ia64_sapic_set_irq (cpu <| env; pal ::= fun p => p <| pal_cmc_pending := false |> |>) vector.

Definition ia64_cpu_record_machine_check_work (cpu : IA64CPU) (severity status address information : Z) : IA64CPU :=
  let cpu := cpu <| env ::= fun e => e <| pal ::= fun p =>
    if pal_mc_log_valid p
    then p <| pal_mc_state_parameter ::= fun v => v .| (1 <<< 4) |>
    else p <| pal_mc_log_valid := true |> <| pal_mc_status := status |> <| pal_mc_address := address |>
           <| pal_mc_information := information |> <| pal_mc_ip := ip e |> |> |> in
  let cpu := cpu <| env; pal ::= fun p => p <| pal_mc_severity := severity |>
    <| pal_mc_error_map := (1 <<< 24) .| ((thread_id cpu .& 0xf) <<< 4) .| (core_id cpu .& 0xf) |> |> in
  let parameter := ia64_ras_processor_state_parameter (env cpu) severity in
  let cpu := cpu <| env; pal ::= fun p => p <| pal_mc_state_parameter ::= fun v => v .| parameter |> |> in
  if severity =? 2
  then ia64_ras_update_cmc (cpu <| env; pal ::= fun p => p <| pal_cmc_pending := true |> |>)
  else cpu.

Definition ia64_cpu_record_machine_check (cpu : IA64CPU) (severity status address information : Z) : IA64CPU :=
  if 2 <? severity then cpu
  else if is_self cpu then ia64_cpu_record_machine_check_work cpu severity status address information
  else async_run_on_cpu cpu (RecordMachineCheckWork severity status address information).

(** A request for the record that is being handled, or that is already
    pending, is dropped. *)
Definition ia64_cpu_request_mca_work (cpu : IA64CPU) (entry gp record_id severity : Z) : IA64CPU :=
  let p := pal (env cpu) in
  if negb (record_id =? pal_mca_active_record_id p) &&
     (negb (pal_mca_pending p) || negb (record_id =? pal_mca_pending_record_id p))
  then ia64_sapic_update_interrupt (cpu <| env; pal ::= fun p =>
         p <| pal_mca_entry := entry |> <| pal_mca_gp := gp |> <| pal_mca_pending_record_id := record_id |>
           <| pal_mc_severity := severity |> <| pal_mca_pending := true |> |>)
  else cpu.

Definition ia64_cpu_request_mca (cpu : IA64CPU) (entry gp record_id severity : Z) : IA64CPU :=
  if (entry =? 0) || (record_id =? 0) || (2 <? severity) then cpu
  else if is_self cpu then ia64_cpu_request_mca_work cpu entry gp record_id severity
  else async_run_on_cpu cpu (RequestMcaWork entry gp record_id severity).

Definition ia64_cpu_set_init_entry_work (cpu : IA64CPU) (entry gp : Z) : IA64CPU :=
  cpu <| env; pal ::= fun p => p <| pal_init_entry := entry |> <| pal_init_gp := gp |> |>.

Definition ia64_cpu_set_init_entry (cpu : IA64CPU) (entry gp : Z) : IA64CPU :=
  if is_self cpu then ia64_cpu_set_init_entry_work cpu entry gp
  else async_run_on_cpu cpu (SetInitEntryWork entry gp).

(** Running the oldest posted work item on its processor. *)
Definition run_work (cpu : IA64CPU) : IA64CPU :=
  match work_queue cpu with
  | [] => cpu
  | w :: q =>
      let cpu := cpu <| work_queue := q |> in
      match w with
      | SetIrqWork vector => ia64_sapic_set_irq_work cpu vector
      | SetSpecialWork delivery vector => ia64_sapic_set_special_work cpu delivery vector
      | ItmTimerWork => ia64_itm_timer_work cpu
      | RecordMachineCheckWork severity status address information =>
          ia64_cpu_record_machine_check_work cpu severity status address information
      | RequestMcaWork entry gp record_id severity => ia64_cpu_request_mca_work cpu entry gp record_id severity
      | SetInitEntryWork entry gp => ia64_cpu_set_init_entry_work cpu entry gp
      end
  end.

End timer.

Definition ia64_cpu_has_work (cpu : IA64CPU) : bool :=
  let e := env cpu in
  let nmi_pending := truth (aget (sapic_irr (interrupt e)) 0 .& (1 <<< 2)) in
  let interrupts_enabled :=
    truth (psr e .& IA64_PSR_I) || (halted cpu && pal_halt_wake (interrupt e)) in
  interrupt_hard cpu &&
  (interrupts_enabled || nmi_pending ||
   (pal_mca_pending (pal e) && negb (truth (psr e .& IA64_PSR_MC))) ||
   (truth (sapic_pmi_pending (interrupt e)) && truth (psr e .& IA64_PSR_IC) &&
    negb (pal_pmi_entry (pal e) =? 0)) ||
   (sapic_init_pending (interrupt e) && negb (truth (psr e .& IA64_PSR_MC)))).

(** ** Vectors in priority order *)

(** The architected order: NMI (2), ExtINT (0), then 255 down to 16. *)
Definition vectors_by_priority : list Z := 2 :: 0 :: reverse (seqZ 16 240).

Definition outranks (v w : Z) : Prop := sapic_vector_priority w < sapic_vector_priority v.

(** The vectors of a bitmap, highest priority first. *)
Definition active_vectors (bitmap : list Z) : list Z :=
  filter (fun v => sapic_vector_active bitmap v) vectors_by_priority.

#[global] Arguments active_vectors : simpl never.

(** The abstract local SAPIC: the requests, and the vectors in service. *)
Definition requested (e : CPUIA64State) : list Z := active_vectors (sapic_irr (interrupt e)).
Definition in_service (e : CPUIA64State) : list Z := active_vectors (sapic_isr (interrupt e)).

(** What the task priority register lets through: NMI always; the others
    unless [mmi] is set, a normal vector only above the masked class. *)
Definition tpr_allows (tpr v : Z) : Prop :=
  v = 2 \/ (Z.testbit tpr 16 = false /\ (v = 0 \/ tpr / 16 mod 16 < v / 16)).

(** A request that may be taken now: it passes the task priority register and
    outranks everything in service. *)
Definition acceptable (e : CPUIA64State) (v : Z) : Prop :=
  v ∈ requested e /\ tpr_allows (aget (cr e) IA64_CR_SAPIC_TPR) v /\
  Forall (outranks v) (in_service e).

Definition bitmap_wf (m : list Z) : Prop := length m = 4%nat /\ Forall (uint 64) m.

Lemma vector_active_bm_get m v : sapic_vector_active m v = bm_get m v.
Proof.
  pose proof (Z.mod_pos_bound v 64 ltac:(lia)).
  unfold sapic_vector_active, bm_get. rewrite shiftl_1_pow2, truth_land_pow2; auto; lia.
Qed.

Lemma elem_of_vectors v :
  v ∈ vectors_by_priority <-> v = 2 \/ v = 0 \/ 16 <= v < 256.
Proof.
  unfold vectors_by_priority. rewrite !elem_of_cons, elem_of_reverse, elem_of_seqZ. lia.
Qed.

Lemma elem_of_active m v :
  v ∈ active_vectors m <-> bm_get m v = true /\ (v = 2 \/ v = 0 \/ 16 <= v < 256).
Proof.
  unfold active_vectors. rewrite list_elem_of_filter, elem_of_vectors, vector_active_bm_get.
  rewrite Is_true_true. tauto.
Qed.

Lemma sorted_seqZ m n : StronglySorted (flip Z.lt) (reverse (seqZ m n)).
Proof.
  destruct (Z.le_gt_cases n 0) as [?|Hn].
  { rewrite seqZ_nil by lia. constructor. }
  replace n with (Z.of_nat (Z.to_nat n)) by lia. generalize (Z.to_nat n) as k. clear.
  induction k as [|k IH]; [constructor|].
  rewrite seqZ_S, reverse_app, reverse_singleton.
  constructor; [exact IH|].
  apply Forall_forall. intros x Hx. rewrite elem_of_reverse, elem_of_seqZ in Hx.
  unfold flip. lia.
Qed.

Lemma sorted_impl {A} (P : A -> Prop) (R S : A -> A -> Prop) l :
  Forall P l -> (forall x y, P x -> P y -> R x y -> S x y) ->
  StronglySorted R l -> StronglySorted S l.
Proof.
  intros HP HRS. induction 1 as [|x l _ IH HF]; constructor; inversion HP; subst; auto.
  rewrite Forall_forall in *. eauto.
Qed.

Lemma vectors_sorted : StronglySorted outranks vectors_by_priority.
Proof.
  assert (HF : Forall (fun v => 16 <= v < 256) (reverse (seqZ 16 240))).
  { apply Forall_forall. intros x. rewrite elem_of_reverse, elem_of_seqZ. lia. }
  unfold vectors_by_priority, outranks, sapic_vector_priority.
  constructor; [constructor|constructor].
  - eapply sorted_impl; [exact HF| |apply sorted_seqZ]. unfold flip. cbn beta. intros; zcmp; lia.
  - eapply Forall_impl; [exact HF|]. cbn beta. intros; zcmp; lia.
  - zcmp; lia.
  - eapply Forall_impl; [exact HF|]. cbn beta. intros; zcmp; lia.
Qed.

Lemma sorted_filter {A} (R : A -> A -> Prop) (P : A -> Prop) `{forall x, Decision (P x)} l :
  StronglySorted R l -> StronglySorted R (filter P l).
Proof.
  induction 1 as [|x l _ IH HF]; [constructor|].
  rewrite filter_cons. case_decide; [|exact IH]. constructor; [exact IH|].
  rewrite Forall_forall in *. intros y [_ ?]%list_elem_of_filter. auto.
Qed.

(** A list sorted by a strict order is determined by its elements. *)
Lemma sorted_ext {A} (R : A -> A -> Prop) (l l' : list A) :
  (forall x y, R x y -> R y x -> False) ->
  StronglySorted R l -> StronglySorted R l' -> (forall x, x ∈ l <-> x ∈ l') -> l = l'.
Proof.
  intros Hasym Hl. revert l'.
  induction Hl as [|x l _ IH HF]; intros l' Hl' Heq.
  { destruct l' as [|y l']; [done|]. destruct (not_elem_of_nil y). apply Heq. left. }
  destruct Hl' as [|y l' Hl' HF'].
  { destruct (not_elem_of_nil x). apply Heq. left. }
  rewrite Forall_forall in HF, HF'.
  assert (x = y) as <-.
  { destruct (Heq x) as [Hx _], (Heq y) as [_ Hy].
    specialize (Hx ltac:(left)). specialize (Hy ltac:(left)).
    apply elem_of_cons in Hx as [?|Hx]; [done|]. apply elem_of_cons in Hy as [?|Hy]; [done|].
    destruct (Hasym y x); auto. }
  f_equal. apply IH; [done|]. intros z. specialize (Heq z). rewrite !elem_of_cons in Heq.
  split; intros Hz.
  - destruct Heq as [[->|?] _]; auto. destruct (Hasym x x); auto.
  - destruct Heq as [_ [->|?]]; auto. destruct (Hasym x x); auto.
Qed.

Lemma outranks_asym v w : outranks v w -> outranks w v -> False.
Proof. unfold outranks. lia. Qed.

Lemma active_sorted m : StronglySorted outranks (active_vectors m).
Proof. apply sorted_filter, vectors_sorted. Qed.

(** A list of vectors that is sorted and has the elements of a bitmap is the
    bitmap's list. *)
Lemma active_unique m l :
  StronglySorted outranks l ->
  (forall v, v ∈ l <-> bm_get m v = true /\ (v = 2 \/ v = 0 \/ 16 <= v < 256)) ->
  active_vectors m = l.
Proof.
  intros Hl Hel. eapply sorted_ext; eauto using active_sorted, outranks_asym.
  intros v. rewrite Hel. apply elem_of_active.
Qed.

(** Setting a vector above everything in the bitmap puts it in front;
    clearing the first takes it off. *)
Lemma active_bm_set m v :
  bitmap_wf m -> v ∈ vectors_by_priority -> Forall (outranks v) (active_vectors m) ->
  active_vectors (bm_set m v) = v :: active_vectors m.
Proof.
  intros [Hlen _] Hv HF. rewrite elem_of_vectors in Hv.
  apply active_unique; [constructor; auto using active_sorted|].
  intros w. rewrite elem_of_cons, elem_of_active.
  destruct (decide (w = 2 \/ w = 0 \/ 16 <= w < 256)) as [Hw|Hw]; [|naive_solver].
  rewrite bm_get_set by lia. destruct (Z.eqb_spec v w); naive_solver.
Qed.

Lemma active_bm_clear m v l :
  bitmap_wf m -> active_vectors m = v :: l -> active_vectors (bm_clear m v) = l.
Proof.
  intros [Hlen Hu] Hm.
  pose proof (active_sorted m) as Hs. rewrite Hm in Hs. apply StronglySorted_cons in Hs as [HF Hs].
  assert (Hv : v = 2 \/ v = 0 \/ 16 <= v < 256).
  { assert (v ∈ active_vectors m) as [_ ?]%elem_of_active by (rewrite Hm; left). done. }
  apply active_unique; [done|]. intros w.
  pose proof (elem_of_active m w) as Hw. rewrite Hm, elem_of_cons in Hw.
  destruct (decide (w = 2 \/ w = 0 \/ 16 <= w < 256)) as [Hr|Hr]; [|naive_solver].
  rewrite bm_get_clear by (auto; lia).
  destruct (Z.eqb_spec v w) as [<-|]; [|naive_solver].
  split; [|naive_solver]. intros Hin. rewrite Forall_forall in HF.
  destruct (outranks_asym v v); auto.
Qed.

(** ** Searching the bitmaps *)

Lemma log2_top x : uint 64 x -> x <> 0 ->
  0 <= Z.log2 x < 64 /\ Z.testbit x (Z.log2 x) = true /\
  (forall i, Z.log2 x < i -> Z.testbit x i = false).
Proof.
  unfold uint. intros Hx H0.
  assert (Z.log2 x < 64) by (apply Z.log2_lt_pow2; lia).
  pose proof (Z.log2_nonneg x). split; [lia|]. split.
  - apply Z.bit_log2. lia.
  - intros i Hi. apply Z.bits_above_log2; lia.
Qed.

Lemma bitmap_uint m k : bitmap_wf m -> 0 <= k < 4 -> uint 64 (aget m k).
Proof.
  intros [Hlen Hu] Hk. rewrite Forall_forall in Hu. apply Hu, aget_elem. rewrite Hlen. lia.
Qed.

(** The highest normal vector: [highest m v] says which it is. *)
Definition highest (m : list Z) (v : Z) : Prop :=
  (v = IA64_SPURIOUS_VECTOR /\ (forall w, 16 <= w < 256 -> bm_get m w = false)) \/
  (16 <= v < 256 /\ bm_get m v = true /\ (forall w, v < w < 256 -> bm_get m w = false)).

Lemma find_highest_step m k ks :
  bitmap_wf m -> 0 <= k < 4 ->
  (forall w, 64 * (k + 1) <= w < 256 -> bm_get m w = false) ->
  ((forall w, 64 * k <= w < 256 -> 16 <= w -> bm_get m w = false) ->
   highest m (find_highest_from m ks)) ->
  highest m (find_highest_from m (k :: ks)).
Proof.
  intros Hm Hk Habove Hrest. cbn [find_highest_from].
  pose proof (bitmap_uint m k Hm Hk) as Hu.
  set (active := if k =? 0 then _ else _).
  assert (Hbits : forall i, 0 <= i < 64 ->
    Z.testbit active i = bm_get m (64 * k + i) && (16 <=? 64 * k + i)).
  { intros i Hi. rewrite bm_get_word by done. subst active. change 0xffff with (Z.ones 16).
    destruct (Z.eqb_spec k 0); zbits_step; rewrite ?andb_true_r, ?andb_false_r; done || lia. }
  assert (Hua : uint 64 active).
  { subst active. destruct (k =? 0); auto with word. }
  destruct (truth active) eqn:Ht.
  - apply negb_true_iff, Z.eqb_neq in Ht. unfold clz64.
    destruct (Z.eqb_spec active 0); [done|].
    destruct (log2_top active Hua Ht) as (Hr & Htop & Hhi).
    rewrite Hbits in Htop by done. apply andb_true_iff in Htop as [Hget H16%Z.leb_le].
    right. replace (k * 64 + 63 - (63 - Z.log2 active)) with (64 * k + Z.log2 active) by lia.
    split; [lia|]. split; [done|]. intros w Hw.
    destruct (Z.le_gt_cases (64 * (k + 1)) w); [apply Habove; lia|].
    specialize (Hhi (w - 64 * k) ltac:(lia)). rewrite Hbits in Hhi by lia.
    replace (64 * k + (w - 64 * k)) with w in Hhi by lia.
    destruct (Z.leb_spec 16 w); [|lia]. by rewrite andb_true_r in Hhi.
  - apply negb_false_iff, Z.eqb_eq in Ht. apply Hrest. intros w Hw H16.
    destruct (Z.le_gt_cases (64 * (k + 1)) w); [apply Habove; lia|].
    specialize (Hbits (w - 64 * k) ltac:(lia)). rewrite Ht, Z.bits_0 in Hbits.
    replace (64 * k + (w - 64 * k)) with w in Hbits by lia.
    destruct (Z.leb_spec 16 w); [|lia]. by rewrite andb_true_r in Hbits.
Qed.

Lemma find_highest_spec m : bitmap_wf m -> highest m (sapic_find_highest_normal m).
Proof.
  intros Hm. unfold sapic_find_highest_normal.
  apply find_highest_step; [done|lia|intros; lia|intros H3].
  apply find_highest_step; [done|lia|intros; apply H3; lia|intros H2].
  apply find_highest_step; [done|lia|intros; apply H2; lia|intros H1].
  apply find_highest_step; [done|lia|intros; apply H1; lia|intros H0].
  left. split; [done|]. intros; apply H0; lia.
Qed.

(** The first vector of a bitmap in priority order, as both searches compute
    it. *)
Definition first_vector (m : list Z) : Z := default IA64_SPURIOUS_VECTOR (head (active_vectors m)).

Lemma first_vector_spec m v :
  bm_get m v = true -> (v = 2 \/ v = 0 \/ 16 <= v < 256) ->
  (forall w, bm_get m w = true -> (w = 2 \/ w = 0 \/ 16 <= w < 256) -> w = v \/ outranks v w) ->
  first_vector m = v.
Proof.
  intros Hv Hr Hmax. unfold first_vector.
  pose proof (active_sorted m) as Hs.
  assert (v ∈ active_vectors m) as Hin by (apply elem_of_active; done).
  pose proof (elem_of_active m) as Hel.
  destruct (active_vectors m) as [|w l]; [by apply not_elem_of_nil in Hin|]. cbn.
  apply StronglySorted_cons in Hs as [HF _]. rewrite Forall_forall in HF.
  destruct (Hel w) as [Hw _]. specialize (Hw ltac:(left)) as [Hw Hwr].
  destruct (Hmax w Hw Hwr) as [?|Hout]; [done|].
  apply elem_of_cons in Hin as [?|Hin]; [done|].
  exfalso. eauto using outranks_asym.
Qed.

Lemma first_vector_none m :
  (forall w, w = 2 \/ w = 0 \/ 16 <= w < 256 -> bm_get m w = false) ->
  active_vectors m = [].
Proof.
  intros Hn. pose proof (elem_of_active m) as Hel. destruct (active_vectors m) as [|v l]; [done|].
  destruct (Hel v) as [Hv _]. specialize (Hv ltac:(left)) as [Hv Hr].
  rewrite Hn in Hv; done.
Qed.

Lemma find_isr_first e :
  bitmap_wf (sapic_isr (interrupt e)) -> sapic_find_isr e = first_vector (sapic_isr (interrupt e)).
Proof.
  intros Hm. unfold sapic_find_isr. rewrite !vector_active_bm_get.
  pose proof (find_highest_spec _ Hm) as Hh.
  revert Hm Hh. generalize (sapic_isr (interrupt e)) as m. intros m Hm Hh. symmetry.
  destruct (bm_get m 2) eqn:H2.
  { apply first_vector_spec; auto. intros w _ Hw. unfold outranks, sapic_vector_priority. zcmp; lia. }
  destruct (bm_get m 0) eqn:H0.
  { apply first_vector_spec; auto. intros w Hw Hr. destruct (Z.eq_dec w 2); [congruence|].
    unfold outranks, sapic_vector_priority. zcmp; lia. }
  destruct Hh as [[-> Hn]|(Hr & Hv & Hhi)].
  - unfold first_vector. rewrite first_vector_none; [done|]. intros w [->|[->|?]]; auto.
  - apply first_vector_spec; auto. intros w Hw [->|[->|Hwr]]; [congruence..|].
    destruct (Z.le_gt_cases w (sapic_find_highest_normal m)); [|rewrite Hhi in Hw by lia; done].
    unfold outranks, sapic_vector_priority. zcmp; lia.
Qed.

(** ** Acceptance *)

Lemma first_vector_below m v :
  (v = 2 \/ v = 0 \/ 16 <= v < 256) ->
  sapic_vector_priority (first_vector m) < sapic_vector_priority v <->
  Forall (outranks v) (active_vectors m).
Proof.
  intros Hv. unfold first_vector. pose proof (active_sorted m) as Hs.
  destruct (active_vectors m) as [|w l]; cbn.
  - split; [constructor|]. intros _. unfold sapic_vector_priority, IA64_SPURIOUS_VECTOR. zcmp; lia.
  - apply StronglySorted_cons in Hs as [HF _].
    rewrite Forall_cons. change (outranks v w /\ Forall (outranks v) l) with
      (sapic_vector_priority w < sapic_vector_priority v /\ Forall (outranks v) l).
    split; [|tauto]. intros Hw. split; [done|].
    eapply Forall_impl; [exact HF|]. unfold outranks. cbn beta. lia.
Qed.

Lemma tpr_allows_bool tpr v :
  uint 64 tpr -> (v = 0 \/ 16 <= v < 256) ->
  (if v =? 0 then negb (truth (tpr .& IA64_TPR_MMI))
   else negb (truth (tpr .& IA64_TPR_MMI)) &&
        ((tpr .& IA64_TPR_MIC_MASK) >>> 4 <? u64 (sapic_vector_priority_class v))) = true <->
  tpr_allows tpr v.
Proof.
  intros Hu Hv. unfold tpr_allows.
  replace (truth (tpr .& IA64_TPR_MMI)) with (Z.testbit tpr 16)
    by (symmetry; apply (truth_land_pow2 tpr 16); lia).
  replace ((tpr .& IA64_TPR_MIC_MASK) >>> 4) with (tpr / 16 mod 16).
  2: { change IA64_TPR_MIC_MASK with (Z.ones 4 <<< 4). change 16 with (2 ^ 4).
       rewrite <- Z.shiftr_div_pow2 by lia. change ((tpr >>> 4) mod 2 ^ 4) with (wrap 4 (tpr >>> 4)).
       zbits. }
  unfold sapic_vector_priority_class.
  destruct (Z.testbit tpr 16); cbn [negb andb].
  - destruct (v =? 0); split; try done; intros [->|[? _]]; done || lia.
  - destruct (Z.eqb_spec v 0) as [->|]; [intuition lia|].
    destruct (Z.leb_spec 16 v); [|lia]. rewrite Z.shiftr_div_pow2 by lia. change (2 ^ 4) with 16.
    rewrite wrap_small by (split; [apply Z.div_pos; lia|];
      apply Z.le_lt_trans with v; [apply Z.div_le_upper_bound; lia|lia]).
    rewrite Z.ltb_lt. intuition lia.
Qed.

Lemma unmasked_spec e v :
  bitmap_wf (sapic_isr (interrupt e)) -> uint 64 (aget (cr e) IA64_CR_SAPIC_TPR) ->
  (v = 2 \/ v = 0 \/ 16 <= v < 256) ->
  sapic_vector_unmasked e v = true <->
  tpr_allows (aget (cr e) IA64_CR_SAPIC_TPR) v /\ Forall (outranks v) (in_service e).
Proof.
  intros Hm Ht Hv. unfold sapic_vector_unmasked, in_service.
  rewrite <- first_vector_below, find_isr_first by done. cbv zeta.
  destruct (Z.leb_spec (sapic_vector_priority v)
    (sapic_vector_priority (first_vector (sapic_isr (interrupt e))))).
  { split; [done|]. intros [_ ?]. lia. }
  destruct (Z.eqb_spec v 2) as [->|].
  { split; [|done]. intros _. split; [left; done|lia]. }
  rewrite tpr_allows_bool by (done || lia). intuition lia.
Qed.

Lemma tpr_allows_mono tpr v w :
  16 <= w <= v -> tpr_allows tpr w -> tpr_allows tpr v.
Proof.
  intros Hvw [->|[? [->|?]]]; [lia..|]. right. split; [done|]. right.
  pose proof (Z.div_le_mono w v 16). lia.
Qed.

(** What the model assumes of the interrupt state's types. *)
Definition sapic_wf (e : CPUIA64State) : Prop :=
  bitmap_wf (sapic_irr (interrupt e)) /\ bitmap_wf (sapic_isr (interrupt e)) /\
  uint 64 (aget (cr e) IA64_CR_SAPIC_TPR).

Lemma find_irr_spec e :
  sapic_wf e ->
  (sapic_find_irr e <> IA64_SPURIOUS_VECTOR -> acceptable e (sapic_find_irr e)) /\
  (forall w, acceptable e w -> sapic_find_irr e = w \/ outranks (sapic_find_irr e) w).
Proof.
  intros (Hirr & Hisr & Ht). unfold sapic_find_irr, acceptable, requested.
  rewrite !vector_active_bm_get.
  pose proof (find_highest_spec _ Hirr) as Hh.
  pose proof (fun w Hw => unmasked_spec e w Hisr Ht Hw) as Hum.
  setoid_rewrite elem_of_active.
  destruct (bm_get (sapic_irr (interrupt e)) 2 && sapic_vector_unmasked e 2) eqn:E2.
  { apply andb_true_iff in E2 as [? ?%Hum]; [|lia]. split; [tauto|].
    intros w [[_ Hw] _]. unfold outranks, sapic_vector_priority. zcmp; lia. }
  destruct (bm_get (sapic_irr (interrupt e)) 0 && sapic_vector_unmasked e 0) eqn:E0.
  { apply andb_true_iff in E0 as [? ?%Hum]; [|lia]. split; [tauto|].
    intros w [[Hg Hw] Ha%Hum]; [|done].
    destruct (Z.eq_dec w 2) as [->|]; [rewrite Hg, Ha in E2; done|].
    unfold outranks, sapic_vector_priority. zcmp; lia. }
  revert Hh. generalize (sapic_find_highest_normal (sapic_irr (interrupt e))) as v.
  intros v Hv.
  assert (Hmax : forall w, bm_get (sapic_irr (interrupt e)) w = true ->
    (w = 2 \/ w = 0 \/ 16 <= w < 256) -> sapic_vector_unmasked e w = true ->
    16 <= w <= v /\ v < 256 /\ bm_get (sapic_irr (interrupt e)) v = true).
  { intros w Hg Hw Hu.
    destruct Hw as [->|[->|Hw]]; [rewrite Hg, Hu in E2; done|rewrite Hg, Hu in E0; done|].
    destruct Hv as [[_ Hn]|(? & ? & Hhi)]; [rewrite Hn in Hg by lia; done|].
    destruct (Z.le_gt_cases w v); [split_and!; lia || done|]. rewrite Hhi in Hg by lia. done. }
  destruct (negb (v =? IA64_SPURIOUS_VECTOR) && sapic_vector_unmasked e v) eqn:Ev.
  - apply andb_true_iff in Ev as [Hns Hu]. apply negb_true_iff, Z.eqb_neq in Hns.
    destruct Hv as [[? _]|(Hr & Hg & _)]; [done|]. apply Hum in Hu; [|lia]. split; [tauto|].
    intros w [[Hgw Hw] Ha%Hum]; [|done]. destruct (Hmax w Hgw Hw Ha) as [? _].
    unfold outranks, sapic_vector_priority. zcmp; lia.
  - split; [done|]. intros w [[Hgw Hw] Ha]. exfalso.
    destruct (Hmax w Hgw Hw) as (? & ? & ?); [apply Hum; done|].
    destruct Ha as [Htw HF]. apply andb_false_iff in Ev as [Hs|Hu].
    + apply negb_false_iff, Z.eqb_eq in Hs. unfold IA64_SPURIOUS_VECTOR in Hs. lia.
    + apply not_true_iff_false in Hu. apply Hu, Hum; [lia|].
      split; [eauto using tpr_allows_mono|].
      eapply Forall_impl; [exact HF|]. unfold outranks, sapic_vector_priority. cbn beta.
      intros x. zcmp; lia.
Qed.

Lemma bitmap_wf_set m v : bitmap_wf m -> bitmap_wf (bm_set m v).
Proof.
  intros [Hlen Hu]. split; [by rewrite bm_set_length|]. apply Forall_aset; [done|].
  pose proof (Z.mod_pos_bound v 64 ltac:(lia)). apply uint_lor; [lia|apply Forall_aget; done || uint_const|].
  apply (uint_shiftl 64 1); lia || (split; lia).
Qed.

Lemma bitmap_wf_clear m v : bitmap_wf m -> bitmap_wf (bm_clear m v).
Proof.
  intros [Hlen Hu]. split; [by rewrite bm_clear_length|]. apply Forall_aset; [done|].
  apply uint_land_l; [lia|apply Forall_aget; done || uint_const].
Qed.

(** ** The request line *)

(** All that the decision to request an interruption depends on. *)
Definition sapic_view (e : CPUIA64State) :=
  (sapic_irr (interrupt e), sapic_isr (interrupt e), sapic_pmi_pending (interrupt e),
   sapic_init_pending (interrupt e), psr e, cr e, pal_mca_pending (pal e), pal_pmi_entry (pal e)).

Definition wants_interrupt (e : CPUIA64State) : bool :=
  sapic_special e || negb (sapic_find_irr e =? IA64_SPURIOUS_VECTOR).

(** [CPU_INTERRUPT_HARD] is set exactly when something can be delivered. *)
Definition hard_consistent (cpu : IA64CPU) : Prop :=
  interrupt_hard cpu = wants_interrupt (env cpu).

Lemma wants_view e e' : sapic_view e = sapic_view e' -> wants_interrupt e = wants_interrupt e'.
Proof.
  unfold sapic_view. intros [= Hirr Hisr Hpmi Hinit Hpsr Hcr Hmca Hentry].
  unfold wants_interrupt, sapic_special, sapic_find_irr, sapic_vector_unmasked, sapic_find_isr.
  by rewrite Hirr, Hisr, Hpmi, Hinit, Hpsr, Hcr, Hmca, ?Hentry.
Qed.

Lemma wf_view e e' : sapic_view e = sapic_view e' -> sapic_wf e' -> sapic_wf e.
Proof. unfold sapic_view, sapic_wf. intros [= -> -> _ _ _ -> _ _]. done. Qed.

Definition sapic_inv (cpu : IA64CPU) : Prop := sapic_wf (env cpu) /\ hard_consistent cpu.

Lemma env_update cpu : env (ia64_sapic_update_interrupt cpu) = env cpu.
Proof. unfold ia64_sapic_update_interrupt. by case_match. Qed.

Lemma update_inv cpu : sapic_wf (env cpu) -> sapic_inv (ia64_sapic_update_interrupt cpu).
Proof.
  intros Hwf. split; [by rewrite env_update|].
  unfold hard_consistent. rewrite env_update. unfold ia64_sapic_update_interrupt.
  fold (wants_interrupt (env cpu)). by destruct (wants_interrupt (env cpu)).
Qed.

Lemma view_inv cpu cpu' :
  sapic_view (env cpu') = sapic_view (env cpu) -> interrupt_hard cpu' = interrupt_hard cpu ->
  sapic_inv cpu -> sapic_inv cpu'.
Proof.
  intros Hv Hh [Hwf Hc]. split; [eauto using wf_view|].
  unfold hard_consistent. by rewrite Hh, Hc, (wants_view _ _ Hv).
Qed.

Lemma accept_inv cpu : sapic_inv cpu -> sapic_inv (ia64_sapic_accept cpu).2.
Proof.
  intros [(Hirr & Hisr & Ht) Hc]. unfold ia64_sapic_accept.
  destruct (negb _); [|done]. apply update_inv.
  split_and!; cbn; auto using bitmap_wf_set, bitmap_wf_clear.
Qed.

Lemma eoi_inv cpu : sapic_inv cpu -> sapic_inv (ia64_sapic_eoi cpu).
Proof.
  intros [(Hirr & Hisr & Ht) Hc]. unfold ia64_sapic_eoi. apply update_inv.
  case_match; split_and!; cbn; auto using bitmap_wf_clear.
Qed.

Lemma accept_pmi_inv cpu : sapic_inv cpu -> sapic_inv (ia64_sapic_accept_pmi cpu).2.
Proof.
  intros [Hwf Hc]. unfold ia64_sapic_accept_pmi. case_match; [done|]. by apply update_inv.
Qed.

Lemma accept_init_inv cpu : sapic_inv cpu -> sapic_inv (ia64_sapic_accept_init cpu).2.
Proof.
  intros [Hwf Hc]. unfold ia64_sapic_accept_init. case_match; [done|]. by apply update_inv.
Qed.

Lemma set_irq_work_inv cpu v : sapic_inv cpu -> sapic_inv (ia64_sapic_set_irq_work cpu v).
Proof.
  intros [(Hirr & Hisr & Ht) Hc]. unfold ia64_sapic_set_irq_work. apply update_inv.
  split_and!; cbn; auto using bitmap_wf_set.
Qed.

Lemma set_special_work_inv cpu d v :
  sapic_inv cpu -> sapic_inv (ia64_sapic_set_special_work cpu d v).
Proof.
  intros [Hwf Hc]. unfold ia64_sapic_set_special_work. apply update_inv.
  case_decide; [done|]. unfold sapic_wf. cbn. by case_match.
Qed.

Lemma set_irq_inv cpu v : sapic_inv cpu -> sapic_inv (ia64_sapic_set_irq cpu v).
Proof.
  intros H. unfold ia64_sapic_set_irq. case_match; [by apply set_irq_work_inv|].
  by apply (view_inv cpu).
Qed.

Lemma deliver_to_inv cpu d v : sapic_inv cpu -> sapic_inv (sapic_deliver_to cpu d v).
Proof.
  intros H. unfold sapic_deliver_to.
  assert (Hs : sapic_inv (if is_self cpu then ia64_sapic_set_special_work cpu d v
                          else async_run_on_cpu cpu (SetSpecialWork d v))).
  { destruct (is_self cpu); [by apply set_special_work_inv|by apply (view_inv cpu)]. }
  pose proof (set_irq_inv cpu v H). by destruct d.
Qed.

Create HintDb sapic.
#[export] Hint Resolve accept_inv eoi_inv accept_pmi_inv accept_init_inv set_irq_work_inv
  set_special_work_inv set_irq_inv deliver_to_inv update_inv : sapic.

(** Writes of the registers that mask interruptions. *)
Lemma write_tpr_inv cpu v : sapic_inv cpu -> sapic_inv (write_cr_tpr cpu v).
Proof.
  intros [(Hirr & Hisr & Ht) _]. apply update_inv. split_and!; cbn; [done..|].
  destruct (Z.ltb_spec IA64_CR_SAPIC_TPR (alen (cr (env cpu)))).
  - rewrite aget_aset_eq by (split; [done|lia]). apply uint_land_r; [lia|uint_const].
  - by rewrite aset_out by lia.
Qed.

Lemma write_lid_inv cpu v : sapic_inv cpu -> sapic_inv (write_cr_lid cpu v).
Proof.
  intros [(Hirr & Hisr & Ht) Hc].
  assert (Htpr : aget (cr (env (write_cr_lid cpu v))) IA64_CR_SAPIC_TPR =
    aget (cr (env cpu)) IA64_CR_SAPIC_TPR) by (cbn; by apply aget_aset_ne).
  split; [split_and!; [done..|by rewrite Htpr]|]. unfold hard_consistent.
  transitivity (wants_interrupt (env cpu)); [done|].
  unfold wants_interrupt, sapic_special, sapic_find_irr, sapic_vector_unmasked, sapic_find_isr.
  rewrite Htpr. done.
Qed.

Lemma swap_view e :
  sapic_view (ia64_swap_banked_gr e) = sapic_view e /\
  psr_ic_inflight (exception_state (ia64_swap_banked_gr e)) = psr_ic_inflight (exception_state e).
Proof.
  unfold ia64_swap_banked_gr.
  apply (for_range_inv (fun s => sapic_view s = sapic_view e /\
    psr_ic_inflight (exception_state s) = psr_ic_inflight (exception_state e))); [done|].
  intros i s _ H. cbv zeta. unfold ia64_gr_nat_set. repeat case_match; exact H.
Qed.

Lemma psr_bit_kept p v m k :
  0 <= k -> Z.testbit m k = true -> truth ((p .^ v) .& m) = false ->
  truth (v .& 2 ^ k) = truth (p .& 2 ^ k).
Proof.
  intros Hk Hm H. rewrite !truth_land_pow2 by done. apply negb_false_iff, Z.eqb_eq in H.
  assert (Hb : Z.testbit ((p .^ v) .& m) k = false) by (rewrite H; apply Z.bits_0).
  rewrite Z.land_spec, Z.lxor_spec, Hm, andb_true_r in Hb.
  by destruct (Z.testbit p k), (Z.testbit v k).
Qed.

(** The parts of the state that [ia64_set_psr] prepares before it writes the
    register do not matter to the request line. *)
Lemma set_psr_shape cpu v :
  exists c, sapic_view (env c) = sapic_view (env cpu) /\ interrupt_hard c = interrupt_hard cpu /\
    ia64_set_psr cpu v =
      if truth ((psr (env cpu) .^ v) .& (IA64_PSR_I .| IA64_PSR_IC .| IA64_PSR_MC .| IA64_PSR_IS))
      then ia64_sapic_update_interrupt (c <| env; psr := v |>) else c <| env; psr := v |>.
Proof.
  unfold ia64_set_psr. cbv zeta.
  set (c1 := if truth ((psr (env cpu) .^ v) .& IA64_PSR_IC) then _ else cpu).
  assert (H1 : sapic_view (env c1) = sapic_view (env cpu) /\
    interrupt_hard c1 = interrupt_hard cpu) by (subst c1; by case_match).
  clearbody c1.
  set (c2 := if negb (truth (v .& IA64_PSR_I)) || _ then _ else _).
  assert (H2 : sapic_view (env c2) = sapic_view (env cpu) /\
    interrupt_hard c2 = interrupt_hard cpu) by (subst c2; repeat case_match; exact H1).
  clearbody c2.
  set (c3 := if truth ((psr (env cpu) .^ v) .& IA64_PSR_BN) then _ else c2).
  exists c3. split_and!; [| |done]; subst c3; case_match; try apply H2.
  etransitivity; [exact (proj1 (swap_view (env c2)))|apply H2].
Qed.

Lemma set_psr_inv cpu v : sapic_inv cpu -> sapic_inv (ia64_set_psr cpu v).
Proof.
  intros [Hwf Hc]. destruct (set_psr_shape cpu v) as (c & Hv & Hh & ->).
  assert (Hwf3 : sapic_wf (env (c <| env; psr := v |>))) by (exact (wf_view _ _ Hv Hwf)).
  destruct (truth _) eqn:E; [by apply update_inv|].
  split; [done|]. unfold hard_consistent. transitivity (wants_interrupt (env cpu)); [by rewrite <- Hc|].
  unfold sapic_view in Hv. injection Hv as Hirr Hisr Hpmi Hinit _ Hcr Hmca Hentry.
  unfold wants_interrupt, sapic_special, sapic_find_irr, sapic_vector_unmasked, sapic_find_isr. cbn.
  rewrite Hirr, Hisr, Hpmi, Hinit, Hcr, Hmca, Hentry.
  change IA64_PSR_MC with (2 ^ 35). change IA64_PSR_IC with (2 ^ 13).
  rewrite (fun H => psr_bit_kept (psr (env cpu)) v _ 35 ltac:(lia) H E) by reflexivity.
  rewrite (fun H => psr_bit_kept (psr (env cpu)) v _ 13 ltac:(lia) H E) by reflexivity. done.
Qed.

(** The timer operations leave the request line's inputs alone, except where
    they raise the timer vector. *)
Section timer_inv.
Context (hz : Z) (clock : nat -> Z).

Definition sapic_frame (cpu cpu' : IA64CPU) : Prop :=
  sapic_view (env cpu') = sapic_view (env cpu) /\ interrupt_hard cpu' = interrupt_hard cpu /\
  is_self cpu' = is_self cpu /\ cpu_index cpu' = cpu_index cpu.

Lemma frame_inv cpu cpu' : sapic_frame cpu cpu' -> sapic_inv cpu -> sapic_inv cpu'.
Proof. intros (Hv & Hh & _). by apply view_inv. Qed.

Lemma sync_frame cpu : sapic_frame cpu (ia64_itc_sync hz clock cpu).
Proof.
  unfold ia64_itc_sync, ia64_itc_clock_ns. cbv zeta.
  destruct (0 <? _); [|by repeat split].
  destruct (ia64_itc_ticks_for_ns _ _ _) as [ticks fraction].
  destruct (ticks <=? _); by repeat split.
Qed.

Lemma advance_frame cpu : sapic_frame cpu (ia64_itc_advance_pending_itm hz clock cpu).
Proof.
  pose proof (sync_frame cpu) as Hs. unfold ia64_itc_advance_pending_itm.
  revert Hs. generalize (ia64_itc_sync hz clock cpu) as c. intros c (? & ? & ? & ?). cbv zeta.
  destruct (_ && _); by repeat split.
Qed.

Lemma advance_inv cpu : sapic_inv cpu -> sapic_inv (ia64_itc_advance_pending_itm hz clock cpu).
Proof. apply frame_inv, advance_frame. Qed.

Lemma itm_raise_inv cpu v : sapic_inv cpu -> sapic_inv (ia64_itm_raise cpu v).
Proof.
  intros H. unfold ia64_itm_raise. cbv zeta. case_match; [done|]. case_match.
  - apply update_inv, H.
  - apply set_irq_inv. by apply (view_inv cpu).
Qed.

Lemma update_pending_inv cpu itc itm armed :
  sapic_inv cpu -> sapic_inv (ia64_itm_update_pending cpu itc itm armed).2.
Proof.
  intros H. unfold ia64_itm_update_pending. cbv zeta.
  repeat case_match; done || by apply itm_raise_inv.
Qed.

Lemma itm_update_inv cpu v : sapic_inv cpu -> sapic_inv (ia64_itm_update hz clock cpu v).
Proof.
  intros H%advance_inv. unfold ia64_itm_update. cbv zeta. revert H.
  generalize (ia64_itc_advance_pending_itm hz clock cpu) as c. intros c H.
  pose proof (update_pending_inv c (ar_itc (env c)) v
    (itm_armed (interrupt (env cpu)) && (itm_armed_value (interrupt (env cpu)) =? v)) H) as Hp.
  destruct (ia64_itm_update_pending _ _ _ _) as [done c']. cbn in Hp. case_match.
  - apply advance_inv. by apply (view_inv c').
  - by apply (view_inv c').
Qed.

Lemma timer_work_inv cpu : sapic_inv cpu -> sapic_inv (ia64_itm_timer_work hz clock cpu).
Proof.
  intros H. unfold ia64_itm_timer_work. case_match; [done|]. cbv zeta.
  set (c := ia64_itc_advance_pending_itm _ _ _).
  assert (Hc : sapic_inv c) by (apply advance_inv; by apply (view_inv cpu)).
  pose proof (update_pending_inv c (ar_itc (env c))
    (aget (cr (env (cpu <| env; interrupt ::= fun i => i <| itm_armed := false |> |>))) IA64_CR_ITM)
    (itm_armed (interrupt (env cpu))) Hc) as Hp.
  destruct (ia64_itm_update_pending _ _ _ _) as [done c']. cbn in Hp. case_match; [done|].
  by apply itm_update_inv.
Qed.

Lemma timer_cb_inv cpu : sapic_inv cpu -> sapic_inv (ia64_itm_timer_cb hz clock cpu).
Proof.
  intros H. unfold ia64_itm_timer_cb. case_match; [by apply timer_work_inv|].
  by apply (view_inv cpu).
Qed.

Lemma check_timer_inv cpu : sapic_inv cpu -> sapic_inv (ia64_itc_check_timer hz clock cpu).
Proof.
  intros H%advance_inv. unfold ia64_itc_check_timer. cbv zeta. apply advance_inv, update_pending_inv.
  case_match; [by eapply view_inv|done].
Qed.

Lemma enter_halt_inv cpu : sapic_inv cpu -> sapic_inv (ia64_itc_enter_halt hz clock cpu).
Proof. intros H. by apply itm_update_inv, advance_inv. Qed.

Lemma itc_write_inv cpu v : sapic_inv cpu -> sapic_inv (ia64_itc_write clock cpu v).
Proof. intros H. by apply (view_inv cpu). Qed.

Lemma update_cmc_inv cpu : sapic_inv cpu -> sapic_inv (ia64_ras_update_cmc cpu).
Proof.
  intros H. unfold ia64_ras_update_cmc. cbv zeta. case_match; [done|]. apply set_irq_inv. by apply (view_inv cpu).
Qed.

Lemma record_work_inv cpu v st a i : sapic_inv cpu -> sapic_inv (ia64_cpu_record_machine_check_work cpu v st a i).
Proof.
  intros H. unfold ia64_cpu_record_machine_check_work. cbv zeta. case_match; [apply update_cmc_inv|];
    apply (view_inv cpu); try done; unfold sapic_view; cbn; by case_match.
Qed.

Lemma request_work_inv cpu e g r v : sapic_inv cpu -> sapic_inv (ia64_cpu_request_mca_work cpu e g r v).
Proof.
  intros H. unfold ia64_cpu_request_mca_work. cbv zeta. case_match; [|done]. apply update_inv. apply H.
Qed.

Lemma init_entry_work_inv cpu e g : sapic_inv cpu -> sapic_inv (ia64_cpu_set_init_entry_work cpu e g).
Proof. by apply view_inv. Qed.

Hint Resolve update_cmc_inv record_work_inv request_work_inv init_entry_work_inv : sapic.

Lemma run_work_inv cpu : sapic_inv cpu -> sapic_inv (run_work hz clock cpu).
Proof.
  intros H. unfold run_work. destruct (work_queue cpu) as [|w q]; [done|]. cbv zeta.
  assert (Hc : sapic_inv (cpu <| work_queue := q |>)) by (by apply (view_inv cpu)).
  destruct w; auto using timer_work_inv with sapic.
Qed.

Hint Resolve write_tpr_inv write_lid_inv set_psr_inv advance_inv itc_write_inv itm_update_inv check_timer_inv enter_halt_inv
  timer_cb_inv run_work_inv : sapic.

(** One operation on a processor, by the processor itself or by another
    thread. *)
Inductive sapic_step : IA64CPU -> IA64CPU -> Prop :=
  | step_ivr cpu : sapic_step cpu (ia64_sapic_get_ivr cpu).2
  | step_eoi cpu : sapic_step cpu (ia64_sapic_eoi cpu)
  | step_pmi cpu : sapic_step cpu (ia64_sapic_accept_pmi cpu).2
  | step_init cpu : sapic_step cpu (ia64_sapic_accept_init cpu).2
  | step_xtp cpu x : sapic_step cpu (ia64_sapic_set_xtp cpu x)
  | step_set_init cpu r : sapic_step cpu (ia64_sapic_set_init cpu r)
  | step_deliver cpu d v : sapic_step cpu (sapic_deliver_to cpu d v)
  | step_update cpu : sapic_step cpu (ia64_sapic_update_interrupt cpu)
  | step_tpr cpu v : sapic_step cpu (write_cr_tpr cpu v)
  | step_lid cpu v : sapic_step cpu (write_cr_lid cpu v)
  | step_psr cpu v : sapic_step cpu (ia64_set_psr cpu v)
  | step_itc_read cpu : sapic_step cpu (ia64_itc_read hz clock cpu).2
  | step_itc_write cpu v : sapic_step cpu (ia64_itc_write clock cpu v)
  | step_itm_update cpu v : sapic_step cpu (ia64_itm_update hz clock cpu v)
  | step_check_timer cpu : sapic_step cpu (ia64_itc_check_timer hz clock cpu)
  | step_halt cpu : sapic_step cpu (ia64_itc_enter_halt hz clock cpu)
  | step_timer cpu : sapic_step cpu (ia64_itm_timer_cb hz clock cpu)
  | step_cmc cpu : sapic_step cpu (ia64_ras_update_cmc cpu)
  | step_machine_check cpu v st a i : sapic_step cpu (ia64_cpu_record_machine_check cpu v st a i)
  | step_request_mca cpu e g r v : sapic_step cpu (ia64_cpu_request_mca cpu e g r v)
  | step_init_entry cpu e g : sapic_step cpu (ia64_cpu_set_init_entry cpu e g)
  | step_work cpu : sapic_step cpu (run_work hz clock cpu).

Lemma step_inv cpu cpu' : sapic_step cpu cpu' -> sapic_inv cpu -> sapic_inv cpu'.
Proof.
  intros Hs Hi. destruct Hs; auto with sapic.
  - unfold ia64_sapic_set_init. case_match; [by apply set_special_work_inv|].
    by apply (view_inv cpu).
  - apply update_inv, Hi.
  - by apply advance_inv.
  - unfold ia64_cpu_record_machine_check. case_match; [done|]. case_match; [by apply record_work_inv|]. by apply (view_inv cpu).
  - unfold ia64_cpu_request_mca. case_match; [done|]. case_match; [by apply request_work_inv|]. by apply (view_inv cpu).
  - unfold ia64_cpu_set_init_entry. case_match; [by apply init_entry_work_inv|]. by apply (view_inv cpu).
Qed.
End timer_inv.

Lemma rtc_inv hz clock cpu0 cpu :
  rtc (sapic_step hz clock) cpu0 cpu -> sapic_inv cpu0 -> sapic_inv cpu.
Proof. induction 1; eauto using step_inv. Qed.

(** Something can be taken exactly when the search finds it. *)
Lemma find_irr_acceptable e :
  sapic_wf e -> sapic_find_irr e <> IA64_SPURIOUS_VECTOR <-> exists v, acceptable e v.
Proof.
  intros Hwf. destruct (find_irr_spec e Hwf) as [Ha Hmax]. split; [eauto|].
  intros [v Hv]. pose proof Hv as [Hin _]. apply elem_of_active in Hin as [_ Hr].
  destruct (Hmax v Hv) as [->|Ho].
  - unfold IA64_SPURIOUS_VECTOR. lia.
  - intros E. rewrite E in Ho. revert Ho.
    unfold outranks, sapic_vector_priority, IA64_SPURIOUS_VECTOR. zcmp; lia.
Qed.

Lemma nmi_acceptable e v :
  acceptable e v -> bm_get (sapic_irr (interrupt e)) 2 = true -> acceptable e 2.
Proof.
  intros (Hin & _ & HF) Hn. split_and!; [apply elem_of_active; lia || auto|by left|].
  apply elem_of_active in Hin as [_ Hr]. apply Forall_forall. intros w Hw.
  rewrite Forall_forall in HF. specialize (HF w Hw). apply elem_of_active in Hw as [_ Hw].
  revert HF. unfold outranks, sapic_vector_priority. zcmp; lia.
Qed.

(** C16. In every state that the processor and the other threads can reach, the
    [CPU_INTERRUPT_HARD] request is up exactly when a machine check, an INIT, a
    PMI or some external vector can be accepted, and [ia64_cpu_has_work] is true
    exactly when one of the first three can be, or some acceptable external
    vector is the NMI, finds [PSR.i] set, or finds the processor in a halt that
    interrupts end ([pal_halt_wake]).  Waking is not yet delivery: the interrupt
    check of Exception has further conditions. *)
Theorem interrupt_line_exact hz clock cpu0 cpu :
  sapic_inv cpu0 -> rtc (sapic_step hz clock) cpu0 cpu ->
  (interrupt_hard cpu = true <->
   sapic_special (env cpu) = true \/ exists v, acceptable (env cpu) v) /\
  (ia64_cpu_has_work cpu = true <->
   sapic_special (env cpu) = true \/
   exists v, acceptable (env cpu) v /\
     (v = 2 \/ truth (psr (env cpu) .& IA64_PSR_I) = true \/
      (halted cpu = true /\ pal_halt_wake (interrupt (env cpu)) = true))).
Proof.
  intros H0 Hr. destruct (rtc_inv _ _ _ _ Hr H0) as [Hwf Hc].
  pose proof (find_irr_acceptable _ Hwf) as Hfa. unfold hard_consistent, wants_interrupt in Hc.
  assert (Hline : interrupt_hard cpu = true <->
    sapic_special (env cpu) = true \/ exists v, acceptable (env cpu) v).
  { rewrite Hc, orb_true_iff, negb_true_iff, Z.eqb_neq, Hfa. done. }
  split; [done|]. unfold ia64_cpu_has_work.
  change (truth (aget (sapic_irr (interrupt (env cpu))) 0 .& (1 <<< 2)))
    with (sapic_vector_active (sapic_irr (interrupt (env cpu))) 2).
  rewrite vector_active_bm_get, andb_true_iff, Hline.
  set (nmi := bm_get _ 2).
  match goal with |- context [((?x || nmi) || ?a || ?b || ?c)] => set (ena := x);
    assert (Hs : a || b || c = sapic_special (env cpu)) by (unfold sapic_special; btauto) end.
  rewrite <- !orb_assoc, (orb_assoc _ _ (_ && _)), Hs, !orb_true_iff.
  assert (Hena : ena = true <-> truth (psr (env cpu) .& IA64_PSR_I) = true \/
    (halted cpu = true /\ pal_halt_wake (interrupt (env cpu)) = true)).
  { subst ena. rewrite orb_true_iff, andb_true_iff. done. }
  clearbody ena. split.
  - intros [[?|[v Hv]] [He|[Hn|?]]]; auto; right.
    + exists v. split; [done|]. right. by apply Hena.
    + exists 2. split; [by eapply nmi_acceptable|by left].
  - intros [?|(v & Hv & Hw)]; [auto|]. split; [eauto|]. destruct Hw as [->|Hw].
    + right; left. destruct Hv as [Hin _]. by apply elem_of_active in Hin as [Hin _].
    + left. by apply Hena.
Qed.

(** A quiet processor, before any request. *)
Definition quiet_cpu : IA64CPU := zero_cpu zero_env true.

Lemma quiet_inv : sapic_inv quiet_cpu.
Proof.
  split; [|vm_compute; reflexivity].
  split_and!; [split; [reflexivity|apply all_uint; vm_compute; reflexivity]..|uint_const].
Qed.

Lemma interrupt_line_exact_witness :
  interrupt_hard (ia64_sapic_set_irq quiet_cpu 0x30) = true <->
  sapic_special (env (ia64_sapic_set_irq quiet_cpu 0x30)) = true \/
  exists v, acceptable (env (ia64_sapic_set_irq quiet_cpu 0x30)) v.
Proof.
  refine (proj1 (interrupt_line_exact 1000000000 (fun _ => 0) quiet_cpu _ _ _)).
  - exact quiet_inv.
  - apply rtc_once. exact (step_deliver _ _ quiet_cpu IA64_SAPIC_DELIVERY_INT 0x30).
Defined.

(** ** In-service nesting *)

Lemma requested_bm_clear m v l :
  bitmap_wf m -> l = filter (fun w => w <> v) (active_vectors m) -> 0 <= v < 256 ->
  active_vectors (bm_clear m v) = l.
Proof.
  intros [Hlen Hu] -> Hv. apply active_unique; [apply sorted_filter, active_sorted|].
  intros w. rewrite list_elem_of_filter, elem_of_active.
  destruct (decide (w = 2 \/ w = 0 \/ 16 <= w < 256)) as [Hr|Hr]; [|tauto].
  rewrite bm_get_clear by lia. destruct (Z.eqb_spec v w) as [->|]; cbn [negb andb]; naive_solver.
Qed.

Lemma accept_spec cpu :
  sapic_wf (env cpu) ->
  let v := (ia64_sapic_accept cpu).1 in
  let cpu' := (ia64_sapic_accept cpu).2 in
  (v = IA64_SPURIOUS_VECTOR /\ cpu' = cpu /\ forall w, ~ acceptable (env cpu) w) \/
  (acceptable (env cpu) v /\
   (forall w, acceptable (env cpu) w -> w = v \/ outranks v w) /\
   requested (env cpu') = filter (fun w => w <> v) (requested (env cpu)) /\
   in_service (env cpu') = v :: in_service (env cpu)).
Proof.
  intros Hwf. destruct (find_irr_spec _ Hwf) as [Ha Hmax].
  pose proof (find_irr_acceptable _ Hwf) as Hfa.
  unfold ia64_sapic_accept. cbv zeta.
  destruct (Z.eqb_spec (sapic_find_irr (env cpu)) IA64_SPURIOUS_VECTOR) as [E|E]; cbn [negb fst snd].
  { left. split_and!; [done|done|]. intros w Hw. apply Hfa; eauto. }
  right. destruct Hwf as (Hirr & Hisr & _). specialize (Ha E).
  revert Ha Hmax. generalize (sapic_find_irr (env cpu)) as v. intros v Ha Hmax.
  pose proof Ha as (Hin & _ & HF). apply elem_of_active in Hin as [_ Hr].
  split_and!; [done| | |].
  - intros w Hw. destruct (Hmax w Hw); auto.
  - unfold requested. rewrite env_update. cbn. apply requested_bm_clear; [done|done|lia].
  - unfold in_service. rewrite env_update. cbn.
    apply active_bm_set; [done|by apply elem_of_vectors|done].
Qed.

(** C17. Reading IVR refines the abstract local SAPIC: when no request is
    acceptable it returns the spurious vector and changes nothing; otherwise it
    returns the highest-priority acceptable request, takes it out of the
    requests and pushes it on the stack of vectors in service. *)
Theorem get_ivr_refines cpu :
  sapic_wf (env cpu) ->
  let v := (ia64_sapic_get_ivr cpu).1 in
  let cpu' := (ia64_sapic_get_ivr cpu).2 in
  (v = IA64_SPURIOUS_VECTOR /\ cpu' = cpu /\ forall w, ~ acceptable (env cpu) w) \/
  (acceptable (env cpu) v /\
   (forall w, acceptable (env cpu) w -> w = v \/ outranks v w) /\
   requested (env cpu') = filter (fun w => w <> v) (requested (env cpu)) /\
   in_service (env cpu') = v :: in_service (env cpu)).
Proof. apply accept_spec. Qed.

Lemma get_ivr_refines_witness :
  let cpu := ia64_sapic_set_irq (ia64_sapic_set_irq quiet_cpu 0x30) 0x41 in
  sapic_wf (env cpu) /\ (ia64_sapic_get_ivr cpu).1 = 0x41 /\
  in_service (env (ia64_sapic_get_ivr cpu).2) = [0x41].
Proof.
  cbv zeta.
  assert (Hwf : sapic_wf (env (ia64_sapic_set_irq (ia64_sapic_set_irq quiet_cpu 0x30) 0x41)))
    by (apply set_irq_inv, set_irq_inv, quiet_inv).
  split_and!; [exact Hwf|vm_compute; reflexivity|].
  destruct (get_ivr_refines _ Hwf) as [[H _]|(_ & _ & _ & H)];
    [vm_compute in H; discriminate|rewrite H; vm_compute; reflexivity].
Defined.

Lemma eoi_spec cpu :
  sapic_wf (env cpu) ->
  in_service (env (ia64_sapic_eoi cpu)) = tail (in_service (env cpu)) /\
  requested (env (ia64_sapic_eoi cpu)) = requested (env cpu).
Proof.
  intros (Hirr & Hisr & _). unfold ia64_sapic_eoi. rewrite find_isr_first by done.
  unfold in_service, requested. rewrite env_update.
  pose proof (elem_of_active (sapic_isr (interrupt (env cpu)))) as Hel.
  pose proof (fun v l => active_bm_clear (sapic_isr (interrupt (env cpu))) v l Hisr) as Hcl.
  unfold first_vector.
  destruct (active_vectors (sapic_isr (interrupt (env cpu)))) as [|v l] eqn:E; cbn [head default tail].
  - by rewrite <- E.
  - assert (v <> IA64_SPURIOUS_VECTOR).
    { destruct (Hel v) as [Hv _]. specialize (Hv ltac:(left)) as [_ Hr].
      unfold IA64_SPURIOUS_VECTOR. lia. }
    rewrite (proj2 (Z.eqb_neq v _)) by done. cbn. split; [by apply Hcl|done].
Qed.

(** A stretch of execution in which every vector taken is ended: requests
    arrive at any time, and a handler may itself be interrupted. *)
Inductive handled : IA64CPU -> IA64CPU -> Prop :=
  | handled_nil cpu : handled cpu cpu
  | handled_raise cpu cpu' v : handled cpu cpu' -> handled cpu (ia64_sapic_set_irq_work cpu' v)
  | handled_tpr cpu cpu' v : handled cpu cpu' -> handled cpu (write_cr_tpr cpu' v)
  | handled_psr cpu cpu' v : handled cpu cpu' -> handled cpu (ia64_set_psr cpu' v)
  | handled_spurious cpu cpu' :
      handled cpu cpu' -> (ia64_sapic_get_ivr cpu').1 = IA64_SPURIOUS_VECTOR ->
      handled cpu (ia64_sapic_get_ivr cpu').2
  | handled_serve cpu cpu1 cpu2 :
      handled cpu cpu1 -> (ia64_sapic_get_ivr cpu1).1 <> IA64_SPURIOUS_VECTOR ->
      handled (ia64_sapic_get_ivr cpu1).2 cpu2 -> handled cpu (ia64_sapic_eoi cpu2).

Lemma set_psr_isr cpu v :
  sapic_isr (interrupt (env (ia64_set_psr cpu v))) = sapic_isr (interrupt (env cpu)).
Proof.
  destruct (set_psr_shape cpu v) as (c & Hv & _ & ->).
  unfold sapic_view in Hv. injection Hv as _ Hisr _ _ _ _ _.
  destruct (truth _); rewrite ?env_update; exact Hisr.
Qed.

Lemma handled_spec cpu cpu' :
  handled cpu cpu' -> sapic_inv cpu ->
  sapic_inv cpu' /\ in_service (env cpu') = in_service (env cpu).
Proof.
  induction 1 as [|cpu cpu' v _ IH|cpu cpu' v _ IH|cpu cpu' v _ IH|cpu cpu' _ IH Hs
    |cpu cpu1 cpu2 _ IH1 Hs _ IH2]; intros Hi.
  - done.
  - destruct (IH Hi) as [Hi' Heq]. split; [by apply set_irq_work_inv|].
    rewrite <- Heq. unfold in_service, ia64_sapic_set_irq_work. by rewrite env_update.
  - destruct (IH Hi) as [Hi' Heq]. split; [by apply write_tpr_inv|].
    rewrite <- Heq. unfold in_service, write_cr_tpr. by rewrite env_update.
  - destruct (IH Hi) as [Hi' Heq]. split; [by apply set_psr_inv|].
    rewrite <- Heq. unfold in_service. by rewrite set_psr_isr.
  - unfold ia64_sapic_get_ivr in *. destruct (IH Hi) as [Hi' Heq]. split; [by apply accept_inv|].
    destruct (accept_spec cpu' (proj1 Hi')) as [(_ & E & _)|(Ha & _)]; [by rewrite E|].
    exfalso. apply (find_irr_acceptable _ (proj1 Hi')); [by eexists|].
    unfold ia64_sapic_accept in Hs. by destruct (negb _).
  - destruct (IH1 Hi) as [Hi1 Heq1]. destruct (IH2 (accept_inv _ Hi1)) as [Hi2 Heq2].
    split; [by apply eoi_inv|].
    rewrite (proj1 (eoi_spec cpu2 (proj1 Hi2))), Heq2.
    destruct (accept_spec cpu1 (proj1 Hi1)) as [[E _]|(_ & _ & _ & E)]; [done|].
    unfold ia64_sapic_get_ivr. by rewrite E.
Qed.

(** C18. Interrupt service nests: over any stretch of execution in which every
    vector taken from IVR is ended by an EOI, with requests, priority changes
    and nested handlers in between, the vectors in service at the end are those
    at the start; each EOI ends the vector that its own IVR read returned. *)
Theorem service_nests cpu cpu' :
  handled cpu cpu' -> sapic_inv cpu -> in_service (env cpu') = in_service (env cpu).
Proof. intros H Hi. apply (handled_spec _ _ H Hi). Qed.

(** A vector taken and, inside its handler, one of a higher class. *)
Definition nest1 : IA64CPU := ia64_sapic_set_irq_work quiet_cpu 0x30.
Definition nest2 : IA64CPU := ia64_sapic_set_irq_work (ia64_sapic_get_ivr nest1).2 0x55.

Lemma service_nests_witness :
  in_service (env (ia64_sapic_get_ivr nest2).2) = [0x55; 0x30] /\
  in_service (env (ia64_sapic_eoi (ia64_sapic_eoi (ia64_sapic_get_ivr nest2).2))) =
  in_service (env quiet_cpu).
Proof.
  split; [vm_compute; reflexivity|].
  assert (H1 : (ia64_sapic_get_ivr nest1).1 <> IA64_SPURIOUS_VECTOR) by (vm_compute; discriminate).
  assert (H2 : (ia64_sapic_get_ivr nest2).1 <> IA64_SPURIOUS_VECTOR) by (vm_compute; discriminate).
  exact (service_nests quiet_cpu _
    (handled_serve quiet_cpu nest1 _ (handled_raise _ _ 0x30 (handled_nil _)) H1
      (handled_serve _ nest2 _ (handled_raise _ _ 0x55 (handled_nil _)) H2 (handled_nil _)))
    quiet_inv).
Defined.

(** ** Redirection *)

(** A processor that a redirected interrupt with this EID may go to. *)
Definition eligible (eid : Z) (cpu : IA64CPU) : Prop :=
  lid cpu .& IA64_SAPIC_LID_EID_MASK = eid /\ Z.testbit (ia64_sapic_get_xtp cpu) 7 = false.

Definition xtp_priority (cpu : IA64CPU) : Z := ia64_sapic_get_xtp cpu .& IA64_SAPIC_XTP_PRIORITY_MASK.

(** The position in the walk that starts at [requested_index] and wraps. *)
Definition walk_order (requested_index : Z) (cpu : IA64CPU) : Z :=
  Z.max (cpu_index cpu) 0 + (if Z.max (cpu_index cpu) 0 <? requested_index then 2 ^ 32 else 0).

(** [cpu] is preferred to a candidate with priority [p] and order [o]. *)
Definition preferred (requested_index : Z) (cpu : IA64CPU) (p o : Z) : Prop :=
  xtp_priority cpu < p \/ (xtp_priority cpu = p /\ walk_order requested_index cpu < o).

Lemma walk_order_eq i r :
  0 <= i < 2 ^ 32 -> (Z.b2z (i <? r) <<< 32) .| i = i + (if i <? r then 2 ^ 32 else 0).
Proof.
  intros Hi. destruct (i <? r); cbn [Z.b2z]; [|rewrite Z.shiftl_0_l, Z.lor_0_l; lia].
  rewrite land_disjoint_add; [rewrite Z.shiftl_mul_pow2; lia|].
  apply Z.bits_inj'. intros k Hk. rewrite Z.land_spec, Z.bits_0, shiftl_spec' by lia.
  destruct (Z.leb_spec 32 k); [|done]. rewrite (uint_bits 32 i k) by (unfold uint; lia).
  apply andb_false_r.
Qed.

Lemma redirect_loop_spec eid idx k cpus sel bp bo :
  Forall (fun cpu => cpu_index cpu < 2 ^ 31) cpus ->
  (redirect_loop eid idx k cpus sel bp bo = sel /\
   forall j cpu, cpus !! j = Some cpu -> eligible eid cpu -> ~ preferred idx cpu bp bo) \/
  (exists j cpu, redirect_loop eid idx k cpus sel bp bo = Some (k + j)%nat /\
   cpus !! j = Some cpu /\ eligible eid cpu /\ preferred idx cpu bp bo /\
   forall j' cpu', cpus !! j' = Some cpu' -> eligible eid cpu' ->
     ~ preferred idx cpu' (xtp_priority cpu) (walk_order idx cpu)).
Proof.
  intros HF. revert k sel bp bo. induction HF as [|c cpus Hc HF IH]; intros k sel bp bo.
  { left. split; [done|]. intros j cpu. by rewrite lookup_nil. }
  assert (Hskip : forall sel bp bo, (eligible eid c -> ~ preferred idx c bp bo) ->
    (redirect_loop eid idx (S k) cpus sel bp bo = sel /\
     forall j cpu, (c :: cpus) !! j = Some cpu -> eligible eid cpu -> ~ preferred idx cpu bp bo) \/
    (exists j cpu, redirect_loop eid idx (S k) cpus sel bp bo = Some (k + S j)%nat /\
     cpus !! j = Some cpu /\ eligible eid cpu /\ preferred idx cpu bp bo /\
     forall j' cpu', (c :: cpus) !! j' = Some cpu' -> eligible eid cpu' ->
       ~ preferred idx cpu' (xtp_priority cpu) (walk_order idx cpu))).
  { intros sel' bp' bo' Hn. destruct (IH (S k) sel' bp' bo') as [[-> Ha]|(j & cpu & -> & Hj & He & Hp & Ha)].
    - left. split; [done|]. intros [|j] cpu; cbn; [by intros [= <-]|apply Ha].
    - right. exists j, cpu. split_and!; [f_equal; lia|done..|].
      intros [|j'] cpu'; cbn; [intros [= <-] Hel Hpr|apply Ha].
      apply (Hn Hel). revert Hpr Hp. unfold preferred. lia. }
  cbn [redirect_loop]. cbv zeta. fold (xtp_priority c).
  rewrite walk_order_eq by lia. fold (walk_order idx c).
  change IA64_SAPIC_XTP_DISABLE with (2 ^ 7). rewrite truth_land_pow2 by lia.
  destruct (Z.eqb_spec (lid c .& IA64_SAPIC_LID_EID_MASK) eid) as [Eid|Eid]; cbn [negb orb].
  2: { destruct (Hskip sel bp bo) as [H|(j & cpu & ? & ?)]; [by intros [? _]|by left|].
       right. by exists (S j), cpu. }
  destruct (Z.testbit (ia64_sapic_get_xtp c) 7) eqn:Ex.
  { destruct (Hskip sel bp bo) as [H|(j & cpu & ? & ?)]; [intros [_ ?]; congruence|by left|].
    right. by exists (S j), cpu. }
  destruct (_ || _) eqn:Eb.
  - assert (Hp : preferred idx c bp bo) by (unfold preferred; lia).
    right. destruct (Hskip (Some k) (xtp_priority c) (walk_order idx c))
      as [[E Ha]|(j & cpu & E & Hj & He & Hpc & Ha)]; [unfold preferred; lia| |].
    + exists 0%nat, c. rewrite E, Nat.add_0_r. split_and!; done.
    + exists (S j), cpu. split_and!; try done. revert Hpc Hp. unfold preferred. lia.
  - destruct (Hskip sel bp bo) as [H|(j & cpu & ? & ?)]; [unfold preferred; lia|by left|].
    right. by exists (S j), cpu.
Qed.

(** C19. A lowest-priority (redirected) interrupt addressed to a processor goes
    to exactly one processor, to which it is posted: among those with the same
    EID that accept redirection, the one with the lowest task priority and,
    between equals, the first from the addressed one upwards, wrapping; when
    none accepts, the addressed one. *)
Theorem redirect_lowest_priority cpus id eid v r requested :
  ia64_cpu_by_sapic_id cpus id eid = Some requested ->
  ia64_external_interrupt_vector_valid v = true ->
  Forall (fun cpu => cpu_index cpu < 2 ^ 31) cpus ->
  let E := lid (cpus !!! requested) .& IA64_SAPIC_LID_EID_MASK in
  let I := Z.max (cpu_index (cpus !!! requested)) 0 in
  exists k,
    ia64_sapic_deliver cpus IA64_SAPIC_DESTINATION_PHYSICAL id eid r
      IA64_SAPIC_DELIVERY_INT_REDIRECT v =
      (true, alter (fun cpu => ia64_sapic_set_irq cpu v) k cpus) /\
    ((k = requested /\ forall j cpu, cpus !! j = Some cpu -> ~ eligible E cpu) \/
     (exists target, cpus !! k = Some target /\ eligible E target /\
      forall j cpu, cpus !! j = Some cpu -> eligible E cpu ->
        ~ preferred I cpu (xtp_priority target) (walk_order I target))).
Proof.
  intros Hreq Hv HF E I. unfold ia64_sapic_deliver, deliver_vector. rewrite Hv, Hreq.
  exists (sapic_redirect_target cpus requested). split; [done|].
  unfold sapic_redirect_target. fold E I.
  destruct (redirect_loop_spec E I 0 cpus None UINT_MAX UINT64_MAX HF)
    as [[-> Hn]|(j & cpu & -> & Hj & He & _ & Ha)].
  - left. split; [done|]. intros j cpu Hj He. apply (Hn j cpu Hj He). left.
    destruct (uint_land_r 4 (ia64_sapic_get_xtp cpu) IA64_SAPIC_XTP_PRIORITY_MASK) as [_ Hlt];
      [lia|uint_const|].
    unfold xtp_priority. eapply Z.lt_trans; [exact Hlt|]. done.
  - right. by exists cpu.
Qed.

(** Three processors; the second does not accept redirection and the third
    runs at the lowest priority. *)
Definition three_cpus : list IA64CPU :=
  [write_cr_lid (ia64_sapic_set_xtp quiet_cpu 5) 0x01000000;
   write_cr_lid (ia64_sapic_set_xtp (quiet_cpu <| cpu_index := 1 |>) 0x80) 0x02000000;
   write_cr_lid (ia64_sapic_set_xtp (quiet_cpu <| cpu_index := 2 |>) 1) 0x03000000].

Lemma redirect_lowest_priority_witness :
  exists k,
    ia64_sapic_deliver three_cpus IA64_SAPIC_DESTINATION_PHYSICAL 1 0 false
      IA64_SAPIC_DELIVERY_INT_REDIRECT 0x40 =
    (true, alter (fun cpu => ia64_sapic_set_irq cpu 0x40) k three_cpus).
Proof.
  destruct (redirect_lowest_priority three_cpus 1 0 0x40 false 0) as (k & H & _);
    [vm_compute; reflexivity|reflexivity| |exists k; exact H].
  repeat constructor.
Defined.

(** ** The interval time counter *)

(** Every model's oscillator ([ia64_register_cpu_model] asserts it). *)
Definition frequency_ok (hz : Z) : Prop := 0 < hz <= 1600000000.

Definition fraction_ok (f : Z) : Prop := 0 <= f < NANOSECONDS_PER_SECOND.

Lemma ticks_exact elapsed hz f :
  0 <= elapsed <= INT64_MAX -> frequency_ok hz -> fraction_ok f ->
  ia64_itc_ticks_for_ns elapsed hz f =
    ((elapsed * hz + f) / NANOSECONDS_PER_SECOND, (elapsed * hz + f) mod NANOSECONDS_PER_SECOND).
Proof.
  unfold frequency_ok, fraction_ok, ia64_itc_ticks_for_ns, INT64_MAX, NANOSECONDS_PER_SECOND.
  intros He Hhz Hf. set (G := 1000000000) in *.
  assert (Hfast : forall n, 0 <= n < G -> 0 <= n * hz + f < 2 ^ 64) by (subst G; nia).
  assert (Hu32 : forall x, wrap 32 (x mod G) = x mod G).
  { intros x. apply wrap_small. pose proof (Z.mod_pos_bound x G ltac:(lia)). unfold uint. lia. }
  destruct (Z.ltb_spec elapsed G) as [Hlt|Hge].
  - rewrite (wrap_small 64) by (apply Hfast; lia). by rewrite Hu32.
  - pose proof (Z.mod_pos_bound elapsed G ltac:(lia)) as Hm.
    pose proof (Z.div_mod elapsed G ltac:(lia)) as Hdm.
    assert (Hs : 0 <= elapsed / G <= 9223372036).
    { split; [apply Z.div_pos; lia|]. apply Z.lt_succ_r, Z.div_lt_upper_bound; lia. }
    rewrite (wrap_small 64 (elapsed mod G * hz + f)) by (apply Hfast; lia).
    rewrite (wrap_small 64 (elapsed / G * hz)) by (unfold uint; nia).
    replace (elapsed * hz + f) with ((elapsed / G * hz) * G + (elapsed mod G * hz + f)) by nia.
    rewrite Z.div_add_l by lia.
    rewrite (Z.add_comm (elapsed / G * hz * G)), Z.mod_add, Hu32 by lia.
    rewrite wrap_small; [done|].
    assert (0 <= (elapsed mod G * hz + f) / G < 1600000001).
    { split; [apply Z.div_pos; nia|]. apply Z.div_lt_upper_bound; nia. }
    unfold uint. nia.
Qed.

(** The tick conversion is exact on its whole range: the single
    multiplication used below one second and the split into seconds and
    nanoseconds both give the quotient and the remainder of
    [elapsed * frequency + fraction] by a second, without overflow.  Cutting an
    interval in two at any point therefore loses no tick. *)
Theorem itc_ticks_exact elapsed hz f :
  0 <= elapsed <= INT64_MAX -> frequency_ok hz -> fraction_ok f ->
  let '(ticks, f') := ia64_itc_ticks_for_ns elapsed hz f in
  ticks * NANOSECONDS_PER_SECOND + f' = elapsed * hz + f /\ fraction_ok f' /\ uint 64 ticks /\
  forall e1, 0 <= e1 <= elapsed ->
    let '(t1, f1) := ia64_itc_ticks_for_ns e1 hz f in
    let '(t2, f2) := ia64_itc_ticks_for_ns (elapsed - e1) hz f1 in
    t1 + t2 = ticks /\ f2 = f'.
Proof.
  intros He Hhz Hf. rewrite ticks_exact by done.
  assert (HG : forall x, x / NANOSECONDS_PER_SECOND * NANOSECONDS_PER_SECOND +
    x mod NANOSECONDS_PER_SECOND = x) by (intros x; unfold NANOSECONDS_PER_SECOND;
    pose proof (Z.div_mod x 1000000000); lia).
  assert (Hfr : forall x, fraction_ok (x mod NANOSECONDS_PER_SECOND))
    by (intros x; apply Z.mod_pos_bound; done).
  split_and!; [apply HG|apply Hfr| |].
  - unfold frequency_ok, fraction_ok, INT64_MAX, NANOSECONDS_PER_SECOND, uint in *.
    split; [apply Z.div_pos; nia|]. apply Z.div_lt_upper_bound; nia.
  - intros e1 He1. rewrite (ticks_exact e1) by (done || lia).
    rewrite ticks_exact by (auto || lia).
    set (x := e1 * hz + f). pose proof (HG x) as Hx.
    replace (elapsed * hz + f) with
      (x / NANOSECONDS_PER_SECOND * NANOSECONDS_PER_SECOND +
       ((elapsed - e1) * hz + x mod NANOSECONDS_PER_SECOND)) by (subst x; nia).
    rewrite Z.div_add_l by done. split; [done|].
    rewrite (Z.add_comm (x / _ * _)), Z.mod_add by done. done.
Qed.

Lemma itc_ticks_exact_witness :
  (ia64_itc_ticks_for_ns 2500000001 1500000000 999999999).1 * NANOSECONDS_PER_SECOND +
  (ia64_itc_ticks_for_ns 2500000001 1500000000 999999999).2 = 2500000001 * 1500000000 + 999999999.
Proof.
  pose proof (itc_ticks_exact 2500000001 1500000000 999999999) as H.
  destruct (ia64_itc_ticks_for_ns 2500000001 1500000000 999999999) as [t f].
  apply H; vm_compute; split; congruence.
Defined.

(** The delay when the required ticks fit: sufficient, and positive. *)
Lemma delay_spec hz e delta :
  frequency_ok hz -> fraction_ok (itc_fraction (interrupt e)) ->
  0 <= delta -> uint 64 (itc_tick_debt (interrupt e)) ->
  ia64_itc_delay_ns hz e delta < INT64_MAX ->
  let d := ia64_itc_delay_ns hz e delta in
  let required := delta + itc_tick_debt (interrupt e) in
  0 <= d /\ required <= (ia64_itc_ticks_for_ns d hz (itc_fraction (interrupt e))).1 /\
  (itc_fraction (interrupt e) < hz -> forall d', 0 <= d' < d ->
    (ia64_itc_ticks_for_ns d' hz (itc_fraction (interrupt e))).1 < required).
Proof.
  set (f := itc_fraction (interrupt e)). set (debt := itc_tick_debt (interrupt e)).
  intros Hhz Hf Hdelta Hdebt. unfold ia64_itc_delay_ns. fold f debt. cbv zeta.
  destruct (UINT64_MAX - debt <? delta) eqn:E1; [lia|].
  destruct (_ <? delta + debt) eqn:E2; [lia|]. apply Z.ltb_ge in E2.
  set (r := delta + debt) in *. rewrite ticks_exact in E2 by (done || unfold INT64_MAX; lia).
  cbn [fst] in E2. unfold muldiv64.
  set (G := NANOSECONDS_PER_SECOND) in *. assert (HG : G = 1000000000) by done.
  set (q := r * G / hz). unfold frequency_ok, fraction_ok in Hhz, Hf. fold G in Hf.
  assert (Hr0 : 0 <= r) by (unfold uint in Hdebt; lia).
  assert (Hq : 0 <= q /\ q * hz <= r * G < q * hz + hz).
  { pose proof (Z.div_mod (r * G) hz ltac:(lia)). pose proof (Z.mod_pos_bound (r * G) hz ltac:(lia)).
    fold q in H. split; [apply Z.div_pos; nia|nia]. }
  assert (HrG : r * G <= INT64_MAX * hz + f).
  { pose proof (Z.mul_div_le (INT64_MAX * hz + f) G ltac:(lia)). nia. }
  assert (Hqmax : q <= INT64_MAX + G) by nia.
  assert (Hq64 : wrap 64 q = q) by (apply wrap_small; unfold uint, INT64_MAX in *; lia).
  rewrite Hq64.
  destruct (_ <? r) eqn:E3.
  - rewrite wrap_small by (unfold uint, INT64_MAX in *; lia). intros Hlt.
    rewrite ticks_exact in E3 by (done || lia). cbn [fst] in E3. apply Z.ltb_lt in E3. fold G in E3.
    split_and!; [lia| |].
    + rewrite ticks_exact by (done || lia). cbn [fst]. fold G.
      apply Z.div_le_lower_bound; [lia|]. nia.
    + intros _ d' Hd'. rewrite ticks_exact by (done || lia). cbn [fst]. fold G.
      eapply Z.le_lt_trans; [|exact E3]. apply Z.div_le_mono; [lia|]. nia.
  - intros Hlt. apply Z.ltb_ge in E3. split_and!; [lia|done|].
    intros Hfhz d' Hd'. rewrite ticks_exact by (done || lia). cbn [fst]. fold G.
    apply Z.div_lt_upper_bound; [lia|]. nia.
Qed.

(** C33. The host delay computed for a number of ticks is sufficient: after it
    the oscillator has produced every required tick, the tick debt included.
    When the accumulated fraction is less than the oscillator produces in one
    nanosecond it is also the first such nanosecond. *)
Theorem itc_delay_sufficient hz e delta :
  frequency_ok hz -> fraction_ok (itc_fraction (interrupt e)) ->
  0 <= delta -> uint 64 (itc_tick_debt (interrupt e)) ->
  ia64_itc_delay_ns hz e delta < INT64_MAX ->
  let d := ia64_itc_delay_ns hz e delta in
  let required := delta + itc_tick_debt (interrupt e) in
  required <= (ia64_itc_ticks_for_ns d hz (itc_fraction (interrupt e))).1 /\
  (itc_fraction (interrupt e) < hz -> forall d', 0 <= d' < d ->
    (ia64_itc_ticks_for_ns d' hz (itc_fraction (interrupt e))).1 < required).
Proof. intros. apply delay_spec; done. Qed.

Lemma itc_delay_sufficient_witness :
  7 <= (ia64_itc_ticks_for_ns (ia64_itc_delay_ns 400000000 zero_env 7) 400000000 0).1.
Proof.
  apply (itc_delay_sufficient 400000000 zero_env 7);
    [split; reflexivity || discriminate|split; vm_compute; congruence|lia|uint_const
    |vm_compute; reflexivity].
Defined.

(** On a model slower than 1 GHz the delay need not be the first instant: with
    an accumulated fraction of 0.8 tick at 800 MHz, four ticks are complete
    after 4 ns, and the function returns 5. *)
Theorem itc_delay_not_first :
  let e := zero_env <| interrupt; itc_fraction := 800000000 |> in
  frequency_ok 800000000 /\ fraction_ok (itc_fraction (interrupt e)) /\
  ia64_itc_delay_ns 800000000 e 4 = 5 /\
  4 <= (ia64_itc_ticks_for_ns 4 800000000 (itc_fraction (interrupt e))).1.
Proof. vm_compute. repeat split; congruence. Qed.

Record itc_wf (cpu : IA64CPU) : Prop := {
  iw_ar : length (ar (env cpu)) = 128%nat;
  iw_itc : uint 64 (ar_itc (env cpu));
  iw_fraction : fraction_ok (itc_fraction (interrupt (env cpu)));
  iw_debt : uint 64 (itc_tick_debt (interrupt (env cpu)));
  iw_last : 0 <= itc_last_ns (interrupt (env cpu))
}.

(** The oscillator's phase: the ticks owed to real time, in units of one
    second over the frequency. *)
Definition itc_phase (hz : Z) (cpu : IA64CPU) : Z :=
  (ar_itc (env cpu) - itc_tick_debt (interrupt (env cpu))) * NANOSECONDS_PER_SECOND +
  itc_fraction (interrupt (env cpu)) - itc_last_ns (interrupt (env cpu)) * hz.

(** Equal up to a turn of the 64-bit counter. *)
Definition same_phase (x y : Z) : Prop := exists k, x = y + k * (2 ^ 64 * NANOSECONDS_PER_SECOND).

Section itc.
Context (hz : Z) (clock : nat -> Z).
Context (Hhz : frequency_ok hz) (Hclock : forall n, 0 <= clock n <= INT64_MAX).

(** What a synchronisation does to the counter. *)
Lemma itc_sync_spec cpu :
  itc_wf cpu ->
  let cpu' := ia64_itc_sync hz clock cpu in
  let i := interrupt (env cpu) in
  let i' := interrupt (env cpu') in
  let elapsed := Z.max 0 (clock (clock_reads cpu) - itc_last_ns i) in
  let ticks := (ia64_itc_ticks_for_ns elapsed hz (itc_fraction i)).1 in
  itc_wf cpu' /\ clock_reads cpu' = S (clock_reads cpu) /\
  itc_last_ns i' = itc_last_ns i + elapsed /\
  itc_fraction i' = (ia64_itc_ticks_for_ns elapsed hz (itc_fraction i)).2 /\
  itc_tick_debt i' = Z.max 0 (itc_tick_debt i - ticks) /\
  ar_itc (env cpu') = u64 (ar_itc (env cpu) + Z.max 0 (ticks - itc_tick_debt i)) /\
  itm_armed i' = itm_armed i /\ itm_last_match i' = itm_last_match i /\
  itm_last_match_valid i' = itm_last_match_valid i.
Proof.
  intros [Har Hitc Hf Hd Hl]. specialize (Hclock (clock_reads cpu)).
  unfold ia64_itc_sync, ia64_itc_clock_ns. cbv zeta.
  change (interrupt (env (cpu <| clock_reads ::= S |>))) with (interrupt (env cpu)).
  set (now := clock (clock_reads cpu)) in *. set (i := interrupt (env cpu)) in *.
  destruct (Z.ltb_spec 0 (now - itc_last_ns i)) as [Hpos|Hneg].
  - rewrite Z.max_r by lia. rewrite ticks_exact by (done || lia). cbn [fst snd].
    set (x := (now - itc_last_ns i) * hz + itc_fraction i).
    assert (Hfx : fraction_ok (x mod NANOSECONDS_PER_SECOND)) by (apply Z.mod_pos_bound; done).
    assert (Ht : 0 <= x / NANOSECONDS_PER_SECOND).
    { apply Z.div_pos; [|done]. subst x. unfold frequency_ok, fraction_ok in *. nia. }
    destruct (Z.leb_spec (x / NANOSECONDS_PER_SECOND) (itc_tick_debt i)).
    + rewrite Z.max_r, Z.max_l, Z.add_0_r by lia. unfold uint in Hd.
      split_and!; [constructor; cbn; try done; unfold uint; fold i; lia|done|cbn; lia|done|done| |done..].
      change (ar_itc (env cpu) = u64 (ar_itc (env cpu))). by rewrite wrap_small.
    + rewrite Z.max_l, Z.max_r by lia.
      assert (Hset : forall (l : list Z) v, length l = 128%nat -> aget (aset l IA64_AR_ITC v) IA64_AR_ITC = v).
      { intros l v Hlen. apply aget_aset_eq. rewrite Hlen. split; [discriminate|reflexivity]. }
      split_and!; [constructor| | | | | |..]; try done; unfold ar_itc; cbn;
        rewrite ?aset_length, ?Hset by done; try done; try (fold i; lia); auto with word.
  - rewrite Z.max_l, ticks_exact by (done || unfold INT64_MAX; lia). cbn [fst snd].
    rewrite Z.mul_0_l, Z.add_0_l, Z.div_small, Z.mod_small by done.
    unfold uint in Hd, Hitc. rewrite Z.max_r, Z.max_l, !Z.add_0_r, Z.sub_0_r by lia.
    split_and!; [by constructor|done..| |done|done|done].
    change (ar_itc (env cpu) = u64 (ar_itc (env cpu))). by rewrite wrap_small.
Qed.

Lemma sync_phase cpu :
  itc_wf cpu -> same_phase (itc_phase hz (ia64_itc_sync hz clock cpu)) (itc_phase hz cpu).
Proof.
  intros Hwf. destruct (itc_sync_spec cpu Hwf) as (_ & _ & Hl & Hf & Hd & Hi & _).
  destruct Hwf as [_ Hitc Hfr Hdebt Hlast]. specialize (Hclock (clock_reads cpu)).
  unfold itc_phase. rewrite Hl, Hf, Hd, Hi. unfold uint in Hdebt, Hitc.
  set (i := interrupt (env cpu)) in *.
  set (el := Z.max 0 _) in *. rewrite ticks_exact by (done || lia). cbn [fst snd].
  set (x := el * hz + itc_fraction i).
  pose proof (Z.div_mod x NANOSECONDS_PER_SECOND ltac:(done)) as Hx.
  set (t := x / NANOSECONDS_PER_SECOND) in *. unfold wrap.
  set (y := ar_itc (env cpu) + Z.max 0 (t - itc_tick_debt i)).
  pose proof (Z.div_mod y (2 ^ 64) ltac:(lia)) as Hy.
  exists (- (y / 2 ^ 64)).
  assert (Hsum : Z.max 0 (t - itc_tick_debt i) - Z.max 0 (itc_tick_debt i - t) = t - itc_tick_debt i)
    by lia.
  replace (y mod 2 ^ 64) with (y - 2 ^ 64 * (y / 2 ^ 64)) by lia.
  subst y. revert Hsum Hx. subst x. generalize (Z.max 0 (t - itc_tick_debt i)) as a.
  generalize (Z.max 0 (itc_tick_debt i - t)) as b. intros b a Hsum Hx.
  replace a with (t - itc_tick_debt i + b) by lia. lia.
Qed.

Lemma advance_phase cpu :
  itc_wf cpu -> itc_tick_debt (interrupt (env cpu)) < 2 ^ 63 ->
  same_phase (itc_phase hz (ia64_itc_advance_pending_itm hz clock cpu)) (itc_phase hz cpu) /\
  itc_wf (ia64_itc_advance_pending_itm hz clock cpu).
Proof.
  intros Hwf Hdebt. pose proof (sync_phase cpu Hwf) as Hp.
  destruct (itc_sync_spec cpu Hwf) as (Hwf' & _ & _ & _ & Hd & _).
  assert (Hd' : itc_tick_debt (interrupt (env (ia64_itc_sync hz clock cpu))) < 2 ^ 63).
  { rewrite Hd. specialize (Hclock (clock_reads cpu)). destruct Hwf as [_ _ Hfr _ Hlast].
    rewrite ticks_exact by (done || lia). cbn [fst].
    assert (0 <= (Z.max 0 (clock (clock_reads cpu) - itc_last_ns (interrupt (env cpu))) * hz +
      itc_fraction (interrupt (env cpu))) / NANOSECONDS_PER_SECOND).
    { apply Z.div_pos; [|done]. unfold frequency_ok, fraction_ok in *. nia. }
    lia. }
  clear Hd. unfold ia64_itc_advance_pending_itm. revert Hp Hwf' Hd'.
  generalize (ia64_itc_sync hz clock cpu) as c. intros c Hp [Har Hitc Hf Hdb Hl] Hd'. cbv zeta.
  destruct (_ && _) eqn:E; [|by split; [|constructor]].
  apply andb_true_iff in E as [_ Hneg%Z.ltb_lt].
  set (lm := itm_last_match (interrupt (env c)) + 1) in *.
  set (ticks := u64 (lm - ar_itc (env c))).
  assert (Ht : 0 <= ticks <= 2 ^ 63).
  { subst ticks. revert Hneg. unfold signed, wrap.
    pose proof (Z.mod_pos_bound (ar_itc (env c) - lm) (2 ^ 64) ltac:(lia)).
    pose proof (Z.mod_pos_bound (lm - ar_itc (env c)) (2 ^ 64) ltac:(lia)).
    rewrite Z.mod_mod by lia. change (2 ^ (64 - 1)) with (2 ^ 63). zcmp; [lia|].
    replace (lm - ar_itc (env c)) with (- (ar_itc (env c) - lm)) by lia.
    intros _. rewrite Z.mod_opp_l_nz by lia. lia. }
  assert (Hset : forall v, aget (aset (ar (env c)) IA64_AR_ITC v) IA64_AR_ITC = v).
  { intros v. apply aget_aset_eq. rewrite Har. split; [discriminate|reflexivity]. }
  split.
  - destruct Hp as [k Hp]. unfold itc_phase, ar_itc in *. cbn. rewrite Hset.
    fold (ar_itc (env c)) in *. set (d := itc_tick_debt (interrupt (env c))) in *.
    destruct (Z.ltb_spec (UINT64_MAX - d) ticks); [unfold UINT64_MAX in *; lia|].
    exists (k - (ar_itc (env c) + ticks) / 2 ^ 64). unfold wrap.
    pose proof (Z.div_mod (ar_itc (env c) + ticks) (2 ^ 64) ltac:(lia)).
    replace ((ar_itc (env c) + ticks) mod 2 ^ 64)
      with (ar_itc (env c) + ticks - 2 ^ 64 * ((ar_itc (env c) + ticks) / 2 ^ 64)) by lia.
    lia.
  - constructor; unfold ar_itc; cbn; rewrite ?aset_length, ?Hset; auto with word.
    unfold uint, UINT64_MAX in *. destruct (_ <? ticks) eqn:E'; lia.
Qed.
End itc.

Lemma same_phase_trans x y z : same_phase x y -> same_phase y z -> same_phase x z.
Proof. intros [k ->] [l ->]. exists (k + l). lia. Qed.

(** The processor after [n] reads of the counter. *)
Definition itc_reads (hz : Z) (clock : nat -> Z) (n : nat) (cpu : IA64CPU) : IA64CPU :=
  Nat.iter n (fun c => (ia64_itc_read hz clock c).2) cpu.

(** C35. Reading the counter, however often, does not change the oscillator's
    phase: after any number of reads the counter less its debt, with the
    fraction, is what the elapsed virtual time makes it, also when reads in the
    timer handler were advanced past the matched deadline.  The premise on the
    debt, half the counter's range, is where the saturating addition cannot
    saturate. *)
Theorem itc_reads_keep_phase hz clock cpu n :
  frequency_ok hz -> (forall k, 0 <= clock k <= INT64_MAX) -> itc_wf cpu ->
  (forall k, (k < n)%nat ->
    itc_tick_debt (interrupt (env (itc_reads hz clock k cpu))) < 2 ^ 63) ->
  same_phase (itc_phase hz (itc_reads hz clock n cpu)) (itc_phase hz cpu).
Proof.
  intros Hhz Hclock Hwf.
  enough (H : (forall k, (k < n)%nat ->
      itc_tick_debt (interrupt (env (itc_reads hz clock k cpu))) < 2 ^ 63) ->
    same_phase (itc_phase hz (itc_reads hz clock n cpu)) (itc_phase hz cpu) /\
    itc_wf (itc_reads hz clock n cpu)) by (intros Hd; apply H, Hd).
  induction n as [|n IH]; intros Hd.
  { split; [exists 0; cbn; lia|done]. }
  destruct IH as [Hp Hw]; [intros k Hk; apply Hd; lia|].
  destruct (advance_phase hz clock Hhz Hclock _ Hw (Hd n ltac:(lia))) as [Hp' Hw'].
  split; [exact (same_phase_trans _ _ _ Hp' Hp)|exact Hw'].
Qed.

(** A counter read twice, 10 and 25 ns after its start, at 1.5 GHz. *)
Definition ten_ns_clock (n : nat) : Z := match n with O => 10 | _ => 25 end.

Lemma quiet_itc_wf : itc_wf quiet_cpu.
Proof. constructor; first [reflexivity|uint_const|vm_compute; split; congruence|vm_compute; congruence]. Qed.

Lemma itc_reads_keep_phase_witness :
  same_phase (itc_phase 1500000000 (itc_reads 1500000000 ten_ns_clock 2 quiet_cpu))
    (itc_phase 1500000000 quiet_cpu) /\
  ar_itc (env (itc_reads 1500000000 ten_ns_clock 2 quiet_cpu)) = 37.
Proof.
  split; [|vm_compute; reflexivity].
  apply itc_reads_keep_phase; [split; vm_compute; congruence| |exact quiet_itc_wf|].
  - intros k. unfold ten_ns_clock, INT64_MAX. destruct k; lia.
  - intros [|[|k]] Hk; [vm_compute; reflexivity..|lia].
Defined.

(** ** The interval timer *)

Lemma itv_vector_range e : -1 <= ia64_itv_vector e < 256.
Proof.
  unfold ia64_itv_vector. cbv zeta.
  pose proof (uint_wrap 8 (aget (cr e) IA64_CR_ITV .& 0xFF) ltac:(lia)) as [? ?].
  case_match; lia.
Qed.

Lemma advance_inactive hz clock cpu :
  ia64_itm_interrupt_active (env cpu) = false ->
  ia64_itc_advance_pending_itm hz clock cpu = ia64_itc_sync hz clock cpu.
Proof.
  intros Ha. unfold ia64_itc_advance_pending_itm. cbv zeta.
  assert (E : ia64_itm_interrupt_active (env (ia64_itc_sync hz clock cpu)) = false).
  { destruct (sync_frame hz clock cpu) as (Hv & _). unfold sapic_view in Hv.
    injection Hv as _ Hisr _ _ _ Hcr _. rewrite <- Ha.
    unfold ia64_itm_interrupt_active, ia64_itv_vector. by rewrite Hisr, Hcr. }
  rewrite E, andb_false_r. done.
Qed.

Lemma uint_delay hz e delta : uint 64 (ia64_itc_delay_ns hz e delta).
Proof.
  unfold ia64_itc_delay_ns, muldiv64. cbv zeta.
  destruct (_ <? delta); [uint_const|]. destruct (_ <? _ + _); [uint_const|].
  destruct (_ <? _ + _); apply uint_wrap; lia.
Qed.

Lemma s64_small x : 0 <= x < 2 ^ 63 -> s64 x = x.
Proof.
  intros. unfold signed. rewrite wrap_small by (unfold uint; lia). change (2 ^ (64 - 1)) with (2 ^ 63).
  zcmp; lia.
Qed.

Lemma s64_large x : 2 ^ 63 <= x < 2 ^ 64 -> s64 x = x - 2 ^ 64.
Proof.
  intros. unfold signed. rewrite wrap_small by (unfold uint; lia). change (2 ^ (64 - 1)) with (2 ^ 63).
  zcmp; lia.
Qed.

(** The state that arming leaves: the timer is set to the instant at which the
    counter has reached the match value. *)
Lemma itm_update_armed hz clock cpu itm :
  frequency_ok hz -> (forall k, 0 <= clock k <= INT64_MAX) -> itc_wf cpu ->
  itc_tick_debt (interrupt (env cpu)) < 2 ^ 63 ->
  let c := ia64_itm_update hz clock cpu itm in
  itm_armed (interrupt (env c)) = true ->
  itc_wf c /\ 0 <= ia64_itv_vector (env c) /\ ia64_itv_masked (env c) = false /\
  0 < s64 (u64 (itm - ar_itc (env c))) /\
  forall deadline, itm_timer c = Some deadline -> deadline < INT64_MAX ->
    deadline = itc_last_ns (interrupt (env c)) +
      ia64_itc_delay_ns hz (env c) (s64 (u64 (itm - ar_itc (env c)))) /\
    ia64_itc_delay_ns hz (env c) (s64 (u64 (itm - ar_itc (env c)))) < INT64_MAX.
Proof.
  intros Hhz Hclock Hwf Hd. unfold ia64_itm_update. cbv zeta.
  destruct (advance_phase hz clock Hhz Hclock cpu Hwf Hd) as [_ Hw].
  revert Hw. generalize (ia64_itc_advance_pending_itm hz clock cpu) as c. intros c Hw.
  unfold ia64_itm_update_pending. cbv zeta.
  assert (Hdone : forall c', itm_armed (interrupt (env (ia64_itc_advance_pending_itm hz clock
    ((c' <| itm_timer := None |>) <| env; interrupt ::= fun i => i <| itm_armed := false |> |>)))) = false).
  { intros c'. unfold ia64_itc_advance_pending_itm, ia64_itc_sync, ia64_itc_clock_ns. cbv zeta.
    repeat case_match; reflexivity. }
  destruct (ia64_itv_vector (env c) <? 0) eqn:E1; [rewrite Hdone; done|].
  destruct (ia64_itv_masked (env c)) eqn:E2; [rewrite Hdone; done|].
  destruct (0 <? s64 (u64 (itm - ar_itc (env c)))) eqn:E3.
  2: { destruct (_ || _); rewrite Hdone; done. }
  intros _. destruct Hw. split_and!; [by constructor|apply Z.ltb_ge, E1|done|by apply Z.ltb_lt|].
  intros dl Hdl Hlt.
  change (ia64_itc_delay_ns hz (env ((_ : IA64CPU) <| itm_timer := _ |>)) ?d) with
    (ia64_itc_delay_ns hz (env c) d) in *.
  change (itc_last_ns (interrupt (env ((_ : IA64CPU) <| itm_timer := _ |>)))) with
    (itc_last_ns (interrupt (env c))) in *.
  change (ar_itc (env ((_ : IA64CPU) <| itm_timer := _ |>))) with (ar_itc (env c)).
  assert (Hpos : 0 < s64 (u64 (itm - ar_itc (env c)))) by (by apply Z.ltb_lt).
  pose proof (signed_range 64 (u64 (itm - ar_itc (env c))) ltac:(lia)).
  assert (Hdel : u64 (s64 (u64 (itm - ar_itc (env c)))) = s64 (u64 (itm - ar_itc (env c)))).
  { apply wrap_small. unfold uint. lia. }
  rewrite Hdel in Hdl. set (dn := ia64_itc_delay_ns hz (env c) _) in *.
  cbn in Hdl. injection Hdl as Hdl. revert Hdl.
  destruct (Z.eqb_spec dn INT64_MAX) as [|Hne]; cbn [orb]; [intros <-; lia|].
  pose proof (uint_delay hz (env c) (s64 (u64 (itm - ar_itc (env c))))) as Hdn. fold dn in Hdn.
  destruct (Z.ltb_spec (s64 (u64 (INT64_MAX - s64 dn))) (itc_last_ns (interrupt (env c))))
    as [?|Hcmp]; [intros <-; lia|].
  destruct (Z.lt_ge_cases dn (2 ^ 63)) as [Hsm|Hbig].
  - rewrite s64_small by (unfold uint in *; lia). intros <-. split; [reflexivity|].
    unfold INT64_MAX in *. lia.
  - exfalso. rewrite (s64_large dn) in Hcmp by (unfold uint in *; lia).
    unfold INT64_MAX, uint in *.
    replace (2 ^ 63 - 1 - (dn - 2 ^ 64)) with (2 ^ 63 - 1 - dn + 1 * 2 ^ 64) in Hcmp by lia.
    rewrite (wrap_small 64), s64_large in Hcmp by (unfold uint; lia). lia.
Qed.

Lemma wrap_signed w x : 0 < w -> wrap w (signed w x) = wrap w x.
Proof.
  intros Hw. unfold signed. destruct (_ <? _); [by apply wrap_wrap; lia|].
  unfold wrap. rewrite <- (Z.mul_1_l (2 ^ w)) at 2. rewrite <- Z.add_opp_r, <- Z.mul_opp_l.
  rewrite Z.mod_add by lia. apply Z.mod_mod. lia.
Qed.

(** The ticks from the counter to the match value, signed as the code takes
    them. *)
Definition itm_distance (itm : Z) (cpu : IA64CPU) : Z := s64 (u64 (itm - ar_itc (env cpu))).

Lemma distance_advance itm itc a :
  - 2 ^ 63 <= s64 (u64 (itm - itc)) - a < 2 ^ 63 ->
  s64 (u64 (itm - u64 (itc + a))) = s64 (u64 (itm - itc)) - a.
Proof.
  intros Ha. set (d := s64 (u64 (itm - itc))) in *.
  replace (u64 (itm - u64 (itc + a))) with (u64 (d - a)).
  { rewrite signed_wrap; lia. }
  unfold wrap at 2 3. rewrite Zminus_mod_idemp_r. replace (itm - (itc + a)) with (itm - itc - a) by lia.
  rewrite <- Zminus_mod_idemp_l. fold (u64 (itm - itc)).
  change ((u64 (itm - itc) - a) mod 2 ^ 64) with (u64 (u64 (itm - itc) - a)).
  unfold wrap. rewrite <- (Zminus_mod_idemp_l d). fold (u64 d). subst d.
  rewrite wrap_signed by lia. unfold wrap. by rewrite Z.mod_mod by lia.
Qed.

(** The time the oscillator still needs for the match, in units of one second
    over the frequency times a nanosecond: the distance and the debt, less the
    fraction. *)
Definition itm_lead (itm : Z) (cpu : IA64CPU) : Z :=
  (itm_distance itm cpu + itc_tick_debt (interrupt (env cpu))) * NANOSECONDS_PER_SECOND -
  itc_fraction (interrupt (env cpu)).

(** On course for a match at [deadline], counted from the time [base]: what the
    oscillator needs is covered by the time to the deadline, and the counter has
    not run past the match by half its range. *)
Record on_course (hz itm deadline base : Z) (cpu : IA64CPU) : Prop := {
  oc_wf : itc_wf cpu;
  oc_covered : itm_lead itm cpu <= (deadline - itc_last_ns (interrupt (env cpu))) * hz;
  oc_since : (base - itc_last_ns (interrupt (env cpu))) * hz < itm_lead itm cpu;
  oc_debt : 0 < itm_distance itm cpu \/ itc_tick_debt (interrupt (env cpu)) = 0
}.

Section on_course.
Context (hz : Z) (clock : nat -> Z).
Context (Hhz : frequency_ok hz) (Hclock : forall n, 0 <= clock n <= INT64_MAX).

(** Synchronising the counter keeps the course. *)
Lemma sync_on_course itm deadline base c :
  on_course hz itm deadline base c ->
  let c' := ia64_itc_sync hz clock c in
  (itc_last_ns (interrupt (env c')) - base) * hz < 2 ^ 63 * NANOSECONDS_PER_SECOND ->
  on_course hz itm deadline base c'.
Proof.
  intros [Hwf Hcov Hsince Hdebt] c' Hhalf.
  destruct (itc_sync_spec hz clock Hhz Hclock c Hwf) as (Hwf' & _ & Hl & Hf & Hd & Hi & _).
  fold c' in Hwf', Hl, Hf, Hd, Hi. pose proof (iw_fraction _ Hwf') as Hf'.
  pose proof (iw_fraction _ Hwf) as Hf0. pose proof (iw_debt _ Hwf) as [Hd0 _]. pose proof (iw_last _ Hwf) as Hl0.
  unfold itm_lead in *. set (i := interrupt (env c)) in *. set (i' := interrupt (env c')) in *.
  specialize (Hclock (clock_reads c)). set (el := Z.max 0 _) in *.
  rewrite ticks_exact in Hf, Hd, Hi by (done || lia). cbn [fst snd] in Hf, Hd, Hi.
  pose proof (Z.div_mod (el * hz + itc_fraction i) NANOSECONDS_PER_SECOND ltac:(done)) as Hx.
  rewrite <- Hf in Hx. set (ticks := (el * hz + itc_fraction i) / NANOSECONDS_PER_SECOND) in *.
  pose proof (signed_range 64 (u64 (itm - ar_itc (env c))) ltac:(lia)) as Hr.
  assert (Ht : 0 <= ticks).
  { apply Z.div_pos; [|done]. unfold frequency_ok, fraction_ok in *. nia. }
  assert (Hdist : itm_distance itm c' = itm_distance itm c - Z.max 0 (ticks - itc_tick_debt i)).
  { unfold itm_distance. rewrite Hi. apply distance_advance. fold (itm_distance itm c) in Hr |- *.
    rewrite Hl in Hhalf. unfold fraction_ok, NANOSECONDS_PER_SECOND in *. nia. }
  split; [exact Hwf'|fold i'; unfold itm_lead..|]; fold i'; rewrite ?Hdist, ?Hl, ?Hd; clear Hi Hwf Hwf' Hr Hdist.
  all: assert (Hsum : Z.max 0 (ticks - itc_tick_debt i) - Z.max 0 (itc_tick_debt i - ticks) = ticks - itc_tick_debt i) by lia.
  - unfold NANOSECONDS_PER_SECOND in *. nia.
  - unfold NANOSECONDS_PER_SECOND in *. nia.
  - lia.
Qed.

(** The state that arming leaves is on course. *)
Lemma armed_on_course cpu itm deadline :
  itc_wf cpu -> itc_tick_debt (interrupt (env cpu)) < 2 ^ 63 ->
  let c := ia64_itm_update hz clock cpu itm in
  itm_armed (interrupt (env c)) = true -> itm_timer c = Some deadline -> deadline < INT64_MAX ->
  on_course hz itm deadline (itc_last_ns (interrupt (env c))) c /\
  0 <= ia64_itv_vector (env c) /\ ia64_itv_masked (env c) = false.
Proof.
  intros Hwf Hd c Harm Htm Hdl.
  destruct (itm_update_armed hz clock cpu itm Hhz Hclock Hwf Hd Harm) as (Hw & Hv & Hm & Hpos & Hdel).
  fold c in Hw, Hv, Hm, Hpos, Hdel. destruct (Hdel deadline Htm Hdl) as [-> Hne]. split; [|done].
  pose proof (iw_fraction _ Hw) as Hf. pose proof (iw_debt _ Hw) as Hdb. fold (itm_distance itm c) in *.
  destruct (delay_spec hz (env c) _ Hhz Hf (Z.lt_le_incl _ _ Hpos) Hdb Hne) as (Hd0 & Hsuf & _).
  rewrite ticks_exact in Hsuf by (done || lia). cbn [fst] in Hsuf.
  set (dn := ia64_itc_delay_ns hz (env c) _) in *. unfold uint in Hdb.
  pose proof (Z.mul_div_le (dn * hz + itc_fraction (interrupt (env c))) NANOSECONDS_PER_SECOND ltac:(done)) as Hdiv.
  split; [done|unfold itm_lead..|by left]; unfold fraction_ok, NANOSECONDS_PER_SECOND in *; nia.
Qed.

(** *** Until the callback *)

(** What the interval timer depends on. *)
Definition timer_view (cpu : IA64CPU) :=
  (length (ar (env cpu)), ar_itc (env cpu), cr_itm (env cpu), aget (cr (env cpu)) IA64_CR_ITV,
   (itc_fraction (interrupt (env cpu)), itc_tick_debt (interrupt (env cpu)), itc_last_ns (interrupt (env cpu))),
   (itm_armed (interrupt (env cpu)), itm_last_match (interrupt (env cpu)), itm_last_match_valid (interrupt (env cpu)))).

(** A step of a processor whose timer is armed: it reads the counter, or does
    something that leaves the counter and the timer alone. *)
Inductive timer_waits : IA64CPU -> IA64CPU -> Prop :=
  | waits_read c : timer_waits c (ia64_itc_read hz clock c).2
  | waits_other c c' : timer_view c' = timer_view c -> timer_waits c c'.

(** What is the same in all states of the wait. *)
Definition timer_setting (cpu : IA64CPU) :=
  (cr_itm (env cpu), aget (cr (env cpu)) IA64_CR_ITV,
   (itm_armed (interrupt (env cpu)), itm_last_match (interrupt (env cpu)), itm_last_match_valid (interrupt (env cpu)))).

Lemma advance_armed c :
  itm_armed (interrupt (env c)) = true -> itc_wf c ->
  ia64_itc_advance_pending_itm hz clock c = ia64_itc_sync hz clock c.
Proof.
  intros Ha Hwf. destruct (itc_sync_spec hz clock Hhz Hclock c Hwf) as (_ & _ & _ & _ & _ & _ & E & _).
  unfold ia64_itc_advance_pending_itm. cbv zeta. by rewrite E, Ha.
Qed.

Lemma sync_setting c :
  itc_wf c -> timer_setting (ia64_itc_sync hz clock c) = timer_setting c /\
  itc_last_ns (interrupt (env c)) <= itc_last_ns (interrupt (env (ia64_itc_sync hz clock c))).
Proof.
  intros Hwf. destruct (itc_sync_spec hz clock Hhz Hclock c Hwf) as (_ & _ & El & _ & _ & _ & E1 & E2 & E3).
  destruct (sync_frame hz clock c) as (Hview & _). unfold sapic_view in Hview. injection Hview as _ _ _ _ _ Hcr _.
  unfold timer_setting, cr_itm. rewrite E1, E2, E3, Hcr, El. split; [done|lia].
Qed.

Lemma view_on_course itm deadline base c c' :
  timer_view c' = timer_view c -> on_course hz itm deadline base c -> on_course hz itm deadline base c'.
Proof.
  unfold timer_view. intros E. injection E as E1 E2 _ _ E3 E4 E5 _ _ _. intros [[] ? ? ?].
  unfold itm_lead, itm_distance in *. split; [split|..]; unfold itm_lead, itm_distance; congruence.
Qed.

Lemma view_setting c c' :
  timer_view c' = timer_view c -> timer_setting c' = timer_setting c /\
  itc_last_ns (interrupt (env c')) = itc_last_ns (interrupt (env c)) /\ (itc_wf c -> itc_wf c').
Proof.
  unfold timer_view, timer_setting. intros E. injection E as E1 E2 E3 E4 E5 E6 E7 E8 E9 E10.
  split; [congruence|]. split; [done|]. intros []. split; congruence.
Qed.

Lemma waits_step c c' :
  timer_waits c c' -> itm_armed (interrupt (env c)) = true -> itc_wf c ->
  timer_setting c' = timer_setting c /\ itc_wf c' /\
  itc_last_ns (interrupt (env c)) <= itc_last_ns (interrupt (env c')) /\
  forall itm deadline base, on_course hz itm deadline base c ->
    (itc_last_ns (interrupt (env c')) - base) * hz < 2 ^ 63 * NANOSECONDS_PER_SECOND ->
    on_course hz itm deadline base c'.
Proof.
  intros [c0|c0 c0' E] Ha Hwf.
  - change (ia64_itc_read hz clock c0).2 with (ia64_itc_advance_pending_itm hz clock c0).
    rewrite advance_armed by done. destruct (sync_setting c0 Hwf) as [Es Hl].
    destruct (itc_sync_spec hz clock Hhz Hclock c0 Hwf) as [Hwf' _]. split_and!; [done..|].
    intros itm deadline base. apply sync_on_course.
  - destruct (view_setting c0 c0' E) as (Es & El & Hw). split_and!; [done|by apply Hw|lia|].
    intros itm deadline base Hc _. by apply (view_on_course itm deadline base c0).
Qed.

Lemma waits_on_course itm deadline base c c' :
  rtc timer_waits c c' -> itm_armed (interrupt (env c)) = true -> itc_wf c ->
  on_course hz itm deadline base c ->
  timer_setting c' = timer_setting c /\ itc_wf c' /\
  ((itc_last_ns (interrupt (env c')) - base) * hz < 2 ^ 63 * NANOSECONDS_PER_SECOND ->
   on_course hz itm deadline base c').
Proof.
  intros Hr Ha Hwf Hc. revert c' Hr. apply (rtc_ind_r (fun c' => _ /\ _ /\ (_ -> _))); [done|].
  intros x y _ Hxy (Es & Hx & IH).
  assert (Hax : itm_armed (interrupt (env x)) = true).
  { unfold timer_setting in Es. injection Es as _ _ E _ _. by rewrite E. }
  destruct (waits_step x y Hxy Hax Hx) as (Es' & Hy & Hle & Hstep).
  split; [by rewrite Es'|]. split; [done|]. intros Hhalf. apply Hstep; [|done]. apply IH.
  destruct Hhz. nia.
Qed.

(** A callback that finds the counter at or past an unraised match requests the
    vector. *)
Lemma timer_work_raises c :
  sapic_wf (env c) -> is_self c = true -> itm_armed (interrupt (env c)) = true -> itc_wf c ->
  0 <= ia64_itv_vector (env c) -> ia64_itv_masked (env c) = false ->
  ia64_itm_interrupt_active (env c) = false ->
  ~ (itm_last_match_valid (interrupt (env c)) = true /\ itm_last_match (interrupt (env c)) = cr_itm (env c)) ->
  itm_distance (cr_itm (env c)) (ia64_itc_sync hz clock (c <| env; interrupt ::= fun i => i <| itm_armed := false |> |>)) <= 0 ->
  sapic_vector_active (sapic_irr (interrupt (env (ia64_itm_timer_cb hz clock c)))) (ia64_itv_vector (env c)) = true.
Proof.
  intros Hswf Hself Harm Hw Hv Hm Hact Hfresh Hle.
  unfold ia64_itm_timer_cb, ia64_itm_timer_work. rewrite Hself, Harm. cbn [negb]. cbv zeta.
  set (c0 := c <| env; interrupt ::= _ |>) in *.
  assert (Hw0 : itc_wf c0) by (destruct Hw; by constructor).
  rewrite (advance_inactive hz clock c0) by exact Hact.
  destruct (itc_sync_spec hz clock Hhz Hclock c0 Hw0) as (Hw1 & _ & _ & _ & _ & _ & _ & Hlm & Hlmv).
  destruct (sync_frame hz clock c0) as (Hview & _ & Hself1 & _).
  set (c1 := ia64_itc_sync hz clock c0) in *. clearbody c1. unfold itm_distance in Hle.
  unfold sapic_view in Hview. injection Hview as Hirr _ _ _ _ Hcr _.
  assert (Hvec : ia64_itv_vector (env c1) = ia64_itv_vector (env c))
    by (unfold ia64_itv_vector; by rewrite Hcr).
  assert (Hmask : ia64_itv_masked (env c1) = ia64_itv_masked (env c))
    by (unfold ia64_itv_masked; by rewrite Hcr).
  change (aget (cr (env c0)) IA64_CR_ITM) with (cr_itm (env c)).
  unfold ia64_itm_update_pending. cbv zeta. rewrite Hvec, Hmask, Hm.
  destruct (Z.ltb_spec (ia64_itv_vector (env c)) 0); [lia|].
  destruct (Z.ltb_spec 0 (s64 (u64 (cr_itm (env c) - ar_itc (env c1))))); [lia|].
  rewrite orb_true_r. unfold ia64_itm_raise. rewrite Hvec. cbv zeta.
  destruct (Z.ltb_spec (ia64_itv_vector (env c)) 0); [lia|].
  rewrite Hlm, Hlmv.
  change (interrupt (env c0)) with ((interrupt (env c)) <| itm_armed := false |>).
  destruct (_ && _) eqn:E.
  { exfalso. apply Hfresh. apply andb_true_iff in E as [? ?%Z.eqb_eq]. done. }
  unfold ia64_sapic_set_irq. change (is_self (upd env _ c1)) with (is_self c1).
  rewrite Hself1. change (is_self c0) with (is_self c). rewrite Hself.
  unfold ia64_sapic_set_irq_work. rewrite env_update. cbn. rewrite Hirr, vector_active_bm_get.
  pose proof (itv_vector_range (env c)).
  destruct Hswf as [[Hlen _] _]. rewrite wrap_small by (unfold uint; lia).
  rewrite bm_get_set, Z.eqb_refl by (rewrite ?Hlen; lia). done.
Qed.

(** At or after the deadline a counter on course has reached the match. *)
Lemma on_course_reached itm deadline base c :
  on_course hz itm deadline base c -> deadline <= itc_last_ns (interrupt (env c)) -> itm_distance itm c <= 0.
Proof.
  intros [Hwf Hcov _ _] Hle. pose proof (iw_fraction _ Hwf). pose proof (iw_debt _ Hwf) as [? _].
  unfold itm_lead, frequency_ok, fraction_ok, NANOSECONDS_PER_SECOND in *. nia.
Qed.
End on_course.

(** C22. An armed interval timer fires.  [ia64_itm_update] has armed the timer
    for the value of [CR.ITM] with a representable deadline and left the state
    [c]; until the callback, in the state [c'], the processor has read the
    counter any number of times and done anything else that leaves the counter
    and the timer's registers alone.  If the callback runs at or after the
    deadline, on the processor's own thread, it requests the interval timer
    vector.  The other premises say that no timer interrupt is in service at the
    callback, that this match has not been raised already, and that less than
    half the counter's range has passed since the timer was armed. *)
Theorem armed_timer_fires hz clock cpu c c' itm deadline :
  frequency_ok hz -> (forall k, 0 <= clock k <= INT64_MAX) -> itc_wf cpu ->
  itc_tick_debt (interrupt (env cpu)) < 2 ^ 63 ->
  c = ia64_itm_update hz clock cpu itm -> cr_itm (env c) = itm ->
  itm_armed (interrupt (env c)) = true -> itm_timer c = Some deadline -> deadline < INT64_MAX ->
  ~ (itm_last_match_valid (interrupt (env c)) = true /\ itm_last_match (interrupt (env c)) = itm) ->
  rtc (timer_waits hz clock) c c' ->
  sapic_wf (env c') -> is_self c' = true -> ia64_itm_interrupt_active (env c') = false ->
  deadline <= clock (clock_reads c') ->
  (Z.max (itc_last_ns (interrupt (env c'))) (clock (clock_reads c')) - itc_last_ns (interrupt (env c))) * hz <
    2 ^ 63 * NANOSECONDS_PER_SECOND ->
  sapic_vector_active (sapic_irr (interrupt (env (ia64_itm_timer_cb hz clock c')))) (ia64_itv_vector (env c)) = true.
Proof.
  intros Hhz Hclock Hwf Hd Hc Hitm Harm Htm Hdl Hfresh Hr Hswf Hself Hact Hnow Hhalf.
  assert (Hoc : on_course hz itm deadline (itc_last_ns (interrupt (env c))) c /\
    0 <= ia64_itv_vector (env c) /\ ia64_itv_masked (env c) = false)
    by (rewrite Hc in *; by apply armed_on_course).
  destruct Hoc as (Hoc & Hv & Hm). clear Hc Htm.
  destruct (waits_on_course hz clock Hhz Hclock _ _ _ _ _ Hr Harm (oc_wf _ _ _ _ _ Hoc) Hoc) as (Es & Hw' & Hoc').
  unfold timer_setting in Es. injection Es as Eitm Eitv Earm Elm Elmv.
  assert (Evec : ia64_itv_vector (env c) = ia64_itv_vector (env c')) by (unfold ia64_itv_vector; by rewrite Eitv).
  assert (Emask : ia64_itv_masked (env c) = ia64_itv_masked (env c')) by (unfold ia64_itv_masked; by rewrite Eitv).
  rewrite Evec in *. rewrite Emask in Hm. rewrite <- Hitm, <- Eitm, <- Elm, <- Elmv in Hfresh. rewrite <- Earm in Harm.
  apply timer_work_raises; try done.
  set (c0 := c' <| env; interrupt ::= _ |>).
  assert (Hc0 : on_course hz itm deadline (itc_last_ns (interrupt (env c))) c0).
  { destruct Hoc' as [[] ? ? ?]; [destruct Hhz; nia|]. by split; [split|..]. }
  destruct (itc_sync_spec hz clock Hhz Hclock c0 (oc_wf _ _ _ _ _ Hc0)) as (_ & _ & El & _).
  change (clock_reads c0) with (clock_reads c') in El.
  change (itc_last_ns (interrupt (env c0))) with (itc_last_ns (interrupt (env c'))) in El.
  rewrite Eitm, Hitm. apply (on_course_reached hz Hhz itm deadline (itc_last_ns (interrupt (env c))));
    [apply sync_on_course; [done..|]|]; rewrite El; [|lia].
  eapply Z.le_lt_trans; [|exact Hhalf]. destruct Hhz. apply Z.mul_le_mono_nonneg_r; lia.
Qed.

(** A processor with the interval timer vector 0x40 and a match at 1000, on a
    clock that reads 10 ns when the timer is armed, 20 ns when the program reads
    the counter and 1000 ns afterwards. *)
Definition timer_cpu : IA64CPU :=
  quiet_cpu <| env; cr @ IA64_CR_ITV := 0x40 |> <| env; cr @ IA64_CR_ITM := 1000 |>.
Definition timer_clock (n : nat) : Z := match n with O => 10 | 1%nat => 20 | _ => 1000 end.

Definition armed_cpu : IA64CPU := ia64_itm_update 1000000000 timer_clock timer_cpu 1000.

Lemma armed_timer_fires_witness :
  itm_timer armed_cpu = Some 1000 /\ ia64_itv_vector (env armed_cpu) = 0x40 /\
  sapic_vector_active (sapic_irr (interrupt (env (ia64_itm_timer_cb 1000000000 timer_clock
    (ia64_itc_read 1000000000 timer_clock armed_cpu).2)))) (ia64_itv_vector (env armed_cpu)) = true.
Proof.
  assert (H1 : frequency_ok 1000000000) by (split; vm_compute; congruence).
  assert (H2 : forall k, 0 <= timer_clock k <= INT64_MAX).
  { intros k. unfold timer_clock, INT64_MAX. destruct k as [|[|k]]; lia. }
  assert (H3 : itc_wf timer_cpu).
  { constructor; first [reflexivity|uint_const|vm_compute; split; congruence|vm_compute; congruence]. }
  assert (H4 : sapic_wf (env (ia64_itc_read 1000000000 timer_clock armed_cpu).2)).
  { split_and!; [split; [vm_compute; reflexivity|apply all_uint; vm_compute; reflexivity]..|].
    uint_const. }
  assert (H5 : ~ (itm_last_match_valid (interrupt (env armed_cpu)) = true /\
    itm_last_match (interrupt (env armed_cpu)) = 1000)) by (vm_compute; intros [? _]; discriminate).
  split; [vm_compute; reflexivity|]. split; [vm_compute; reflexivity|].
  apply (armed_timer_fires 1000000000 timer_clock timer_cpu armed_cpu
    (ia64_itc_read 1000000000 timer_clock armed_cpu).2 1000 1000 H1 H2 H3);
    [| | | | | | exact H5 | apply rtc_once, waits_read | exact H4 | | | |]; vm_compute; first [reflexivity|discriminate].
Defined.
