(* ===== verification/Iosapic.v ===== *)
(** * The I/O SAPIC

    The model of [hw/ia64/ia64_iosapic.c]: the redirection table of the 24
    interrupt pins, its register window, and the interrupt transactions it
    sends to the local SAPICs of [Interrupt].  A level-triggered route sends a
    request once and waits, with its Remote IRR bit set, for the EOI of its
    vector; an edge-triggered route sends one for each rising edge. *)
From S2P Require Import Prelude Arch Env Registers Interrupt.
From stdpp Require Import relations list.
Local Open Scope Z_scope.

(** ** Definitions *)

Definition IA64_IOSAPIC_NUM_PINS : Z := 24.
Definition IA64_IOSAPIC_VERSION : Z := ((IA64_IOSAPIC_NUM_PINS - 1) <<< 16) .| 0x11.
Definition IOSAPIC_IOREGSEL : Z := 0x00.
Definition IOSAPIC_IOWIN : Z := 0x10.
Definition IOSAPIC_EOI : Z := 0x40.
Definition IOSAPIC_REG_ID : Z := 0x00.
Definition IOSAPIC_REG_VER : Z := 0x01.
Definition IOSAPIC_RTE_BASE : Z := 0x10.

Definition RTE_VECTOR_MASK : Z := 0xff.
Definition RTE_DELIVERY_MODE : Z := 0x700.
Definition RTE_DELIVERY_STATUS : Z := 0x1000.
Definition RTE_POLARITY_LOW : Z := 0x2000.
Definition RTE_REMOTE_IRR : Z := 0x4000.
Definition RTE_TRIGGER_LEVEL : Z := 0x8000.
Definition RTE_MASKED : Z := 0x10000.
Definition RTE_DESTINATION : Z := 0xffff000000000000.
Definition RTE_RO_BITS : Z := RTE_DELIVERY_STATUS .| RTE_REMOTE_IRR.
Definition RTE_WRITABLE : Z :=
  RTE_VECTOR_MASK .| RTE_DELIVERY_MODE .| RTE_POLARITY_LOW .| RTE_MASKED .| RTE_TRIGGER_LEVEL .| RTE_DESTINATION.

Record IA64IOSapicState : Type := mkIOSapic {
  rte : list Z;
  irq_level : list bool;
  reg_select : Z
}.

#[export] Instance eta_IA64IOSapicState : Eta IA64IOSapicState := fun s =>
  mkIOSapic (rte s) (irq_level s) (reg_select s).

(** The device and the processors it delivers to. *)
Record iosapic_sys : Type := mkIosapicSys {
  iosapic : IA64IOSapicState;
  cpus : list IA64CPU
}.

#[export] Instance eta_iosapic_sys : Eta iosapic_sys := fun s => mkIosapicSys (iosapic s) (cpus s).

Definition delivery_mode (n : Z) : IA64SapicDeliveryMode :=
  if n =? 0 then IA64_SAPIC_DELIVERY_INT
  else if n =? 1 then IA64_SAPIC_DELIVERY_INT_REDIRECT
  else if n =? 2 then IA64_SAPIC_DELIVERY_PMI
  else if n =? 4 then IA64_SAPIC_DELIVERY_NMI
  else if n =? 5 then IA64_SAPIC_DELIVERY_INIT
  else if n =? 7 then IA64_SAPIC_DELIVERY_EXTINT
  else IA64_SAPIC_DELIVERY_OTHER.

Definition iosapic_update (s : iosapic_sys) (pin : Z) : iosapic_sys :=
  let r := aget (rte (iosapic s)) pin in
  let delivery := delivery_mode ((r .& RTE_DELIVERY_MODE) >>> 8) in
  let id := u8 (r >>> 56) in
  let eid := u8 (r >>> 48) in
  let masked := truth (r .& RTE_MASKED) in
  let level_triggered := truth (r .& RTE_TRIGGER_LEVEL) in
  if masked || (level_triggered && negb (aget (irq_level (iosapic s)) pin)) then s
  else if level_triggered && truth (r .& RTE_REMOTE_IRR) then s
  else
    let s := if level_triggered
             then s <| iosapic; rte ::= fun l => aset l pin (aget l pin .| RTE_REMOTE_IRR) |> else s in
    let '(sent, cpus') := ia64_sapic_deliver (cpus s) IA64_SAPIC_DESTINATION_PHYSICAL id eid false delivery
                            (r .& RTE_VECTOR_MASK) in
    let s := s <| cpus := cpus' |> in
    if negb sent && level_triggered
    then s <| iosapic; rte ::= fun l => aset l pin (aget l pin .& ~64 RTE_REMOTE_IRR) |> else s.

Definition iosapic_fix_edge_remote_irr (s : iosapic_sys) (pin : Z) : iosapic_sys :=
  if negb (truth (aget (rte (iosapic s)) pin .& RTE_TRIGGER_LEVEL))
  then s <| iosapic; rte ::= fun l => aset l pin (aget l pin .& ~64 RTE_REMOTE_IRR) |> else s.

Definition iosapic_rte_write (s : iosapic_sys) (pin val : Z) (high : bool) : iosapic_sys :=
  let r := aget (rte (iosapic s)) pin in
  let ro_bits := r .& RTE_RO_BITS in
  let r := if high then (r .& 0xffffffff) .| (val <<< 32) else (r .& 0xffffffff00000000) .| val in
  let s := s <| iosapic; rte ::= fun l => aset l pin ((r .& RTE_WRITABLE) .| ro_bits) |> in
  let s := iosapic_fix_edge_remote_irr s pin in
  if truth (aget (rte (iosapic s)) pin .& RTE_TRIGGER_LEVEL) then iosapic_update s pin else s.

(** A turn of the loop of [iosapic_eoi]. *)
Definition eoi_pin (vector : Z) (s : iosapic_sys) (pin : Z) : iosapic_sys :=
  let r := aget (rte (iosapic s)) pin in
  if negb (r .& RTE_VECTOR_MASK =? vector) || negb (truth (r .& RTE_TRIGGER_LEVEL)) then s
  else if negb (truth (r .& RTE_REMOTE_IRR)) then s
  else
    iosapic_update (s <| iosapic; rte ::= fun l => aset l pin (aget l pin .& ~64 RTE_REMOTE_IRR) |>) pin.

Definition iosapic_eoi (s : iosapic_sys) (vector : Z) : iosapic_sys :=
  for_range 0 IA64_IOSAPIC_NUM_PINS (eoi_pin vector) s.

Definition iosapic_irq_handler (s : iosapic_sys) (pin level : Z) : iosapic_sys :=
  if (pin <? 0) || (IA64_IOSAPIC_NUM_PINS <=? pin) then s
  else
    let old_level := aget (irq_level (iosapic s)) pin in
    let level := truth level in
    let s := s <| iosapic; irq_level @ pin := level |> in
    let level_triggered := truth (aget (rte (iosapic s)) pin .& RTE_TRIGGER_LEVEL) in
    if level && (level_triggered || negb old_level) then iosapic_update s pin else s.

(** [index] selects a half of a redirection entry. *)
Definition rte_index (index : Z) : bool :=
  (IOSAPIC_RTE_BASE <=? index) && (index <? IOSAPIC_RTE_BASE + IA64_IOSAPIC_NUM_PINS * 2).

Definition iosapic_read (s : iosapic_sys) (addr : Z) : Z :=
  if addr =? IOSAPIC_IOREGSEL then reg_select (iosapic s)
  else if addr =? IOSAPIC_IOWIN then
    let index := reg_select (iosapic s) in
    if index =? IOSAPIC_REG_ID then 0
    else if index =? IOSAPIC_REG_VER then IA64_IOSAPIC_VERSION
    else if rte_index index then
      let pin := (index - IOSAPIC_RTE_BASE) / 2 in
      if truth ((index - IOSAPIC_RTE_BASE) .& 1) then u32 (aget (rte (iosapic s)) pin >>> 32)
      else u32 (aget (rte (iosapic s)) pin)
    else 0
  else 0.

Definition iosapic_write (s : iosapic_sys) (addr val : Z) : iosapic_sys :=
  if addr =? IOSAPIC_IOREGSEL then s <| iosapic; reg_select := u32 val |>
  else if addr =? IOSAPIC_IOWIN then
    let index := reg_select (iosapic s) in
    if index =? IOSAPIC_REG_ID then s
    else if rte_index index then
      iosapic_rte_write s ((index - IOSAPIC_RTE_BASE) / 2) (u32 val) (truth ((index - IOSAPIC_RTE_BASE) .& 1))
    else s
  else if addr =? IOSAPIC_EOI then iosapic_eoi s (u8 val)
  else s.

Definition iosapic_reset (s : iosapic_sys) : iosapic_sys :=
  s <| iosapic := mkIOSapic (replicate 24 RTE_MASKED) (replicate 24 false) 0 |>.

(** A turn of the loop of [iosapic_post_load]. *)
Definition post_load_pin (s : iosapic_sys) (pin : Z) : iosapic_sys :=
  let s := s <| iosapic; rte ::= fun l => aset l pin (aget l pin .& (RTE_WRITABLE .| RTE_RO_BITS)) |> in
  if truth (aget (rte (iosapic s)) pin .& RTE_TRIGGER_LEVEL) then iosapic_update s pin else s.

Definition iosapic_post_load (s : iosapic_sys) : iosapic_sys :=
  for_range 0 IA64_IOSAPIC_NUM_PINS post_load_pin s.

(** ** One route *)

Definition masked (r : Z) : bool := Z.testbit r 16.
Definition level_triggered (r : Z) : bool := Z.testbit r 15.
Definition remote_irr (r : Z) : bool := Z.testbit r 14.

Definition send (cpus : list IA64CPU) (r : Z) : bool * list IA64CPU :=
  ia64_sapic_deliver cpus IA64_SAPIC_DESTINATION_PHYSICAL (u8 (r >>> 56)) (u8 (r >>> 48)) false
    (delivery_mode ((r .& RTE_DELIVERY_MODE) >>> 8)) (r .& RTE_VECTOR_MASK).

(** The route has an existing destination and a legal vector. *)
Definition deliverable (cpus : list IA64CPU) (r : Z) : bool := fst (send cpus r).

(** The route sends a request when it is evaluated. *)
Definition fires (asserted : bool) (r : Z) : bool :=
  negb (masked r) && (negb (level_triggered r) || (asserted && negb (remote_irr r))).

Lemma masked_truth r : truth (r .& RTE_MASKED) = masked r.
Proof. apply (truth_land_pow2 r 16). lia. Qed.

Lemma level_truth r : truth (r .& RTE_TRIGGER_LEVEL) = level_triggered r.
Proof. apply (truth_land_pow2 r 15). lia. Qed.

Lemma irr_truth r : truth (r .& RTE_REMOTE_IRR) = remote_irr r.
Proof. apply (truth_land_pow2 r 14). lia. Qed.

Definition with_irr (r : Z) (b : bool) : Z := if b then r .| RTE_REMOTE_IRR else r .& ~64 RTE_REMOTE_IRR.

Lemma with_irr_bit r b i :
  uint 64 r -> 0 <= i -> Z.testbit (with_irr r b) i = if i =? 14 then b else Z.testbit r i.
Proof.
  intros Hr Hi. unfold with_irr, RTE_REMOTE_IRR. change 0x4000 with (2 ^ 14).
  destruct b; zbits_step; zbits_finish.
Qed.

Lemma with_irr_same r : uint 64 r -> with_irr r (remote_irr r) = r.
Proof.
  intros Hr. apply Z.bits_inj'. intros i Hi. rewrite with_irr_bit by done.
  destruct (Z.eqb_spec i 14) as [->|]; done.
Qed.

Lemma with_irr_twice r b c : uint 64 r -> with_irr (with_irr r b) c = with_irr r c.
Proof.
  intros Hr. unfold with_irr, RTE_REMOTE_IRR. change 0x4000 with (2 ^ 14). destruct b, c; zbits.
Qed.

Lemma with_irr_uint r b : uint 64 r -> uint 64 (with_irr r b).
Proof. intros Hr. unfold with_irr. destruct b; [apply uint_lor|apply uint_land_l]; try done; lia. Qed.

Lemma with_irr_land r b m :
  RTE_REMOTE_IRR .& m = 0 -> (~64 RTE_REMOTE_IRR) .& m = m -> with_irr r b .& m = r .& m.
Proof.
  intros H1 H2. unfold with_irr. destruct b.
  - by rewrite Z.land_lor_distr_l, H1, Z.lor_0_r.
  - by rewrite <- Z.land_assoc, H2.
Qed.

Lemma with_irr_high r b k : uint 64 r -> 48 <= k -> u8 (with_irr r b >>> k) = u8 (r >>> k).
Proof.
  intros Hr Hk. unfold with_irr, RTE_REMOTE_IRR. change 0x4000 with (2 ^ 14). destruct b; zbits.
Qed.

Lemma with_irr_send cpus r b : uint 64 r -> send cpus (with_irr r b) = send cpus r.
Proof.
  intros Hr. unfold send. rewrite !with_irr_land by (vm_compute; reflexivity).
  by rewrite !with_irr_high by (done || lia).
Qed.

Lemma with_irr_fields r b :
  uint 64 r ->
  masked (with_irr r b) = masked r /\ level_triggered (with_irr r b) = level_triggered r /\
  remote_irr (with_irr r b) = b /\ with_irr r b .& RTE_VECTOR_MASK = r .& RTE_VECTOR_MASK.
Proof.
  intros Hr. unfold masked, level_triggered, remote_irr. rewrite !with_irr_bit by (done || lia).
  split_and!; try done. apply with_irr_land; vm_compute; reflexivity.
Qed.

(** ** Evaluating a route *)

Record iosapic_wf (s : iosapic_sys) : Prop := {
  io_rte : length (rte (iosapic s)) = 24%nat;
  io_level : length (irq_level (iosapic s)) = 24%nat;
  io_u64 : forall pin, uint 64 (aget (rte (iosapic s)) pin)
}.

Lemma uint_aset (l : list Z) i x pin :
  (forall pin, uint 64 (aget l pin)) -> uint 64 x -> uint 64 (aget (aset l i x) pin).
Proof.
  intros Hl Hx. destruct (Z.eq_dec i pin) as [<-|]; [|by rewrite aget_aset_ne].
  destruct (Z.lt_ge_cases i 0) as [|]; [unfold aset, aget in *; destruct (Z.leb_spec 0 i); [lia|uint_const]|].
  destruct (Z.lt_ge_cases i (alen l)); [by rewrite aget_aset_eq|].
  rewrite aset_out by lia. done.
Qed.

Lemma update_spec s pin :
  iosapic_wf s -> 0 <= pin < 24 ->
  let r := aget (rte (iosapic s)) pin in
  let asserted := aget (irq_level (iosapic s)) pin in
  iosapic_update s pin =
  if fires asserted r then
    s <| iosapic; rte := aset (rte (iosapic s)) pin
           (if level_triggered r then with_irr r (deliverable (cpus s) r) else r) |>
      <| cpus := snd (send (cpus s) r) |>
  else s.
Proof.
  intros [Hl _ Hu] Hp r asserted. pose proof (Hu pin) as Hr. fold r in Hr.
  assert (Hp' : 0 <= pin < alen (rte (iosapic s))) by lia.
  unfold iosapic_update. cbv zeta. fold r asserted. rewrite masked_truth, level_truth, irr_truth.
  unfold fires, deliverable. fold (send (cpus s) r).
  destruct (masked r); cbn [orb andb negb]; [done|].
  destruct (level_triggered r) eqn:El; cbn [orb andb negb].
  - destruct asserted; cbn [orb andb negb]; [|done]. destruct (remote_irr r) eqn:Ei; cbn [negb]; [done|].
    match goal with |- context [ia64_sapic_deliver ?c ?a ?b ?d ?e ?f ?g] =>
      change (ia64_sapic_deliver c a b d e f g) with (send (cpus s) r) end. destruct (send (cpus s) r) as [[] c] eqn:E; cbn [negb andb fst snd].
    + destruct s as [[l ? ?] ?]. done.
    + assert (E2 : with_irr r false = r) by (rewrite <- Ei; by apply with_irr_same).
      destruct s as [[l il rs] cs]. change (aget l pin) with r.
      change (mkIosapicSys (mkIOSapic (aset (aset l pin (with_irr r true)) pin
        (with_irr (aget (aset l pin (with_irr r true)) pin) false)) il rs) c =
        mkIosapicSys (mkIOSapic (aset l pin (with_irr r false)) il rs) c).
      by rewrite aget_aset_eq, aset_aset, with_irr_twice by done.
  - change (ia64_sapic_deliver _ _ _ _ _ _ _) with (send (cpus s) r).
    destruct (send (cpus s) r) as [sent c] eqn:E. rewrite andb_false_r. cbn [snd].
    destruct s as [[l il rs] cs]. change (mkIosapicSys (mkIOSapic l il rs) c = mkIosapicSys (mkIOSapic (aset l pin (aget l pin)) il rs) c).
    by rewrite aset_same.
Qed.

(** ** The destinations *)

Definition lids (cpus : list IA64CPU) : list Z := (fun cpu => lid cpu) <$> cpus.

Lemma find_by_lid cpus id eid :
  ia64_cpu_by_sapic_id cpus id eid =
  fst <$> list_find (fun l => l .& (IA64_SAPIC_LID_ID_MASK .| IA64_SAPIC_LID_EID_MASK) = ia64_sapic_lid id eid) (lids cpus).
Proof.
  unfold ia64_cpu_by_sapic_id, lids. rewrite list_find_fmap, <- option_fmap_compose.
  apply option_fmap_ext. by intros [].
Qed.

Lemma deliver_to_lid cpu d v : lid (sapic_deliver_to cpu d v) = lid cpu.
Proof.
  destruct d; cbn [sapic_deliver_to]; unfold ia64_sapic_set_irq, ia64_sapic_set_irq_work, ia64_sapic_set_special_work, async_run_on_cpu;
    destruct (is_self cpu); rewrite ?env_update; try done; case_decide; done.
Qed.

Lemma send_lids cpus r : lids (snd (send cpus r)) = lids cpus.
Proof.
  unfold send, ia64_sapic_deliver. destruct (deliver_vector _ _ _) as [[redirect v]|]; [|done].
  destruct (ia64_cpu_by_sapic_id _ _ _) as [k|]; [|done]. cbn [snd]. unfold lids.
  match goal with |- context [alter _ ?t _] => generalize t end. intros k'. apply list_eq. intros i. rewrite !list_lookup_fmap.
  destruct (decide (i = k')) as [->|].
  - rewrite list_lookup_alter_eq. destruct (cpus !! k'); [|done]. cbn. f_equal. apply deliver_to_lid.
  - by rewrite list_lookup_alter_ne.
Qed.

(** The route has a legal vector and names one of the identifiers [ids]. *)
Definition addressed (ids : list Z) (r : Z) : bool :=
  match deliver_vector false (delivery_mode ((r .& RTE_DELIVERY_MODE) >>> 8)) (r .& RTE_VECTOR_MASK) with
  | None => false
  | Some _ => existsb (fun l =>
      l .& (IA64_SAPIC_LID_ID_MASK .| IA64_SAPIC_LID_EID_MASK) =? ia64_sapic_lid (u8 (r >>> 56)) (u8 (r >>> 48))) ids
  end.

(** A route to an identifier that some processor has can be delivered. *)
Lemma addressed_deliverable ids cpus r :
  ids ⊆ lids cpus -> addressed ids r = true -> deliverable cpus r = true.
Proof.
  intros Hsub. unfold addressed, deliverable, send, ia64_sapic_deliver.
  destruct (deliver_vector _ _ _) as [[redirect v]|]; [|done].
  intros (l & Hl%list_elem_of_In & El%Z.eqb_eq)%List.existsb_exists. rewrite find_by_lid.
  match goal with |- context [list_find ?P _] =>
    destruct (list_find_elem_of P _ l (Hsub l Hl) El) as [[i l'] ->] end. done.
Qed.

Lemma with_irr_addressed ids r b : uint 64 r -> addressed ids (with_irr r b) = addressed ids r.
Proof.
  intros Hr. unfold addressed. rewrite !with_irr_land by (vm_compute; reflexivity).
  by rewrite !with_irr_high by (done || lia).
Qed.

(** ** The invariant *)

Section invariant.
(** Identifiers that processors have throughout. *)
Variable ids : list Z.

(** An edge route has no Remote IRR, nothing but the defined bits is set, and an
    asserted, unmasked level route to one of the identifiers has been
    requested. *)
Record route_ok (asserted : bool) (r : Z) : Prop := {
  rt_edge : remote_irr r = true -> level_triggered r = true;
  rt_bits : r .& (RTE_WRITABLE .| RTE_REMOTE_IRR) = r;
  rt_sent : level_triggered r = true -> masked r = false -> asserted = true -> addressed ids r = true ->
    remote_irr r = true
}.

Record iosapic_inv (s : iosapic_sys) : Prop := {
  in_wf : iosapic_wf s;
  in_ids : ids ⊆ lids (cpus s);
  in_routes : forall pin, 0 <= pin < 24 ->
    route_ok (aget (irq_level (iosapic s)) pin) (aget (rte (iosapic s)) pin)
}.

Definition routes_but (pin : Z) (s : iosapic_sys) : Prop :=
  forall p, 0 <= p < 24 -> p <> pin ->
    route_ok (aget (irq_level (iosapic s)) p) (aget (rte (iosapic s)) p).

Lemma uint_route r : r .& (RTE_WRITABLE .| RTE_REMOTE_IRR) = r -> uint 64 r.
Proof. intros <-. apply uint_land_r; [lia|uint_const]. Qed.

Lemma with_irr_bits r b :
  r .& (RTE_WRITABLE .| RTE_REMOTE_IRR) = r ->
  with_irr r b .& (RTE_WRITABLE .| RTE_REMOTE_IRR) = with_irr r b.
Proof.
  intros Hr. unfold with_irr. destruct b.
  - by rewrite Z.land_lor_distr_l, Hr.
  - by rewrite <- Z.land_assoc, (Z.land_comm (~64 _)), Z.land_assoc, Hr.
Qed.

(** The route after it has been evaluated. *)
Definition evaluated (cpus : list IA64CPU) (asserted : bool) (r : Z) : Z :=
  if fires asserted r && level_triggered r then with_irr r (deliverable cpus r) else r.

Record updated (s : iosapic_sys) (pin : Z) (s' : iosapic_sys) : Prop := {
  up_rte : rte (iosapic s') = aset (rte (iosapic s)) pin
    (evaluated (cpus s) (aget (irq_level (iosapic s)) pin) (aget (rte (iosapic s)) pin));
  up_level : irq_level (iosapic s') = irq_level (iosapic s);
  up_select : reg_select (iosapic s') = reg_select (iosapic s);
  up_cpus : cpus s' = if fires (aget (irq_level (iosapic s)) pin) (aget (rte (iosapic s)) pin)
                      then snd (send (cpus s) (aget (rte (iosapic s)) pin)) else cpus s
}.

Lemma update_updated s pin : iosapic_wf s -> 0 <= pin < 24 -> updated s pin (iosapic_update s pin).
Proof.
  intros Hwf Hp. rewrite (update_spec s pin Hwf Hp). cbv zeta. unfold evaluated.
  destruct (fires _ _) eqn:Ef.
  - split; try done; unfold evaluated; rewrite Ef; done.
  - split; try done; rewrite ?Ef; try done. unfold evaluated. rewrite Ef. cbn [andb]. by rewrite aset_same.
Qed.

Lemma updated_lids s pin s' : updated s pin s' -> lids (cpus s') = lids (cpus s).
Proof. intros [_ _ _ ->]. destruct (fires _ _); [apply send_lids|done]. Qed.

Lemma evaluated_uint cpus a r : uint 64 r -> uint 64 (evaluated cpus a r).
Proof. intros Hr. unfold evaluated. case_match; [by apply with_irr_uint|done]. Qed.

Lemma evaluated_ok cpus a r :
  ids ⊆ lids cpus ->
  r .& (RTE_WRITABLE .| RTE_REMOTE_IRR) = r -> (remote_irr r = true -> level_triggered r = true) ->
  route_ok a (evaluated cpus a r).
Proof.
  intros Hids Hb He. pose proof (uint_route r Hb) as Hr. unfold evaluated.
  destruct (fires a r && level_triggered r) eqn:E.
  - apply andb_true_iff in E as [_ El]. destruct (with_irr_fields r (deliverable cpus r) Hr) as (E1 & E2 & E3 & _).
    split; [by rewrite E2|by apply with_irr_bits|]. intros _ _ _.
    rewrite with_irr_addressed, E3 by done. by apply addressed_deliverable.
  - split; [done|done|]. intros El Em -> _. unfold fires in E. rewrite El, Em in E. cbn in E.
    rewrite andb_true_r in E. by apply negb_false_iff in E.
Qed.

(** Evaluating a route establishes its part of the invariant. *)
Lemma updated_inv s pin s' :
  updated s pin s' -> iosapic_wf s -> ids ⊆ lids (cpus s) -> 0 <= pin < 24 -> routes_but pin s ->
  aget (rte (iosapic s)) pin .& (RTE_WRITABLE .| RTE_REMOTE_IRR) = aget (rte (iosapic s)) pin ->
  (remote_irr (aget (rte (iosapic s)) pin) = true -> level_triggered (aget (rte (iosapic s)) pin) = true) ->
  iosapic_inv s'.
Proof.
  intros Hup [Hl1 Hl2 Hu] Hids Hp Hbut Hb He. pose proof (updated_lids s pin s' Hup) as Hlids. destruct Hup as [E1 E2 _ _].
  split; [split| |].
  - by rewrite E1, aset_length.
  - by rewrite E2.
  - intros p. rewrite E1. apply uint_aset; [done|]. by apply evaluated_uint.
  - by rewrite Hlids.
  - intros p Hpr. rewrite E1, E2.
    destruct (Z.eq_dec pin p) as [<-|Hne].
    + rewrite aget_aset_eq by lia. by apply evaluated_ok.
    + rewrite aget_aset_ne by done. by apply Hbut.
Qed.

Lemma update_inv_pin s pin :
  iosapic_wf s -> ids ⊆ lids (cpus s) -> 0 <= pin < 24 -> routes_but pin s ->
  aget (rte (iosapic s)) pin .& (RTE_WRITABLE .| RTE_REMOTE_IRR) = aget (rte (iosapic s)) pin ->
  (remote_irr (aget (rte (iosapic s)) pin) = true -> level_triggered (aget (rte (iosapic s)) pin) = true) ->
  iosapic_inv (iosapic_update s pin).
Proof. intros Hwf Hids Hp. by apply (updated_inv s pin); [apply update_updated|..]. Qed.

(** ** The operations keep the invariant *)

Lemma changed_but s s' pin r b :
  iosapic_inv s -> 0 <= pin < 24 -> uint 64 r ->
  rte (iosapic s') = aset (rte (iosapic s)) pin r -> irq_level (iosapic s') = aset (irq_level (iosapic s)) pin b ->
  cpus s' = cpus s ->
  (iosapic_wf s' /\ ids ⊆ lids (cpus s')) /\ routes_but pin s' /\
  aget (rte (iosapic s')) pin = r /\ aget (irq_level (iosapic s')) pin = b.
Proof.
  intros [[Hl1 Hl2 Hu] Hids Hr] Hp Hru E1 E2 E3. split_and!.
  - split; [by rewrite E1, aset_length|by rewrite E2, aset_length|]. intros p. rewrite E1. by apply uint_aset.
  - by rewrite E3.
  - intros p Hpr Hne. rewrite E1, E2, !aget_aset_ne by done. by apply Hr.
  - rewrite E1. apply aget_aset_eq. lia.
  - rewrite E2. apply aget_aset_eq. lia.
Qed.

Lemma inv_of_but s pin :
  iosapic_wf s /\ ids ⊆ lids (cpus s) -> routes_but pin s ->
  route_ok (aget (irq_level (iosapic s)) pin) (aget (rte (iosapic s)) pin) -> iosapic_inv s.
Proof. intros [Hwf Hids] Hb Hr. split; [done|done|]. intros p Hp. destruct (Z.eq_dec p pin) as [->|]; [done|by apply Hb]. Qed.

Lemma handler_inv s pin level : iosapic_inv s -> iosapic_inv (iosapic_irq_handler s pin level).
Proof.
  intros Hi. unfold iosapic_irq_handler. change IA64_IOSAPIC_NUM_PINS with 24.
  destruct (Z.ltb_spec pin 0); [done|]. destruct (Z.leb_spec 24 pin); [done|]. cbn [orb]. cbv zeta.
  assert (Hp : 0 <= pin < 24) by lia. set (r := aget (rte (iosapic s)) pin).
  set (s1 := s <| iosapic; irq_level @ pin := truth level |>).
  destruct (in_routes _ Hi pin Hp) as [Ht1 Ht2 Ht3]. fold r in Ht1, Ht2, Ht3.
  destruct (changed_but s s1 pin r (truth level) Hi Hp) as (Hwf & Hbut & E1 & E2);
    [apply (io_u64 _ (in_wf _ Hi))|unfold r; by rewrite aset_same|done|done|]. fold r in E1.
  clearbody s1. rewrite E1, level_truth.
  destruct (truth level) eqn:El; cbn [andb].
  - destruct (level_triggered r) eqn:Elt; cbn [orb].
    + by apply update_inv_pin; rewrite ?E1; try apply Hwf.
    + destruct (aget (irq_level (iosapic s)) pin); cbn [negb];
        [|apply update_inv_pin; rewrite ?E1; try apply Hwf; try done; by rewrite Elt].
      apply (inv_of_but s1 pin); [done|done|]. rewrite E1, E2. split; [by rewrite Elt|done|]. by rewrite Elt.
  - apply (inv_of_but s1 pin); [done|done|]. rewrite E1, E2. by split.
Qed.

Lemma eoi_pin_inv s pin vector : iosapic_inv s -> 0 <= pin < 24 -> iosapic_inv (eoi_pin vector s pin).
Proof.
  intros Hi Hp. unfold eoi_pin. cbv zeta. set (r := aget (rte (iosapic s)) pin). rewrite level_truth, irr_truth.
  destruct (_ || _); [done|]. destruct (remote_irr r); cbn [negb]; [|done].
  destruct (in_routes _ Hi pin Hp) as [Ht1 Ht2 _]. fold r in Ht1, Ht2. pose proof (uint_route r Ht2) as Hr.
  set (s1 := s <| iosapic; rte ::= fun l => aset l pin (aget l pin .& ~64 RTE_REMOTE_IRR) |>).
  destruct (changed_but s s1 pin (with_irr r false) (aget (irq_level (iosapic s)) pin) Hi Hp) as (Hwf & Hbut & E1 & E2);
    [by apply with_irr_uint|done|by rewrite aset_same|done|]. clearbody s1.
  destruct (with_irr_fields r false Hr) as (_ & F2 & F3 & _).
  apply update_inv_pin; rewrite ?E1; try apply Hwf; try done; [by apply with_irr_bits|by rewrite F3].
Qed.

Lemma eoi_inv_io s vector : iosapic_inv s -> iosapic_inv (iosapic_eoi s vector).
Proof.
  intros Hi. unfold iosapic_eoi. apply for_range_inv; [done|].
  intros pin s' Hp Hi'. by apply eoi_pin_inv.
Qed.

(** The bits of a written route: the writable bits of the value, and the
    read-only bits as they were. *)
Definition rte_merged (r val : Z) (high : bool) : Z :=
  (((if high then (r .& 0xffffffff) .| (val <<< 32) else (r .& 0xffffffff00000000) .| val) .& RTE_WRITABLE) .|
   (r .& RTE_RO_BITS)).

Lemma merged_bits r val high :
  r .& (RTE_WRITABLE .| RTE_REMOTE_IRR) = r ->
  let r' := rte_merged r val high in
  r' .& (RTE_WRITABLE .| RTE_REMOTE_IRR) = r' /\ remote_irr r' = remote_irr r.
Proof.
  intros Hr r'. unfold r', rte_merged. set (x := if high then _ else _). clearbody x. clear r'.
  assert (Hro : r .& RTE_RO_BITS = r .& RTE_REMOTE_IRR).
  { rewrite <- Hr at 1. rewrite <- Z.land_assoc. f_equal. }
  rewrite Hro. split.
  - rewrite Z.land_lor_distr_l, <- !Z.land_assoc. f_equal.
  - unfold remote_irr, RTE_REMOTE_IRR. rewrite Z.lor_spec, !Z.land_spec.
    change (Z.testbit RTE_WRITABLE 14) with false. change (Z.testbit 0x4000 14) with true.
    by rewrite andb_false_r, andb_true_r.
Qed.

(** An edge route loses its Remote IRR. *)
Definition edge_fixed (r : Z) : Z := if level_triggered r then r else with_irr r false.

Lemma edge_fixed_ok r :
  r .& (RTE_WRITABLE .| RTE_REMOTE_IRR) = r ->
  edge_fixed r .& (RTE_WRITABLE .| RTE_REMOTE_IRR) = edge_fixed r /\
  level_triggered (edge_fixed r) = level_triggered r /\
  (remote_irr (edge_fixed r) = true -> level_triggered (edge_fixed r) = true).
Proof.
  intros Hb. unfold edge_fixed. destruct (level_triggered r) eqn:El; [by split_and!|].
  destruct (with_irr_fields r false (uint_route r Hb)) as (_ & F2 & F3 & _).
  split_and!; [by apply with_irr_bits|by rewrite F2|by rewrite F3].
Qed.

(** The table after the write, before the route is evaluated. *)
Lemma rte_write_eq s pin val high :
  iosapic_wf s -> 0 <= pin < 24 ->
  let r := edge_fixed (rte_merged (aget (rte (iosapic s)) pin) val high) in
  let s1 := s <| iosapic; rte ::= fun l => aset l pin r |> in
  iosapic_rte_write s pin val high = if level_triggered r then iosapic_update s1 pin else s1.
Proof.
  intros [Hl _ _] Hp. cbv zeta. unfold iosapic_rte_write, iosapic_fix_edge_remote_irr. cbv zeta.
  change ((if high then (aget (rte (iosapic s)) pin .& 0xffffffff) .| (val <<< 32)
           else (aget (rte (iosapic s)) pin .& 0xffffffff00000000) .| val) .& RTE_WRITABLE .|
          (aget (rte (iosapic s)) pin .& RTE_RO_BITS)) with (rte_merged (aget (rte (iosapic s)) pin) val high).
  set (m := rte_merged _ val high). rewrite !level_truth.
  assert (E : forall (s : iosapic_sys) x, length (rte (iosapic s)) = 24%nat ->
    aget (rte (iosapic (s <| iosapic; rte ::= fun l => aset l pin x |>))) pin = x).
  { intros s' x Hl'. apply aget_aset_eq. lia. }
  rewrite (E s m Hl). unfold edge_fixed. destruct (level_triggered m) eqn:El; cbn [negb].
  { by rewrite (E s m Hl), El. }
  assert (E2 : s <| iosapic; rte ::= fun l => aset l pin m |> <| iosapic; rte ::= fun l => aset l pin (aget l pin .& ~64 RTE_REMOTE_IRR) |> =
    s <| iosapic; rte ::= fun l => aset l pin (with_irr m false) |>).
  { destruct s as [[l il rs] cs]. cbn [iosapic rte] in Hl.
    change (mkIosapicSys (mkIOSapic (aset (aset l pin m) pin (with_irr (aget (aset l pin m) pin) false)) il rs) cs =
      mkIosapicSys (mkIOSapic (aset l pin (with_irr m false)) il rs) cs).
    by rewrite aset_aset, aget_aset_eq by lia. }
  rewrite E2, (E s _ Hl). done.
Qed.

Lemma rte_write_inv s pin val high :
  iosapic_inv s -> 0 <= pin < 24 -> iosapic_inv (iosapic_rte_write s pin val high).
Proof.
  intros Hi Hp. rewrite (rte_write_eq s pin val high (in_wf _ Hi) Hp). cbv zeta.
  destruct (in_routes _ Hi pin Hp) as [_ Ht2 _].
  destruct (merged_bits _ val high Ht2) as [Hb _]. destruct (edge_fixed_ok _ Hb) as (Hb' & _ & He).
  set (r := edge_fixed _) in *. clearbody r.
  destruct (changed_but s (s <| iosapic; rte ::= fun l => aset l pin r |>) pin r (aget (irq_level (iosapic s)) pin) Hi Hp)
    as (Hwf & Hbut & E1 & E2); [by apply uint_route|done|by rewrite aset_same|done|].
  set (s1 := s <| iosapic; rte ::= _ |>) in *. clearbody s1.
  destruct (level_triggered r) eqn:El.
  - by apply update_inv_pin; rewrite ?E1; try apply Hwf.
  - apply (inv_of_but s1 pin); [done|done|]. rewrite E1, E2. split; [by rewrite El|done|by rewrite El].
Qed.

Lemma select_inv s x : iosapic_inv s -> iosapic_inv (s <| iosapic; reg_select := x |>).
Proof. intros [[] ? ?]. by split. Qed.

Lemma write_inv s addr val : iosapic_inv s -> iosapic_inv (iosapic_write s addr val).
Proof.
  intros Hi. unfold iosapic_write. cbv zeta. case_match; [by apply select_inv|]. case_match.
  - case_match; [done|]. destruct (rte_index _) eqn:E; [|done]. apply rte_write_inv; [done|].
    unfold rte_index, IOSAPIC_RTE_BASE, IA64_IOSAPIC_NUM_PINS in *.
    apply andb_true_iff in E as [Hb%Z.leb_le Ht%Z.ltb_lt]. split; [apply Z.div_pos; lia|apply Z.div_lt_upper_bound; lia].
  - case_match; [by apply eoi_inv_io|done].
Qed.

Lemma post_load_inv s : iosapic_inv s -> iosapic_inv (iosapic_post_load s).
Proof.
  intros Hi. unfold iosapic_post_load. apply for_range_inv; [done|]. clear s Hi. intros pin s Hp Hi. unfold post_load_pin. cbv zeta.
  change (0 <= pin < 24) in Hp. set (r := aget (rte (iosapic s)) pin). destruct (in_routes _ Hi pin Hp) as [Ht1 Ht2 Ht3].
  fold r in Ht1, Ht2, Ht3. assert (Er : r .& (RTE_WRITABLE .| RTE_RO_BITS) = r).
  { rewrite <- Ht2 at 1. rewrite <- Z.land_assoc. exact Ht2. }
  destruct (changed_but s (s <| iosapic; rte ::= fun l => aset l pin (aget l pin .& (RTE_WRITABLE .| RTE_RO_BITS)) |>)
    pin r (aget (irq_level (iosapic s)) pin) Hi Hp) as (Hwf & Hbut & E1 & E2); [by apply uint_route| |by rewrite aset_same|done|].
  { change (aset (rte (iosapic s)) pin (r .& (RTE_WRITABLE .| RTE_RO_BITS)) = aset (rte (iosapic s)) pin r). by rewrite Er. }
  set (s1 := s <| iosapic; rte ::= _ |>) in *. clearbody s1.
  rewrite E1, level_truth. destruct (level_triggered r) eqn:El.
  - by apply update_inv_pin; rewrite ?E1; try apply Hwf.
  - apply (inv_of_but s1 pin); [done|done|]. rewrite E1, E2. split; [by rewrite El|done|by rewrite El].
Qed.

Lemma reset_inv s : ids ⊆ lids (cpus s) -> iosapic_inv (iosapic_reset s).
Proof.
  intros Hids.
  assert (Hu : forall pin, uint 64 (aget (replicate 24 RTE_MASKED) pin)).
  { intros pin. apply Forall_aget; [|uint_const]. apply Forall_replicate. uint_const. }
  split; [by split|done|]. intros pin Hp. change (rte (iosapic (iosapic_reset s))) with (replicate 24 RTE_MASKED).
  rewrite (aget_replicate 24 RTE_MASKED) by lia. split; [intros H; discriminate H|reflexivity|intros H; discriminate H].
Qed.

(** ** Executions *)

(** What can happen: an input changes, the processors write a register, a
    snapshot is loaded, the machine is reset, and the processors run, taking and
    ending interrupts and writing their control registers, [CR.LID]
    included. *)
Inductive iosapic_step : iosapic_sys -> iosapic_sys -> Prop :=
  | step_input s pin level : iosapic_step s (iosapic_irq_handler s pin level)
  | step_write s addr val : iosapic_step s (iosapic_write s addr val)
  | step_load s : iosapic_step s (iosapic_post_load s)
  | step_reset s : iosapic_step s (iosapic_reset s)
  | step_cpus s cpus' : iosapic_step s (s <| cpus := cpus' |>).

(** A step after which the identifiers are still those of processors. *)
Definition held_step (s s' : iosapic_sys) : Prop := iosapic_step s s' /\ ids ⊆ lids (cpus s').

Lemma step_inv_io s s' : held_step s s' -> iosapic_inv s -> iosapic_inv s'.
Proof.
  intros [Hs Hids] Hi. destruct Hs as [s pin level|s addr val|s|s|s cpus'].
  - by apply handler_inv.
  - by apply write_inv.
  - by apply post_load_inv.
  - by apply reset_inv.
  - destruct Hi as [[] _ Hr]. by split.
Qed.

Lemma held_inv s0 s :
  ids ⊆ lids (cpus s0) -> rtc held_step (iosapic_reset s0) s -> iosapic_inv s.
Proof.
  intros H0 Hr. apply reset_inv in H0. revert H0. induction Hr as [|x y z Hxy _ IH]; [done|].
  intros Hx. apply IH. by apply (step_inv_io x).
Qed.
End invariant.

(** C20. In every state reachable from reset, whatever the inputs, the register
    writes, the EOIs and the processors do: an asserted level-triggered input
    that is unmasked, has a legal vector and names an identifier that some
    processor has had since the reset has its Remote IRR set, so its request has
    been sent and no request is lost; an edge-triggered route never has Remote
    IRR set; and only the defined bits of a route are set.  [ids] are the
    identifiers that processors keep; other identifiers may come and go with
    writes of [CR.LID], and the device does not evaluate its routes again when a
    processor takes one. *)
Theorem asserted_level_requested ids s0 s pin :
  ids ⊆ lids (cpus s0) -> rtc (held_step ids) (iosapic_reset s0) s -> 0 <= pin < 24 ->
  let r := aget (rte (iosapic s)) pin in
  (level_triggered r = true -> masked r = false -> aget (irq_level (iosapic s)) pin = true ->
   addressed ids r = true -> remote_irr r = true) /\
  (level_triggered r = false -> remote_irr r = false) /\
  r .& (RTE_WRITABLE .| RTE_REMOTE_IRR) = r.
Proof.
  intros H0 Hr Hp r. destruct (in_routes _ _ (held_inv ids s0 s H0 Hr) pin Hp) as [He Hb Hs].
  split_and!; [exact Hs| |exact Hb]. intros El. destruct (remote_irr r) eqn:E; [|done].
  specialize (He E). fold r in He. congruence.
Qed.

(** ** One input as a machine of its own *)

Inductive pin_event : Set :=
  | Signal (level : Z)
  | Eoi.

(** The input, whether a request is outstanding, and the requests sent. *)
Record pin_state : Set := mkPin {
  asserted : bool;
  outstanding : bool;
  requests : nat
}.

(** A level route sends when its input is asserted and nothing is outstanding,
    and again at the EOI while the input is still asserted; an edge route
    sends at each rising edge. *)
Definition pin_step (level : bool) (st : pin_state) (ev : pin_event) : pin_state :=
  match ev with
  | Signal l =>
      let b := truth l in
      if level then mkPin b (outstanding st || b) (requests st + (if b && negb (outstanding st) then 1 else 0))
      else mkPin b (outstanding st) (requests st + (if b && negb (asserted st) then 1 else 0))
  | Eoi =>
      if level && outstanding st
      then mkPin (asserted st) (asserted st) (requests st + (if asserted st then 1 else 0)) else st
  end.

(** The same events on the device. *)
Definition device_step (pin vector : Z) (s : iosapic_sys) (ev : pin_event) : iosapic_sys :=
  match ev with
  | Signal l => iosapic_irq_handler s pin l
  | Eoi => iosapic_write s IOSAPIC_EOI vector
  end.

(** [n] interrupts posted to the processor at [k]. *)
Definition posted (v : Z) (n k : nat) (cpus : list IA64CPU) : list IA64CPU :=
  alter (fun cpu => cpu <| work_queue ::= fun q => q ++ replicate n (SetIrqWork v) |>) k cpus.

Lemma posted_S v n k cpus :
  alter (fun cpu => async_run_on_cpu cpu (SetIrqWork v)) k (posted v n k cpus) = posted v (S n) k cpus.
Proof.
  unfold posted. apply list_eq. intros i. destruct (decide (i = k)) as [->|]; [|by rewrite !list_lookup_alter_ne].
  rewrite !list_lookup_alter_eq. destruct (cpus !! k) as [c|]; [|done].
  change (Some (c <| work_queue := (work_queue c ++ replicate n (SetIrqWork v)) ++ [SetIrqWork v] |>) =
    Some (c <| work_queue := work_queue c ++ replicate (S n) (SetIrqWork v) |>)).
  by rewrite replicate_S_end, app_assoc.
Qed.

Lemma posted_0 v k cpus : posted v 0 k cpus = cpus.
Proof.
  unfold posted. apply list_eq. intros i. destruct (decide (i = k)) as [->|]; [|by rewrite list_lookup_alter_ne].
  rewrite list_lookup_alter_eq. destruct (cpus !! k) as [c|]; [|done].
  change (Some (c <| work_queue := work_queue c ++ [] |>) = Some c). rewrite app_nil_r. by destruct c.
Qed.

Lemma posted_lids v n k cpus : lids (posted v n k cpus) = lids cpus.
Proof.
  unfold lids, posted. apply list_eq. intros i. rewrite !list_lookup_fmap. destruct (decide (i = k)) as [->|].
  - rewrite list_lookup_alter_eq. by destruct (cpus !! k).
  - by rewrite list_lookup_alter_ne.
Qed.

(** An ordinary interrupt to a processor that runs in another thread. *)
Record plain_route (cpus : list IA64CPU) (k : nat) (r : Z) : Prop := {
  pl_unmasked : masked r = false;
  pl_mode : delivery_mode ((r .& RTE_DELIVERY_MODE) >>> 8) = IA64_SAPIC_DELIVERY_INT;
  pl_vector : ia64_external_interrupt_vector_valid (r .& RTE_VECTOR_MASK) = true;
  pl_target : ia64_cpu_by_sapic_id cpus (u8 (r >>> 56)) (u8 (r >>> 48)) = Some k;
  pl_other : forall cpu, cpus !! k = Some cpu -> is_self cpu = false
}.

Lemma plain_send cpus k r n :
  plain_route cpus k r ->
  send (posted (r .& RTE_VECTOR_MASK) n k cpus) r =
  (true, posted (r .& RTE_VECTOR_MASK) (S n) k cpus).
Proof.
  intros [_ Hm Hv Ht Ho]. set (v := r .& RTE_VECTOR_MASK) in *. unfold send. fold v. rewrite Hm.
  unfold ia64_sapic_deliver, deliver_vector. rewrite Hv, find_by_lid, posted_lids, <- find_by_lid, Ht. cbn [andb].
  f_equal. rewrite <- posted_S. apply list_eq. intros i. destruct (decide (i = k)) as [->|]; [|by rewrite !list_lookup_alter_ne].
  rewrite !list_lookup_alter_eq. unfold posted. rewrite list_lookup_alter_eq. destruct (cpus !! k) as [c|] eqn:E; [|done].
  specialize (Ho _ eq_refl). destruct c as [e ci ih ha se it q cr]. cbn [is_self] in Ho. subst se. done.
Qed.

(** The device after the events of one input. *)
Record tracks (s0 : iosapic_sys) (pin : Z) (k : nat) (st : pin_state) (s : iosapic_sys) : Prop := {
  tk_rte : rte (iosapic s) =
    aset (rte (iosapic s0)) pin (with_irr (aget (rte (iosapic s0)) pin) (outstanding st));
  tk_level : irq_level (iosapic s) = aset (irq_level (iosapic s0)) pin (asserted st);
  tk_cpus : cpus s = posted (aget (rte (iosapic s0)) pin .& RTE_VECTOR_MASK) (requests st) k (cpus s0)
}.

Section one_input.
Context (s0 : iosapic_sys) (pin : Z) (k : nat).
Let r0 := aget (rte (iosapic s0)) pin.
Let v := r0 .& RTE_VECTOR_MASK.
Hypothesis Hwf : iosapic_wf s0.
Hypothesis Hpin : 0 <= pin < 24.
Hypothesis Hroute : plain_route (cpus s0) k r0.
Hypothesis Halone : forall p, 0 <= p < 24 -> p <> pin -> aget (rte (iosapic s0)) p .& RTE_VECTOR_MASK <> v.

Lemma r0_uint : uint 64 r0.
Proof. apply Hwf. Qed.

Lemma tracks_wf st s : tracks s0 pin k st s ->
  iosapic_wf s /\ aget (rte (iosapic s)) pin = with_irr r0 (outstanding st) /\
  aget (irq_level (iosapic s)) pin = asserted st.
Proof.
  intros [E1 E2 _]. destruct Hwf as [H1 H2 H3]. split_and!.
  - split; [by rewrite E1, aset_length|by rewrite E2, aset_length|]. intros p. rewrite E1. apply uint_aset; [done|].
    apply with_irr_uint, r0_uint.
  - rewrite E1. apply aget_aset_eq. lia.
  - rewrite E2. apply aget_aset_eq. lia.
Qed.

(** Evaluating the route in a state that it tracks. *)
Lemma tracks_update st s :
  tracks s0 pin k st s -> (outstanding st = true -> level_triggered r0 = true) ->
  let sends := negb (level_triggered r0) || (asserted st && negb (outstanding st)) in
  tracks s0 pin k (mkPin (asserted st)
    (if level_triggered r0 then outstanding st || sends else outstanding st)
    (requests st + (if sends then 1 else 0))) (iosapic_update s pin).
Proof.
  intros Ht He sends. destruct (tracks_wf st s Ht) as (Hwf' & Er & Ea). pose proof r0_uint as Hu.
  destruct (update_updated s pin Hwf' Hpin) as [U1 U2 _ U4]. rewrite Er, Ea in U1, U4.
  destruct (with_irr_fields r0 (outstanding st) Hu) as (F1 & F2 & F3 & _).
  assert (Ef : fires (asserted st) (with_irr r0 (outstanding st)) = sends).
  { unfold fires. rewrite F1, F2, F3, (pl_unmasked _ _ _ Hroute). done. }
  destruct Ht as [T1 T2 T3]. fold r0 v in T1, T3.
  assert (Es : send (cpus s) (with_irr r0 (outstanding st)) = (true, posted v (S (requests st)) k (cpus s0))).
  { rewrite with_irr_send, T3 by done. by apply plain_send. }
  split; cbn [asserted outstanding requests].
  - rewrite U1, T1, aset_aset. f_equal. unfold evaluated. rewrite Ef, F2. unfold deliverable. rewrite Es. cbn [fst].
    fold r0. destruct (level_triggered r0); rewrite ?andb_false_r, ?andb_true_r; [|done].
    destruct sends; [|by rewrite orb_false_r]. by rewrite orb_true_r, with_irr_twice.
  - by rewrite U2, T2.
  - fold r0 v. rewrite U4, Ef. destruct sends; [|by rewrite Nat.add_0_r]. rewrite Es, Nat.add_1_r. done.
Qed.

Lemma tracks_signal st s l :
  tracks s0 pin k st s -> (outstanding st = true -> level_triggered r0 = true) ->
  tracks s0 pin k (pin_step (level_triggered r0) st (Signal l)) (iosapic_irq_handler s pin l).
Proof.
  intros Ht He. destruct (tracks_wf st s Ht) as (_ & Er & Ea). pose proof r0_uint as Hu.
  unfold iosapic_irq_handler. change IA64_IOSAPIC_NUM_PINS with 24.
  destruct (Z.ltb_spec pin 0); [lia|]. destruct (Z.leb_spec 24 pin); [lia|]. cbn [orb]. cbv zeta. rewrite Ea.
  change (rte (iosapic (s <| iosapic; irq_level @ pin := truth l |>))) with (rte (iosapic s)).
  rewrite Er, level_truth. destruct (with_irr_fields r0 (outstanding st) Hu) as (_ & -> & _ & _).
  set (s1 := s <| iosapic; irq_level @ pin := truth l |>).
  assert (Ht1 : tracks s0 pin k (mkPin (truth l) (outstanding st) (requests st)) s1).
  { destruct Ht as [T1 T2 T3]. split; [done| |done]. cbn [asserted].
    change (aset (irq_level (iosapic s)) pin (truth l) = aset (irq_level (iosapic s0)) pin (truth l)).
    by rewrite T2, aset_aset. }
  clearbody s1. pose proof (tracks_update _ s1 Ht1 He) as Hup. cbn [asserted outstanding requests] in Hup.
  unfold pin_step. destruct (level_triggered r0); cbn [negb orb] in Hup |- *.
  - destruct (truth l); cbn [andb orb] in Hup |- *.
    + destruct (outstanding st); exact Hup.
    + by rewrite orb_false_r, Nat.add_0_r.
  - destruct (truth l && negb (asserted st)); [exact Hup|by rewrite Nat.add_0_r].
Qed.

Lemma eoi_other s p : aget (rte (iosapic s)) p .& RTE_VECTOR_MASK <> v -> eoi_pin v s p = s.
Proof. intros H. unfold eoi_pin. cbv zeta. destruct (Z.eqb_spec (aget (rte (iosapic s)) p .& RTE_VECTOR_MASK) v); done. Qed.

Lemma eoi_pin_rte s p : iosapic_wf s -> p <> pin -> aget (rte (iosapic (eoi_pin v s pin))) p = aget (rte (iosapic s)) p.
Proof.
  intros [H1 H2 H3] Hp. unfold eoi_pin. cbv zeta. case_match; [done|]. case_match; [done|].
  set (s1 := s <| iosapic; rte ::= _ |>). assert (Hwf1 : iosapic_wf s1).
  { split; [|done|].
    - change (length (aset (rte (iosapic s)) pin (aget (rte (iosapic s)) pin .& ~64 RTE_REMOTE_IRR)) = 24%nat). by rewrite aset_length.
    - intros q. apply (uint_aset (rte (iosapic s))); [done|]. by apply (with_irr_uint _ false). }
  destruct (update_updated s1 pin Hwf1 Hpin) as [U1 _ _ _]. rewrite U1, aget_aset_ne by done.
  change (aget (aset (rte (iosapic s)) pin (aget (rte (iosapic s)) pin .& ~64 RTE_REMOTE_IRR)) p = aget (rte (iosapic s)) p).
  by rewrite aget_aset_ne.
Qed.

Lemma eoi_alone st s : tracks s0 pin k st s -> iosapic_eoi s v = eoi_pin v s pin.
Proof.
  intros Ht. destruct (tracks_wf st s Ht) as (Hwf' & _). destruct Ht as [T1 _ _].
  assert (Hv : forall p, 0 <= p < 24 -> p <> pin -> aget (rte (iosapic s)) p .& RTE_VECTOR_MASK <> v).
  { intros p Hp Hne. rewrite T1, aget_aset_ne by done. by apply Halone. }
  unfold iosapic_eoi. change IA64_IOSAPIC_NUM_PINS with 24.
  enough (H : for_range 0 24 (eoi_pin v) s = if pin <? 0 + 24 then eoi_pin v s pin else s).
  { rewrite H. destruct (Z.ltb_spec pin (0 + 24)); [done|lia]. }
  apply (for_range_ind (fun i s' => s' = if pin <? i then eoi_pin v s pin else s)); [lia| |].
  - destruct (Z.ltb_spec pin 0); [lia|done].
  - intros i s' Hi ->. destruct (Z.ltb_spec pin i), (Z.ltb_spec pin (i + 1)); try lia.
    + apply eoi_other. rewrite eoi_pin_rte by (done || lia). apply Hv; lia.
    + by replace i with pin by lia.
    + apply eoi_other, Hv; lia.
Qed.

Lemma tracks_eoi st s :
  tracks s0 pin k st s -> (outstanding st = true -> level_triggered r0 = true) ->
  tracks s0 pin k (pin_step (level_triggered r0) st Eoi) (iosapic_eoi s v).
Proof.
  intros Ht He. rewrite (eoi_alone st s Ht). destruct (tracks_wf st s Ht) as (Hwf' & Er & Ea). pose proof r0_uint as Hu.
  destruct (with_irr_fields r0 (outstanding st) Hu) as (_ & F2 & F3 & F4). fold v in F4.
  unfold eoi_pin. cbv zeta. rewrite Er, level_truth, irr_truth, F2, F3, F4, Z.eqb_refl. cbn [negb orb pin_step].
  destruct (level_triggered r0) eqn:El; cbn [negb andb]; [|done]. destruct (outstanding st) eqn:Eo; cbn [negb]; [|done].
  set (s1 := s <| iosapic; rte ::= _ |>).
  assert (Ht1 : tracks s0 pin k (mkPin (asserted st) false (requests st)) s1).
  { destruct Ht as [T1 T2 T3]. split; [|done|done]. cbn [outstanding].
    change (aset (rte (iosapic s)) pin (with_irr (aget (rte (iosapic s)) pin) false) =
      aset (rte (iosapic s0)) pin (with_irr r0 false)). rewrite Er, with_irr_twice by done. by rewrite T1, aset_aset. }
  clearbody s1. pose proof (tracks_update _ s1 Ht1) as Hup. cbn [asserted outstanding requests] in Hup. rewrite El in Hup.
  cbn [negb orb] in Hup. rewrite andb_true_r in Hup. by apply Hup.
Qed.

Lemma pin_step_level st ev :
  (outstanding st = true -> level_triggered r0 = true) ->
  outstanding (pin_step (level_triggered r0) st ev) = true -> level_triggered r0 = true.
Proof. intros He. destruct ev; cbn [pin_step]; destruct (level_triggered r0); auto. Qed.

Lemma tracks_events evs : forall st s,
  tracks s0 pin k st s -> (outstanding st = true -> level_triggered r0 = true) ->
  tracks s0 pin k (foldl (pin_step (level_triggered r0)) st evs) (foldl (device_step pin v) s evs).
Proof.
  induction evs as [|ev evs IH]; intros st s Ht He; [done|]. cbn [foldl]. apply IH; [|by apply pin_step_level].
  destruct ev as [l|]; cbn [device_step].
  - by apply tracks_signal.
  - change (iosapic_write s IOSAPIC_EOI v) with (iosapic_eoi s (u8 v)). rewrite wrap_small; [by apply tracks_eoi|].
    apply uint_land_r; [lia|uint_const].
Qed.

(** C21. An unmasked route of ordinary interrupts implements the one-input
    machine: over any sequence of input changes and EOIs of its vector, it
    posts to its processor exactly the requests that the machine counts, one
    for each rising edge, or one for each service of an asserted level, keeps
    Remote IRR for the request outstanding, and touches no other route. *)
Theorem input_refines evs :
  (remote_irr r0 = true -> level_triggered r0 = true) ->
  tracks s0 pin k
    (foldl (pin_step (level_triggered r0)) (mkPin (aget (irq_level (iosapic s0)) pin) (remote_irr r0) 0) evs)
    (foldl (device_step pin v) s0 evs).
Proof.
  intros He. apply tracks_events; [|done]. split; cbn [asserted outstanding requests].
  - fold r0. rewrite with_irr_same by apply r0_uint. symmetry. apply aset_same.
  - symmetry. apply aset_same.
  - by rewrite posted_0.
Qed.
End one_input.

(** ** The register window *)

Definition write_window (s : iosapic_sys) (index val : Z) : iosapic_sys :=
  iosapic_write (iosapic_write s IOSAPIC_IOREGSEL index) IOSAPIC_IOWIN val.

Definition read_window (s : iosapic_sys) (index : Z) : Z :=
  iosapic_read (iosapic_write s IOSAPIC_IOREGSEL index) IOSAPIC_IOWIN.

Lemma window_index pin (high : bool) :
  0 <= pin < 24 ->
  let index := IOSAPIC_RTE_BASE + 2 * pin + Z.b2z high in
  u32 index = index /\ (index =? IOSAPIC_REG_ID) = false /\ (index =? IOSAPIC_REG_VER) = false /\ rte_index index = true /\
  (index - IOSAPIC_RTE_BASE) / 2 = pin /\ truth ((index - IOSAPIC_RTE_BASE) .& 1) = high.
Proof.
  intros Hp. unfold IOSAPIC_RTE_BASE, IOSAPIC_REG_ID, IOSAPIC_REG_VER, rte_index, IOSAPIC_RTE_BASE, IA64_IOSAPIC_NUM_PINS.
  cbv zeta. assert (Hh : 0 <= Z.b2z high <= 1) by (destruct high; cbn; lia). split_and!.
  - apply wrap_small. unfold uint. lia.
  - apply Z.eqb_neq. lia.
  - apply Z.eqb_neq. lia.
  - apply andb_true_iff. split; [apply Z.leb_le|apply Z.ltb_lt]; lia.
  - replace (16 + 2 * pin + Z.b2z high - 16) with (Z.b2z high + pin * 2) by lia.
    rewrite Z.div_add, Z.div_small by lia. lia.
  - replace (16 + 2 * pin + Z.b2z high - 16) with (2 * pin + Z.b2z high) by lia.
    change (2 * pin + Z.b2z high) with (2 * pin + Z.b2z high). rewrite (truth_land_pow2 _ 0) by lia.
    destruct high; cbn [Z.b2z]; [by rewrite Z.testbit_odd_0|rewrite Z.add_0_r; by rewrite Z.testbit_even_0].
Qed.

Lemma write_window_rte s pin high val :
  0 <= pin < 24 -> uint 32 val ->
  write_window s (IOSAPIC_RTE_BASE + 2 * pin + Z.b2z high) val =
  iosapic_rte_write (s <| iosapic; reg_select := IOSAPIC_RTE_BASE + 2 * pin + Z.b2z high |>) pin val high.
Proof.
  intros Hp Hv. destruct (window_index pin high Hp) as (E1 & E2 & _ & E4 & E5 & E6).
  set (index := IOSAPIC_RTE_BASE + 2 * pin + Z.b2z high) in *. unfold write_window.
  change (iosapic_write s IOSAPIC_IOREGSEL index) with (s <| iosapic; reg_select := u32 index |>). rewrite E1.
  set (s1 := s <| iosapic; reg_select := index |>). assert (Es : reg_select (iosapic s1) = index) by done. clearbody s1.
  unfold iosapic_write. change (IOSAPIC_IOWIN =? IOSAPIC_IOREGSEL) with false. change (IOSAPIC_IOWIN =? IOSAPIC_IOWIN) with true.
  cbv iota zeta. by rewrite Es, E2, E4, E5, E6, (wrap_small 32 val Hv).
Qed.

Lemma read_window_rte s pin high :
  0 <= pin < 24 ->
  read_window s (IOSAPIC_RTE_BASE + 2 * pin + Z.b2z high) =
  if high then u32 (aget (rte (iosapic s)) pin >>> 32) else u32 (aget (rte (iosapic s)) pin).
Proof.
  intros Hp. destruct (window_index pin high Hp) as (E1 & E2 & E3 & E4 & E5 & E6).
  set (index := IOSAPIC_RTE_BASE + 2 * pin + Z.b2z high) in *. unfold read_window.
  change (iosapic_write s IOSAPIC_IOREGSEL index) with (s <| iosapic; reg_select := u32 index |>). rewrite E1.
  unfold iosapic_read. change (IOSAPIC_IOWIN =? IOSAPIC_IOREGSEL) with false. change (IOSAPIC_IOWIN =? IOSAPIC_IOWIN) with true.
  cbv iota zeta. change (reg_select (iosapic (s <| iosapic; reg_select := index |>))) with index.
  rewrite E2, E3, E4, E5, E6. done.
Qed.

(** A write changes the writable bits of the half it names, evaluating the route
    only the Remote IRR. *)
Lemma with_irr_writable r b i :
  uint 64 r -> 0 <= i -> i <> 14 -> Z.testbit (with_irr r b) i = Z.testbit r i.
Proof. intros Hr Hi Hne. rewrite with_irr_bit by done. destruct (Z.eqb_spec i 14); done. Qed.

Lemma rte_write_bit ids s pin val high i :
  iosapic_inv ids s -> 0 <= pin < 24 -> 0 <= i -> i <> 14 -> i <> 12 -> uint 32 val ->
  Z.testbit (aget (rte (iosapic (iosapic_rte_write s pin val high))) pin) i =
  Z.testbit RTE_WRITABLE i &&
    if high then (if i <? 32 then Z.testbit (aget (rte (iosapic s)) pin) i else Z.testbit val (i - 32))
    else (if i <? 32 then Z.testbit val i else Z.testbit (aget (rte (iosapic s)) pin) i).
Proof.
  intros Hi Hp Hi0 H14 H12 Hv. rewrite (rte_write_eq s pin val high (in_wf _ _ Hi) Hp). cbv zeta.
  destruct (in_routes _ _ Hi pin Hp) as [_ Ht2 _]. set (r := aget (rte (iosapic s)) pin) in *.
  destruct (merged_bits r val high Ht2) as [Hb _]. destruct (edge_fixed_ok _ Hb) as (Hb' & _ & _).
  pose proof (uint_route _ Hb) as Hmu. pose proof (uint_route _ Hb') as Heu. pose proof (uint_route _ Ht2) as Hru.
  set (e := edge_fixed (rte_merged r val high)) in *.
  destruct (changed_but ids s (s <| iosapic; rte ::= fun l => aset l pin e |>) pin e (aget (irq_level (iosapic s)) pin) Hi Hp)
    as ([Hwf _] & _ & E1 & _); [done|done|by rewrite aset_same|done|].
  set (s1 := s <| iosapic; rte ::= _ |>) in *. clearbody s1.
  transitivity (Z.testbit (rte_merged r val high) i).
  - transitivity (Z.testbit e i).
    + destruct (level_triggered e); [|by rewrite E1]. destruct (update_updated s1 pin Hwf Hp) as [U1 _ _ _].
      rewrite U1, aget_aset_eq, E1 by (rewrite (io_rte _ Hwf); lia). unfold evaluated.
      case_match; [by apply with_irr_writable|done].
    + unfold e, edge_fixed. case_match; [done|by apply with_irr_writable].
  - unfold rte_merged. rewrite Z.lor_spec, !Z.land_spec.
    replace (Z.testbit RTE_RO_BITS i) with false.
    2: { change RTE_RO_BITS with (2 ^ 12 .| 2 ^ 14). rewrite Z.lor_spec, !pow2_spec by lia.
         destruct (Z.eqb_spec 12 i), (Z.eqb_spec 14 i); lia || done. }
    rewrite andb_false_r, orb_false_r, andb_comm. f_equal.
    change 0xffffffff with (Z.ones 32). change 0xffffffff00000000 with (Z.ones 32 <<< 32).
    destruct high; zbits_step; zbits_finish.
Qed.

(** C34. What is written to the two halves of a redirection entry through the
    register window reads back: the writable bits of the low half and the
    destination in the high half, whose reserved bits read as zero. *)
Theorem window_roundtrip ids s pin lo hi :
  iosapic_inv ids s -> 0 <= pin < 24 -> uint 32 lo -> uint 32 hi ->
  let s' := write_window (write_window s (IOSAPIC_RTE_BASE + 2 * pin) lo) (IOSAPIC_RTE_BASE + 2 * pin + 1) hi in
  read_window s' (IOSAPIC_RTE_BASE + 2 * pin) .& RTE_WRITABLE = lo .& RTE_WRITABLE /\
  read_window s' (IOSAPIC_RTE_BASE + 2 * pin + 1) = hi .& 0xffff0000.
Proof.
  intros Hi Hp Hlo Hhi.
  pose proof (write_window_rte s pin false lo Hp Hlo) as W1. cbn [Z.b2z] in W1. rewrite Z.add_0_r in W1. rewrite W1. clear W1.
  match goal with |- context [write_window ?t _ hi] => pose proof (write_window_rte t pin true hi Hp Hhi) as W2 end.
  cbn [Z.b2z] in W2. rewrite W2. clear W2. cbv zeta.
  match goal with |- context [read_window ?t _] =>
    pose proof (read_window_rte t pin false Hp) as R1; pose proof (read_window_rte t pin true Hp) as R2 end.
  cbn [Z.b2z] in R1, R2. rewrite Z.add_0_r in R1. rewrite R1, R2. clear R1 R2.
  set (s1 := s <| iosapic; reg_select := _ |>). assert (Hi1 : iosapic_inv ids s1) by (by apply select_inv).
  assert (Hr1 : aget (rte (iosapic s1)) pin = aget (rte (iosapic s)) pin) by done. clearbody s1.
  pose proof (fun i => rte_write_bit ids s1 pin lo false i Hi1 Hp) as Hb1. pose proof (rte_write_inv ids s1 pin lo false Hi1 Hp) as Hi2.
  set (s2 := iosapic_rte_write s1 pin lo false) in *. clearbody s2.
  set (s3 := s2 <| iosapic; reg_select := _ |>). assert (Hi3 : iosapic_inv ids s3) by (by apply select_inv).
  assert (Hr3 : aget (rte (iosapic s3)) pin = aget (rte (iosapic s2)) pin) by done. clearbody s3.
  pose proof (fun i => rte_write_bit ids s3 pin hi true i Hi3 Hp) as Hb3. pose proof (rte_write_inv ids s3 pin hi true Hi3 Hp) as Hi4.
  set (s4 := iosapic_rte_write s3 pin hi true) in *. clearbody s4. rewrite Hr3 in Hb3.
  assert (Hw : Z.testbit RTE_WRITABLE 14 = false /\ Z.testbit RTE_WRITABLE 12 = false) by done. destruct Hw as [Hw14 Hw12].
  split; apply Z.bits_inj'; intros i Hi0.
  - rewrite !Z.land_spec, wrap_spec by lia. destruct (Z.testbit RTE_WRITABLE i) eqn:Ew; [|by rewrite !andb_false_r].
    rewrite !andb_true_r. destruct (Z.ltb_spec i 32); cbn [andb]; [|symmetry; by apply (uint_bits 32)].
    assert (i <> 14) by congruence. assert (i <> 12) by congruence.
    rewrite Hb3, Hb1 by done. destruct (Z.ltb_spec i 32); [|lia]. by rewrite Ew.
  - rewrite Z.land_spec, wrap_spec, Z.shiftr_spec by lia. destruct (Z.ltb_spec i 32); cbn [andb].
    2: { rewrite (uint_bits 32 hi) by (done || lia). done. }
    rewrite Hb3 by (done || lia). destruct (Z.ltb_spec (i + 32) 32); [lia|]. rewrite Z.add_simpl_r, andb_comm. f_equal.
    rewrite <- (Z.shiftr_spec RTE_WRITABLE 32 i) by lia. f_equal.
Qed.

(** ** A machine *)

(** Three processors and a level-triggered route of vector 0x40 from pin 3 to
    the first. *)
Definition board : iosapic_sys :=
  iosapic_reset (mkIosapicSys (mkIOSapic [] [] 0) ((fun cpu => cpu <| is_self := false |>) <$> three_cpus)).

Definition level_board : iosapic_sys := write_window (write_window board 0x17 0x01000000) 0x16 0x8040.

Lemma level_board_steps : rtc (held_step (lids (cpus board))) board level_board.
Proof.
  unfold level_board, write_window.
  do 4 (eapply rtc_r; [|split; [apply step_write|vm_compute; by intros]]). apply rtc_refl.
Qed.

Lemma level_board_inv : iosapic_inv (lids (cpus board)) level_board.
Proof.
  apply (held_inv _ (mkIosapicSys (mkIOSapic [] [] 0) ((fun cpu => cpu <| is_self := false |>) <$> three_cpus)));
    [done|apply level_board_steps].
Qed.

Lemma level_raised_steps : rtc (held_step (lids (cpus board))) board (iosapic_irq_handler level_board 3 1).
Proof.
  eapply rtc_r; [exact level_board_steps|]. split; [apply step_input|]. vm_compute. by intros.
Qed.

Lemma asserted_level_requested_witness :
  remote_irr (aget (rte (iosapic (iosapic_irq_handler level_board 3 1))) 3) = true.
Proof.
  destruct (asserted_level_requested (lids (cpus board))
    (mkIosapicSys (mkIOSapic [] [] 0) ((fun cpu => cpu <| is_self := false |>) <$> three_cpus))
    (iosapic_irq_handler level_board 3 1) 3) as [H _].
  - intros x Hx. exact Hx.
  - exact level_raised_steps.
  - lia.
  - apply H; vm_compute; reflexivity.
Defined.

Lemma level_board_alone p :
  0 <= p < 24 -> p <> 3 -> aget (rte (iosapic level_board)) p .& RTE_VECTOR_MASK <> 0x40.
Proof.
  intros Hp Hne. apply Z.eqb_neq.
  assert (H : forallb (fun q => (q =? 3) || negb (aget (rte (iosapic level_board)) q .& RTE_VECTOR_MASK =? 0x40)) (seqZ 0 24) = true)
    by (vm_compute; reflexivity).
  rewrite forallb_forall in H. specialize (H p). rewrite <- list_elem_of_In, elem_of_seqZ in H. specialize (H ltac:(lia)).
  destruct (Z.eqb_spec p 3); [done|]. by apply negb_true_iff.
Qed.

Lemma level_board_route : plain_route (cpus level_board) 0 (aget (rte (iosapic level_board)) 3).
Proof. split; try (vm_compute; reflexivity). intros cpu Hc. vm_compute in Hc. by injection Hc as <-. Qed.

(** Asserted, still asserted at the first EOI, released before the second. *)
Lemma input_refines_witness :
  let s := foldl (device_step 3 0x40) level_board [Signal 1; Eoi; Signal 0; Eoi] in
  cpus s = posted 0x40 2 0 (cpus level_board) /\ remote_irr (aget (rte (iosapic s)) 3) = false.
Proof.
  split; [|vm_compute; reflexivity].
  exact (tk_cpus _ _ _ _ _ (input_refines level_board 3 0 (in_wf _ _ level_board_inv) ltac:(lia) level_board_route
    level_board_alone [Signal 1; Eoi; Signal 0; Eoi] (fun _ => eq_refl))).
Defined.

Lemma window_roundtrip_witness :
  let s' := write_window (write_window level_board 0x20 0x8041) 0x21 0x03000000 in
  read_window s' 0x21 = 0x03000000.
Proof.
  exact (proj2 (window_roundtrip _ level_board 8 0x8041 0x03000000 level_board_inv ltac:(lia) ltac:(uint_const) ltac:(uint_const))).
Defined.
