(* ===== verification/RseMap.v ===== *)
(** * The register stack: mapping and views

    The first part of [arch/rse.c]: the ring of 96 physical stacked registers,
    the renaming of the current frame into it, the arithmetic of the backing
    store with its NaT collection words, and the copies between the virtual
    view ([env->gr], [env->nat]) and the physical file ([rse_pgr],
    [rse_pgr_nat]).  The copies have several fast paths; the theorems show
    that each computes the same function of the renaming. *)
From S2P Require Import Prelude Arch Env Alat Registers.
From stdpp Require Import list.
Local Open Scope Z_scope.

(** ** Definitions *)

(** C's [%] on signed operands is [Z.rem]. *)
Definition ia64_rse_wrap_phys_slow (idx : Z) : Z :=
  let idx := Z.rem idx IA64_STACKED_GR_COUNT in
  if idx <? 0 then idx + IA64_STACKED_GR_COUNT else idx.

Definition ia64_rse_wrap_phys (idx : Z) : Z :=
  if (- IA64_STACKED_GR_COUNT <=? idx) && (idx <? 2 * IA64_STACKED_GR_COUNT) then
    if idx <? 0 then idx + IA64_STACKED_GR_COUNT
    else if IA64_STACKED_GR_COUNT <=? idx then idx - IA64_STACKED_GR_COUNT
    else idx
  else ia64_rse_wrap_phys_slow idx.

Definition ia64_rse_collect_bit (addr : Z) : Z := (addr >>> 3) .& 0x3f.

Definition ia64_rse_collect_word (addr : Z) : Z := (addr .& ~64 0x1ff) .| (63 <<< 3).

Definition ia64_rse_rnat_low_mask (bit : Z) : Z :=
  if 62 <=? bit then INT64_MAX else (1 <<< (bit + 1)) - 1.

Definition ia64_rse_nat_word_count_slow (total : Z) : Z := total / 63.

Definition ia64_rse_nat_word_count (total : Z) : Z :=
  if total <? 3 * 63 then Z.b2z (63 <=? total) + Z.b2z (2 * 63 <=? total)
  else ia64_rse_nat_word_count_slow total.

Definition ia64_rse_nat_words_grow (addr nregs : Z) : Z :=
  let total := u32 (ia64_rse_collect_bit addr + nregs) in
  ia64_rse_nat_word_count total.

Definition ia64_rse_nat_words_shrink (addr nregs : Z) : Z :=
  let total := u32 (62 - ia64_rse_collect_bit addr + nregs) in
  ia64_rse_nat_word_count total.

Definition ia64_rse_register_words_below (addr words : Z) : Z :=
  let first_nat := ia64_rse_collect_bit addr + 1 in
  let nat_words := if words <? first_nat then 0 else 1 + (words - first_nat) / 64 in
  words - nat_words.

Definition ia64_rse_rotating_gr_count (env : CPUIA64State) : Z :=
  let count := cfm_sor env <<< 3 in
  if (count <=? cfm_sof env) && (count <=? IA64_STACKED_GR_COUNT) then count else 0.

Definition ia64_rse_virt_to_phys (env : CPUIA64State) (v : Z) : Z :=
  let sor_regs := ia64_rse_rotating_gr_count env in
  let v := if v <? sor_regs
           then let v := v + cfm_rrb_gr env in if sor_regs <=? v then v - sor_regs else v
           else v in
  let p := rse_bol (rse env) + v in
  if p <? IA64_STACKED_GR_COUNT then p else p - IA64_STACKED_GR_COUNT.

(** [off += sor_regs - rrb] is unsigned arithmetic. *)
Definition ia64_rse_phys_to_virt (env : CPUIA64State) (p : Z) : Z :=
  let off := if rse_bol (rse env) <=? p then p - rse_bol (rse env)
             else p + IA64_STACKED_GR_COUNT - rse_bol (rse env) in
  let sor_regs := ia64_rse_rotating_gr_count env in
  if off <? sor_regs
  then let off := u32 (off + u32 (sor_regs - cfm_rrb_gr env)) in
       if sor_regs <=? off then off - sor_regs else off
  else off.

Definition ia64_rse_pgr_nat_get (env : CPUIA64State) (p : Z) : bool :=
  truth ((aget (rse_pgr_nat (rse env)) (p / 64) >>> (p mod 64)) .& 1).

Definition ia64_rse_pgr_nat_set (env : CPUIA64State) (p : Z) (nat : bool) : CPUIA64State :=
  if nat then env <| rse; rse_pgr_nat ::= fun m => bm_set m p |>
  else env <| rse; rse_pgr_nat ::= fun m => bm_clear m p |>.

(** The arithmetic is on [__uint128_t]. *)
Definition ia64_copy_bit_range (dst : list Z) (dst_bit : Z) (src : list Z) (src_bit count : Z)
  : list Z :=
  if count =? 0 then dst
  else
    let source := (aget src 1 <<< 64) .| aget src 0 in
    let target := (aget dst 1 <<< 64) .| aget dst 0 in
    let mask := if count =? 128 then wnot 128 0 else (1 <<< count) - 1 in
    let mask := wrap 128 (mask <<< dst_bit) in
    let target := (target .& wnot 128 mask) .|
                  (wrap 128 ((source >>> src_bit) <<< dst_bit) .& mask) in
    let dst := aset dst 0 (u64 target) in
    aset dst 1 (u64 (target >>> 64)).

Definition ia64_clear_bit_range (bits : list Z) (first count : Z) : list Z :=
  let word := first / 64 in
  let shift := first mod 64 in
  let n := Z.min count (64 - shift) in
  if count =? 0 then bits
  else
    let mask := if n =? 64 then UINT64_MAX else u64 (((1 <<< n) - 1) <<< shift) in
    let bits := aset bits word (aget bits word .& ~64 mask) in
    let count := count - n in
    if negb (count =? 0) then
      let mask := if count =? 64 then UINT64_MAX else (1 <<< count) - 1 in
      aset bits (word + 1) (aget bits (word + 1) .& ~64 mask)
    else bits.

Definition cto64 (x : Z) : Z := ctz64 (~64 x).

(** [dst + d] and [src + s] are the two pointers.  Each iteration clears at
    least the lowest set bit of [dirty], so 64 iterations are enough
    ([copy_dirty_spec]). *)
Fixpoint copy_dirty_fuel (fuel : nat) (dst : list Z) (d : Z) (src : list Z) (s dirty : Z)
  : list Z :=
  match fuel with
  | O => dst
  | S fuel =>
      if truth dirty then
        let bit := ctz64 dirty in
        let shifted := dirty >>> bit in
        if (shifted .& 15) =? 15 then
          let count := cto64 shifted in
          let dst := memcpy dst (d + bit) src (s + bit) count in
          let dirty := if count =? 64 then dirty .& 0
                       else dirty .& ~64 (u64 (((1 <<< count) - 1) <<< bit)) in
          copy_dirty_fuel fuel dst d src s dirty
        else
          let dst := aset dst (d + bit) (aget src (s + bit)) in
          copy_dirty_fuel fuel dst d src s (dirty .& (dirty - 1))
      else dst
  end.

Definition ia64_rse_copy_dirty (dst : list Z) (d : Z) (src : list Z) (s dirty : Z) : list Z :=
  copy_dirty_fuel 64 dst d src s dirty.
Strategy 100 [copy_dirty_fuel ia64_rse_copy_dirty].

(** The dirty bits of the current frame; the two copies out share these lines. *)
Definition frame_dirty (sof dirty0 dirty1 : Z) : Z * Z :=
  if sof <? 64 then (dirty0 .& (if sof =? 0 then 0 else (1 <<< sof) - 1), 0)
  else (dirty0, dirty1 .& ((1 <<< (sof - 64)) - 1)).

Definition ia64_rse_sync_frame_out_direct (env : CPUIA64State) (dirty0 dirty1 sof bol : Z)
  : CPUIA64State :=
  let env := env <| rse; rse_gr_dirty @ 0 := 0 |> <| rse; rse_gr_dirty @ 1 := 0 |> in
  let '(dirty0, dirty1) := frame_dirty sof dirty0 dirty1 in
  let env := env <| rse; rse_pgr ::= fun pgr =>
    ia64_rse_copy_dirty pgr bol (gr env) IA64_STACKED_GR_BASE dirty0 |> in
  if truth dirty1
  then env <| rse; rse_pgr ::= fun pgr =>
         ia64_rse_copy_dirty pgr (bol + 64) (gr env) (IA64_STACKED_GR_BASE + 64) dirty1 |>
  else env.

(** The renaming as the copy loops write it out. *)
Definition sync_out_index (sor_regs rrb_gr bol v : Z) : Z :=
  let p := v in
  let p := if v <? sor_regs
           then let p := p + rrb_gr in if sor_regs <=? p then p - sor_regs else p
           else p in
  let p := p + bol in
  if IA64_STACKED_GR_COUNT <=? p then p - IA64_STACKED_GR_COUNT else p.

(** [for (word ...) while (dirty[word]) { v = word * 64 + ctz64(...); ... }] *)
Definition for_dirty (dirty0 dirty1 : Z) (f : CPUIA64State -> Z -> CPUIA64State)
    (env : CPUIA64State) : CPUIA64State :=
  let env := while_bits dirty0 (fun env bit => f env (0 * 64 + bit)) env in
  while_bits dirty1 (fun env bit => f env (1 * 64 + bit)) env.

Definition ia64_rse_sync_frame_out_slow (env : CPUIA64State) (dirty0 dirty1 : Z) : CPUIA64State :=
  let nat0 := aget (nat_ env) 0 in
  let nat1 := aget (nat_ env) 1 in
  let sof := cfm_sof env in
  let sor_regs := ia64_rse_rotating_gr_count env in
  let rrb_gr := cfm_rrb_gr env in
  let bol := rse_bol (rse env) in
  let nat_files_clear :=
    ((nat0 >>> IA64_STACKED_GR_BASE) .| nat1 .| aget (rse_pgr_nat (rse env)) 0 .|
     aget (rse_pgr_nat (rse env)) 1) =? 0 in
  let env := env <| rse; rse_gr_dirty @ 0 := 0 |> <| rse; rse_gr_dirty @ 1 := 0 |> in
  let '(dirty0, dirty1) := frame_dirty sof dirty0 dirty1 in
  if nat_files_clear && ((sor_regs =? 0) || (rrb_gr =? 0)) &&
     (bol + sof <=? IA64_STACKED_GR_COUNT) then
    for_dirty dirty0 dirty1 (fun env v =>
      env <| rse; rse_pgr @ bol + v := aget (gr env) (IA64_STACKED_GR_BASE + v) |>) env
  else if nat_files_clear then
    for_dirty dirty0 dirty1 (fun env v =>
      env <| rse; rse_pgr @ sync_out_index sor_regs rrb_gr bol v :=
               aget (gr env) (IA64_STACKED_GR_BASE + v) |>) env
  else
    for_dirty dirty0 dirty1 (fun env v =>
      let p := sync_out_index sor_regs rrb_gr bol v in
      let reg := IA64_STACKED_GR_BASE + v in
      let env := env <| rse; rse_pgr @ p := aget (gr env) reg |> in
      let reg_nat := if v <? 32 then truth ((nat0 >>> (IA64_STACKED_GR_BASE + v)) .& 1)
                     else truth ((nat1 >>> (v - 32)) .& 1) in
      ia64_rse_pgr_nat_set env p reg_nat) env.

Definition ia64_rse_sync_frame_out (env : CPUIA64State) : CPUIA64State :=
  let dirty0 := aget (rse_gr_dirty (rse env)) 0 in
  let dirty1 := aget (rse_gr_dirty (rse env)) 1 in
  if truth (dirty0 .| dirty1) then
    let sof := cfm_sof env in
    let bol := rse_bol (rse env) in
    if (((aget (nat_ env) 0 >>> IA64_STACKED_GR_BASE) .| aget (nat_ env) 1 .|
         aget (rse_pgr_nat (rse env)) 0 .| aget (rse_pgr_nat (rse env)) 1) =? 0) &&
       ((cfm_sor env =? 0) || (cfm_rrb_gr env =? 0)) &&
       (bol + sof <=? IA64_STACKED_GR_COUNT)
    then ia64_rse_sync_frame_out_direct env dirty0 dirty1 sof bol
    else ia64_rse_sync_frame_out_slow env dirty0 dirty1
  else env.

Definition pgr_nat_clear (env : CPUIA64State) : bool :=
  (aget (rse_pgr_nat (rse env)) 0 .| aget (rse_pgr_nat (rse env)) 1) =? 0.

(** The [while (first < end)] loop of [ia64_rse_sync_frame_in_range].  Every
    iteration copies at least one register, so [end] iterations are enough
    ([sync_in_spans_spec]). *)
Fixpoint sync_in_spans (fuel : nat) (env : CPUIA64State) (first end_ sor rrb : Z)
    (nat_clear : bool) : CPUIA64State :=
  match fuel with
  | O => env
  | S fuel =>
      if first <? end_ then
        let mapped := first in
        let span := end_ - first in
        let '(mapped, span) :=
          if (first <? sor) && truth rrb then
            let mapped := mapped + rrb in
            let mapped := if sor <=? mapped then mapped - sor else mapped in
            (mapped, Z.min span (Z.min (sor - first) (sor - mapped)))
          else (mapped, span) in
        let p := rse_bol (rse env) + mapped in
        let p := if IA64_STACKED_GR_COUNT <=? p then p - IA64_STACKED_GR_COUNT else p in
        let span := Z.min span (IA64_STACKED_GR_COUNT - p) in
        let env := env <| gr ::= fun g =>
          memcpy g (IA64_STACKED_GR_BASE + first) (rse_pgr (rse env)) p span |> in
        let env :=
          if nat_clear
          then env <| nat_ ::= fun n => ia64_clear_bit_range n (IA64_STACKED_GR_BASE + first) span |>
          else env <| nat_ ::= fun n => ia64_copy_bit_range n (IA64_STACKED_GR_BASE + first)
                                          (rse_pgr_nat (rse env)) p span |> in
        sync_in_spans fuel env (first + span) end_ sor rrb nat_clear
      else env
  end.

Definition ia64_rse_sync_frame_in_range (env : CPUIA64State) (first count : Z) : CPUIA64State :=
  let end_ := Z.min (first + count) (cfm_sof env) in
  let sor := ia64_rse_rotating_gr_count env in
  let rrb := cfm_rrb_gr env in
  let nat_clear := pgr_nat_clear env in
  if truth sor && (sor <=? rrb) then
    for_range first (end_ - first) (fun env i =>
      let p := ia64_rse_virt_to_phys env i in
      let env := env <| gr @ IA64_STACKED_GR_BASE + i := aget (rse_pgr (rse env)) p |> in
      ia64_gr_nat_set env (IA64_STACKED_GR_BASE + i) (ia64_rse_pgr_nat_get env p)) env
  else sync_in_spans (Z.to_nat end_) env first end_ sor rrb nat_clear.

(** The copies of a directly mapped frame, in at most two pieces. *)
Definition sync_in_copy (env : CPUIA64State) (sof bol : Z) : CPUIA64State :=
  let first := Z.min sof (IA64_STACKED_GR_COUNT - bol) in
  let second := sof - first in
  let env := env <| gr ::= fun g =>
    memcpy g IA64_STACKED_GR_BASE (rse_pgr (rse env)) bol first |> in
  if negb (second =? 0)
  then env <| gr ::= fun g =>
         memcpy g (IA64_STACKED_GR_BASE + first) (rse_pgr (rse env)) 0 second |>
  else env.

Definition ia64_rse_sync_frame_in_direct (env : CPUIA64State) (sof bol : Z) : CPUIA64State :=
  let env := sync_in_copy env sof bol in
  env <| nat_ @ 0 := aget (nat_ env) 0 .& UINT32_MAX |> <| nat_ @ 1 := 0 |>
      <| rse; rse_gr_dirty @ 0 := 0 |> <| rse; rse_gr_dirty @ 1 := 0 |>.

Definition ia64_rse_sync_frame_in_slow (env : CPUIA64State) : CPUIA64State :=
  if (cfm_sor env =? 0) || (cfm_rrb_gr env =? 0) then
    let bol := rse_bol (rse env) in
    let first := Z.min (cfm_sof env) (IA64_STACKED_GR_COUNT - bol) in
    let second := cfm_sof env - first in
    let env := sync_in_copy env (cfm_sof env) bol in
    let env :=
      if pgr_nat_clear env
      then env <| nat_ @ 0 := aget (nat_ env) 0 .& UINT32_MAX |> <| nat_ @ 1 := 0 |>
      else
        let env := env <| nat_ ::= fun n =>
          ia64_copy_bit_range n IA64_STACKED_GR_BASE (rse_pgr_nat (rse env)) bol first |> in
        if negb (second =? 0)
        then env <| nat_ ::= fun n =>
               ia64_copy_bit_range n (IA64_STACKED_GR_BASE + first) (rse_pgr_nat (rse env)) 0
                 second |>
        else env in
    env <| rse; rse_gr_dirty @ 0 := 0 |> <| rse; rse_gr_dirty @ 1 := 0 |>
  else
    let env := ia64_rse_sync_frame_in_range env 0 (cfm_sof env) in
    env <| rse; rse_gr_dirty @ 0 := 0 |> <| rse; rse_gr_dirty @ 1 := 0 |>.

Definition ia64_rse_sync_frame_in (env : CPUIA64State) : CPUIA64State :=
  if ((cfm_sor env =? 0) || (cfm_rrb_gr env =? 0)) && pgr_nat_clear env
  then ia64_rse_sync_frame_in_direct env (cfm_sof env) (rse_bol (rse env))
  else ia64_rse_sync_frame_in_slow env.

(** [last] rotates into bit 0; the arithmetic is on [uint64_t]. *)
Definition ia64_rotate_low_bits_left_one (bits : list Z) (count : Z) : list Z :=
  let old0 := aget bits 0 in
  if count <=? 64 then
    let mask := if count =? 64 then UINT64_MAX else (1 <<< count) - 1 in
    let carry := (old0 >>> (count - 1)) .& 1 in
    aset bits 0 ((old0 .& ~64 mask) .| ((u64 (old0 <<< 1) .| carry) .& mask))
  else
    let count := count - 64 in
    let mask := (1 <<< count) - 1 in
    let carry := (aget bits 1 >>> (count - 1)) .& 1 in
    let bits := aset bits 0 (u64 (old0 <<< 1) .| carry) in
    aset bits 1 ((aget bits 1 .& ~64 mask) .|
                 ((u64 (aget bits 1 <<< 1) .| (old0 >>> 63)) .& mask)).

Definition ia64_rotate_rotating_gr_right (env : CPUIA64State) : CPUIA64State :=
  let count := ia64_rse_rotating_gr_count env in
  if count =? 0 then env
  else
    let last := aget (gr env) (IA64_STACKED_GR_BASE + count - 1) in
    let env := env <| gr ::= fun g =>
      memcpy g (IA64_STACKED_GR_BASE + 1) g IA64_STACKED_GR_BASE (count - 1) |> in
    let env := env <| gr @ IA64_STACKED_GR_BASE := last |> in
    let nat := [(aget (nat_ env) 0 >>> 32) .| u64 (aget (nat_ env) 1 <<< 32);
                aget (nat_ env) 1 >>> 32] in
    let nat := ia64_rotate_low_bits_left_one nat count in
    let env := env <| nat_ @ 0 := (aget (nat_ env) 0 .& UINT32_MAX) .| u64 (aget nat 0 <<< 32) |> in
    let env := env <| nat_ @ 1 := (aget nat 0 >>> 32) .| u64 (aget nat 1 <<< 32) |> in
    let env := env <| rse; rse_gr_dirty ::= fun d => ia64_rotate_low_bits_left_one d count |> in
    amap (fun a => ia64_invalidate_alat_reg_range a IA64_STACKED_GR_BASE
                     (IA64_STACKED_GR_BASE + count) false) env.

(** The three-way update of the rename bases that a rotating branch makes. *)
Definition ia64_rotate_loop_regs (env : CPUIA64State) : CPUIA64State :=
  let rotating_gr_count := ia64_rse_rotating_gr_count env in
  let env := ia64_rotate_rotating_gr_right env in
  let env := if negb (rotating_gr_count =? 0)
             then env <| cfm_rrb_gr ::= fun r => if truth r then r - 1 else rotating_gr_count - 1 |>
             else env in
  let env := ia64_set_cfm_rrb_fr env
    (if truth (cfm_rrb_fr env) then cfm_rrb_fr env - 1 else IA64_ROTATING_FR_COUNT - 1) in
  ia64_rotate_cfm_rrb_pr_right env.

Definition IA64_PR_LAST : Z := 63.

Definition ia64_rse_br_ctop (env : CPUIA64State) : bool * CPUIA64State :=
  let lc := ar_lc env in
  let ec := ar_ec env in
  let active := negb (lc =? 0) || (1 <? ec) in
  (active,
   if negb (lc =? 0) then
     ia64_rotate_loop_regs (env <| ar @ IA64_AR_LC := lc - 1 |> <| pr @ IA64_PR_LAST := 1 |>)
   else if negb (ec =? 0) then
     ia64_rotate_loop_regs (env <| ar @ IA64_AR_EC := ec - 1 |> <| pr @ IA64_PR_LAST := 0 |>)
   else env <| pr @ IA64_PR_LAST := 0 |>).

(** The same updates; the branch is taken on the opposite condition. *)
Definition ia64_rse_br_cexit (env : CPUIA64State) : bool * CPUIA64State :=
  let lc := ar_lc env in
  let ec := ar_ec env in
  let active := negb (lc =? 0) || (1 <? ec) in
  (negb active,
   if negb (lc =? 0) then
     ia64_rotate_loop_regs (env <| ar @ IA64_AR_LC := lc - 1 |> <| pr @ IA64_PR_LAST := 1 |>)
   else if negb (ec =? 0) then
     ia64_rotate_loop_regs (env <| ar @ IA64_AR_EC := ec - 1 |> <| pr @ IA64_PR_LAST := 0 |>)
   else env <| pr @ IA64_PR_LAST := 0 |>).

Definition ia64_update_while_loop (env : CPUIA64State) (qp : Z) : bool * CPUIA64State :=
  let kernel_active := truth (aget (pr env) (qp .& 63)) in
  let pipeline_active := kernel_active || (1 <? ar_ec env) in
  (pipeline_active,
   if kernel_active then ia64_rotate_loop_regs (env <| pr @ IA64_PR_LAST := 0 |>)
   else if negb (ar_ec env =? 0) then
     ia64_rotate_loop_regs (env <| ar @ IA64_AR_EC := ar_ec env - 1 |>
                                <| pr @ IA64_PR_LAST := 0 |>)
   else env <| pr @ IA64_PR_LAST := 0 |>).

Definition ia64_rse_br_wtop (env : CPUIA64State) (qp : Z) : bool * CPUIA64State :=
  ia64_update_while_loop env qp.

Definition ia64_rse_br_wexit (env : CPUIA64State) (qp : Z) : bool * CPUIA64State :=
  let '(active, env) := ia64_update_while_loop env qp in (negb active, env).

Definition ia64_rse_clrrrb (env : CPUIA64State) (predicate_only : bool) : CPUIA64State :=
  let env := ia64_rse_sync_frame_out env in
  let env := if predicate_only then ia64_set_cfm_rrb_pr env 0
             else ia64_set_cfm_rrb_pr (ia64_set_cfm_rrb_fr (env <| cfm_rrb_gr := 0 |>) 0) 0 in
  let env := ia64_rse_sync_frame_in env in
  ia64_invalidate_stacked_alat env.

(** ** Ring and backing-store arithmetic *)

Lemma wrap_phys_spec idx : ia64_rse_wrap_phys idx = idx mod 96.
Proof.
  unfold ia64_rse_wrap_phys, ia64_rse_wrap_phys_slow. change IA64_STACKED_GR_COUNT with 96.
  assert (Hslow : (if Z.rem idx 96 <? 0 then Z.rem idx 96 + 96 else Z.rem idx 96) = idx mod 96).
  { pose proof (Z.quot_rem' idx 96). pose proof (Z.rem_bound_abs idx 96).
    destruct (Z.ltb_spec (Z.rem idx 96) 0);
      [apply (Z.mod_unique idx 96 (Z.quot idx 96 - 1))|apply (Z.mod_unique idx 96 (Z.quot idx 96))];
      lia. }
  destruct (_ && _) eqn:E; [|done]. apply andb_true_iff in E as [E1%Z.leb_le E2%Z.ltb_lt].
  destruct (Z.ltb_spec idx 0); [apply (Z.mod_unique idx 96 (-1)); lia|].
  destruct (Z.leb_spec 96 idx); [apply (Z.mod_unique idx 96 1); lia|].
  symmetry. apply Z.mod_small. lia.
Qed.

Lemma wrap_phys_range idx : 0 <= ia64_rse_wrap_phys idx < 96.
Proof. rewrite wrap_phys_spec. apply Z.mod_pos_bound. lia. Qed.

Lemma nat_word_count_spec total : 0 <= total -> ia64_rse_nat_word_count total = total / 63.
Proof.
  intros H. unfold ia64_rse_nat_word_count, ia64_rse_nat_word_count_slow.
  destruct (Z.ltb_spec total (3 * 63)); [|done].
  destruct (Z.leb_spec 63 total), (Z.leb_spec (2 * 63) total); simpl Z.b2z; try lia.
  - apply (Z.div_unique total 63 2 (total - 126)); lia.
  - apply (Z.div_unique total 63 1 (total - 63)); lia.
  - apply (Z.div_unique total 63 0 total); lia.
Qed.

(** The backing-store address of register [k], counted from the beginning of
    address 0: every 63 registers are followed by one NaT collection word.
    Addresses are modulo [2 ^ 64], a multiple of a group of 64 words. *)
Definition bs_addr (k : Z) : Z := u64 (8 * (k + k / 63)).

Lemma collect_bit_spec addr : ia64_rse_collect_bit addr = (addr / 8) mod 64.
Proof.
  unfold ia64_rse_collect_bit. change 0x3f with (2 ^ 6 - 1). rewrite land_mask by lia.
  by rewrite Z.shiftr_div_pow2 by lia.
Qed.

Lemma collect_bit_wrap x : ia64_rse_collect_bit (u64 x) = ia64_rse_collect_bit x.
Proof.
  unfold ia64_rse_collect_bit. change 0x3f with (2 ^ 6 - 1). rewrite !land_mask by lia. zbits.
Qed.

Lemma collect_bit_range addr : 0 <= ia64_rse_collect_bit addr < 64.
Proof. rewrite collect_bit_spec. apply Z.mod_pos_bound. lia. Qed.

Lemma collect_bit_bs_addr k : ia64_rse_collect_bit (bs_addr k) = k mod 63.
Proof.
  unfold bs_addr. rewrite collect_bit_wrap, collect_bit_spec, Z.mul_comm, Z.div_mul by lia.
  pose proof (Z.div_mod k 63). pose proof (Z.mod_pos_bound k 63).
  symmetry. apply (Z.mod_unique _ 64 (k / 63)); lia.
Qed.

Lemma words_grow_spec addr n :
  0 <= n < 2 ^ 31 -> ia64_rse_nat_words_grow addr n = (ia64_rse_collect_bit addr + n) / 63.
Proof.
  intros Hn. unfold ia64_rse_nat_words_grow. pose proof (collect_bit_range addr).
  rewrite wrap_small by (unfold uint; lia). by rewrite nat_word_count_spec by lia.
Qed.

Lemma words_shrink_spec addr n :
  0 <= n < 2 ^ 31 -> ia64_rse_collect_bit addr <> 63 ->
  ia64_rse_nat_words_shrink addr n = (62 - ia64_rse_collect_bit addr + n) / 63.
Proof.
  intros Hn Hb. unfold ia64_rse_nat_words_shrink. pose proof (collect_bit_range addr).
  rewrite wrap_small by (unfold uint; lia). by rewrite nat_word_count_spec by lia.
Qed.

(** Advancing and retreating over registers from the address of a register. *)
Lemma grow_bs_addr k n :
  0 <= n < 2 ^ 31 -> ia64_rse_nat_words_grow (bs_addr k) n = (k + n) / 63 - k / 63.
Proof.
  intros Hn. rewrite words_grow_spec, collect_bit_bs_addr by done.
  rewrite (Z.div_mod k 63) at 2 by lia.
  replace (63 * (k / 63) + k mod 63 + n) with (k mod 63 + n + (k / 63) * 63) by lia.
  rewrite Z.div_add by lia. lia.
Qed.

Lemma shrink_bs_addr k n :
  0 <= n < 2 ^ 31 -> ia64_rse_nat_words_shrink (bs_addr k) n = k / 63 - (k - n) / 63.
Proof.
  intros Hn. pose proof (Z.mod_pos_bound k 63) as Hk.
  rewrite words_shrink_spec, collect_bit_bs_addr by (rewrite ?collect_bit_bs_addr; lia).
  pose proof (Z.div_mod k 63). pose proof (Z.div_mod (k - n) 63).
  pose proof (Z.mod_pos_bound (k - n) 63).
  symmetry. apply (Z.div_unique _ 63 _ (62 - (k - n) mod 63)); lia.
Qed.

Lemma uint64_wrap_add x y : u64 (u64 x + y) = u64 (x + y).
Proof. unfold wrap. by rewrite Zplus_mod_idemp_l. Qed.

Lemma bs_addr_grow k n :
  0 <= n < 2 ^ 31 ->
  u64 (bs_addr k + 8 * (n + ia64_rse_nat_words_grow (bs_addr k) n)) = bs_addr (k + n).
Proof.
  intros Hn. rewrite grow_bs_addr by done. unfold bs_addr. rewrite uint64_wrap_add.
  f_equal. lia.
Qed.

Lemma bs_addr_shrink k n :
  0 <= n < 2 ^ 31 ->
  u64 (bs_addr k - 8 * (n + ia64_rse_nat_words_shrink (bs_addr k) n)) = bs_addr (k - n).
Proof.
  intros Hn. rewrite shrink_bs_addr by done. unfold bs_addr.
  replace (u64 (8 * (k + k / 63)) - 8 * (n + (k / 63 - (k - n) / 63)))
    with (u64 (8 * (k + k / 63)) + - (8 * (n + (k / 63 - (k - n) / 63)))) by lia.
  rewrite uint64_wrap_add. f_equal. lia.
Qed.

(** An address that is no collection word is the address of a register. *)
Lemma bs_addr_surj addr :
  uint 64 addr -> addr mod 8 = 0 -> ia64_rse_collect_bit addr <> 63 ->
  exists k, addr = bs_addr k /\ 0 <= k.
Proof.
  intros Ha H8 Hb. rewrite collect_bit_spec in Hb. pose proof (Z.div_mod addr 8).
  pose proof (Z.div_mod (addr / 8) 64). pose proof (Z.mod_pos_bound (addr / 8) 64).
  unfold uint in Ha. pose proof (Z.div_pos addr 8). pose proof (Z.div_pos (addr / 8) 64).
  exists (63 * (addr / 8 / 64) + (addr / 8) mod 64). split; [|lia].
  unfold bs_addr. rewrite wrap_small; [|unfold uint].
  - rewrite (Z.mul_comm 63), Z.div_add_l, (Z.div_small (_ mod 64)) by lia. lia.
  - rewrite (Z.mul_comm 63), Z.div_add_l, (Z.div_small (_ mod 64)) by lia. lia.
Qed.

(** [words] words below the address of register [k]: how many hold registers. *)
Lemma register_words_below_spec k n :
  0 <= n ->
  ia64_rse_register_words_below (bs_addr k) (n + (k / 63 - (k - n) / 63)) = n.
Proof.
  intros Hn. unfold ia64_rse_register_words_below. rewrite collect_bit_bs_addr.
  pose proof (Z.div_mod k 63). pose proof (Z.div_mod (k - n) 63).
  pose proof (Z.mod_pos_bound k 63). pose proof (Z.mod_pos_bound (k - n) 63).
  assert ((k - n) / 63 <= k / 63) by (apply Z.div_le_mono; lia).
  destruct (Z.ltb_spec (n + (k / 63 - (k - n) / 63)) (k mod 63 + 1)).
  - assert ((k - n) / 63 = k / 63) by nia. lia.
  - assert ((k - n) / 63 < k / 63 \/ (k - n) / 63 = k / 63) as [Hlt|Heq] by lia; [|lia].
    rewrite <- (Z.div_unique (n + (k / 63 - (k - n) / 63) - (k mod 63 + 1)) 64
      (k / 63 - (k - n) / 63 - 1) (63 - (k - n) mod 63)) by lia. lia.
Qed.

(** ** The renaming of the frame *)

(** What [ia64_rse_check] asks of the frame marker and the ring position. *)
Record frame_wf (env : CPUIA64State) : Prop := {
  wf_sof : 0 <= cfm_sof env <= 96;
  wf_sor : 0 <= cfm_sor env /\ 8 * cfm_sor env <= cfm_sof env;
  wf_rrb : 0 <= cfm_rrb_gr env /\
           (if cfm_sor env =? 0 then cfm_rrb_gr env = 0
            else cfm_rrb_gr env < 8 * cfm_sor env);
  wf_bol : 0 <= rse_bol (rse env) < 96
}.

Lemma rotating_count_wf env : frame_wf env -> ia64_rse_rotating_gr_count env = 8 * cfm_sor env.
Proof.
  intros [Hs Hr _ _]. unfold ia64_rse_rotating_gr_count. change IA64_STACKED_GR_COUNT with 96.
  rewrite Z.shiftl_mul_pow2 by lia. change (2 ^ 3) with 8. zcmp; lia.
Qed.

(** The register of the frame that physical register [p] holds, before
    rotation, and back. *)
Definition rotate_up (count rrb v : Z) : Z := if v <? count then (v + rrb) mod count else v.
Definition rotate_down (count rrb v : Z) : Z := if v <? count then (v - rrb) mod count else v.

Lemma rotate_up_range count rrb v n :
  0 <= count <= n -> 0 <= v < n -> 0 <= rotate_up count rrb v < n.
Proof.
  intros Hc Hv. unfold rotate_up. zcmp; [|lia].
  pose proof (Z.mod_pos_bound (v + rrb) count). lia.
Qed.

Lemma rotate_down_range count rrb v n :
  0 <= count <= n -> 0 <= v < n -> 0 <= rotate_down count rrb v < n.
Proof.
  intros Hc Hv. unfold rotate_down. zcmp; [|lia].
  pose proof (Z.mod_pos_bound (v - rrb) count). lia.
Qed.

Lemma rotate_down_up count rrb v :
  0 <= v -> rotate_down count rrb (rotate_up count rrb v) = v.
Proof.
  intros Hv. unfold rotate_down, rotate_up. destruct (Z.ltb_spec v count) as [H|H]; [|by zcmp].
  pose proof (Z.mod_pos_bound (v + rrb) count). zcmp.
  rewrite Zminus_mod_idemp_l. replace (v + rrb - rrb) with v by lia. apply Z.mod_small. lia.
Qed.

Lemma rotate_up_down count rrb v :
  0 <= v -> rotate_up count rrb (rotate_down count rrb v) = v.
Proof.
  intros Hv. unfold rotate_down, rotate_up. destruct (Z.ltb_spec v count) as [H|H]; [|by zcmp].
  pose proof (Z.mod_pos_bound (v - rrb) count). zcmp.
  rewrite Zplus_mod_idemp_l. replace (v - rrb + rrb) with v by lia. apply Z.mod_small. lia.
Qed.

Lemma virt_to_phys_spec env v :
  frame_wf env -> 0 <= v < 96 ->
  ia64_rse_virt_to_phys env v =
    (rse_bol (rse env) + rotate_up (8 * cfm_sor env) (cfm_rrb_gr env) v) mod 96.
Proof.
  intros Hwf Hv. unfold ia64_rse_virt_to_phys. rewrite rotating_count_wf by done.
  change IA64_STACKED_GR_COUNT with 96. destruct Hwf as [Hs Hr Hb Hbol].
  assert (He : (if v <? 8 * cfm_sor env
          then if 8 * cfm_sor env <=? v + cfm_rrb_gr env
               then v + cfm_rrb_gr env - 8 * cfm_sor env else v + cfm_rrb_gr env
          else v) = rotate_up (8 * cfm_sor env) (cfm_rrb_gr env) v).
  { unfold rotate_up. destruct (Z.ltb_spec v (8 * cfm_sor env)); [|done].
    destruct (Z.eqb_spec (cfm_sor env) 0); [lia|]. rewrite mod_wrap by lia. by zcmp; lia. }
  cbv zeta. rewrite He.
  pose proof (rotate_up_range (8 * cfm_sor env) (cfm_rrb_gr env) v 96).
  rewrite mod_wrap by lia. done.
Qed.

Lemma phys_to_virt_spec env p :
  frame_wf env -> 0 <= p < 96 ->
  ia64_rse_phys_to_virt env p =
    rotate_down (8 * cfm_sor env) (cfm_rrb_gr env) ((p - rse_bol (rse env)) mod 96).
Proof.
  intros Hwf Hp. unfold ia64_rse_phys_to_virt. rewrite rotating_count_wf by done.
  change IA64_STACKED_GR_COUNT with 96. destruct Hwf as [Hs Hr Hb Hbol].
  assert (He : (if rse_bol (rse env) <=? p then p - rse_bol (rse env)
                else p + 96 - rse_bol (rse env)) = (p - rse_bol (rse env)) mod 96).
  { destruct (Z.leb_spec (rse_bol (rse env)) p);
      [apply (Z.mod_unique _ _ 0)|apply (Z.mod_unique _ _ (-1))]; lia. }
  cbv zeta. rewrite He. pose proof (Z.mod_pos_bound (p - rse_bol (rse env)) 96).
  set (off := (p - rse_bol (rse env)) mod 96) in *. unfold rotate_down.
  destruct (Z.ltb_spec off (8 * cfm_sor env)); [|done].
  destruct (Z.eqb_spec (cfm_sor env) 0); [lia|].
  rewrite (wrap_small 32 (8 * _ - _)) by (unfold uint; lia).
  rewrite wrap_small by (unfold uint; lia).
  replace (off - cfm_rrb_gr env)
    with (off + (8 * cfm_sor env - cfm_rrb_gr env) + (-1) * (8 * cfm_sor env)) by lia.
  rewrite Z.mod_add, mod_wrap by lia. by zcmp.
Qed.

Lemma ring_offset b x : 0 <= x < 96 -> ((b + x) mod 96 - b) mod 96 = x.
Proof.
  intros Hx. rewrite Zminus_mod_idemp_l. replace (b + x - b) with x by lia.
  apply Z.mod_small. lia.
Qed.

Lemma phys_to_virt_to_phys env v :
  frame_wf env -> 0 <= v < 96 ->
  ia64_rse_phys_to_virt env (ia64_rse_virt_to_phys env v) = v.
Proof.
  intros Hwf Hv. assert (H := Hwf). destruct H as [Hs Hr Hb Hbol].
  pose proof (rotate_up_range (8 * cfm_sor env) (cfm_rrb_gr env) v 96).
  rewrite virt_to_phys_spec, phys_to_virt_spec, ring_offset, rotate_down_up
    by (done || lia || (apply Z.mod_pos_bound; lia)). done.
Qed.

Lemma virt_to_phys_to_virt env p :
  frame_wf env -> 0 <= p < 96 ->
  ia64_rse_virt_to_phys env (ia64_rse_phys_to_virt env p) = p.
Proof.
  intros Hwf Hp. assert (H := Hwf). destruct H as [Hs Hr Hb Hbol].
  pose proof (Z.mod_pos_bound (p - rse_bol (rse env)) 96).
  pose proof (rotate_down_range (8 * cfm_sor env) (cfm_rrb_gr env)
                ((p - rse_bol (rse env)) mod 96) 96).
  rewrite phys_to_virt_spec, virt_to_phys_spec, rotate_up_down by (done || lia).
  rewrite Zplus_mod_idemp_r. replace (rse_bol (rse env) + (p - rse_bol (rse env))) with p by lia.
  apply Z.mod_small. lia.
Qed.

Lemma virt_to_phys_range env v :
  frame_wf env -> 0 <= v < 96 -> 0 <= ia64_rse_virt_to_phys env v < 96.
Proof. intros Hwf Hv. rewrite virt_to_phys_spec by done. apply Z.mod_pos_bound. lia. Qed.

Lemma phys_to_virt_range env p :
  frame_wf env -> 0 <= p < 96 -> 0 <= ia64_rse_phys_to_virt env p < 96.
Proof.
  intros Hwf Hp. rewrite phys_to_virt_spec by done. destruct Hwf.
  apply rotate_down_range; [lia|]. apply Z.mod_pos_bound. lia.
Qed.

Lemma virt_to_phys_inj env v w :
  frame_wf env -> 0 <= v < 96 -> 0 <= w < 96 ->
  ia64_rse_virt_to_phys env v = ia64_rse_virt_to_phys env w -> v = w.
Proof.
  intros Hwf Hv Hw E. rewrite <- (phys_to_virt_to_phys env v), <- (phys_to_virt_to_phys env w) by done.
  by rewrite E.
Qed.

(** The index that the copy loops compute is the renaming. *)
Lemma sync_out_index_spec env v :
  sync_out_index (ia64_rse_rotating_gr_count env) (cfm_rrb_gr env) (rse_bol (rse env)) v =
  ia64_rse_virt_to_phys env v.
Proof.
  unfold sync_out_index, ia64_rse_virt_to_phys. change IA64_STACKED_GR_COUNT with 96.
  cbv zeta. rewrite (Z.add_comm (rse_bol (rse env))).
  set (x := (if v <? _ then _ else v) + rse_bol (rse env)).
  rewrite Z.ltb_antisym. by destruct (96 <=? x).
Qed.

(** ** Ranges of NaT bits *)

(** A two-word bitmap. *)
Definition bmap (n : list Z) : Prop := length n = 2%nat /\ Forall (uint 64) n.

Lemma bmap_pair x y : uint 64 x -> uint 64 y -> bmap [x; y].
Proof. intros Hx Hy. split; [done|]. by rewrite !Forall_cons, Forall_nil. Qed.

Lemma bmap_inv n : bmap n -> exists x y, n = [x; y] /\ uint 64 x /\ uint 64 y.
Proof. intros [Hl Hu]. by apply pair_wf. Qed.

Lemma bmap_ext n n' :
  bmap n -> bmap n' -> (forall r, 0 <= r < 128 -> bm_get n r = bm_get n' r) -> n = n'.
Proof. intros [? ?] [? ?]. by apply bitmap_ext. Qed.

Lemma bmap_set n i : bmap n -> 0 <= i < 128 -> bmap (bm_set n i).
Proof.
  intros [Hl Hu] Hi. split; [by rewrite bm_set_length|]. pose proof (Z.mod_pos_bound i 64).
  apply Forall_aset; [done|]. apply uint_lor; [lia|apply Forall_aget; [done|uint_const]|].
  apply (uint_shiftl 64 1); lia || (split; lia).
Qed.

Lemma bmap_clear n i : bmap n -> bmap (bm_clear n i).
Proof.
  intros [Hl Hu]. split; [by rewrite bm_clear_length|].
  apply Forall_aset; [done|]. apply uint_land_l; [lia|apply Forall_aget; [done|uint_const]].
Qed.

(** A bitmap as one 128-bit number. *)
Lemma pair_128_spec x y j :
  uint 64 x -> uint 64 y -> 0 <= j ->
  Z.testbit ((y <<< 64) .| x) j = if j <? 128 then bm_get [x; y] j else false.
Proof.
  intros Hx Hy Hj. destruct (Z.ltb_spec j 128); [rewrite bm_get_pair by lia|];
    zbits_step; zrange; rewrite ?orb_false_r; cbn [orb]; done.
Qed.

Lemma range_mask_spec n d j :
  0 <= n -> 0 <= d -> 0 <= j ->
  Z.testbit (wrap 128 ((if n =? 128 then wnot 128 0 else (1 <<< n) - 1) <<< d)) j =
  (j <? 128) && (d <=? j) && (j <? d + n).
Proof.
  intros Hn Hd Hj. destruct (Z.eqb_spec n 128) as [->|].
  - autorewrite with zbits. zcmp; autorewrite with zbits; zcmp; done.
  - replace ((1 <<< n) - 1) with (Z.ones n) by (rewrite Z.ones_equiv, shiftl_1_pow2 by lia; lia).
    autorewrite with zbits. zcmp; autorewrite with zbits; zcmp; done.
Qed.

(** Copying a range of bits between two bitmaps. *)
Lemma copy_bit_range_spec dst d src s n :
  bmap dst -> bmap src -> 0 <= d -> 0 <= s -> 0 <= n -> d + n <= 128 -> s + n <= 128 ->
  bmap (ia64_copy_bit_range dst d src s n) /\
  forall r, 0 <= r < 128 ->
    bm_get (ia64_copy_bit_range dst d src s n) r =
    if (d <=? r) && (r <? d + n) then bm_get src (s + (r - d)) else bm_get dst r.
Proof.
  intros Hdst Hsrc Hd Hs Hn Hdn Hsn. unfold ia64_copy_bit_range.
  destruct (Z.eqb_spec n 0) as [->|Hn0].
  { split; [done|]. intros r Hr. by zcmp. }
  destruct (bmap_inv _ Hdst) as (x & y & -> & Hx & Hy).
  destruct (bmap_inv _ Hsrc) as (x' & y' & -> & Hx' & Hy').
  change (aget [?a; ?b] 0) with a. change (aget [?a; ?b] 1) with b.
  change (aset (aset [?a; ?b] 0 ?c) 1 ?e) with [c; e].
  cbv zeta. set (mask := wrap 128 (_ <<< d)).
  assert (Hmask : forall j, 0 <= j -> Z.testbit mask j =
    (j <? 128) && (d <=? j) && (j <? d + n)) by (intros; by apply range_mask_spec).
  clearbody mask.
  pose proof (fun j => pair_128_spec x y j Hx Hy) as Hdw.
  pose proof (fun j => pair_128_spec x' y' j Hx' Hy') as Hsw.
  set (dw := (y <<< 64) .| x) in *. set (sw := (y' <<< 64) .| x') in *. clearbody dw sw.
  split; [apply bmap_pair; apply uint_wrap; lia|].
  intros r Hr. rewrite bm_get_pair by done.
  set (t := (dw .& _) .| _). assert (Ht : forall j, 0 <= j < 128 ->
    Z.testbit t j = if (d <=? j) && (j <? d + n) then bm_get [x'; y'] (s + (j - d))
                    else bm_get [x; y] j).
  { intros j Hj. subst t. autorewrite with zbits. rewrite Hmask, Hdw by lia. zcmp;
      autorewrite with zbits; rewrite ?Hsw by lia; zcmp;
      rewrite ?andb_false_r, ?andb_true_r, ?orb_false_r; try done.
    cbn [orb]. f_equal. lia. }
  clearbody t. destruct (Z.ltb_spec r 64).
  - rewrite wrap_spec by lia. destruct (Z.ltb_spec r 64); [|lia]. cbn [andb]. apply Ht. lia.
  - rewrite wrap_spec, Z.shiftr_spec by lia. destruct (Z.ltb_spec (r - 64) 64); [|lia].
    cbn [andb]. replace (r - 64 + 64) with r by lia. apply Ht. lia.
Qed.

Lemma word_mask_spec n sh j :
  0 <= n -> 0 <= sh -> n + sh <= 64 -> 0 <= j < 64 ->
  Z.testbit (~64 (if n =? 64 then UINT64_MAX else u64 (((1 <<< n) - 1) <<< sh))) j =
  negb ((sh <=? j) && (j <? sh + n)).
Proof.
  intros Hn Hs Hns Hj. rewrite wnot_spec by lia. destruct (Z.ltb_spec j 64); [|lia].
  cbn [andb]. f_equal. destruct (Z.eqb_spec n 64) as [->|].
  - change UINT64_MAX with (Z.ones 64). rewrite ones_spec by lia. zcmp; done.
  - replace ((1 <<< n) - 1) with (Z.ones n) by (rewrite Z.ones_equiv, shiftl_1_pow2 by lia; lia).
    autorewrite with zbits. zcmp; autorewrite with zbits; zcmp; done.
Qed.

Lemma clear_word_spec n k m :
  bmap n -> bmap (aset n k (aget n k .& m)).
Proof.
  intros [Hl Hu]. split; [by rewrite aset_length|]. apply Forall_aset; [done|].
  apply uint_land_l; [lia|apply Forall_aget; [done|uint_const]].
Qed.

Lemma bm_get_clear_word n k m r :
  bmap n -> 0 <= k < 2 -> 0 <= r < 128 ->
  bm_get (aset n k (aget n k .& m)) r =
  bm_get n r && (negb (r / 64 =? k) || Z.testbit m (r mod 64)).
Proof.
  intros [Hl _] Hk Hr. unfold bm_get. rewrite aget_aset by lia. rewrite (Z.eqb_sym k).
  destruct (Z.eqb_spec (r / 64) k) as [->|]; cbn [negb orb]; [apply Z.land_spec|].
  by rewrite andb_true_r.
Qed.

(** Clearing a range of bits. *)
Lemma clear_bit_range_spec bits first count :
  bmap bits -> 0 <= first -> 0 <= count -> first + count <= 128 ->
  bmap (ia64_clear_bit_range bits first count) /\
  forall r, 0 <= r < 128 ->
    bm_get (ia64_clear_bit_range bits first count) r =
    bm_get bits r && negb ((first <=? r) && (r <? first + count)).
Proof.
  intros Hb Hf Hc Hfc. unfold ia64_clear_bit_range.
  destruct (Z.eqb_spec count 0) as [->|Hc0].
  { split; [done|]. intros r Hr. zcmp; by rewrite andb_true_r. }
  pose proof (Z.div_mod first 64 ltac:(lia)). pose proof (Z.mod_pos_bound first 64 ltac:(lia)).
  assert (0 <= first / 64 < 2) by lia. set (word := first / 64) in *. set (sh := first mod 64) in *.
  set (n := Z.min count (64 - sh)) in *. cbv zeta.
  set (b1 := aset bits word _). assert (Hb1 : bmap b1) by by apply clear_word_spec.
  assert (Hg1 : forall r, 0 <= r < 128 -> bm_get b1 r =
    bm_get bits r && negb ((first <=? r) && (r <? first + n))).
  { intros r Hr. subst b1. rewrite bm_get_clear_word by done. f_equal.
    pose proof (Z.div_mod r 64 ltac:(lia)). pose proof (Z.mod_pos_bound r 64 ltac:(lia)).
    destruct (Z.eqb_spec (r / 64) word); cbn [negb orb]; [|zcmp; done].
    rewrite word_mask_spec by lia. f_equal. zcmp; done. }
  clearbody b1.
  destruct (Z.eqb_spec (count - n) 0) as [E|E]; cbn [negb].
  { split; [done|]. intros r Hr. rewrite Hg1 by done. by replace n with count by lia. }
  split; [by apply clear_word_spec|].
  intros r Hr. rewrite bm_get_clear_word, Hg1 by (done || lia).
  pose proof (Z.div_mod r 64 ltac:(lia)). pose proof (Z.mod_pos_bound r 64 ltac:(lia)).
  rewrite <- andb_assoc. f_equal.
  destruct (Z.eqb_spec (r / 64) (word + 1)); cbn [negb orb]; [|zcmp; done].
  replace (if count - n =? 64 then UINT64_MAX else (1 <<< (count - n)) - 1)
    with (if count - n =? 64 then UINT64_MAX else u64 (((1 <<< (count - n)) - 1) <<< 0)).
  - rewrite word_mask_spec by lia. zcmp; done.
  - destruct (Z.eqb_spec (count - n) 64); [done|]. rewrite Z.shiftl_0_r. apply wrap_small.
    rewrite shiftl_1_pow2 by lia. apply (uint_mono (count - n)); [lia|].
    unfold uint. pose proof (Z.pow_pos_nonneg 2 (count - n)). lia.
Qed.

(** ** Copying dirty registers *)

Lemma cto64_spec x :
  0 <= cto64 x <= 64 /\ (forall j, 0 <= j < cto64 x -> Z.testbit x j = true) /\
  (cto64 x < 64 -> Z.testbit x (cto64 x) = false).
Proof.
  unfold cto64. pose proof (ctz_from_spec 64 0 (~64 x)) as (Hz & Hb & Ht).
  fold (ctz64 (~64 x)) in *. split; [lia|]. split.
  - intros j Hj. specialize (Hz j ltac:(lia)). rewrite wnot_spec in Hz by lia.
    destruct (Z.ltb_spec j 64); [|lia]. by destruct (Z.testbit x j).
  - intros Hlt. specialize (Ht ltac:(lia)). rewrite wnot_spec in Ht by lia.
    destruct (Z.ltb_spec (ctz64 (~64 x)) 64); [|lia]. by destruct (Z.testbit x _).
Qed.

Lemma copy_dirty_length fuel dst d src s dirty :
  length (copy_dirty_fuel fuel dst d src s dirty) = length dst.
Proof.
  revert dst dirty. induction fuel as [|fuel IH]; intros dst dirty; [done|].
  cbn [copy_dirty_fuel]. cbv zeta. destruct (truth dirty); [|done].
  destruct (_ =? 15); rewrite IH; [apply memcpy_length|apply aset_length].
Qed.

(** One iteration: a run of [n] set bits from [k], the lowest one, is cleared. *)
Lemma clear_run_spec dirty k n j :
  0 <= k -> 0 < n -> k + n <= 64 -> 0 <= j -> uint 64 dirty ->
  (forall i, k <= i < k + n -> Z.testbit dirty i = true) ->
  Z.testbit (if n =? 64 then dirty .& 0 else dirty .& ~64 (u64 (((1 <<< n) - 1) <<< k))) j =
  Z.testbit dirty j && negb ((k <=? j) && (j <? k + n)).
Proof.
  intros Hk Hn Hkn Hj Hd Hrun. destruct (Z.ltb_spec j 64).
  - rewrite <- word_mask_spec by lia. destruct (Z.eqb_spec n 64) as [->|];
      rewrite !Z.land_spec; [|done]. rewrite Z.testbit_0_l, !andb_false_r.
    rewrite wnot_spec by lia. change UINT64_MAX with (Z.ones 64). rewrite ones_spec by lia.
    zcmp. by rewrite andb_false_r.
  - rewrite (uint_bits 64 dirty j) by (done || lia).
    destruct (n =? 64); rewrite Z.land_spec, (uint_bits 64 dirty j) by (done || lia); done.
Qed.

(** The copy of the dirty words, run by run or one by one. *)
Lemma copy_dirty_fuel_spec fuel dst d src s dirty i :
  uint 64 dirty -> 0 <= d -> 0 <= i < alen dst -> (fuel <= 64)%nat ->
  (forall j, 0 <= j < 64 - Z.of_nat fuel -> Z.testbit dirty j = false) ->
  aget (copy_dirty_fuel fuel dst d src s dirty) i =
  if (d <=? i) && Z.testbit dirty (i - d) then aget src (s + (i - d)) else aget dst i.
Proof.
  revert dst dirty. induction fuel as [|fuel IH]; intros dst dirty Hu Hd Hi Hf Hlow.
  { assert (dirty = 0) as -> by (apply (uint_zero_bits 64); [lia|done|intros; apply Hlow; lia]).
    by rewrite Z.testbit_0_l, andb_false_r. }
  cbn [copy_dirty_fuel]. unfold truth. destruct (Z.eqb_spec dirty 0) as [->|Hnz]; cbn [negb].
  { by rewrite Z.testbit_0_l, andb_false_r. }
  destruct (ctz64_spec dirty Hu Hnz) as (Hc & Hset & Hbelow). set (k := ctz64 dirty) in *.
  assert (Hk : 64 - Z.of_nat (S fuel) <= k).
  { destruct (Z.le_gt_cases (64 - Z.of_nat (S fuel)) k); [done|].
    rewrite (Hlow k) in Hset by lia. done. }
  cbv zeta. destruct (Z.eqb_spec ((dirty >>> k) .& 15) 15) as [E|E].
  - destruct (cto64_spec (dirty >>> k)) as (Hn & Hones & _). set (n := cto64 (dirty >>> k)) in *.
    assert (Hrun : forall j, k <= j < k + n -> Z.testbit dirty j = true).
    { intros j Hj. specialize (Hones (j - k) ltac:(lia)). rewrite Z.shiftr_spec in Hones by lia.
      by replace (j - k + k) with j in Hones by lia. }
    assert (Hn0 : 0 < n).
    { destruct (decide (n = 0)) as [En|]; [|lia].
      destruct (cto64_spec (dirty >>> k)) as (_ & _ & Hz). fold n in Hz.
      specialize (Hz ltac:(lia)). rewrite En, Z.shiftr_spec in Hz by lia.
      by rewrite Z.add_0_l, Hset in Hz. }
    assert (k + n <= 64).
    { destruct (Z.le_gt_cases (k + n) 64); [done|]. specialize (Hrun 64 ltac:(lia)).
      by rewrite (uint_bits 64) in Hrun by (done || lia). }
    pose proof (fun j Hj => clear_run_spec dirty k n j ltac:(lia) Hn0 ltac:(lia) Hj Hu Hrun) as Hclr.
    set (dirty' := if n =? 64 then _ else _) in *.
    rewrite IH; [|by subst dirty'; destruct (n =? 64); apply uint_land_l|done|
      by rewrite memcpy_length|lia|].
    + rewrite aget_memcpy by done. destruct (Z.leb_spec d i); cbn [andb].
      * rewrite Hclr by lia. zcmp; rewrite ?andb_false_r, ?andb_true_r; try done.
        rewrite Hrun by lia. cbv iota. f_equal. lia.
      * zcmp. done.
    + intros j Hj. rewrite Hclr by lia. destruct (Z.lt_ge_cases j k); [by rewrite Hbelow by lia|].
      zcmp. by rewrite andb_false_r.
  - rewrite IH; [|by apply uint_land_l|done|by rewrite aset_length|lia|].
    + destruct (Z.leb_spec d i); cbn [andb].
      * rewrite (clear_lowest_bit dirty k) by (done || lia).
        destruct (Z.eqb_spec k (i - d)) as [Ek|Ek]; cbn [negb].
        -- rewrite andb_false_r. replace (d + k) with i by lia. rewrite <- Ek, Hset.
           apply aget_aset_eq. done.
        -- rewrite andb_true_r. by rewrite aget_aset_ne by lia.
      * rewrite aget_aset_ne by lia. done.
    + intros j Hj. rewrite (clear_lowest_bit dirty k) by (done || lia).
      destruct (Z.eqb_spec k j); [by rewrite andb_false_r|]. by rewrite Hbelow by lia.
Qed.

Lemma copy_dirty_spec dst d src s dirty i :
  uint 64 dirty -> 0 <= d -> 0 <= i < alen dst ->
  aget (ia64_rse_copy_dirty dst d src s dirty) i =
  if (d <=? i) && Z.testbit dirty (i - d) then aget src (s + (i - d)) else aget dst i.
Proof. intros. apply copy_dirty_fuel_spec; try done. intros; lia. Qed.

Lemma frame_dirty_spec sof d0 d1 :
  uint 64 d0 -> uint 64 d1 -> 0 <= sof < 128 ->
  let '(e0, e1) := frame_dirty sof d0 d1 in
  uint 64 e0 /\ uint 64 e1 /\
  forall v, 0 <= v < 128 -> bm_get [e0; e1] v = bm_get [d0; d1] v && (v <? sof).
Proof.
  intros H0 H1 Hs. unfold frame_dirty. destruct (Z.ltb_spec sof 64).
  - split_and!; [by apply uint_land_l|uint_const|]. intros v Hv. rewrite !bm_get_pair by done.
    rewrite Z.land_spec, Z.testbit_0_l.
    replace (if sof =? 0 then 0 else (1 <<< sof) - 1) with (Z.ones sof).
    + destruct (Z.ltb_spec v 64); [by rewrite ones_spec by lia|]. zcmp. by rewrite andb_false_r.
    + destruct (Z.eqb_spec sof 0) as [->|]; [done|]. rewrite Z.ones_equiv, shiftl_1_pow2 by lia. lia.
  - split_and!; [done|by apply uint_land_l|]. intros v Hv. rewrite !bm_get_pair by done.
    rewrite Z.land_spec.
    replace ((1 <<< (sof - 64)) - 1) with (Z.ones (sof - 64))
      by (rewrite Z.ones_equiv, shiftl_1_pow2 by lia; lia).
    destruct (Z.ltb_spec v 64); [zcmp; by rewrite andb_true_r|]. rewrite ones_spec by lia.
    f_equal. zcmp; done.
Qed.

(** ** From the view to the physical file *)

(** The registers of the stack have their declared sizes and widths. *)
Record views_wf (env : CPUIA64State) : Prop := {
  vw_frame : frame_wf env;
  vw_gr : length (gr env) = 128%nat;
  vw_nat : bmap (nat_ env);
  vw_pgr : length (rse_pgr (rse env)) = 96%nat;
  vw_pnat : bmap (rse_pgr_nat (rse env));
  vw_dirty : bmap (rse_gr_dirty (rse env))
}.

(** Register [v] of the frame has been written since the view was loaded. *)
Definition frame_dirty_bit (env : CPUIA64State) (v : Z) : bool :=
  bm_get (rse_gr_dirty (rse env)) v && (v <? cfm_sof env).

(** [s] is [env], its dirty bits cleared, with the registers [D] of the view
    written to their places in the physical file. *)
Record synced (env : CPUIA64State) (D : Z -> bool) (s : CPUIA64State) : Prop := {
  sy_frame : s = env <| rse; rse_gr_dirty := [0; 0] |>
                     <| rse; rse_pgr := rse_pgr (rse s) |>
                     <| rse; rse_pgr_nat := rse_pgr_nat (rse s) |>;
  sy_len : length (rse_pgr (rse s)) = 96%nat;
  sy_bmap : bmap (rse_pgr_nat (rse s));
  sy_pgr : forall p, 0 <= p < 96 ->
    aget (rse_pgr (rse s)) p =
    if D (ia64_rse_phys_to_virt env p) then aget (gr env) (32 + ia64_rse_phys_to_virt env p)
    else aget (rse_pgr (rse env)) p;
  sy_nat : forall p, 0 <= p < 96 ->
    bm_get (rse_pgr_nat (rse s)) p =
    if D (ia64_rse_phys_to_virt env p) then bm_get (nat_ env) (32 + ia64_rse_phys_to_virt env p)
    else bm_get (rse_pgr_nat (rse env)) p
}.

Lemma synced_ext env D D' s :
  frame_wf env -> (forall v, 0 <= v < 96 -> D v = D' v) -> synced env D s -> synced env D' s.
Proof.
  intros Hwf HD [Hf Hl Hb Hp Hn]. split; [done..| |].
  - intros p Hpr. rewrite Hp by done. rewrite HD by (by apply phys_to_virt_range). done.
  - intros p Hpr. rewrite Hn by done. rewrite HD by (by apply phys_to_virt_range). done.
Qed.

(** One more register: the value, and the NaT bit unless all are known clear. *)
Lemma synced_step env D s v (nat_known : bool) :
  views_wf env -> 0 <= v < 96 -> synced env D s ->
  (nat_known = true -> forall i, 0 <= i < 96 -> bm_get (nat_ env) (32 + i) = false) ->
  (nat_known = true -> forall i, 0 <= i < 96 -> bm_get (rse_pgr_nat (rse env)) i = false) ->
  let p := ia64_rse_virt_to_phys env v in
  let s' := s <| rse; rse_pgr @ p := aget (gr env) (32 + v) |> in
  synced env (fun w => D w || (v =? w))
    (if nat_known then s' else ia64_rse_pgr_nat_set s' p (bm_get (nat_ env) (32 + v))).
Proof.
  intros Hwf Hv [Hf Hl Hb Hp Hn] Hc1 Hc2 p s'. assert (Hfr := vw_frame _ Hwf).
  assert (Hpr : 0 <= p < 96) by by apply virt_to_phys_range.
  assert (Hpv : forall q, 0 <= q < 96 -> (v =? ia64_rse_phys_to_virt env q) = (p =? q)).
  { intros q Hq. apply bool_ext. rewrite !Z.eqb_eq. split.
    - intros ->. by apply virt_to_phys_to_virt.
    - intros <-. symmetry. by apply phys_to_virt_to_phys. }
  destruct nat_known.
  - subst s'. split; cbn.
    + rewrite Hf. done.
    + by rewrite aset_length.
    + done.
    + intros q Hq. rewrite aget_aset, Hpv, Hp by (done || lia).
      destruct (Z.eqb_spec p q) as [<-|]; rewrite ?orb_true_r, ?orb_false_r; [|done].
      unfold p. by rewrite phys_to_virt_to_phys.
    + intros q Hq. rewrite Hn, Hc1, Hc2 by (done || by apply phys_to_virt_range).
      by repeat case_match.
  - unfold ia64_rse_pgr_nat_set. set (m := rse_pgr_nat (rse s)) in *.
    assert (Hm : exists m', bmap m' /\
      (if bm_get (nat_ env) (32 + v) then s' <| rse; rse_pgr_nat ::= fun m => bm_set m p |>
       else s' <| rse; rse_pgr_nat ::= fun m => bm_clear m p |>) =
      s' <| rse; rse_pgr_nat := m' |> /\
      forall j, 0 <= j < 96 -> bm_get m' j = if p =? j then bm_get (nat_ env) (32 + v)
                                             else bm_get m j).
    { assert (alen m = 2) by (destruct Hb as [-> _]; done).
      destruct (bm_get (nat_ env) (32 + v)); eexists; (split; [|split; [reflexivity|]]).
      - apply bmap_set; [done|lia].
      - intros j Hj. cbn. rewrite bm_get_set by (fold m; lia). by destruct (p =? j).
      - by apply bmap_clear.
      - intros j Hj. cbn. rewrite bm_get_clear by (fold m; lia). by destruct (p =? j). }
    destruct Hm as (m' & Hb' & -> & Hm'). subst s'. split; cbn.
    + rewrite Hf. done.
    + by rewrite aset_length.
    + done.
    + intros q Hq. rewrite aget_aset, Hpv, Hp by (done || lia).
      destruct (Z.eqb_spec p q) as [<-|]; rewrite ?orb_true_r, ?orb_false_r; [|done].
      unfold p. by rewrite phys_to_virt_to_phys.
    + intros q Hq. rewrite Hm', Hpv, Hn by done.
      destruct (Z.eqb_spec p q) as [<-|]; rewrite ?orb_true_r, ?orb_false_r; [|done].
      unfold p. by rewrite phys_to_virt_to_phys.
Qed.

(** The registers that the two loops over the dirty words visit. *)
Lemma for_dirty_fold d0 d1 f env :
  uint 64 d0 -> uint 64 d1 ->
  for_dirty d0 d1 f env = foldl f env (set_bits d0 ++ (Z.add 64 <$> set_bits d1)).
Proof.
  intros H0 H1. unfold for_dirty. rewrite !while_bits_fold by done. rewrite foldl_app.
  assert (Hmap : forall l (s : CPUIA64State),
    foldl (fun env bit => f env (1 * 64 + bit)) s l = foldl f s (Z.add 64 <$> l)).
  { induction l as [|x l IH]; intros s; [done|]. cbn [foldl fmap list_fmap]. apply IH. }
  rewrite Hmap. done.
Qed.

Lemma elem_of_dirty d0 d1 v :
  v ∈ set_bits d0 ++ (Z.add 64 <$> set_bits d1) <-> 0 <= v < 128 /\ bm_get [d0; d1] v = true.
Proof.
  rewrite elem_of_app, list_elem_of_fmap, elem_of_set_bits. split.
  - intros [[Hv Ht]|(i & -> & [Hi Ht]%elem_of_set_bits)].
    + split; [lia|]. rewrite bm_get_pair by lia. by zcmp.
    + split; [lia|]. rewrite bm_get_pair by lia. zcmp. by replace (64 + i - 64) with i by lia.
  - intros [Hv Ht]. rewrite bm_get_pair in Ht by lia. destruct (Z.ltb_spec v 64); [left; split; [lia|done]|].
    right. exists (v - 64). rewrite elem_of_set_bits. split; [lia|]. split; [lia|done].
Qed.

Lemma synced_fold env f l s D :
  (forall v s D, v ∈ l -> synced env D s -> synced env (fun w => D w || (v =? w)) (f s v)) ->
  frame_wf env -> synced env D s ->
  synced env (fun w => D w || bool_decide (w ∈ l)) (foldl f s l).
Proof.
  intros Hf Hwf. revert s D. induction l as [|v l IH]; intros s D Hs.
  - eapply synced_ext; [done| |exact Hs]. intros w Hw. by rewrite bool_decide_eq_false_2, orb_false_r
      by apply not_elem_of_nil.
  - cbn [foldl]. eapply synced_ext; [done| |apply IH; [|apply Hf; [|exact Hs]]].
    + intros w Hw. cbv beta. rewrite <- orb_assoc. f_equal. apply bool_ext.
      rewrite orb_true_iff, Z.eqb_eq, !bool_decide_eq_true, elem_of_cons.
      naive_solver.
    + intros; apply Hf; [by constructor|done].
    + constructor.
Qed.

Lemma synced_start env :
  views_wf env ->
  synced env (fun _ => false)
    (env <| rse; rse_gr_dirty @ 0 := 0 |> <| rse; rse_gr_dirty @ 1 := 0 |>).
Proof.
  intros [Hfr Hg Hn Hp Hpn Hd]. split; cbn; try done.
  destruct (bmap_inv _ Hd) as (x & y & E & _ & _).
  destruct env, rse; cbn in *. by subst.
Qed.

Lemma nat_files_clear_spec n m :
  bmap n -> bmap m ->
  (((aget n 0 >>> IA64_STACKED_GR_BASE) .| aget n 1 .| aget m 0 .| aget m 1) =? 0) = true ->
  (forall i, 0 <= i < 96 -> bm_get n (32 + i) = false) /\
  (forall i, 0 <= i < 96 -> bm_get m i = false).
Proof.
  intros Hn Hm H. destruct (bmap_inv _ Hn) as (x & y & -> & _ & _).
  destruct (bmap_inv _ Hm) as (x' & y' & -> & _ & _).
  change (aget [?a; ?b] 0) with a in H. change (aget [?a; ?b] 1) with b in H.
  apply Z.eqb_eq in H. rewrite !Z.lor_eq_0_iff in H. destruct H as [[[Hx ->] ->] ->].
  split; intros i Hi; rewrite bm_get_pair by lia; rewrite ?Z.testbit_0_l; [|by case_match].
  destruct (Z.ltb_spec (32 + i) 64); [|done].
  replace (32 + i) with (i + IA64_STACKED_GR_BASE) by (change IA64_STACKED_GR_BASE with 32; lia).
  rewrite <- Z.shiftr_spec, Hx by lia. apply Z.testbit_0_l.
Qed.

(** Without rotation the renaming is the position in the ring. *)
Lemma virt_to_phys_direct env v :
  frame_wf env -> ia64_rse_rotating_gr_count env = 0 \/ cfm_rrb_gr env = 0 -> 0 <= v < 96 ->
  ia64_rse_virt_to_phys env v = (rse_bol (rse env) + v) mod 96.
Proof.
  intros Hwf Hr Hv. rewrite virt_to_phys_spec by done. do 2 f_equal.
  rewrite rotating_count_wf in Hr by done. unfold rotate_up.
  destruct (Z.ltb_spec v (8 * cfm_sor env)); [|done].
  destruct Hr as [Hr|Hr]; [lia|]. rewrite Hr, Z.add_0_r. apply Z.mod_small. lia.
Qed.

Lemma dirty_in_frame env d0 d1 e0 e1 v :
  rse_gr_dirty (rse env) = [d0; d1] ->
  (forall v, 0 <= v < 128 -> bm_get [e0; e1] v = bm_get [d0; d1] v && (v <? cfm_sof env)) ->
  0 <= v < 96 ->
  bool_decide (v ∈ set_bits e0 ++ (Z.add 64 <$> set_bits e1)) = frame_dirty_bit env v.
Proof.
  intros Hd He Hv. unfold frame_dirty_bit. rewrite Hd, <- He by lia. apply bool_ext.
  rewrite bool_decide_eq_true, elem_of_dirty. split; [by intros [_ ?]|intros; split; [lia|done]].
Qed.

(** The register's NaT bit as the general loop extracts it. *)
Lemma reg_nat_spec x y v : 0 <= v < 96 ->
  (if v <? 32 then truth ((x >>> (IA64_STACKED_GR_BASE + v)) .& 1)
   else truth ((y >>> (v - 32)) .& 1)) = bm_get [x; y] (32 + v).
Proof.
  intros Hv. change IA64_STACKED_GR_BASE with 32. rewrite bm_get_pair by lia.
  rewrite Z.ltb_antisym. destruct (Z.leb_spec 32 v); cbn [negb]; rewrite truth_shiftr_1 by lia; zcmp;
    [f_equal; lia|done].
Qed.

Lemma sync_frame_out_slow_spec env d0 d1 :
  views_wf env -> rse_gr_dirty (rse env) = [d0; d1] ->
  synced env (frame_dirty_bit env) (ia64_rse_sync_frame_out_slow env d0 d1).
Proof.
  intros Hwf Hd. assert (Hfr := vw_frame _ Hwf). assert (Hs := wf_sof _ Hfr).
  assert (Hdb := vw_dirty _ Hwf). rewrite Hd in Hdb.
  destruct (bmap_inv _ Hdb) as (? & ? & [= <- <-] & Hd0 & Hd1).
  unfold ia64_rse_sync_frame_out_slow. cbv zeta.
  pose proof (frame_dirty_spec (cfm_sof env) d0 d1 Hd0 Hd1 ltac:(lia)) as He.
  destruct (frame_dirty (cfm_sof env) d0 d1) as [e0 e1]. destruct He as (He0 & He1 & He).
  set (env1 := env <| rse; rse_gr_dirty @ 0 := 0 |> <| rse; rse_gr_dirty @ 1 := 0 |>).
  assert (Hgr : forall D s, synced env D s -> gr s = gr env)
    by (intros D s [Hf _ _ _ _]; by rewrite Hf).
  assert (Hfold : forall f,
    (forall v s D, 0 <= v < 96 -> v < cfm_sof env -> synced env D s ->
       synced env (fun w => D w || (v =? w)) (f s v)) ->
    synced env (frame_dirty_bit env) (for_dirty e0 e1 f env1)).
  { intros f Hf. rewrite for_dirty_fold by done. eapply synced_ext; [done| |
      apply (synced_fold env f _ _ (fun _ => false)); [|done|by apply synced_start]].
    - intros v Hv. cbn [orb]. by eapply dirty_in_frame.
    - intros v s D [Hv Hin]%elem_of_dirty Hsy. rewrite He in Hin by done.
      apply andb_true_iff in Hin as [_ Hin%Z.ltb_lt]. apply Hf; (done || lia). }
  destruct (_ =? 0) eqn:Hclear; cbn [andb].
  - destruct (nat_files_clear_spec _ _ (vw_nat _ Hwf) (vw_pnat _ Hwf) Hclear) as [Hc1 Hc2].
    destruct (_ && _) eqn:Hdirect; apply Hfold; intros v s D Hv Hvs Hsy.
    + apply andb_true_iff in Hdirect as [Hrot Hfit%Z.leb_le].
      change IA64_STACKED_GR_COUNT with 96 in Hfit.
      replace (rse_bol (rse env) + v) with (ia64_rse_virt_to_phys env v).
      * rewrite (Hgr _ _ Hsy). by apply (synced_step env D s v true).
      * destruct (wf_bol _ Hfr). rewrite virt_to_phys_direct; [apply Z.mod_small; lia|done| |done].
        apply orb_true_iff in Hrot as [?%Z.eqb_eq|?%Z.eqb_eq]; [by left|by right].
    + rewrite sync_out_index_spec, (Hgr _ _ Hsy). by apply (synced_step env D s v true).
  - apply Hfold. intros v s D Hv Hvs Hsy. cbv zeta. rewrite sync_out_index_spec, (Hgr _ _ Hsy).
    rewrite reg_nat_spec by done.
    replace [aget (nat_ env) 0; aget (nat_ env) 1] with (nat_ env)
      by (destruct (bmap_inv _ (vw_nat _ Hwf)) as (? & ? & -> & _ & _); done).
    by apply (synced_step env D s v false).
Qed.

Lemma phys_to_virt_direct env p :
  frame_wf env -> cfm_sor env = 0 \/ cfm_rrb_gr env = 0 ->
  0 <= p < 96 -> ia64_rse_phys_to_virt env p = (p - rse_bol (rse env)) mod 96.
Proof.
  intros Hwf Hr Hp. rewrite phys_to_virt_spec by done. unfold rotate_down.
  pose proof (Z.mod_pos_bound (p - rse_bol (rse env)) 96).
  destruct (Z.ltb_spec ((p - rse_bol (rse env)) mod 96) (8 * cfm_sor env)); [|done].
  destruct Hr as [Hr|Hr]; [lia|]. rewrite Hr, Z.sub_0_r. apply Z.mod_small. lia.
Qed.

Lemma sync_frame_out_direct_spec env d0 d1 :
  views_wf env -> rse_gr_dirty (rse env) = [d0; d1] ->
  (forall i, 0 <= i < 96 -> bm_get (nat_ env) (32 + i) = false) ->
  (forall i, 0 <= i < 96 -> bm_get (rse_pgr_nat (rse env)) i = false) ->
  cfm_sor env = 0 \/ cfm_rrb_gr env = 0 -> rse_bol (rse env) + cfm_sof env <= 96 ->
  synced env (frame_dirty_bit env)
    (ia64_rse_sync_frame_out_direct env d0 d1 (cfm_sof env) (rse_bol (rse env))).
Proof.
  intros Hwf Hd Hc1 Hc2 Hrot Hfit. assert (Hfr := vw_frame _ Hwf).
  assert (Hs := wf_sof _ Hfr). assert (Hbol := wf_bol _ Hfr).
  assert (Hdb := vw_dirty _ Hwf). rewrite Hd in Hdb.
  destruct (bmap_inv _ Hdb) as (? & ? & [= <- <-] & Hd0 & Hd1).
  unfold ia64_rse_sync_frame_out_direct. cbv zeta.
  pose proof (frame_dirty_spec (cfm_sof env) d0 d1 Hd0 Hd1 ltac:(lia)) as He.
  destruct (frame_dirty (cfm_sof env) d0 d1) as [e0 e1]. destruct He as (He0 & He1 & He).
  pose proof (synced_start env Hwf) as [Hf1 Hl1 Hb1 Hp1 Hn1]. cbv beta iota in Hp1, Hn1.
  set (env1 := env <| rse; rse_gr_dirty @ 0 := 0 |> <| rse; rse_gr_dirty @ 1 := 0 |>) in *.
  set (bol := rse_bol (rse env)) in *.
  set (pgr0 := ia64_rse_copy_dirty (rse_pgr (rse env)) bol (gr env) IA64_STACKED_GR_BASE e0).
  set (pgr1 := if truth e1 then ia64_rse_copy_dirty pgr0 (bol + 64) (gr env)
    (IA64_STACKED_GR_BASE + 64) e1 else pgr0).
  assert (Hlen0 : length pgr0 = 96%nat) by (unfold pgr0, ia64_rse_copy_dirty; rewrite copy_dirty_length; apply Hwf).
  match goal with |- synced _ _ ?s => assert (E : s = env1 <| rse; rse_pgr := pgr1 |>) end.
  { unfold pgr1, pgr0. generalize ia64_rse_copy_dirty as cp. intros cp.
    destruct (truth e1); reflexivity. }
  rewrite E. clear E. change IA64_STACKED_GR_BASE with 32 in *.
  assert (Hlen : length pgr1 = 96%nat).
  { unfold pgr1, ia64_rse_copy_dirty. destruct (truth e1); [rewrite copy_dirty_length|]; done. }
  assert (Hget : forall p, 0 <= p < 96 -> aget pgr1 p =
    if (bol <=? p) && frame_dirty_bit env (p - bol) then aget (gr env) (32 + (p - bol))
    else aget (rse_pgr (rse env)) p).
  { intros p Hp. assert (Hpl : alen (rse_pgr (rse env)) = 96) by (rewrite (vw_pgr _ Hwf); done).
    assert (H1 : aget pgr1 p = if (bol + 64 <=? p) && Z.testbit e1 (p - (bol + 64))
                 then aget (gr env) (32 + 64 + (p - (bol + 64))) else aget pgr0 p).
    { unfold pgr1, truth. destruct (Z.eqb_spec e1 0) as [->|]; cbn [negb].
      - by rewrite Z.testbit_0_l, andb_false_r.
      - apply copy_dirty_spec; [done|lia|lia]. }
    rewrite H1. unfold pgr0. rewrite copy_dirty_spec by (done || lia). unfold frame_dirty_bit.
    rewrite Hd. destruct (Z.leb_spec bol p); cbn [andb]; [|zcmp; done].
    rewrite <- He, bm_get_pair by lia.
    destruct (Z.ltb_spec (p - bol) 64), (Z.leb_spec (bol + 64) p); try lia; cbn [andb]; [done|].
    rewrite (uint_bits 64 e0) by (done || lia).
    replace (p - (bol + 64)) with (p - bol - 64) by lia.
    by replace (32 + 64 + (p - bol - 64)) with (32 + (p - bol)) by lia. }
  assert (Hp2v : forall p, 0 <= p < 96 -> ia64_rse_phys_to_virt env p = (p - bol) mod 96)
    by (intros; by apply phys_to_virt_direct).
  split; cbn; try done.
  - rewrite Hf1. done.
  - intros p Hp. rewrite Hget, Hp2v by done. destruct (Z.leb_spec bol p); cbn [andb].
    + by rewrite (Z.mod_small (p - bol)) by lia.
    + assert (Hm : (p - bol) mod 96 = p - bol + 96) by (symmetry; apply (Z.mod_unique _ _ (-1)); lia).
      rewrite Hm. unfold frame_dirty_bit. destruct (Z.ltb_spec (p - bol + 96) (cfm_sof env)); [lia|].
      by rewrite andb_false_r.
  - intros p Hp. pose proof (phys_to_virt_range env p Hfr Hp).
    rewrite Hc1, Hc2 by done. by case_match.
Qed.

(** Every path writes exactly the dirty registers of the frame to their
    renamed places. *)
Lemma sync_frame_out_spec env :
  views_wf env -> synced env (frame_dirty_bit env) (ia64_rse_sync_frame_out env).
Proof.
  intros Hwf. destruct (bmap_inv _ (vw_dirty _ Hwf)) as (d0 & d1 & Hd & Hd0 & Hd1).
  unfold ia64_rse_sync_frame_out. cbv zeta. rewrite Hd.
  change (aget [?a; ?b] 0) with a. change (aget [?a; ?b] 1) with b.
  unfold truth. destruct (Z.eqb_spec (d0 .| d1) 0) as [E|E]; cbn [negb].
  - apply Z.lor_eq_0_iff in E as [-> ->].
    eapply synced_ext; [apply Hwf| |].
    2: { replace env with (env <| rse; rse_gr_dirty @ 0 := 0 |> <| rse; rse_gr_dirty @ 1 := 0 |>)
           at 2; [by apply synced_start|].
         destruct env, rse; cbn in *. by subst. }
    intros v Hv. unfold frame_dirty_bit. rewrite Hd, bm_get_pair by lia.
    rewrite !Z.testbit_0_l. by case_match.
  - destruct (_ && _) eqn:Hdirect; [|by apply sync_frame_out_slow_spec].
    apply andb_true_iff in Hdirect as [[Hclear Hrot]%andb_true_iff Hfit%Z.leb_le].
    destruct (nat_files_clear_spec _ _ (vw_nat _ Hwf) (vw_pnat _ Hwf) Hclear) as [Hc1 Hc2].
    apply sync_frame_out_direct_spec; try done.
    apply orb_true_iff in Hrot as [?%Z.eqb_eq|?%Z.eqb_eq]; [by left|by right].
Qed.

(** ** From the physical file to the view *)

(** [g] and [n] are the view of [env] with the registers [lo, hi) of the frame
    read from the physical file. *)
Record fetched (env : CPUIA64State) (lo hi : Z) (g n : list Z) : Prop := {
  fe_len : length g = 128%nat;
  fe_bmap : bmap n;
  fe_gr : forall r, 0 <= r < 128 ->
    aget g r = if (32 + lo <=? r) && (r <? 32 + hi)
               then aget (rse_pgr (rse env)) (ia64_rse_virt_to_phys env (r - 32))
               else aget (gr env) r;
  fe_nat : forall r, 0 <= r < 128 ->
    bm_get n r = if (32 + lo <=? r) && (r <? 32 + hi)
                 then bm_get (rse_pgr_nat (rse env)) (ia64_rse_virt_to_phys env (r - 32))
                 else bm_get (nat_ env) r
}.

Lemma pgr_nat_clear_spec env :
  bmap (rse_pgr_nat (rse env)) -> pgr_nat_clear env = true ->
  forall i, 0 <= i < 128 -> bm_get (rse_pgr_nat (rse env)) i = false.
Proof.
  intros Hb H i Hi. unfold pgr_nat_clear in H.
  destruct (bmap_inv _ Hb) as (x & y & E & _ & _). rewrite E in *.
  change (aget [?a; ?b] 0) with a in H. change (aget [?a; ?b] 1) with b in H.
  apply Z.eqb_eq, Z.lor_eq_0_iff in H as [-> ->].
  rewrite bm_get_pair, !Z.testbit_0_l by done. by case_match.
Qed.

(** One contiguous piece: registers [first, first + span) of the frame are at
    [p, p + span) in the file. *)
Lemma fetched_span env lo first span p g n (nat_clear : bool) :
  views_wf env -> fetched env lo first g n ->
  0 <= lo <= first -> 0 <= span -> first + span <= 96 -> 0 <= p -> p + span <= 96 ->
  (nat_clear = true -> pgr_nat_clear env = true) ->
  (forall i, 0 <= i < span -> ia64_rse_virt_to_phys env (first + i) = p + i) ->
  fetched env lo (first + span)
    (memcpy g (IA64_STACKED_GR_BASE + first) (rse_pgr (rse env)) p span)
    (if nat_clear then ia64_clear_bit_range n (IA64_STACKED_GR_BASE + first) span
     else ia64_copy_bit_range n (IA64_STACKED_GR_BASE + first) (rse_pgr_nat (rse env)) p span).
Proof.
  intros Hwf [Hl Hb Hg Hn] Hlo Hsp Hend Hp Hpe Hc Hmap. change IA64_STACKED_GR_BASE with 32.
  assert (Hsel : forall {A} (a b c : A) r, 0 <= r < 128 ->
    (32 + first <= r < 32 + (first + span) -> a = b) ->
    (if (32 + first <=? r) && (r <? 32 + first + span) then a
     else if (32 + lo <=? r) && (r <? 32 + first) then b else c) =
    (if (32 + lo <=? r) && (r <? 32 + (first + span)) then b else c)).
  { intros A a b c r Hr Hab. zcmp; try done. apply Hab. lia. }
  split; [by rewrite memcpy_length| | |].
  - destruct nat_clear.
    + apply clear_bit_range_spec; (done || lia).
    + apply copy_bit_range_spec; (done || lia || apply Hwf).
  - intros r Hr. rewrite aget_memcpy, Hg by lia. apply Hsel; [done|]. intros Hin. f_equal.
    rewrite <- (Hmap (r - (32 + first))) by lia. f_equal. lia.
  - intros r Hr. destruct nat_clear.
    + destruct (clear_bit_range_spec n (32 + first) span) as [_ ->]; try (done || lia).
      rewrite Hn by done. pose proof (vw_frame _ Hwf).
      rewrite <- (Hsel bool false) by (done || (intros; symmetry; apply pgr_nat_clear_spec;
        [apply Hwf|by apply Hc|]; pose proof (virt_to_phys_range env (r - 32) ltac:(done) ltac:(lia)); lia)).
      destruct ((32 + first <=? r) && (r <? 32 + first + span)); cbn [negb];
        [apply andb_false_r|apply andb_true_r].
    + destruct (copy_bit_range_spec n (32 + first) (rse_pgr_nat (rse env)) p span) as [_ ->];
        try (done || lia || apply Hwf).
      rewrite Hn by done. apply Hsel; [done|]. intros Hin. f_equal.
      rewrite <- (Hmap (r - (32 + first))) by lia. f_equal. lia.
Qed.

Lemma fetched_nil env lo : views_wf env -> fetched env lo lo (gr env) (nat_ env).
Proof. intros Hwf. split; [apply Hwf|apply Hwf|..]; intros r Hr; by zcmp. Qed.

(** The spans cover the frame; [end_] iterations suffice. *)
Lemma sync_in_spans_spec fuel env lo first end_ g n :
  views_wf env -> fetched env lo first g n ->
  0 <= lo <= first -> end_ <= cfm_sof env -> (Z.to_nat (end_ - first) <= fuel)%nat ->
  exists g' n',
    sync_in_spans fuel (env <| gr := g |> <| nat_ := n |>) first end_
      (ia64_rse_rotating_gr_count env) (cfm_rrb_gr env) (pgr_nat_clear env) =
      env <| gr := g' |> <| nat_ := n' |> /\
    fetched env lo (Z.max first end_) g' n'.
Proof.
  intros Hwf. assert (Hfr := vw_frame _ Hwf). assert (Hfr' := Hfr).
  destruct Hfr' as [Hs Hsor Hrrb Hbol].
  revert first g n. induction fuel as [|fuel IH]; intros first g n Hf Hlo Hend Hfuel.
  { exists g, n. split; [done|]. by rewrite Z.max_l by lia. }
  cbn [sync_in_spans]. destruct (Z.ltb_spec first end_) as [Hlt|];
    [|exists g, n; split; [done|by rewrite Z.max_l by lia]].
  rewrite rotating_count_wf by done. set (count := 8 * cfm_sor env) in *.
  set (ms := if (first <? count) && truth (cfm_rrb_gr env) then _ else _).
  assert (Hms : exists mapped span, ms = (mapped, span) /\ 0 < span <= end_ - first /\
    0 <= mapped < 96 /\
    forall i, 0 <= i < span -> rotate_up count (cfm_rrb_gr env) (first + i) = mapped + i).
  { subst ms. unfold truth. destruct (Z.ltb_spec first count); cbn [andb].
    - assert (cfm_sor env <> 0) by lia.
      destruct (Z.eqb_spec (cfm_sor env) 0); [lia|].
      destruct (Z.eqb_spec (cfm_rrb_gr env) 0) as [E|E]; cbn [negb].
      + eexists _, _. split; [reflexivity|]. split_and!; [lia..|]. intros i Hi. rewrite E.
        unfold rotate_up. zcmp; [|lia]. rewrite Z.add_0_r. apply Z.mod_small. lia.
      + cbv zeta. eexists _, _. split; [reflexivity|]. destruct (Z.leb_spec count (first + cfm_rrb_gr env)).
        * split_and!; [lia..|]. intros i Hi. unfold rotate_up. zcmp.
          symmetry. apply (Z.mod_unique _ _ 1); lia.
        * split_and!; [lia..|]. intros i Hi. unfold rotate_up. zcmp.
          rewrite Z.mod_small by lia. lia.
    - eexists _, _. split; [reflexivity|]. split_and!; [lia..|]. intros i Hi.
      unfold rotate_up. zcmp. lia. }
  destruct Hms as (mapped & span & -> & Hspan & Hmapped & Hrot).
  cbv zeta. change IA64_STACKED_GR_COUNT with 96.
  cbn [upd rse rse_bol gr nat_ rse_pgr rse_pgr_nat].
  set (p := if 96 <=? rse_bol (rse env) + mapped then _ else _).
  assert (Hp : p = (rse_bol (rse env) + mapped) mod 96).
  { subst p. rewrite mod_wrap by lia. rewrite Z.ltb_antisym. by destruct (96 <=? _). }
  pose proof (Z.mod_pos_bound (rse_bol (rse env) + mapped) 96 ltac:(lia)) as Hpr. rewrite <- Hp in Hpr.
  clearbody p. set (span' := Z.min span (96 - p)).
  pose proof (fetched_span env lo first span' p g n (pgr_nat_clear env) Hwf Hf Hlo
    ltac:(lia) ltac:(lia) ltac:(lia) ltac:(lia) id) as Hnext.
  assert (Hv : forall i, 0 <= i < span' -> ia64_rse_virt_to_phys env (first + i) = p + i).
  { intros i Hi. rewrite virt_to_phys_spec by (done || lia). fold count.
    rewrite Hrot, Z.add_assoc, <- Zplus_mod_idemp_l, <- Hp by lia. apply Z.mod_small. lia. }
  specialize (Hnext Hv).
  destruct (IH (first + span') _ _ Hnext) as (g' & n' & He & Hfe); [lia|lia|lia|].
  rewrite rotating_count_wf in He by done. fold count in He.
  exists g', n'. split; [|by replace (Z.max (first + span') end_) with (Z.max first end_) in Hfe by lia].
  rewrite <- He. by destruct (pgr_nat_clear env).
Qed.

(** The view of the whole frame has been loaded.  The NaT bits of registers
    outside the frame may be cleared; nothing else changes. *)
Record loaded (env s : CPUIA64State) : Prop := {
  ld_frame : s = env <| gr := gr s |> <| nat_ := nat_ s |> <| rse; rse_gr_dirty := [0; 0] |>;
  ld_len : length (gr s) = 128%nat;
  ld_bmap : bmap (nat_ s);
  ld_gr : forall v, 0 <= v < cfm_sof env ->
    aget (gr s) (32 + v) = aget (rse_pgr (rse env)) (ia64_rse_virt_to_phys env v);
  ld_nat : forall v, 0 <= v < cfm_sof env ->
    bm_get (nat_ s) (32 + v) = bm_get (rse_pgr_nat (rse env)) (ia64_rse_virt_to_phys env v);
  ld_gr_out : forall r, 0 <= r < 128 -> r < 32 \/ 32 + cfm_sof env <= r ->
    aget (gr s) r = aget (gr env) r;
  ld_nat_static : forall r, 0 <= r < 32 -> bm_get (nat_ s) r = bm_get (nat_ env) r
}.

Lemma clear_dirty_words env :
  bmap (rse_gr_dirty (rse env)) ->
  env <| rse; rse_gr_dirty @ 0 := 0 |> <| rse; rse_gr_dirty @ 1 := 0 |> =
  env <| rse; rse_gr_dirty := [0; 0] |>.
Proof.
  intros Hd. destruct (bmap_inv _ Hd) as (x & y & E & _ & _).
  destruct env, rse; cbn in *. by subst.
Qed.

Lemma fetched_loaded env g n s :
  views_wf env -> fetched env 0 (cfm_sof env) g n ->
  s = env <| gr := g |> <| nat_ := n |> <| rse; rse_gr_dirty := [0; 0] |> -> loaded env s.
Proof.
  intros Hwf [Hl Hb Hg Hn] ->. assert (Hs := wf_sof _ (vw_frame _ Hwf)). split; cbn; try done.
  - intros v Hv. rewrite Hg by lia. replace (32 + v - 32) with v by lia. by zcmp.
  - intros v Hv. rewrite Hn by lia. replace (32 + v - 32) with v by lia. by zcmp.
  - intros r Hr Ho. rewrite Hg by lia. by zcmp.
  - intros r Hr. rewrite Hn by lia. by zcmp.
Qed.

(** With all NaT bits of the file clear, clearing the whole stacked half of the
    bitmap serves as well as clearing the frame's part. *)
Lemma low_nats_spec n :
  bmap n -> bmap (aset (aset n 0 (aget n 0 .& UINT32_MAX)) 1 0) /\
  forall r, 0 <= r < 128 ->
    bm_get (aset (aset n 0 (aget n 0 .& UINT32_MAX)) 1 0) r = (r <? 32) && bm_get n r.
Proof.
  intros Hb. destruct (bmap_inv _ Hb) as (x & y & -> & Hx & Hy).
  change (aset (aset [x; y] 0 ?a) 1 ?b) with [a; b]. change (aget [x; y] 0) with x.
  split; [apply bmap_pair; [by apply uint_land_l|uint_const]|].
  intros r Hr. rewrite !bm_get_pair by done. change UINT32_MAX with (Z.ones 32).
  rewrite Z.land_spec, Z.testbit_0_l. destruct (Z.ltb_spec r 64).
  - rewrite ones_spec by lia. apply andb_comm.
  - zcmp; done.
Qed.

Lemma virt_to_phys_direct_sor env v :
  frame_wf env -> cfm_sor env = 0 \/ cfm_rrb_gr env = 0 -> 0 <= v < 96 ->
  ia64_rse_virt_to_phys env v = (rse_bol (rse env) + v) mod 96.
Proof.
  intros Hwf Hr Hv. apply virt_to_phys_direct; [done| |done].
  rewrite rotating_count_wf by done. destruct Hr; [left; lia|by right].
Qed.

(** The two pieces of a directly mapped frame, registers and NaT bits. *)
Lemma sync_in_pieces env :
  views_wf env -> cfm_sor env = 0 \/ cfm_rrb_gr env = 0 ->
  let first := Z.min (cfm_sof env) (96 - rse_bol (rse env)) in
  let second := cfm_sof env - first in
  let g := memcpy (gr env) 32 (rse_pgr (rse env)) (rse_bol (rse env)) first in
  let n := ia64_copy_bit_range (nat_ env) 32 (rse_pgr_nat (rse env)) (rse_bol (rse env)) first in
  fetched env 0 (cfm_sof env)
    (if negb (second =? 0) then memcpy g (32 + first) (rse_pgr (rse env)) 0 second else g)
    (if negb (second =? 0)
     then ia64_copy_bit_range n (32 + first) (rse_pgr_nat (rse env)) 0 second else n).
Proof.
  intros Hwf Hrot first second g n. assert (Hfr := vw_frame _ Hwf).
  destruct (wf_sof _ Hfr), (wf_bol _ Hfr).
  assert (Hfst : fetched env 0 first g n).
  { replace first with (0 + first) by lia.
    apply (fetched_span env 0 0 first _ _ _ false Hwf (fetched_nil env 0 Hwf)); try (lia || done).
    intros i Hi. rewrite virt_to_phys_direct_sor by (done || lia). apply Z.mod_small. lia. }
  destruct (Z.eqb_spec second 0) as [E|E]; cbn [negb];
    [by replace (cfm_sof env) with first by lia|].
  replace (cfm_sof env) with (first + second) by lia.
  apply (fetched_span env 0 first second 0 g n false Hwf Hfst); try (lia || done).
  intros i Hi. rewrite virt_to_phys_direct_sor by (done || lia).
  symmetry. apply (Z.mod_unique _ _ 1); lia.
Qed.

Lemma sync_in_copy_eq env sof bol :
  sync_in_copy env sof bol =
  let first := Z.min sof (96 - bol) in
  let g := memcpy (gr env) 32 (rse_pgr (rse env)) bol first in
  env <| gr := if negb (sof - first =? 0)
               then memcpy g (32 + first) (rse_pgr (rse env)) 0 (sof - first) else g |>.
Proof.
  unfold sync_in_copy. change IA64_STACKED_GR_COUNT with 96. change IA64_STACKED_GR_BASE with 32.
  cbv zeta. by destruct (sof - _ =? 0).
Qed.

(** Loading a directly mapped frame from a file without NaT bits. *)
Lemma loaded_clear env s :
  views_wf env -> cfm_sor env = 0 \/ cfm_rrb_gr env = 0 -> pgr_nat_clear env = true ->
  s = (sync_in_copy env (cfm_sof env) (rse_bol (rse env)))
        <| nat_ := aset (aset (nat_ env) 0 (aget (nat_ env) 0 .& UINT32_MAX)) 1 0 |>
        <| rse; rse_gr_dirty := [0; 0] |> ->
  loaded env s.
Proof.
  intros Hwf Hrot Hclear ->. pose proof (sync_in_pieces env Hwf Hrot) as [Hl _ Hg _].
  assert (Hfr := vw_frame _ Hwf). assert (Hs := wf_sof _ Hfr).
  destruct (low_nats_spec (nat_ env) (vw_nat _ Hwf)) as [Hb Hn].
  rewrite sync_in_copy_eq. cbv zeta in *. split; cbn; try done.
  - intros v Hv. rewrite Hg by lia. replace (32 + v - 32) with v by lia. by zcmp.
  - intros v Hv. rewrite Hn by lia. pose proof (virt_to_phys_range env v Hfr ltac:(lia)).
    rewrite pgr_nat_clear_spec by (done || apply Hwf || lia). by zcmp.
  - intros r Hr Ho. rewrite Hg by lia. by zcmp.
  - intros r Hr. rewrite Hn by lia. by zcmp.
Qed.

(** Every path loads the registers of the frame from their renamed places. *)
Lemma sync_frame_in_spec env : views_wf env -> loaded env (ia64_rse_sync_frame_in env).
Proof.
  intros Hwf. assert (Hfr := vw_frame _ Hwf). assert (Hs := wf_sof _ Hfr).
  unfold ia64_rse_sync_frame_in, ia64_rse_sync_frame_in_slow, ia64_rse_sync_frame_in_direct.
  assert (Hcase : (cfm_sor env =? 0) || (cfm_rrb_gr env =? 0) = true ->
    cfm_sor env = 0 \/ cfm_rrb_gr env = 0)
    by (intros [?%Z.eqb_eq|?%Z.eqb_eq]%orb_true_iff; [by left|by right]).
  destruct ((cfm_sor env =? 0) || (cfm_rrb_gr env =? 0)) eqn:Hrot; cbn [andb].
  - specialize (Hcase eq_refl). cbv zeta. change IA64_STACKED_GR_COUNT with 96.
    change IA64_STACKED_GR_BASE with 32.
    replace (pgr_nat_clear (sync_in_copy env (cfm_sof env) (rse_bol (rse env))))
      with (pgr_nat_clear env) by (by rewrite sync_in_copy_eq).
    destruct (pgr_nat_clear env) eqn:Hclear.
    + apply loaded_clear; try done. rewrite sync_in_copy_eq. cbv zeta.
      rewrite clear_dirty_words by exact (vw_dirty _ Hwf). reflexivity.
    + eapply fetched_loaded; [done|by apply sync_in_pieces|].
      rewrite sync_in_copy_eq. cbv zeta.
      destruct (cfm_sof env - _ =? 0); cbn [negb]; rewrite clear_dirty_words by exact (vw_dirty _ Hwf); reflexivity.
  - unfold ia64_rse_sync_frame_in_range. cbv zeta. rewrite Z.add_0_l, Z.min_id.
    destruct (truth _ && _) eqn:Hbig.
    { exfalso. rewrite rotating_count_wf in Hbig by done. unfold truth in Hbig.
      destruct (wf_rrb _ Hfr) as [_ Hr]. destruct (Z.eqb_spec (cfm_sor env) 0) as [E|E].
      - by rewrite E in Hbig.
      - apply andb_true_iff in Hbig as [_ Hbig%Z.leb_le]. lia. }
    destruct (sync_in_spans_spec (Z.to_nat (cfm_sof env)) env 0 0 (cfm_sof env) (gr env) (nat_ env))
      as (g & n & He & Hfe); [done|by apply fetched_nil|lia|lia|lia|].
    replace (env <| gr := gr env |> <| nat_ := nat_ env |>) with env in He by (by destruct env).
    rewrite He, clear_dirty_words by exact (vw_dirty _ Hwf). rewrite Z.max_r in Hfe by lia. by eapply fetched_loaded.
Qed.

(** ** The stacked registers proper

    The contents of physical register [p]: the value and NaT bit in the view if
    the frame holds a newer one there, and those of the file otherwise.  The
    view is coherent when its clean registers agree with the file. *)
Definition content (env : CPUIA64State) (p : Z) : Z * bool :=
  let v := ia64_rse_phys_to_virt env p in
  if frame_dirty_bit env v then (aget (gr env) (32 + v), bm_get (nat_ env) (32 + v))
  else (aget (rse_pgr (rse env)) p, bm_get (rse_pgr_nat (rse env)) p).

(** Register [32 + v] as an instruction reads it. *)
Definition view (env : CPUIA64State) (v : Z) : Z * bool :=
  (aget (gr env) (32 + v), bm_get (nat_ env) (32 + v)).

Definition coherent (env : CPUIA64State) : Prop :=
  forall v, 0 <= v < cfm_sof env -> frame_dirty_bit env v = false ->
    view env v = (aget (rse_pgr (rse env)) (ia64_rse_virt_to_phys env v),
                  bm_get (rse_pgr_nat (rse env)) (ia64_rse_virt_to_phys env v)).

Lemma coherent_view env v :
  views_wf env -> coherent env -> 0 <= v < cfm_sof env ->
  content env (ia64_rse_virt_to_phys env v) = view env v.
Proof.
  intros Hwf Hc Hv. assert (Hfr := vw_frame _ Hwf). destruct (wf_sof _ Hfr). unfold content.
  rewrite phys_to_virt_to_phys by (done || lia). unfold view.
  destruct (frame_dirty_bit env v) eqn:E; [done|]. symmetry. by apply Hc.
Qed.

(** The fields that decide the contents. *)
Definition stack_part (env : CPUIA64State) :=
  (gr env, nat_ env, rse env, (cfm_sof env, cfm_sor env, cfm_rrb_gr env)).

Lemma stack_part_inv env s :
  stack_part s = stack_part env ->
  gr s = gr env /\ nat_ s = nat_ env /\ rse s = rse env /\ cfm_sof s = cfm_sof env /\
  cfm_sor s = cfm_sor env /\ cfm_rrb_gr s = cfm_rrb_gr env.
Proof. intros [=]. done. Qed.

Lemma stack_part_v2p env s v : stack_part s = stack_part env ->
  ia64_rse_virt_to_phys s v = ia64_rse_virt_to_phys env v.
Proof.
  intros (_ & _ & E1 & E2 & E3 & E4)%stack_part_inv.
  unfold ia64_rse_virt_to_phys, ia64_rse_rotating_gr_count. by rewrite E1, E2, E3, E4.
Qed.

Lemma stack_part_content env s p : stack_part s = stack_part env -> content s p = content env p.
Proof.
  intros (Eg & En & E1 & E2 & E3 & E4)%stack_part_inv.
  unfold content, frame_dirty_bit, ia64_rse_phys_to_virt, ia64_rse_rotating_gr_count.
  by rewrite Eg, En, E1, E2, E3, E4.
Qed.

Lemma stack_part_view env s v : stack_part s = stack_part env -> view s v = view env v.
Proof. intros (Eg & En & _)%stack_part_inv. unfold view. by rewrite Eg, En. Qed.

Lemma stack_part_coherent env s : stack_part s = stack_part env -> coherent env -> coherent s.
Proof.
  intros E Hc v. rewrite (stack_part_v2p env s v E), (stack_part_view env s v E).
  destruct (stack_part_inv _ _ E) as (Eg & En & E1 & E2 & _). specialize (Hc v).
  unfold frame_dirty_bit in *. by rewrite E1, E2.
Qed.

Lemma stack_part_wf env s : stack_part s = stack_part env -> views_wf env -> views_wf s.
Proof.
  intros (Eg & En & E1 & E2 & E3 & E4)%stack_part_inv [[Hs Hsor Hrrb Hbol] ? ? ? ? ?].
  split; [split|..]; by rewrite ?Eg, ?En, ?E1, ?E2, ?E3, ?E4.
Qed.

Lemma set_cfm_rrb_fr_stack env r : stack_part (ia64_set_cfm_rrb_fr env r) = stack_part env.
Proof. unfold ia64_set_cfm_rrb_fr. cbv zeta. by repeat case_match. Qed.

Lemma set_cfm_rrb_pr_stack env r : stack_part (ia64_set_cfm_rrb_pr env r) = stack_part env.
Proof.
  unfold ia64_set_cfm_rrb_pr, ia64_set_cfm_rrb_pr_slow. cbv zeta. by repeat case_match.
Qed.

Lemma rotate_rrb_pr_stack env : stack_part (ia64_rotate_cfm_rrb_pr_right env) = stack_part env.
Proof. done. Qed.

Lemma invalidate_stacked_alat_stack env :
  stack_part (ia64_invalidate_stacked_alat env) = stack_part env.
Proof. done. Qed.

(** Writing the view back keeps the contents and the view, and leaves the file
    complete. *)
Lemma sync_out_content env :
  views_wf env ->
  let s := ia64_rse_sync_frame_out env in
  views_wf s /\ (forall p, 0 <= p < 96 -> content s p = content env p) /\
  (forall p, 0 <= p < 96 ->
    (aget (rse_pgr (rse s)) p, bm_get (rse_pgr_nat (rse s)) p) = content env p) /\
  (forall v, view s v = view env v) /\ (coherent env -> coherent s).
Proof.
  intros Hwf s. destruct (sync_frame_out_spec env Hwf) as [Hf Hl Hb Hp Hn]. fold s in Hf, Hl, Hb, Hp, Hn.
  assert (Hfr := vw_frame _ Hwf).
  assert (Hcont : forall p, 0 <= p < 96 ->
    (aget (rse_pgr (rse s)) p, bm_get (rse_pgr_nat (rse s)) p) = content env p).
  { intros p Hpr. rewrite Hp, Hn by done. unfold content. by case_match. }
  assert (Hnod : forall v, 0 <= v < 128 -> frame_dirty_bit s v = false).
  { intros v Hv. unfold frame_dirty_bit. rewrite Hf. cbn. rewrite bm_get_pair by lia.
    rewrite !Z.testbit_0_l. by case_match. }
  assert (Hfr' : frame_wf s) by (rewrite Hf; destruct Hfr; split; done).
  split_and!.
  - split; [done|..]; try done; rewrite Hf; cbn; try apply Hwf. apply bmap_pair; uint_const.
  - intros p Hpr. rewrite <- Hcont by done. unfold content. cbv zeta.
    by rewrite Hnod by (pose proof (phys_to_virt_range s p Hfr' Hpr); lia).
  - done.
  - intros v. unfold view. by rewrite Hf.
  - intros Hc v Hv _. assert (Hv2p : ia64_rse_virt_to_phys s v = ia64_rse_virt_to_phys env v)
      by (rewrite Hf; done).
    destruct (wf_sof _ Hfr'). assert (Hsof : cfm_sof s = cfm_sof env) by (by rewrite Hf).
    rewrite Hv2p, Hcont by (apply virt_to_phys_range; done || lia).
    rewrite coherent_view by (done || lia). unfold view. by rewrite Hf.
Qed.

(** Loading the view makes it coherent and keeps the contents, provided no
    newer register is lost. *)
Lemma sync_in_content env :
  views_wf env -> (forall v, 0 <= v < 96 -> frame_dirty_bit env v = false) ->
  let s := ia64_rse_sync_frame_in env in
  views_wf s /\ coherent s /\ (forall p, 0 <= p < 96 -> content s p = content env p).
Proof.
  intros Hwf Hnd s. destruct (sync_frame_in_spec env Hwf) as [Hf Hl Hb Hg Hn _ _].
  fold s in Hf, Hl, Hb, Hg, Hn. assert (Hfr := vw_frame _ Hwf).
  assert (Hnod : forall v, 0 <= v < 128 -> frame_dirty_bit s v = false).
  { intros v Hv. unfold frame_dirty_bit. rewrite Hf. cbn. rewrite bm_get_pair by lia.
    rewrite !Z.testbit_0_l. by case_match. }
  assert (Hfr' : frame_wf s) by (rewrite Hf; destruct Hfr; split; done).
  split_and!.
  - split; [done|done|done|..]; rewrite Hf; cbn; try apply Hwf. apply bmap_pair; uint_const.
  - intros v Hv _. assert (Hsof : cfm_sof s = cfm_sof env) by (by rewrite Hf).
    unfold view. rewrite Hg, Hn by lia. by rewrite Hf.
  - intros p Hpr. unfold content. cbv zeta.
    rewrite Hnod by (pose proof (phys_to_virt_range s p Hfr' Hpr); lia).
    rewrite Hnd by (by apply phys_to_virt_range). by rewrite Hf.
Qed.

(** ** Register rotation *)

Lemma shiftl_1_ones n : 0 <= n -> (1 <<< n) - 1 = Z.ones n.
Proof. intros. rewrite Z.ones_equiv, shiftl_1_pow2 by lia. lia. Qed.

Lemma rotate_down_1 count r :
  0 <= r -> rotate_down count 1 r = if r <? count then if r =? 0 then count - 1 else r - 1 else r.
Proof.
  intros Hr. unfold rotate_down. destruct (Z.ltb_spec r count); [|done].
  destruct (Z.eqb_spec r 0) as [->|]; [symmetry; apply (Z.mod_unique _ _ (-1)); lia|].
  apply Z.mod_small. lia.
Qed.

Lemma rotate_low_bits_spec bits count :
  bmap bits -> 0 < count < 128 ->
  bmap (ia64_rotate_low_bits_left_one bits count) /\
  forall r, 0 <= r < 128 ->
    bm_get (ia64_rotate_low_bits_left_one bits count) r = bm_get bits (rotate_down count 1 r).
Proof.
  intros Hb Hc. destruct (bmap_inv _ Hb) as (x & y & -> & Hx & Hy).
  unfold ia64_rotate_low_bits_left_one. change (aget [x; y] 0) with x.
  destruct (Z.leb_spec count 64).
  - replace (if count =? 64 then UINT64_MAX else (1 <<< count) - 1) with (Z.ones count)
      by (destruct (Z.eqb_spec count 64) as [->|]; [done|symmetry; apply shiftl_1_ones; lia]).
    cbv zeta. change (aset [x; y] 0 ?a) with [a; y]. split.
    { apply bmap_pair; [|done]. apply uint_lor; [lia|by apply uint_land_l|].
      apply uint_land_r; [lia|]. apply uint_ones. lia. }
    intros r Hr. rewrite rotate_down_1 by lia. rewrite !bm_get_pair by (zcmp; lia).
    rewrite shiftr_land_1 by lia. destruct (Z.ltb_spec r 64).
    + autorewrite with zbits. zcmp; subst; rewrite ?andb_true_r, ?andb_false_r, ?orb_false_r; try done.
    + zcmp; try done.
  - rewrite shiftl_1_ones by lia. cbv zeta. change (aget (aset [x; y] 0 ?a) 1) with y.
    change (aset (aset [x; y] 0 ?a) 1 ?b) with [a; b]. change (aget [x; y] 1) with y. split.
    { apply bmap_pair.
      - apply uint_lor; [lia|by apply uint_wrap|]. rewrite shiftr_land_1 by lia. by apply uint_b2z.
      - apply uint_lor; [lia|by apply uint_land_l|].
        apply uint_land_r; [lia|]. apply uint_ones. lia. }
    intros r Hr. rewrite rotate_down_1 by lia. rewrite !bm_get_pair by (zcmp; lia).
    rewrite shiftr_land_1 by lia. destruct (Z.ltb_spec r 64).
    + autorewrite with zbits. zcmp; subst; rewrite ?andb_true_r, ?andb_false_r, ?orb_false_r;
        try done. cbn [orb]. f_equal. lia.
    + autorewrite with zbits. zcmp; subst; rewrite ?andb_true_r, ?andb_false_r, ?orb_false_r;
        autorewrite with zbits; zrange; zcmp; try done.
      all: rewrite ?orb_false_r; cbn [orb]; try done; f_equal; lia.
Qed.

(** The stacked part of the NaT bitmap, moved to the bottom and back. *)
Lemma stacked_nats_spec n :
  bmap n ->
  let m := [(aget n 0 >>> 32) .| u64 (aget n 1 <<< 32); aget n 1 >>> 32] in
  bmap m /\ (forall r, 0 <= r < 128 -> bm_get m r = (r <? 96) && bm_get n (32 + r)).
Proof.
  intros Hb m. destruct (bmap_inv _ Hb) as (x & y & -> & Hx & Hy).
  change (aget [x; y] 0) with x in m. change (aget [x; y] 1) with y in m. split.
  - apply bmap_pair; [|by apply uint_shiftr]. apply uint_lor; [lia|by apply uint_shiftr|].
    by apply uint_wrap.
  - intros r Hr. unfold m. rewrite bm_get_pair by done.
    destruct (Z.ltb_spec r 96); cbn [andb]; [rewrite bm_get_pair by lia|];
      autorewrite with zbits; zcmp; autorewrite with zbits; zrange; rewrite ?orb_false_r;
      cbn [orb]; try done; f_equal; lia.
Qed.

Lemma restack_nats_spec n m :
  bmap n -> bmap m ->
  let n' := aset (aset n 0 ((aget n 0 .& UINT32_MAX) .| u64 (aget m 0 <<< 32))) 1
              ((aget m 0 >>> 32) .| u64 (aget m 1 <<< 32)) in
  bmap n' /\ (forall r, 0 <= r < 128 -> bm_get n' r = if r <? 32 then bm_get n r else bm_get m (r - 32)).
Proof.
  intros Hb Hm n'. destruct (bmap_inv _ Hb) as (x & y & -> & Hx & Hy).
  destruct (bmap_inv _ Hm) as (x' & y' & -> & Hx' & Hy').
  change (aget [?a; ?b] 0) with a in n'. change (aget [?a; ?b] 1) with b in n'.
  change (aset (aset [x; y] 0 ?a) 1 ?b) with [a; b] in n'. change UINT32_MAX with (Z.ones 32) in n'.
  split.
  - apply bmap_pair; apply uint_lor; try lia; [by apply uint_land_l|by apply uint_wrap| |by apply uint_wrap].
    by apply uint_shiftr.
  - intros r Hr. unfold n'. rewrite !bm_get_pair by lia.
    destruct (Z.ltb_spec r 32); [|rewrite bm_get_pair by lia];
      autorewrite with zbits; zcmp; autorewrite with zbits; zcmp; zrange;
      rewrite ?orb_false_r, ?andb_true_r, ?andb_false_r; cbn [orb]; try done; f_equal; lia.
Qed.

(** The rotated view: register [v + 1] reads as register [v] did. *)
Record gr_rotated (env s : CPUIA64State) : Prop := {
  ro_gr : length (gr s) = 128%nat;
  ro_nat : bmap (nat_ s);
  ro_dirty : bmap (rse_gr_dirty (rse s));
  ro_view : forall v, 0 <= v < 96 ->
    view s v = view env (rotate_down (8 * cfm_sor env) 1 v);
  ro_dirty_bit : forall v, 0 <= v < 96 ->
    bm_get (rse_gr_dirty (rse s)) v =
    bm_get (rse_gr_dirty (rse env)) (rotate_down (8 * cfm_sor env) 1 v);
  ro_static : forall r, 0 <= r < 32 ->
    aget (gr s) r = aget (gr env) r /\ bm_get (nat_ s) r = bm_get (nat_ env) r;
  ro_frame : exists a, s = env <| gr := gr s |> <| nat_ := nat_ s |>
    <| rse; rse_gr_dirty := rse_gr_dirty (rse s) |> <| alat_state := a |>
}.

Lemma rotate_down_nil v : 0 <= v -> rotate_down 0 1 v = v.
Proof. intros. unfold rotate_down. by zcmp. Qed.

Lemma rotate_gr_spec env :
  views_wf env -> gr_rotated env (ia64_rotate_rotating_gr_right env).
Proof.
  intros Hwf. assert (Hfr := vw_frame _ Hwf). unfold ia64_rotate_rotating_gr_right.
  rewrite rotating_count_wf by done. change IA64_STACKED_GR_BASE with 32.
  destruct (wf_sof _ Hfr), (wf_sor _ Hfr). assert (Hg := vw_gr _ Hwf).
  destruct (Z.eqb_spec (8 * cfm_sor env) 0) as [E|E].
  { split; try apply Hwf; rewrite ?E; try (intros; rewrite rotate_down_nil by lia); try done.
    exists (alat_state env). by destruct env, rse. }
  set (count := 8 * cfm_sor env) in *.
  destruct (stacked_nats_spec _ (vw_nat _ Hwf)) as [Hmb Hm]. cbv zeta.
  match goal with |- context [ia64_rotate_low_bits_left_one (?a :: ?l) count] =>
    set (m := a :: l) end.
  match type of Hm with context [bm_get ?m' _] => change m' with m in Hm end.
  match type of Hmb with bmap ?m' => change m' with m in Hmb end.
  clearbody m.
  destruct (rotate_low_bits_spec m count Hmb ltac:(lia)) as [Hmb' Hm'].
  set (m' := ia64_rotate_low_bits_left_one m count) in *. clearbody m'.
  destruct (rotate_low_bits_spec _ count (vw_dirty _ Hwf) ltac:(lia)) as [Hdb Hd].
  destruct (restack_nats_spec (nat_ env) m' (vw_nat _ Hwf) Hmb') as [Hnb Hn].
  assert (Hrd : forall v, 0 <= v < 96 -> 0 <= rotate_down count 1 v < 96)
    by (intros; apply rotate_down_range; lia).
  split; cbn [gr nat_ rse rse_gr_dirty upd]; try done.
  - by rewrite aset_length, memcpy_length.
  - intros v Hv. specialize (Hrd v Hv). unfold view. cbn [gr nat_ upd]. f_equal.
    + rewrite aget_aset, aget_memcpy by (rewrite ?memcpy_length; lia). rewrite rotate_down_1 by lia.
      zcmp; try done; f_equal; lia.
    + rewrite Hn by lia. zcmp. replace (32 + v - 32) with v by lia. rewrite Hm', Hm by lia. by zcmp.
  - intros v Hv. apply Hd. lia.
  - intros r Hr. split.
    + rewrite aget_aset_ne, aget_memcpy by lia. by zcmp.
    + rewrite Hn by lia. by zcmp.
  - eexists. reflexivity.
Qed.

Lemma rotate_down_shift count rrb v :
  0 <= v -> 0 < count -> 0 <= rrb < count ->
  rotate_down count (if rrb =? 0 then count - 1 else rrb - 1) v =
  rotate_up count 1 (rotate_down count rrb v).
Proof.
  intros Hv Hc Hr. unfold rotate_up, rotate_down. destruct (Z.ltb_spec v count); [|by zcmp].
  pose proof (Z.mod_pos_bound (v - rrb) count ltac:(lia)). zcmp.
  - subst. rewrite Zplus_mod_idemp_l. replace (v - (count - 1)) with (v - 0 + 1 + (-1) * count) by lia.
    apply Z.mod_add. lia.
  - rewrite Zplus_mod_idemp_l. f_equal. lia.
Qed.

(** A step of the rename base with the view rotated along: no register moves. *)
Lemma rotate_step_content env s :
  views_wf env -> gr_rotated env s -> cfm_sor env <> 0 ->
  let s' := s <| cfm_rrb_gr := if truth (cfm_rrb_gr s) then cfm_rrb_gr s - 1
                               else 8 * cfm_sor env - 1 |> in
  views_wf s' /\ (forall p, 0 <= p < 96 -> content s' p = content env p) /\
  (coherent env -> coherent s').
Proof.
  intros Hwf [Hg Hnb Hdb Hv Hd Hst [a Hf]] Hsor s'. assert (Hfr := vw_frame _ Hwf).
  destruct (wf_sof _ Hfr), (wf_sor _ Hfr), (wf_rrb _ Hfr) as [? Hrrb], (wf_bol _ Hfr).
  destruct (Z.eqb_spec (cfm_sor env) 0); [done|]. set (count := 8 * cfm_sor env) in *.
  assert (Hr : cfm_rrb_gr s = cfm_rrb_gr env) by (by rewrite Hf).
  assert (Hr' : cfm_rrb_gr s' = if cfm_rrb_gr env =? 0 then count - 1 else cfm_rrb_gr env - 1)
    by (cbn; rewrite Hr; unfold truth; by destruct (cfm_rrb_gr env =? 0)).
  assert (Hsof : cfm_sof s' = cfm_sof env) by (cbn; by rewrite Hf).
  assert (Hsor' : cfm_sor s' = cfm_sor env) by (cbn; by rewrite Hf).
  assert (Hbol : rse_bol (rse s') = rse_bol (rse env)) by (cbn; by rewrite Hf).
  assert (Hpgr : rse_pgr (rse s') = rse_pgr (rse env)) by (cbn; by rewrite Hf).
  assert (Hpn : rse_pgr_nat (rse s') = rse_pgr_nat (rse env)) by (cbn; by rewrite Hf).
  assert (Hfr' : frame_wf s').
  { split; rewrite ?Hsof, ?Hsor', ?Hr', ?Hbol; try done.
    destruct (Z.eqb_spec (cfm_sor env) 0); [done|]. destruct (Z.eqb_spec (cfm_rrb_gr env) 0); lia. }
  assert (Hwf' : views_wf s').
  { split; [done|..]; rewrite ?Hpgr, ?Hpn; try apply Hwf; done. }
  assert (Hp2v : forall p, 0 <= p < 96 ->
    ia64_rse_phys_to_virt s' p = rotate_up count 1 (ia64_rse_phys_to_virt env p)).
  { intros p Hp. rewrite !phys_to_virt_spec by done. rewrite Hsor', Hr', Hbol. fold count.
    apply rotate_down_shift; [apply Z.mod_pos_bound; lia|lia|lia]. }
  assert (Hdirty : forall v, 0 <= v < 96 ->
    frame_dirty_bit s' (rotate_up count 1 v) = frame_dirty_bit env v).
  { intros v Hv0. pose proof (rotate_up_range count 1 v 96 ltac:(lia) Hv0). unfold frame_dirty_bit.
    rewrite Hsof. cbn [rse upd s']. rewrite Hd, rotate_down_up by lia. f_equal.
    unfold rotate_up. destruct (Z.ltb_spec v count); [|done].
    pose proof (Z.mod_pos_bound (v + 1) count). zcmp; done. }
  assert (Hview : forall v, 0 <= v < 96 -> view s' (rotate_up count 1 v) = view env v).
  { intros v Hv0. change (view s' ?x) with (view s x). pose proof (rotate_up_range count 1 v 96).
    rewrite Hv, rotate_down_up by lia. done. }
  assert (Hcont : forall p, 0 <= p < 96 -> content s' p = content env p).
  { intros p Hp. unfold content. cbv zeta. pose proof (phys_to_virt_range env p Hfr Hp).
    rewrite Hp2v, Hdirty, Hpgr, Hpn by done. destruct (frame_dirty_bit env _); [|done].
    by apply Hview. }
  split_and!; [done|done|].
  intros Hc v Hvr Hdr. rewrite Hsof in Hvr.
  pose proof (virt_to_phys_range s' v Hfr' ltac:(lia)) as Hpr.
  set (q := ia64_rse_virt_to_phys s' v) in *.
  assert (Hw : (aget (rse_pgr (rse s')) q, bm_get (rse_pgr_nat (rse s')) q) = content env q).
  { rewrite <- Hcont by done. unfold content, q. cbv zeta.
    by rewrite phys_to_virt_to_phys, Hdr by (done || lia). }
  rewrite Hw.
  set (w := rotate_down count 1 v). pose proof (rotate_down_range count 1 v 96 ltac:(lia) ltac:(lia)) as Hwr.
  fold w in Hwr. assert (Evw : v = rotate_up count 1 w) by (unfold w; by rewrite rotate_up_down by lia).
  assert (Ep : q = ia64_rse_virt_to_phys env w).
  { pose proof (Hp2v _ Hpr) as Hq. unfold q in Hq at 1. rewrite phys_to_virt_to_phys in Hq by (done || lia).
    rewrite Evw in Hq at 1. apply (f_equal (rotate_down count 1)) in Hq.
    pose proof (phys_to_virt_range env _ Hfr Hpr).
    rewrite !rotate_down_up in Hq by lia. rewrite Hq. by rewrite virt_to_phys_to_virt. }
  assert (Hws : 0 <= w < cfm_sof env).
  { split; [lia|]. unfold w, rotate_down. destruct (Z.ltb_spec v count); [|lia].
    pose proof (Z.mod_pos_bound (v - 1) count). lia. }
  rewrite Ep, coherent_view by done. rewrite Evw. apply Hview. done.
Qed.

Lemma rotate_loop_content env :
  views_wf env ->
  let s := ia64_rotate_loop_regs env in
  views_wf s /\ (forall p, 0 <= p < 96 -> content s p = content env p) /\
  (coherent env -> coherent s) /\
  (forall v, 0 <= v < 96 -> view s v = view env (rotate_down (8 * cfm_sor env) 1 v)) /\
  ar s = ar env /\ cfm_sof s = cfm_sof env /\ cfm_sor s = cfm_sor env.
Proof.
  intros Hwf s. pose proof (rotate_gr_spec env Hwf) as Hrot.
  assert (Es : s = ia64_rotate_loop_regs env) by done. clearbody s.
  unfold ia64_rotate_loop_regs in Es. rewrite rotating_count_wf in Es by apply Hwf. cbv zeta in Es.
  set (e1 := ia64_rotate_rotating_gr_right env) in *.
  set (e2 := if negb (8 * cfm_sor env =? 0) then _ else e1) in Es.
  assert (Hs : stack_part s = stack_part e2)
    by (rewrite Es, rotate_rrb_pr_stack; apply set_cfm_rrb_fr_stack).
  assert (Hkeep : ar s = ar e2 /\ ar e1 = ar env /\ cfm_sof e1 = cfm_sof env /\ cfm_sor e1 = cfm_sor env).
  { split.
    - rewrite Es. unfold ia64_rotate_cfm_rrb_pr_right, ia64_set_cfm_rrb_fr. cbv zeta. cbn [ar upd].
      by repeat case_match.
    - destruct Hrot as [_ _ _ _ _ _ [a Hf]]. by rewrite Hf. }
  destruct Hkeep as (Ha & Ha1 & Hsf & Hsr).
  destruct (stack_part_inv _ _ Hs) as (_ & _ & _ & Esof & Esor & _).
  assert (He2 : views_wf e2 /\ (forall p, 0 <= p < 96 -> content e2 p = content env p) /\
    (coherent env -> coherent e2)).
  { unfold e2. destruct (Z.eqb_spec (8 * cfm_sor env) 0) as [E|E]; cbn [negb].
    - assert (Ee : e1 = env).
      { unfold e1, ia64_rotate_rotating_gr_right. by rewrite rotating_count_wf, E by apply Hwf. }
      by rewrite Ee.
    - apply (rotate_step_content env e1 Hwf Hrot). lia. }
  destruct He2 as (Hwf2 & Hc2 & Hco2).
  assert (Hfields : ar e2 = ar e1 /\ cfm_sof e2 = cfm_sof e1 /\ cfm_sor e2 = cfm_sor e1 /\
    forall v, view e2 v = view e1 v) by (unfold e2; by destruct (8 * cfm_sor env =? 0)).
  destruct Hfields as (Ha2 & Hsf2 & Hsr2 & Hv2).
  split_and!; try congruence.
  - by apply (stack_part_wf e2).
  - intros p Hp. rewrite (stack_part_content e2 s p Hs). by apply Hc2.
  - intros Hc. by apply (stack_part_coherent e2), Hco2.
  - intros v Hv. rewrite (stack_part_view e2 s v Hs), Hv2. by apply (ro_view _ _ Hrot).
Qed.

(** C25. Writing the frame back and loading it again: whichever of the direct,
    masked and general copies runs, the physical file afterwards holds the
    newest value and NaT bit of every stacked register, and each register of
    the frame reads as before, namely as the physical register that the
    renaming (rotation, bottom of frame, wrap-around) assigns to it. *)
Theorem frame_copies_exact env :
  views_wf env -> coherent env ->
  let s := ia64_rse_sync_frame_in (ia64_rse_sync_frame_out env) in
  (forall p, 0 <= p < 96 ->
    (aget (rse_pgr (rse s)) p, bm_get (rse_pgr_nat (rse s)) p) = content env p) /\
  (forall v, 0 <= v < cfm_sof env ->
    view s v = view env v /\ view s v = content env (ia64_rse_virt_to_phys env v)) /\
  rse_gr_dirty (rse s) = [0; 0] /\
  (forall r, 0 <= r < 32 -> aget (gr s) r = aget (gr env) r /\ bm_get (nat_ s) r = bm_get (nat_ env) r).
Proof.
  intros Hwf Hc s. destruct (sync_frame_out_spec env Hwf) as [Hf _ _ _ _].
  destruct (sync_out_content env Hwf) as (Hwf1 & _ & Hfile & Hview & _).
  set (e1 := ia64_rse_sync_frame_out env) in *.
  destruct (sync_frame_in_spec e1 Hwf1) as [Hf2 _ _ Hg Hn Hgo Hns]. fold s in Hf2, Hg, Hn, Hgo, Hns.
  assert (Hpgr : rse_pgr (rse s) = rse_pgr (rse e1)) by (by rewrite Hf2).
  assert (Hpn : rse_pgr_nat (rse s) = rse_pgr_nat (rse e1)) by (by rewrite Hf2).
  assert (Hv2p : forall v, ia64_rse_virt_to_phys e1 v = ia64_rse_virt_to_phys env v)
    by (intros; by rewrite Hf).
  assert (Hsof : cfm_sof e1 = cfm_sof env) by (by rewrite Hf).
  assert (Hfr := vw_frame _ Hwf). destruct (wf_sof _ Hfr).
  split_and!.
  - intros p Hp. rewrite Hpgr, Hpn. by apply Hfile.
  - intros v Hv. assert (E : view s v = content env (ia64_rse_virt_to_phys env v)).
    { unfold view. rewrite Hg, Hn by lia. rewrite Hv2p. apply Hfile. apply virt_to_phys_range; done || lia. }
    split; [|done]. by rewrite E, coherent_view.
  - by rewrite Hf2.
  - intros r Hr. rewrite Hgo, Hns by lia. by rewrite Hf.
Qed.

(** A frame of 20 registers, 16 of them rotating by 5, that wraps around the
    ring, with registers r32, r40 and r51 written and r40 NaT. *)
Definition frame_example : CPUIA64State :=
  zero_env <| gr @ 32 := 7 |> <| gr @ 40 := 8 |> <| gr @ 51 := 9 |>
    <| nat_ := [2 ^ 40; 0] |> <| cfm_sof := 20 |> <| cfm_sor := 2 |> <| cfm_rrb_gr := 5 |>
    <| rse; rse_bol := 90 |> <| rse; rse_gr_dirty := [2 ^ 0 + 2 ^ 8 + 2 ^ 19; 0] |>.

(** The well-formedness and coherence of a concrete state, by evaluation. *)
Definition bmapb (n : list Z) : bool :=
  (alen n =? 2) && forallb (fun x => (0 <=? x) && (x <? 2 ^ 64)) n.

Lemma bmapb_spec n : bmapb n = true -> bmap n.
Proof.
  unfold bmapb. intros [H1%Z.eqb_eq H2]%andb_true_iff. split; [lia|]. by apply all_uint.
Qed.

Definition views_wfb (env : CPUIA64State) : bool :=
  (0 <=? cfm_sof env) && (cfm_sof env <=? 96) && (0 <=? cfm_sor env) &&
  (8 * cfm_sor env <=? cfm_sof env) && (0 <=? cfm_rrb_gr env) &&
  (if cfm_sor env =? 0 then cfm_rrb_gr env =? 0 else cfm_rrb_gr env <? 8 * cfm_sor env) &&
  (0 <=? rse_bol (rse env)) && (rse_bol (rse env) <? 96) && (alen (gr env) =? 128) &&
  (alen (rse_pgr (rse env)) =? 96) && bmapb (nat_ env) && bmapb (rse_pgr_nat (rse env)) &&
  bmapb (rse_gr_dirty (rse env)).

Lemma views_wfb_spec env : views_wfb env = true -> views_wf env.
Proof.
  unfold views_wfb. rewrite !andb_true_iff, !Z.leb_le, !Z.ltb_lt, !Z.eqb_eq.
  intros ((((((((((((? & ?) & ?) & ?) & ?) & Hr) & ?) & ?) & ?) & ?) & ?) & ?) & ?).
  split; [split; try lia; split; [lia|]|lia|by apply bmapb_spec|lia|by apply bmapb_spec..].
  destruct (cfm_sor env =? 0); [by apply Z.eqb_eq|by apply Z.ltb_lt].
Qed.

Definition coherentb (env : CPUIA64State) : bool :=
  forallb (fun v => frame_dirty_bit env v ||
    ((aget (gr env) (32 + v) =? aget (rse_pgr (rse env)) (ia64_rse_virt_to_phys env v)) &&
     eqb (bm_get (nat_ env) (32 + v))
       (bm_get (rse_pgr_nat (rse env)) (ia64_rse_virt_to_phys env v))))
    (seqZ 0 (cfm_sof env)).

Lemma coherentb_spec env : coherentb env = true -> coherent env.
Proof.
  intros H v Hv Hd. unfold coherentb in H. rewrite forallb_forall in H.
  specialize (H v). rewrite <- list_elem_of_In, elem_of_seqZ in H. specialize (H ltac:(lia)).
  rewrite Hd in H. cbn [orb] in H. apply andb_true_iff in H as [H1%Z.eqb_eq H2%eqb_prop].
  unfold view. by rewrite H1, H2.
Qed.

Lemma frame_copies_exact_witness :
  view (ia64_rse_sync_frame_in (ia64_rse_sync_frame_out frame_example)) 8 = (8, true).
Proof.
  destruct (frame_copies_exact frame_example (views_wfb_spec frame_example eq_refl)
    (coherentb_spec frame_example eq_refl)) as (_ & H & _).
  etransitivity; [apply (H 8); vm_compute; split; [discriminate|reflexivity]|].
  vm_compute. reflexivity.
Defined.

(** ** Software-pipelined loops *)

(** A [br.ctop] that closes an empty loop body, until it falls through: the
    number of taken branches and the final state. *)
Fixpoint ctop_loop (fuel : nat) (env : CPUIA64State) : option (Z * CPUIA64State) :=
  match fuel with
  | O => None
  | S fuel =>
      match ia64_rse_br_ctop env with
      | (true, s) => prod_map (Z.add 1) id <$> ctop_loop fuel s
      | (false, s) => Some (0, s)
      end
  end.

(** The state in which a loop can run: the loop counters are in range, the
    register views are well formed and coherent. *)
Record loop_wf (env : CPUIA64State) : Prop := {
  lw_views : views_wf env;
  lw_coherent : coherent env;
  lw_ar : length (ar env) = 128%nat;
  lw_lc : 0 <= ar_lc env;
  lw_ec : 0 <= ar_ec env
}.

Lemma stack_part_ar_pr env a p : stack_part (env <| ar := a |> <| pr := p |>) = stack_part env.
Proof. done. Qed.

Lemma rotate_branch env a p :
  views_wf env -> coherent env ->
  let s := ia64_rotate_loop_regs (env <| ar := a |> <| pr := p |>) in
  views_wf s /\ coherent s /\ ar s = a /\ cfm_sor s = cfm_sor env /\
  (forall q, 0 <= q < 96 -> content s q = content env q) /\
  (forall v, 0 <= v < 96 -> view s v = view env (rotate_down (8 * cfm_sor env) 1 v)).
Proof.
  intros Hwf Hc s. pose proof (stack_part_ar_pr env a p) as Hs.
  destruct (rotate_loop_content (env <| ar := a |> <| pr := p |>) (stack_part_wf _ _ Hs Hwf))
    as (Hwf' & Hcont & Hcoh & Hview & Har & _ & Hsor).
  fold s in Hwf', Hcont, Hcoh, Hview, Har, Hsor. split_and!; try done.
  - apply Hcoh. by apply (stack_part_coherent env).
Qed.

(** One [br.ctop]. *)
Lemma br_ctop_spec env :
  loop_wf env ->
  let '(taken, s) := ia64_rse_br_ctop env in
  taken = (1 <? ar_lc env + ar_ec env) || (0 <? ar_lc env) /\ loop_wf s /\
  (forall q, 0 <= q < 96 -> content s q = content env q) /\
  ar_lc s = Z.max 0 (ar_lc env - 1) /\
  ar_ec s = (if ar_lc env =? 0 then Z.max 0 (ar_ec env - 1) else ar_ec env) /\
  (0 < ar_lc env + ar_ec env -> cfm_sor s = cfm_sor env /\
   forall v, 0 <= v < 96 -> view s v = view env (rotate_down (8 * cfm_sor env) 1 v)).
Proof.
  intros [Hwf Hc Hl Hlc Hec]. unfold ia64_rse_br_ctop. cbv zeta.
  split; [destruct (Z.eqb_spec (ar_lc env) 0); cbn [negb orb]; zcmp; done|].
  destruct (Z.eqb_spec (ar_lc env) 0) as [E|E]; cbn [negb];
    [destruct (Z.eqb_spec (ar_ec env) 0) as [E'|E']; cbn [negb]|].
  - assert (Hs : stack_part (env <| pr @ IA64_PR_LAST := 0 |>) = stack_part env) by done.
    assert (Har : ar (env <| pr @ IA64_PR_LAST := 0 |>) = ar env) by done.
    set (s := env <| pr @ IA64_PR_LAST := 0 |>) in *. clearbody s.
    unfold ar_lc, ar_ec in *. split_and!; rewrite ?Har; try lia.
    + split; unfold ar_lc, ar_ec; rewrite ?Har; try done; try lia.
      * by apply (stack_part_wf env).
      * by apply (stack_part_coherent env).
    + intros q Hq. by apply stack_part_content.
  - destruct (rotate_branch env (aset (ar env) IA64_AR_EC (ar_ec env - 1))
      (aset (pr env) IA64_PR_LAST 0) Hwf Hc) as (Hwf' & Hc' & Har & Hsor & Hcont & Hview).
    match type of Har with ar ?t = _ => set (s := t) in * end.
    change (env <| ar @ IA64_AR_EC := ar_ec env - 1 |> <| pr @ IA64_PR_LAST := 0 |>)
      with (env <| ar := aset (ar env) IA64_AR_EC (ar_ec env - 1) |>
                <| pr := aset (pr env) IA64_PR_LAST 0 |>). fold s. clearbody s.
    assert (Hlc' : ar_lc s = ar_lc env)
      by (unfold ar_lc at 1; rewrite Har, aget_aset_ne by done; done).
    assert (Hec' : ar_ec s = ar_ec env - 1)
      by (unfold ar_ec at 1; rewrite Har, aget_aset_eq by (rewrite Hl; done); done).
    split_and!; try lia; try done.
    split; try done; [by rewrite Har, aset_length|lia|lia].
  - destruct (rotate_branch env (aset (ar env) IA64_AR_LC (ar_lc env - 1))
      (aset (pr env) IA64_PR_LAST 1) Hwf Hc) as (Hwf' & Hc' & Har & Hsor & Hcont & Hview).
    match type of Har with ar ?t = _ => set (s := t) in * end.
    change (env <| ar @ IA64_AR_LC := ar_lc env - 1 |> <| pr @ IA64_PR_LAST := 1 |>)
      with (env <| ar := aset (ar env) IA64_AR_LC (ar_lc env - 1) |>
                <| pr := aset (pr env) IA64_PR_LAST 1 |>). fold s. clearbody s.
    assert (Hec' : ar_ec s = ar_ec env)
      by (unfold ar_ec at 1; rewrite Har, aget_aset_ne by done; done).
    assert (Hlc' : ar_lc s = ar_lc env - 1)
      by (unfold ar_lc at 1; rewrite Har, aget_aset_eq by (rewrite Hl; done); done).
    split_and!; try lia; try done.
    split; try done; [by rewrite Har, aset_length|lia|lia].
Qed.

(** C26. A counted loop closed by [br.ctop] with LC = [lc] and EC = [ec >= 1] takes
    the branch [lc + ec - 1] times and then falls through with both counters
    at zero.  The [lc + ec] rotations move no physical register: at the end
    every one has its contents, the view is coherent, and a register of the
    rotating region reads as the register [lc + ec] places before it did. *)
Theorem ctop_pipeline env fuel :
  loop_wf env -> 0 < ar_ec env -> ar_lc env + ar_ec env <= Z.of_nat fuel ->
  exists s, ctop_loop fuel env = Some (ar_lc env + ar_ec env - 1, s) /\
    ar_lc s = 0 /\ ar_ec s = 0 /\ views_wf s /\ coherent s /\
    (forall p, 0 <= p < 96 -> content s p = content env p) /\
    (forall v, 0 <= v < 96 ->
      view s v = view env (rotate_down (8 * cfm_sor env) (ar_lc env + ar_ec env) v)).
Proof.
  revert env. induction fuel as [|fuel IH]; intros env Hwf Hec Hfuel; [destruct Hwf; lia|].
  pose proof (br_ctop_spec env Hwf) as Hstep. cbn [ctop_loop].
  destruct (ia64_rse_br_ctop env) as [taken e1].
  destruct Hstep as (Ht & Hwf1 & Hcont & Hlc & Hec1 & Hrot).
  assert (H0 := lw_lc _ Hwf). destruct (Hrot ltac:(lia)) as [Hsor Hview].
  assert (Hcount : 0 <= 8 * cfm_sor env <= 96).
  { destruct (vw_frame _ (lw_views _ Hwf)) as [? ? _ _]. lia. }
  destruct (Z.eqb_spec (ar_lc env + ar_ec env) 1) as [E|E].
  - assert (El : ar_lc env = 0) by lia. assert (Ee : ar_ec env = 1) by lia. subst taken.
    rewrite El, Ee in *. exists e1. cbn. split_and!; try done; apply Hwf1.
  - assert (taken = true) as -> by (subst taken; zcmp; done).
    assert (Hsum : ar_lc e1 + ar_ec e1 = ar_lc env + ar_ec env - 1)
      by (rewrite Hlc, Hec1; destruct (Z.eqb_spec (ar_lc env) 0); lia).
    destruct (IH e1 Hwf1) as (s & Hs & Hl & He & Hw & Hc & Hcont' & Hview').
    { rewrite Hec1. destruct (Z.eqb_spec (ar_lc env) 0); lia. }
    { lia. }
    exists s. rewrite Hs. split_and!; try done.
    + cbn. do 2 f_equal. lia.
    + intros p Hp. rewrite Hcont' by done. by apply Hcont.
    + intros v Hv. rewrite Hview' by done.
      rewrite Hview by (rewrite Hsor; by apply rotate_down_range). f_equal. rewrite Hsor, Hsum.
      unfold rotate_down at 2 3. destruct (Z.ltb_spec v (8 * cfm_sor env)); [|unfold rotate_down; by zcmp].
      pose proof (Z.mod_pos_bound (v - (ar_lc env + ar_ec env - 1)) (8 * cfm_sor env) ltac:(lia)).
      unfold rotate_down. zcmp. rewrite Zminus_mod_idemp_l. f_equal. lia.
Qed.

Definition ctop_example : CPUIA64State :=
  frame_example <| ar @ IA64_AR_LC := 3 |> <| ar @ IA64_AR_EC := 2 |>.

Lemma ctop_pipeline_witness :
  exists s, ctop_loop 10 ctop_example = Some (4, s) /\ view s 13 = (8, true).
Proof.
  destruct (ctop_pipeline ctop_example 10) as (s & Hs & _ & _ & _ & _ & _ & Hview).
  - split; try (vm_compute; (reflexivity || discriminate)).
    + apply views_wfb_spec. vm_compute. reflexivity.
    + apply coherentb_spec. vm_compute. reflexivity.
  - vm_compute. reflexivity.
  - vm_compute. discriminate.
  - exists s. split; [exact Hs|]. etransitivity; [apply Hview; lia|]. vm_compute. reflexivity.
Defined.

(** [clrrrb] resets the rename bases and moves no physical register: the contents
    stay, and each register of the frame reads as the physical register at its
    own position above the bottom of the frame. *)
Theorem clrrrb_keeps_registers env :
  views_wf env ->
  let s := ia64_rse_clrrrb env false in
  cfm_rrb_gr s = 0 /\ views_wf s /\ coherent s /\
  (forall p, 0 <= p < 96 -> content s p = content env p) /\
  (forall v, 0 <= v < cfm_sof env -> view s v = content env ((rse_bol (rse env) + v) mod 96)).
Proof.
  intros Hwf s. destruct (sync_out_content env Hwf) as (Hwf1 & _ & Hfile & _ & _).
  destruct (sync_frame_out_spec env Hwf) as [Hf _ _ _ _].
  set (e1 := ia64_rse_sync_frame_out env) in *.
  set (e2 := ia64_set_cfm_rrb_pr (ia64_set_cfm_rrb_fr (e1 <| cfm_rrb_gr := 0 |>) 0) 0).
  assert (Hs2 : stack_part e2 = stack_part (e1 <| cfm_rrb_gr := 0 |>))
    by (unfold e2; rewrite set_cfm_rrb_pr_stack; apply set_cfm_rrb_fr_stack).
  assert (Hwf2 : views_wf e2).
  { apply (stack_part_wf _ _ Hs2). destruct Hwf1 as [[Hsf Hsr Hrr Hb] ? ? ? ? ?]. split; try done.
    split; try done. cbn. destruct (Z.eqb_spec (cfm_sor e1) 0); lia. }
  destruct (stack_part_inv _ _ Hs2) as (_ & _ & Er & Esf & Esr & Err). cbn in Err, Esf, Esr.
  assert (Er' : rse e2 = rse e1) by done. clear Er.
  assert (Hnd : forall v, 0 <= v < 96 -> frame_dirty_bit e2 v = false).
  { intros v Hv. unfold frame_dirty_bit. rewrite Er', Hf. cbn. rewrite bm_get_pair by lia.
    rewrite !Z.testbit_0_l. by case_match. }
  destruct (sync_in_content e2 Hwf2 Hnd) as (Hwf3 & Hc3 & Hcont3).
  assert (Hs : stack_part s = stack_part (ia64_rse_sync_frame_in e2)) by done.
  destruct (sync_frame_in_spec e2 Hwf2) as [Hf3 _ _ _ _ _ _].
  set (e3 := ia64_rse_sync_frame_in e2) in *. clearbody s.
  assert (Hcont : forall p, 0 <= p < 96 -> content s p = content env p).
  { intros p Hp. rewrite (stack_part_content e3 s p Hs), Hcont3, <- Hfile by done.
    unfold content. cbv zeta. rewrite Hnd by (apply phys_to_virt_range; [apply Hwf2|done]). by rewrite Er'. }
  destruct (stack_part_inv _ _ Hs) as (_ & _ & Esr3 & Esf3 & _ & Err3).
  split_and!; try done.
  - rewrite Err3, Hf3. cbn. done.
  - by apply (stack_part_wf e3).
  - by apply (stack_part_coherent e3).
  - intros v Hv. destruct (wf_sof _ (vw_frame _ Hwf)).
    assert (Hsof : cfm_sof e3 = cfm_sof env) by (rewrite Hf3; cbn; rewrite Esf, Hf; done).
    rewrite (stack_part_view e3 s v Hs), <- coherent_view by (done || lia).
    rewrite virt_to_phys_direct_sor; [|apply Hwf3|right; rewrite Hf3; cbn; done|lia].
    replace (rse_bol (rse e3)) with (rse_bol (rse env)) by (rewrite Hf3; cbn; rewrite Er', Hf; done).
    rewrite <- Hcont by (apply Z.mod_pos_bound; lia). symmetry. by apply stack_part_content.
Qed.

Lemma clrrrb_keeps_registers_witness :
  view (ia64_rse_clrrrb frame_example false) 13 = (8, true).
Proof.
  etransitivity; [apply (clrrrb_keeps_registers frame_example);
    [apply views_wfb_spec; vm_compute; reflexivity|vm_compute; split; [discriminate|reflexivity]]|].
  vm_compute. reflexivity.
Defined.
