(* ===== verification/RseRnat.v ===== *)
(** * The register stack: NaT collections

    The bookkeeping of [arch/rse.c] for NaT bits whose registers are in the
    backing store.  A NaT collection is identified by the address of its word.
    Three places can hold bits of a collection: the spill latch (AR.RNAT with
    the address and the defined bits it stands for), the fill latch
    ([rse_load_rnat]) and a table of suspended collections (the shadow), in
    this order of precedence.  Trace points and log messages are left out. *)
From S2P Require Import Prelude Arch Env Registers RseMap.
From stdpp Require Import list.
Local Open Scope Z_scope.

(** ** Definitions *)

Definition ia64_rse_invalidate_load_rnat (env : CPUIA64State) : CPUIA64State :=
  env <| rse; rse_load_rnat := 0 |> <| rse; rse_load_rnat_addr := 0 |>
      <| rse; rse_load_rnat_defined := 0 |> <| rse; rse_load_rnat_valid := false |>.

(** An entry cleared by [memset]. *)
Definition empty_rnat : IA64RnatShadowEntry := mkRnatShadowEntry 0 0 0 false.

Definition ia64_rse_rnat_writeback_clear (env : CPUIA64State) : CPUIA64State :=
  env <| rse; rse_writeback_rnat := empty_rnat |>.

(** [for (i = first; i < first + n; i++)], leaving at the first match. *)
Fixpoint shadow_scan (shadow : list IA64RnatShadowEntry) (addr i : Z) (n : nat) : Z :=
  match n with
  | O => -1
  | S n => let entry := aget shadow i in
           if rnat_valid entry && (rnat_addr entry =? addr) then i
           else shadow_scan shadow addr (i + 1) n
  end.

(** [i] is unsigned: without a remembered slot it is the largest value. *)
Definition ia64_rse_rnat_shadow_lookup (env : CPUIA64State) (addr : Z) : Z :=
  let r := rse env in
  let i := u32 (rse_rnat_shadow_last r - 1) in
  if if i <? rse_rnat_shadow_count r
     then rnat_valid (aget (rse_rnat_shadow r) i) && (rnat_addr (aget (rse_rnat_shadow r) i) =? addr)
     else false then i
  else shadow_scan (rse_rnat_shadow r) addr 0 (Z.to_nat (rse_rnat_shadow_count r)).

Definition ia64_rse_rnat_shadow_find (env : CPUIA64State) (addr : Z) : Z * CPUIA64State :=
  let slot := ia64_rse_rnat_shadow_lookup env addr in
  (slot, env <| rse; rse_rnat_shadow_last := slot + 1 |>).

Definition ia64_rse_rnat_shadow_delete (env : CPUIA64State) (slot : Z) : CPUIA64State :=
  let last := rse_rnat_shadow_count (rse env) - 1 in
  let env := env <| rse; rse_rnat_shadow_count := last |> <| rse; rse_rnat_shadow_last := 0 |> in
  let env := if negb (slot =? last)
             then env <| rse; rse_rnat_shadow @ slot := aget (rse_rnat_shadow (rse env)) last |>
             else env in
  env <| rse; rse_rnat_shadow @ last := empty_rnat |>.

Definition ia64_rse_rnat_shadow_clear_all (env : CPUIA64State) : CPUIA64State :=
  env <| rse; rse_rnat_shadow := replicate 96 empty_rnat |>
      <| rse; rse_rnat_shadow_count := 0 |> <| rse; rse_rnat_shadow_last := 0 |>.

Definition ia64_rse_rnat_shadow_remove (env : CPUIA64State) (addr : Z) : CPUIA64State :=
  let '(slot, env) := ia64_rse_rnat_shadow_find env addr in
  if 0 <=? slot then ia64_rse_rnat_shadow_delete env slot else env.

(** [value] and [defined] are the two in/out parameters. *)
Definition ia64_rse_rnat_shadow_overlay (env : CPUIA64State) (addr value defined : Z) : Z * Z :=
  let slot := ia64_rse_rnat_shadow_lookup env addr in
  if 0 <=? slot then
    let entry := aget (rse_rnat_shadow (rse env)) slot in
    let shadow_defined := rnat_defined entry .& INT64_MAX in
    ((value .& ~64 shadow_defined) .| (rnat_value entry .& shadow_defined),
     defined .| shadow_defined)
  else (value, defined).

(** The update of the entry that [ia64_rse_rnat_shadow_merge] has chosen. *)
Definition merge_entry (entry : IA64RnatShadowEntry) (addr value defined : Z)
    (incoming_newer : bool) : IA64RnatShadowEntry :=
  let entry :=
    if rnat_valid entry && (rnat_addr entry =? addr) then
      if incoming_newer then
        entry <| rnat_value := (rnat_value entry .& ~64 defined) .| value |>
              <| rnat_defined := rnat_defined entry .| defined |>
      else
        let missing := defined .& ~64 rnat_defined entry in
        entry <| rnat_value := rnat_value entry .| (value .& missing) |>
              <| rnat_defined := rnat_defined entry .| missing |>
    else mkRnatShadowEntry value addr defined true in
  let entry := entry <| rnat_value := rnat_value entry .& (rnat_defined entry .& INT64_MAX) |> in
  entry <| rnat_defined := rnat_defined entry .& INT64_MAX |>.

Definition ia64_rse_rnat_shadow_merge (env : CPUIA64State) (addr value defined : Z)
    (incoming_newer : bool) : CPUIA64State :=
  let defined := defined .& INT64_MAX in
  let value := value .& defined in
  if (addr =? UINT64_MAX) || (defined =? 0) then env
  else
    let '(slot, env) := ia64_rse_rnat_shadow_find env addr in
    let '(slot, env) :=
      if slot <? 0 then
        if rse_rnat_shadow_count (rse env) =? IA64_RSE_RNAT_SHADOW_COUNT then (0, env)
        else (rse_rnat_shadow_count (rse env),
              env <| rse; rse_rnat_shadow_count ::= fun n => n + 1 |>)
      else (slot, env) in
    let entry := merge_entry (aget (rse_rnat_shadow (rse env)) slot) addr value defined
                   incoming_newer in
    env <| rse; rse_rnat_shadow @ slot := entry |> <| rse; rse_rnat_shadow_last := slot + 1 |>.

Definition ia64_rse_rnat_shadow_stash (env : CPUIA64State) : CPUIA64State :=
  ia64_rse_rnat_shadow_merge env (rse_rnat_addr (rse env)) (ar_rnat env)
    (rse_rnat_defined (rse env)) true.

Definition ia64_rse_load_rnat_stash (env : CPUIA64State) (next_addr : Z) : CPUIA64State :=
  if negb (rse_load_rnat_valid (rse env)) || (rse_load_rnat_addr (rse env) =? next_addr) then env
  else ia64_rse_rnat_shadow_merge env (rse_load_rnat_addr (rse env)) (rse_load_rnat (rse env))
         (rse_load_rnat_defined (rse env)) false.

(** The two out parameters, when there is an entry. *)
Definition ia64_rse_rnat_shadow_take (env : CPUIA64State) (addr : Z)
  : option (Z * Z) * CPUIA64State :=
  let '(slot, env) := ia64_rse_rnat_shadow_find env addr in
  if slot <? 0 then (None, env)
  else
    let entry := aget (rse_rnat_shadow (rse env)) slot in
    let defined := rnat_defined entry .& INT64_MAX in
    let value := rnat_value entry .& defined in
    (Some (value, defined), ia64_rse_rnat_shadow_delete env slot).

Definition ia64_rse_rnat_shadow_clip (env : CPUIA64State) (addr keep : Z) : CPUIA64State :=
  let '(slot, env) := ia64_rse_rnat_shadow_find env addr in
  if slot <? 0 then env
  else
    let entry := aget (rse_rnat_shadow (rse env)) slot in
    let entry := entry <| rnat_defined := rnat_defined entry .& (keep .& INT64_MAX) |> in
    let entry := entry <| rnat_value := rnat_value entry .& rnat_defined entry |> in
    let env := env <| rse; rse_rnat_shadow @ slot := entry |> in
    if rnat_defined entry =? 0 then ia64_rse_rnat_shadow_delete env slot else env.

(** The bits of the collection at [addr] whose register words are in
    [first, last). *)
Definition retain_mask (addr first last : Z) : Z :=
  let base := addr .& ~64 0x1ff in
  let lower := Z.max first base in
  let upper := Z.min last addr in
  if lower <? upper then
    let low_bit := (lower - base) >>> 3 in
    let high_bit := (upper - base) >>> 3 in
    let below_low := if low_bit =? 0 then 0 else (1 <<< low_bit) - 1 in
    let below_high := if high_bit =? 63 then INT64_MAX else (1 <<< high_bit) - 1 in
    below_high .& ~64 below_low
  else 0.

(** Each iteration advances or deletes, so as many iterations as there are
    entries are enough. *)
Fixpoint retain_loop (fuel : nat) (env : CPUIA64State) (slot first last : Z) : CPUIA64State :=
  match fuel with
  | O => env
  | S fuel =>
      if slot <? rse_rnat_shadow_count (rse env) then
        let entry := aget (rse_rnat_shadow (rse env)) slot in
        let keep := retain_mask (rnat_addr entry) first last in
        let entry := entry <| rnat_defined := rnat_defined entry .& keep |> in
        let entry := entry <| rnat_value := rnat_value entry .& rnat_defined entry |> in
        let env := env <| rse; rse_rnat_shadow @ slot := entry |> in
        if rnat_defined entry =? 0
        then retain_loop fuel (ia64_rse_rnat_shadow_delete env slot) slot first last
        else retain_loop fuel env (slot + 1) first last
      else env
  end.

Definition ia64_rse_rnat_shadow_retain_range (env : CPUIA64State) (first last : Z) : CPUIA64State :=
  retain_loop (Z.to_nat (rse_rnat_shadow_count (rse env))) env 0 first last.

(** The spill latch over [value] and [defined], if it stands for this
    collection. *)
Definition spill_overlay (env : CPUIA64State) (addr value defined : Z) : Z * Z :=
  if rse_rnat_addr (rse env) =? addr then
    let spill_defined := rse_rnat_defined (rse env) .& INT64_MAX in
    ((value .& ~64 spill_defined) .| (ar_rnat env .& spill_defined), defined .| spill_defined)
  else (value, defined).

Definition ia64_rse_rnat_writeback_capture_loadrs (env : CPUIA64State) : CPUIA64State :=
  let image := rse_writeback_rnat (rse env) in
  let collection_addr := ia64_rse_collect_word (ar_bspstore env) in
  let keep := ia64_rse_rnat_low_mask (ia64_rse_collect_bit (ar_bspstore env)) in
  let '(value, defined, env) :=
    if rnat_valid image && (rnat_addr image =? collection_addr) then
      let defined := rnat_defined image .& INT64_MAX in
      (rnat_value image .& defined, defined, env)
    else if rnat_valid image then (0, 0, ia64_rse_rnat_writeback_clear env)
    else (0, 0, env) in
  let '(value, defined) := ia64_rse_rnat_shadow_overlay env collection_addr value defined in
  let '(value, defined) := spill_overlay env collection_addr value defined in
  let defined := defined .& (keep .& INT64_MAX) in
  let value := value .& defined in
  if defined =? 0 then ia64_rse_rnat_writeback_clear env
  else env <| rse; rse_writeback_rnat := mkRnatShadowEntry value collection_addr defined true |>.

Definition ia64_rse_rnat_bind (env : CPUIA64State) (collection_addr : Z) : CPUIA64State :=
  if rse_rnat_addr (rse env) =? collection_addr then env
  else
    let env := ia64_rse_rnat_shadow_stash env in
    let '(value, defined) :=
      if rse_load_rnat_valid (rse env) && (rse_load_rnat_addr (rse env) =? collection_addr) then
        let defined := rse_load_rnat_defined (rse env) .& INT64_MAX in
        (rse_load_rnat (rse env) .& defined, defined)
      else (0, 0) in
    let '(shadow, env) := ia64_rse_rnat_shadow_take env collection_addr in
    let '(value, defined) :=
      match shadow with
      | Some (shadow_value, shadow_defined) =>
          ((value .& ~64 shadow_defined) .| (shadow_value .& shadow_defined),
           defined .| shadow_defined)
      | None => (value, defined)
      end in
    env <| ar @ IA64_AR_RNAT := value |> <| rse; rse_rnat_addr := collection_addr |>
        <| rse; rse_rnat_defined := defined |>.

Definition ia64_rse_rnat_reloaded (env : CPUIA64State) : CPUIA64State :=
  let bit := ia64_rse_collect_bit (ar_bspstore env) in
  let collection_addr := ia64_rse_collect_word (ar_bspstore env) in
  let env := ia64_rse_rnat_writeback_clear env in
  let env := if rse_load_rnat_valid (rse env) &&
                (rse_load_rnat_addr (rse env) =? collection_addr)
             then ia64_rse_invalidate_load_rnat env else env in
  let env := if negb (rse_rnat_addr (rse env) =? collection_addr)
             then ia64_rse_rnat_shadow_stash env else env in
  let env := ia64_rse_rnat_shadow_remove env collection_addr in
  let env := env <| rse; rse_rnat_addr := collection_addr |>
                 <| rse; rse_rnat_defined := ia64_rse_rnat_low_mask bit |> in
  env <| ar @ IA64_AR_RNAT := ar_rnat env .& rse_rnat_defined (rse env) |>.

Definition ia64_rse_rnat_detach (env : CPUIA64State) (discard_writeback : bool) : CPUIA64State :=
  let env := env <| ar @ IA64_AR_RNAT := 0 |> <| rse; rse_rnat_addr := UINT64_MAX |>
                 <| rse; rse_rnat_defined := 0 |> in
  let env := ia64_rse_invalidate_load_rnat env in
  if discard_writeback
  then ia64_rse_rnat_writeback_clear (ia64_rse_rnat_shadow_clear_all env)
  else env.

Definition ia64_rse_rnat_undefined (env : CPUIA64State) : CPUIA64State :=
  ia64_rse_rnat_detach env true.

Definition ia64_rse_rnat_move_bspstore (env : CPUIA64State) (bspstore : Z) : CPUIA64State :=
  let collection_addr := ia64_rse_collect_word bspstore in
  let bit := ia64_rse_collect_bit bspstore in
  let keep := ia64_rse_rnat_low_mask bit in
  let env :=
    if rse_rnat_addr (rse env) =? collection_addr then
      let env := env <| rse; rse_rnat_defined ::= fun d => d .& keep |> in
      env <| ar @ IA64_AR_RNAT := ar_rnat env .& rse_rnat_defined (rse env) |>
    else env in
  let env := ia64_rse_rnat_shadow_clip env collection_addr keep in
  env <| ar @ IA64_AR_BSPSTORE := bspstore |>.

(** The value and the [defined_out] parameter. *)
Definition ia64_rse_compose_rnat (env : CPUIA64State) : Z * Z :=
  let collection_addr := ia64_rse_collect_word (ar_bspstore env) in
  if (rse_rnat_addr (rse env) =? UINT64_MAX) && negb (rse_load_rnat_valid (rse env)) then (0, 0)
  else
    let '(value, defined) :=
      if rse_load_rnat_valid (rse env) && (rse_load_rnat_addr (rse env) =? collection_addr) then
        let defined := rse_load_rnat_defined (rse env) .& INT64_MAX in
        (rse_load_rnat (rse env) .& defined, defined)
      else (0, 0) in
    let '(value, defined) := ia64_rse_rnat_shadow_overlay env collection_addr value defined in
    let '(value, defined) := spill_overlay env collection_addr value defined in
    (value .& defined .& INT64_MAX, defined .& INT64_MAX).

Definition ia64_rse_read_rnat (env : CPUIA64State) : Z :=
  let visible := ia64_rse_rnat_low_mask (ia64_rse_collect_bit (ar_bspstore env)) in
  let '(value, defined) := ia64_rse_compose_rnat env in
  value .& defined .& visible.

Definition ia64_rse_read_rnat_defined (env : CPUIA64State) : Z :=
  let visible := ia64_rse_rnat_low_mask (ia64_rse_collect_bit (ar_bspstore env)) in
  let '(_, defined) := ia64_rse_compose_rnat env in
  defined .& visible.

(** [mov ar.rnat = value], with the mask that [ia64_system_write_ar] applies. *)
Definition write_ar_rnat (env : CPUIA64State) (value : Z) : CPUIA64State :=
  ia64_rse_rnat_reloaded (env <| ar @ IA64_AR_RNAT := value .& INT64_MAX |>).

(** The part of [ia64_rse_check] that is about the collections: no bad
    condition holds. *)
Definition mask_check (value defined : Z) : bool :=
  (((value .| defined) .& ~64 INT64_MAX) =? 0) && ((value .& ~64 defined) =? 0).

Definition shadow_check (r : IA64RSEState) (i : Z) : bool :=
  let shadow_count := rse_rnat_shadow_count r in
  let entry := aget (rse_rnat_shadow r) i in
  if shadow_count <=? i then
    negb (rnat_valid entry) && (rnat_value entry =? 0) && (rnat_addr entry =? 0) &&
    (rnat_defined entry =? 0)
  else
    rnat_valid entry && mask_check (rnat_value entry) (rnat_defined entry) &&
    negb (rnat_defined entry =? 0) &&
    (ia64_rse_collect_word (rnat_addr entry) =? rnat_addr entry) &&
    forallb (fun j => negb (rnat_valid (aget (rse_rnat_shadow r) j) &&
                            (rnat_addr (aget (rse_rnat_shadow r) j) =? rnat_addr entry)))
      (seqZ (i + 1) (Z.min shadow_count IA64_RSE_RNAT_SHADOW_COUNT - (i + 1))).

Definition rnat_check (env : CPUIA64State) : bool :=
  let r := rse env in
  let writeback := rse_writeback_rnat r in
  mask_check (ar_rnat env) (rse_rnat_defined r) &&
  mask_check (rse_load_rnat r) (rse_load_rnat_defined r) &&
  (if rse_rnat_addr r =? UINT64_MAX then rse_rnat_defined r =? 0
   else ia64_rse_collect_word (rse_rnat_addr r) =? rse_rnat_addr r) &&
  (if rse_load_rnat_valid r
   then ia64_rse_collect_word (rse_load_rnat_addr r) =? rse_load_rnat_addr r
   else (rse_load_rnat r =? 0) && (rse_load_rnat_addr r =? 0) && (rse_load_rnat_defined r =? 0)) &&
  mask_check (rnat_value writeback) (rnat_defined writeback) &&
  (if rnat_valid writeback
   then negb (rnat_defined writeback =? 0) &&
        (ia64_rse_collect_word (rnat_addr writeback) =? rnat_addr writeback)
   else (rnat_value writeback =? 0) && (rnat_addr writeback =? 0) &&
        (rnat_defined writeback =? 0)) &&
  (rse_rnat_shadow_count r <=? IA64_RSE_RNAT_SHADOW_COUNT) &&
  forallb (shadow_check r) (seqZ 0 IA64_RSE_RNAT_SHADOW_COUNT).

(** ** Partial collections

    A value with the mask of its defined bits, as a partial function of the
    bit index; [over a b] is the newer [b] over [a]. *)
Definition known (value defined i : Z) : option bool :=
  if Z.testbit defined i then Some (Z.testbit value i) else None.

Definition over (a b : option bool) : option bool :=
  match b with Some _ => b | None => a end.

(** What [ia64_rse_check] asks of every such pair: 63 bits, nothing set that
    is not defined. *)
Record mask_ok (value defined : Z) : Prop := {
  mk_value : uint 63 value;
  mk_defined : uint 63 defined;
  mk_sub : forall i, 0 <= i -> Z.testbit value i = true -> Z.testbit defined i = true
}.

Lemma INT64_MAX_ones : INT64_MAX = Z.ones 63.
Proof. done. Qed.

Lemma land_INT64_MAX x i : 0 <= i < 63 -> Z.testbit (x .& INT64_MAX) i = Z.testbit x i.
Proof.
  intros Hi. rewrite INT64_MAX_ones, Z.land_spec, ones_spec by lia. zcmp. apply andb_true_r.
Qed.

Lemma uint63_land x : uint 63 (x .& INT64_MAX).
Proof. apply uint_land_r; [lia|]. uint_const. Qed.

Lemma uint63_land_id x : uint 63 x -> x .& INT64_MAX = x.
Proof. intros Hx. rewrite INT64_MAX_ones. zbits. Qed.

Lemma mask_ok_land value defined :
  uint 63 defined -> mask_ok (value .& defined) defined.
Proof.
  intros Hd. split; [apply uint_land_r; [lia|done]|done|].
  intros i Hi. rewrite Z.land_spec. by intros [_ ?]%andb_true_iff.
Qed.

Lemma mask_ok_0 : mask_ok 0 0.
Proof. split; [uint_const..|]. intros i _. by rewrite Z.testbit_0_l. Qed.

Lemma uint63_64 x : uint 63 x -> uint 64 x.
Proof. apply uint_mono. lia. Qed.

(** The overlay as the C code writes it. *)
Lemma overlay_known v d v' d' i :
  0 <= i < 64 ->
  known ((v .& ~64 d') .| (v' .& d')) (d .| d') i = over (known v d i) (known v' d' i).
Proof.
  intros Hi. unfold known, over. rewrite !Z.lor_spec, !Z.land_spec, wnot_spec by lia.
  destruct (Z.ltb_spec i 64); [|lia]. cbn [andb].
  destruct (Z.testbit d' i); rewrite ?orb_true_r, ?orb_false_r, ?andb_true_r, ?andb_false_r;
    cbn [negb]; rewrite ?andb_true_r, ?andb_false_r, ?orb_false_r; done.
Qed.

Lemma overlay_mask_ok v d v' d' :
  mask_ok v d -> mask_ok v' d' -> mask_ok ((v .& ~64 d') .| (v' .& d')) (d .| d').
Proof.
  intros [? ? Hs] [? ? Hs']. split.
  - apply uint_lor; [lia|by apply uint_land_l|by apply uint_land_l].
  - by apply uint_lor.
  - intros i Hi. rewrite !Z.lor_spec, !Z.land_spec, !orb_true_iff, !andb_true_iff.
    intros [[H1 _]|[_ H2]]; [left; by apply Hs|by right].
Qed.

Lemma known_land_INT64 v d i : 0 <= i < 63 -> known v (d .& INT64_MAX) i = known v d i.
Proof. intros Hi. unfold known. by rewrite land_INT64_MAX. Qed.

Lemma known_land_self v d i : 0 <= i -> known (v .& d) d i = known v d i.
Proof.
  intros Hi. unfold known. rewrite Z.land_spec. destruct (Z.testbit d i); [|done].
  by rewrite andb_true_r.
Qed.

Lemma known_keep v d keep i :
  0 <= i -> known (v .& (d .& keep)) (d .& keep) i = if Z.testbit keep i then known v d i else None.
Proof.
  intros Hi. rewrite known_land_self by done. unfold known. rewrite Z.land_spec.
  destruct (Z.testbit keep i); rewrite ?andb_true_r, ?andb_false_r; done.
Qed.

Lemma mask_ok_keep v d keep : mask_ok v d -> mask_ok (v .& (d .& keep)) (d .& keep).
Proof. intros [? ? _]. apply mask_ok_land. by apply uint_land_l. Qed.

Lemma over_assoc a b c : over (over a b) c = over a (over b c).
Proof. by destruct c, b. Qed.

(** ** Collection words *)

Lemma collect_word_spec addr :
  uint 64 addr -> ia64_rse_collect_word addr = 512 * (addr / 512) + 504.
Proof.
  intros Ha. unfold ia64_rse_collect_word. change (63 <<< 3) with 504.
  assert (E : addr .& ~64 511 = (addr >>> 9) <<< 9).
  { change 511 with (Z.ones 9). zbits. }
  rewrite E, land_disjoint_add.
  - rewrite Z.shiftl_mul_pow2, Z.shiftr_div_pow2 by lia. change (2 ^ 9) with 512. lia.
  - assert (uint 9 504) by uint_const. zbits.
Qed.

Lemma collect_word_idem addr :
  uint 64 addr -> ia64_rse_collect_word (ia64_rse_collect_word addr) = ia64_rse_collect_word addr.
Proof.
  intros Ha. assert (H := Ha). destruct H.
  pose proof (Z.div_mod addr 512 ltac:(lia)). pose proof (Z.mod_pos_bound addr 512 ltac:(lia)).
  rewrite (collect_word_spec addr) by done. rewrite collect_word_spec by (unfold uint; lia).
  by rewrite <- (Z.div_unique (512 * (addr / 512) + 504) 512 (addr / 512) 504) by lia.
Qed.

Lemma collect_word_not_max addr : uint 64 addr -> ia64_rse_collect_word addr <> UINT64_MAX.
Proof.
  intros Ha. rewrite collect_word_spec by done. change UINT64_MAX with (2 ^ 64 - 1). lia.
Qed.

Lemma uint_collect_word addr : uint 64 addr -> uint 64 (ia64_rse_collect_word addr).
Proof.
  intros Ha. rewrite collect_word_spec by done. unfold uint in *.
  pose proof (Z.div_mod addr 512 ltac:(lia)). pose proof (Z.mod_pos_bound addr 512 ltac:(lia)).
  lia.
Qed.

Lemma low_mask_ones bit : 0 <= bit -> ia64_rse_rnat_low_mask bit = Z.ones (Z.min 63 (bit + 1)).
Proof.
  intros Hb. unfold ia64_rse_rnat_low_mask. destruct (Z.leb_spec 62 bit).
  - by rewrite Z.min_l by lia.
  - rewrite Z.min_r, shiftl_1_ones by lia. done.
Qed.

Lemma low_mask_spec bit i :
  0 <= bit -> 0 <= i -> Z.testbit (ia64_rse_rnat_low_mask bit) i = (i <=? bit) && (i <? 63).
Proof. intros Hb Hi. rewrite low_mask_ones, ones_spec by lia. zcmp; done. Qed.

Lemma uint_low_mask bit : 0 <= bit -> uint 63 (ia64_rse_rnat_low_mask bit).
Proof. intros. rewrite low_mask_ones by done. apply uint_ones. lia. Qed.

(** ** The table of suspended collections *)

(** The position of the table, for a table with [n] entries. *)
Definition entry_ok (e : IA64RnatShadowEntry) : Prop :=
  mask_ok (rnat_value e) (rnat_defined e) /\ rnat_defined e <> 0 /\
  uint 64 (rnat_addr e) /\ ia64_rse_collect_word (rnat_addr e) = rnat_addr e.

Abbreviation shadow env := (rse_rnat_shadow (rse env)).
Abbreviation count env := (rse_rnat_shadow_count (rse env)).

Record shadow_shape (env : CPUIA64State) : Prop := {
  sh_len : length (shadow env) = 96%nat;
  sh_count : 0 <= count env <= 96;
  sh_last : 0 <= rse_rnat_shadow_last (rse env) <= 96;
  sh_valid : forall i, 0 <= i < count env -> rnat_valid (aget (shadow env) i) = true;
  sh_empty : forall i, count env <= i < 96 -> aget (shadow env) i = empty_rnat;
  sh_inj : forall i j, 0 <= i < count env -> 0 <= j < count env ->
    rnat_addr (aget (shadow env) i) = rnat_addr (aget (shadow env) j) -> i = j
}.

Definition shadow_entries (env : CPUIA64State) : Prop :=
  forall i, 0 <= i < count env -> entry_ok (aget (shadow env) i).

Lemma shadow_scan_spec sh a i n :
  (shadow_scan sh a i n = -1 /\
   (forall j, i <= j < i + Z.of_nat n ->
      rnat_valid (aget sh j) = true -> rnat_addr (aget sh j) <> a)) \/
  (i <= shadow_scan sh a i n < i + Z.of_nat n /\
   rnat_valid (aget sh (shadow_scan sh a i n)) = true /\
   rnat_addr (aget sh (shadow_scan sh a i n)) = a).
Proof.
  revert i. induction n as [|n IH]; intros i; cbn [shadow_scan].
  { left. split; [done|]. intros; lia. }
  destruct (rnat_valid (aget sh i) && _) eqn:E.
  - apply andb_true_iff in E as [Hv Ha%Z.eqb_eq]. right. split_and!; [lia|lia|done|done].
  - destruct (IH (i + 1)) as [[-> Hn]|(Hr & Hv & Ha)].
    + left. split; [done|]. intros j Hj Hv. destruct (Z.eq_dec i j) as [<-|].
      * rewrite Hv in E. cbn [andb] in E. by apply Z.eqb_neq.
      * apply Hn; [lia|done].
    + right. split_and!; [lia|lia|done|done].
Qed.

Lemma lookup_spec env a :
  shadow_shape env ->
  (ia64_rse_rnat_shadow_lookup env a = -1 /\
   forall i, 0 <= i < count env -> rnat_addr (aget (shadow env) i) <> a) \/
  (0 <= ia64_rse_rnat_shadow_lookup env a < count env /\
   rnat_addr (aget (shadow env) (ia64_rse_rnat_shadow_lookup env a)) = a).
Proof.
  intros Hs. unfold ia64_rse_rnat_shadow_lookup. cbv zeta.
  pose proof (uint_wrap 32 (rse_rnat_shadow_last (rse env) - 1) ltac:(lia)) as [? _].
  match goal with |- context [if ?b then u32 _ else _] => destruct b eqn:E end.
  - apply (proj1 (andb_true_iff _ (_ && _))) in E as [Hlt%Z.ltb_lt [_ Ha%Z.eqb_eq]%andb_true_iff].
    right. split; [lia|done].
  - destruct (shadow_scan_spec (shadow env) a 0 (Z.to_nat (count env))) as [[-> Hn]|(Hr & Hv & Ha)].
    + left. split; [done|]. intros i Hi. destruct (sh_count _ Hs). apply Hn; [lia|].
      by apply (sh_valid _ Hs).
    + right. destruct (sh_count _ Hs). split; [lia|done].
Qed.

(** What the table knows of a collection. *)
Definition shadow_known (env : CPUIA64State) (a i : Z) : option bool :=
  let slot := ia64_rse_rnat_shadow_lookup env a in
  if 0 <=? slot
  then known (rnat_value (aget (shadow env) slot)) (rnat_defined (aget (shadow env) slot)) i
  else None.

Lemma shadow_known_at env s i :
  shadow_shape env -> 0 <= s < count env ->
  shadow_known env (rnat_addr (aget (shadow env) s)) i =
  known (rnat_value (aget (shadow env) s)) (rnat_defined (aget (shadow env) s)) i.
Proof.
  intros Hs Hi. unfold shadow_known. cbv zeta.
  destruct (lookup_spec env (rnat_addr (aget (shadow env) s)) Hs) as [[_ Hn]|[Hr Ha]].
  - by destruct (Hn s Hi).
  - destruct (Z.leb_spec 0 (ia64_rse_rnat_shadow_lookup env (rnat_addr (aget (shadow env) s)))); [|lia].
    by rewrite (sh_inj _ Hs _ _ Hr Hi Ha).
Qed.

Lemma shadow_known_none env a i :
  shadow_shape env ->
  (forall s, 0 <= s < count env -> rnat_addr (aget (shadow env) s) <> a) -> shadow_known env a i = None.
Proof.
  intros Hs Hn. unfold shadow_known. cbv zeta.
  destruct (lookup_spec env a Hs) as [[-> _]|[Hr Ha]]; [done|]. by destruct (Hn _ Hr).
Qed.

(** The two tables agree on the other collections. *)
Lemma shadow_known_ext env s a i (f : Z -> Z) :
  shadow_shape env -> shadow_shape s ->
  (forall j, 0 <= j < count env -> rnat_addr (aget (shadow env) j) = a ->
    0 <= f j < count s /\ aget (shadow s) (f j) = aget (shadow env) j) ->
  (forall j, 0 <= j < count s -> rnat_addr (aget (shadow s) j) = a ->
    exists k, 0 <= k < count env /\ rnat_addr (aget (shadow env) k) = a) ->
  shadow_known s a i = shadow_known env a i.
Proof.
  intros He Hs Hf Hb. destruct (lookup_spec env a He) as [[_ Hn]|[Hr Ha]].
  - rewrite (shadow_known_none env) by done. apply shadow_known_none; [done|].
    intros j Hj E. destruct (Hb j Hj E) as (k & Hk & E'). by destruct (Hn k Hk).
  - set (k := ia64_rse_rnat_shadow_lookup env a) in *. destruct (Hf k Hr Ha) as [Hk E].
    rewrite <- Ha. rewrite (shadow_known_at env k) by done.
    rewrite <- E. by rewrite (shadow_known_at s (f k)).
Qed.

(** [s] is [env] with another table, itself well formed. *)
Record table_step (env s : CPUIA64State) : Prop := {
  ts_frame : s = env <| rse; rse_rnat_shadow := shadow s |>
                     <| rse; rse_rnat_shadow_count := count s |>
                     <| rse; rse_rnat_shadow_last := rse_rnat_shadow_last (rse s) |>;
  ts_shape : shadow_shape s;
  ts_entries : shadow_entries s
}.

Definition table_ok (env : CPUIA64State) : Prop := shadow_shape env /\ shadow_entries env.

Lemma table_step_refl env : table_ok env -> table_step env env.
Proof. intros [? ?]. split; [|done..]. by destruct env, rse. Qed.

Lemma table_step_trans env s t : table_step env s -> table_step s t -> table_step env t.
Proof.
  intros [Hs _ _] [Ht ? ?]. split; [|done..]. rewrite Ht. rewrite Hs at 1. done.
Qed.

Lemma table_step_ok env s : table_step env s -> table_ok s.
Proof. by intros [_ ? ?]. Qed.

(** A new position of the search hint changes nothing. *)
Lemma set_last_shape env l :
  shadow_shape env -> 0 <= l <= 96 -> shadow_shape (env <| rse; rse_rnat_shadow_last := l |>).
Proof. intros [] ?. by split. Qed.

Lemma set_last_known env l a i :
  shadow_shape env -> 0 <= l <= 96 ->
  shadow_known (env <| rse; rse_rnat_shadow_last := l |>) a i = shadow_known env a i.
Proof.
  intros Hs Hl. apply (shadow_known_ext env _ a i id); [done|by apply set_last_shape|by cbn|].
  intros j Hj E. by exists j.
Qed.

(** Replacing the bits of an entry. *)
Lemma set_entry_step env slot e :
  shadow_shape env -> 0 <= slot < count env ->
  rnat_valid e = true -> rnat_addr e = rnat_addr (aget (shadow env) slot) ->
  let s := env <| rse; rse_rnat_shadow @ slot := e |> in
  shadow_shape s /\
  (forall j, 0 <= j < count env -> aget (shadow s) j = if slot =? j then e else aget (shadow env) j) /\
  (forall a i, shadow_known s a i =
    if a =? rnat_addr e then known (rnat_value e) (rnat_defined e) i else shadow_known env a i).
Proof.
  intros Hs Hslot Hv Ha s. assert (Hl := sh_len _ Hs). assert (Hc := sh_count _ Hs).
  assert (Hget : forall j, aget (shadow s) j = if slot =? j then e else aget (shadow env) j)
    by (intros; cbn; apply aget_aset; lia).
  assert (Haddr : forall j, rnat_addr (aget (shadow s) j) = rnat_addr (aget (shadow env) j)).
  { intros j. rewrite Hget. by destruct (Z.eqb_spec slot j) as [<-|]. }
  assert (Hs' : shadow_shape s).
  { split; try apply Hs.
    - cbn. by rewrite aset_length.
    - intros i Hi. rewrite Hget. destruct (slot =? i); [done|]. by apply (sh_valid _ Hs).
    - intros i Hi. rewrite Hget. change (count s) with (count env) in Hi.
      destruct (Z.eqb_spec slot i); [lia|]. by apply (sh_empty _ Hs).
    - intros i j Hi Hj. rewrite !Haddr. by apply (sh_inj _ Hs). }
  split_and!; [done|intros; apply Hget|].
  intros a i. destruct (Z.eqb_spec a (rnat_addr e)) as [->|Hne].
  - pose proof (shadow_known_at s slot i Hs' Hslot) as H. rewrite Hget, Z.eqb_refl in H. done.
  - apply (shadow_known_ext env s a i id); [done..| |].
    + intros j Hj E. split; [done|]. cbn [id]. rewrite Hget.
      destruct (Z.eqb_spec slot j) as [<-|]; [congruence|done].
    + intros j Hj E. exists j. by rewrite Haddr in E.
Qed.

(** Adding an entry for a collection that has none. *)
Lemma append_entry_step env e :
  shadow_shape env -> count env < 96 -> rnat_valid e = true ->
  (forall i, 0 <= i < count env -> rnat_addr (aget (shadow env) i) <> rnat_addr e) ->
  let s := env <| rse; rse_rnat_shadow_count ::= fun n => n + 1 |>
               <| rse; rse_rnat_shadow @ count env := e |> in
  shadow_shape s /\
  (forall j, 0 <= j <= count env -> aget (shadow s) j = if count env =? j then e else aget (shadow env) j) /\
  (forall a i, shadow_known s a i =
    if a =? rnat_addr e then known (rnat_value e) (rnat_defined e) i else shadow_known env a i).
Proof.
  intros Hs Hroom Hv Hnew s. assert (Hl := sh_len _ Hs). assert (Hc := sh_count _ Hs).
  assert (Hcs : count s = count env + 1) by done.
  assert (Hget : forall j, aget (shadow s) j = if count env =? j then e else aget (shadow env) j)
    by (intros; cbn; apply aget_aset; lia).
  assert (Hs' : shadow_shape s).
  { split; try apply Hs.
    - cbn. by rewrite aset_length.
    - rewrite Hcs. lia.
    - intros i Hi. rewrite Hget. destruct (Z.eqb_spec (count env) i); [done|].
      apply (sh_valid _ Hs). lia.
    - intros i Hi. rewrite Hget. destruct (Z.eqb_spec (count env) i); [lia|].
      apply (sh_empty _ Hs). lia.
    - intros i j Hi Hj. rewrite !Hget. rewrite Hcs in Hi, Hj.
      destruct (Z.eqb_spec (count env) i), (Z.eqb_spec (count env) j); intros E.
      + lia.
      + symmetry in E. destruct (Hnew j ltac:(lia) E).
      + destruct (Hnew i ltac:(lia) E).
      + apply (sh_inj _ Hs); (lia || done). }
  split_and!; [done|intros; apply Hget|].
  intros a i. destruct (Z.eqb_spec a (rnat_addr e)) as [->|Hne].
  - pose proof (shadow_known_at s (count env) i Hs' ltac:(lia)) as H.
    rewrite Hget, Z.eqb_refl in H. done.
  - apply (shadow_known_ext env s a i id); [done..| |].
    + intros j Hj E. cbn [id]. rewrite Hget. destruct (Z.eqb_spec (count env) j); [lia|]. split; [lia|done].
    + intros j Hj E. rewrite Hget in E. destruct (Z.eqb_spec (count env) j); [congruence|].
      exists j. split; [lia|done].
Qed.

(** Deleting an entry: the last one takes its place. *)
Lemma delete_step env slot :
  shadow_shape env -> 0 <= slot < count env ->
  (forall j, 0 <= j < count env -> j <> slot -> entry_ok (aget (shadow env) j)) ->
  let s := ia64_rse_rnat_shadow_delete env slot in
  table_step env s /\ count s = count env - 1 /\
  (forall j, 0 <= j < count s ->
    aget (shadow s) j = if slot =? j then aget (shadow env) (count env - 1) else aget (shadow env) j) /\
  (forall a i, shadow_known s a i =
    if a =? rnat_addr (aget (shadow env) slot) then None else shadow_known env a i).
Proof.
  intros Hs Hslot Hent s. assert (Hl := sh_len _ Hs). assert (Hc := sh_count _ Hs).
  set (last := count env - 1).
  assert (Hcs : count s = last)
    by (unfold s, ia64_rse_rnat_shadow_delete; cbv zeta; by destruct (negb _)).
  assert (Hls : rse_rnat_shadow_last (rse s) = 0)
    by (unfold s, ia64_rse_rnat_shadow_delete; cbv zeta; by destruct (negb _)).
  assert (Hshadow : shadow s = aset (if slot =? last then shadow env
                     else aset (shadow env) slot (aget (shadow env) last)) last empty_rnat).
  { unfold s, ia64_rse_rnat_shadow_delete. cbv zeta. fold last. by destruct (slot =? last). }
  assert (Hget : forall j, aget (shadow s) j =
    if last =? j then empty_rnat
    else if slot =? j then aget (shadow env) last else aget (shadow env) j).
  { intros j. rewrite Hshadow. destruct (Z.eqb_spec slot last) as [E|E].
    - rewrite aget_aset by lia. rewrite E. by destruct (last =? j).
    - rewrite !aget_aset by (rewrite ?aset_length; lia). done. }
  assert (Hframe : s = env <| rse; rse_rnat_shadow := shadow s |>
                     <| rse; rse_rnat_shadow_count := count s |>
                     <| rse; rse_rnat_shadow_last := rse_rnat_shadow_last (rse s) |>).
  { unfold s, ia64_rse_rnat_shadow_delete. cbv zeta. by destruct (negb _). }
  clearbody s.
  assert (Hs' : shadow_shape s).
  { split; rewrite ?Hcs, ?Hls; try lia.
    - rewrite Hshadow. destruct (slot =? last); by rewrite ?aset_length.
    - intros i Hi. rewrite Hget. zcmp; apply (sh_valid _ Hs); lia.
    - intros i Hi. rewrite Hget. zcmp; [done|apply (sh_empty _ Hs); lia].
    - intros i j Hi Hj. rewrite !Hget. zcmp; intros E; try congruence; subst;
        apply (sh_inj _ Hs) in E; lia. }
  split_and!; [split; [done|done|]|done| |].
  - intros j Hj. rewrite Hget, Hcs in *. zcmp; apply Hent; lia.
  - intros j Hj. rewrite Hget. rewrite Hcs in Hj. by zcmp.
  - intros a i. destruct (Z.eqb_spec a (rnat_addr (aget (shadow env) slot))) as [->|Hne].
    + apply shadow_known_none; [done|]. intros j Hj. rewrite Hget. rewrite Hcs in Hj.
      zcmp; intros E; apply (sh_inj _ Hs) in E; lia.
    + apply (shadow_known_ext env s a i (fun j => if j =? last then slot else j)); [done..| |].
      * intros j Hj E. assert (j <> slot) by (by intros ->). rewrite Hcs.
        destruct (Z.eqb_spec j last) as [->|]; rewrite Hget; zcmp; split; (done || lia).
      * intros j Hj. rewrite Hget. rewrite Hcs in Hj. zcmp; intros E;
          [exists last|exists j]; (split; [lia|done]).
Qed.

(** ** Operations on the table *)

(** A pair of bits that agrees with its mask. *)
Lemma mask_ok_land_id v d : mask_ok v d -> v .& d = v.
Proof.
  intros [? ? Hs]. apply Z.bits_inj'. intros i Hi. rewrite Z.land_spec. specialize (Hs i Hi).
  destruct (Z.testbit v i); [by rewrite Hs|done].
Qed.

(** Older bits fill only the holes of an entry. *)
Lemma fill_holes_known v d v' d' i :
  mask_ok v d -> 0 <= i < 64 ->
  known (v .| (v' .& (d' .& ~64 d))) (d .| (d' .& ~64 d)) i = over (known v' d' i) (known v d i).
Proof.
  intros [_ _ Hs] Hi. unfold known, over. rewrite !Z.lor_spec, !Z.land_spec, wnot_spec by lia.
  destruct (Z.ltb_spec i 64); [|lia]. specialize (Hs i ltac:(lia)).
  destruct (Z.testbit v i), (Z.testbit d i), (Z.testbit v' i), (Z.testbit d' i); cbn; try done;
    by specialize (Hs eq_refl).
Qed.

Lemma merge_entry_new e addr v d newer :
  mask_ok v d -> rnat_valid e = false -> merge_entry e addr v d newer = mkRnatShadowEntry v addr d true.
Proof.
  intros Hm He. unfold merge_entry. rewrite He. cbn.
  rewrite uint63_land_id by apply Hm. by rewrite mask_ok_land_id.
Qed.

Lemma merge_entry_old e v d newer :
  entry_ok e -> rnat_valid e = true -> mask_ok v d -> 
  let e' := merge_entry e (rnat_addr e) v d newer in
  entry_ok e' /\ rnat_addr e' = rnat_addr e /\ rnat_valid e' = true /\
  forall i, 0 <= i < 63 -> known (rnat_value e') (rnat_defined e') i =
    if newer then over (known (rnat_value e) (rnat_defined e) i) (known v d i)
    else over (known v d i) (known (rnat_value e) (rnat_defined e) i).
Proof.
  intros (Hm & Hne & Hu & Hcw) Hv Hvd. unfold merge_entry. rewrite Hv, Z.eqb_refl. cbn [andb].
  assert (Hor : forall x, uint 63 x -> (rnat_defined e .| x) .& INT64_MAX = rnat_defined e .| x)
    by (intros; apply uint63_land_id, uint_lor; [lia|apply Hm|done]).
  assert (Hnz : forall x, rnat_defined e .| x <> 0) by (intros x [? _]%Z.lor_eq_0_iff; done).
  destruct newer; cbn; (split_and!; [split_and!; [apply mask_ok_land, uint63_land| |done|done]|done|done|]).
  - rewrite Hor by apply Hvd. apply Hnz.
  - intros i Hi. rewrite known_land_self, known_land_INT64 by lia.
    rewrite <- overlay_known by lia. by rewrite (mask_ok_land_id v d).
  - rewrite Hor by (apply uint_land_l; [lia|apply Hvd]). apply Hnz.
  - intros i Hi. rewrite known_land_self, known_land_INT64 by lia. by apply fill_holes_known; [|lia].
Qed.

Definition merged (newer : bool) (old new : option bool) : option bool :=
  if newer then over old new else over new old.

Lemma merge_new_step env addr v d newer :
  table_ok env -> uint 64 addr -> ia64_rse_collect_word addr = addr -> count env < 96 ->
  mask_ok v d -> d <> 0 -> ia64_rse_rnat_shadow_lookup env addr = -1 ->
  (forall i, 0 <= i < count env -> rnat_addr (aget (shadow env) i) <> addr) ->
  let s := env <| rse; rse_rnat_shadow_last := 0 |>
               <| rse; rse_rnat_shadow_count ::= fun n => n + 1 |>
               <| rse; rse_rnat_shadow @ count env :=
                    merge_entry (aget (shadow env) (count env)) addr v d newer |>
               <| rse; rse_rnat_shadow_last := count env + 1 |> in
  table_step env s /\
  forall a i, shadow_known s a i = if a =? addr then known v d i else shadow_known env a i.
Proof.
  intros [Hs He] Hu Hcw Hroom Hm Hd Hl Hn s. destruct (sh_count _ Hs).
  assert (Hemp : aget (shadow env) (count env) = empty_rnat) by (apply (sh_empty _ Hs); lia).
  set (e := mkRnatShadowEntry v addr d true).
  assert (Ee : merge_entry (aget (shadow env) (count env)) addr v d newer = e)
    by (rewrite Hemp; by apply merge_entry_new).
  set (e0 := env <| rse; rse_rnat_shadow_last := 0 |>).
  assert (Hs0 : shadow_shape e0) by (apply set_last_shape; [done|lia]).
  destruct (append_entry_step e0 e Hs0 Hroom eq_refl Hn) as (Hsa & Hga & Hka).
  match type of Hsa with shadow_shape ?t => set (e1 := t) in * end.
  assert (Es : s = e1 <| rse; rse_rnat_shadow_last := count env + 1 |>) by (unfold s; by rewrite Ee).
  assert (Hc1 : count e1 = count env + 1) by done.
  rewrite Es. clear s Es. split.
  - split; [reflexivity|apply set_last_shape; [done|lia]|].
    intros j Hj. change (count _) with (count e1) in Hj.
    match goal with |- entry_ok (aget ?l j) => change l with (shadow e1) end.
    change (count e0) with (count env) in Hga. rewrite Hga by lia.
    destruct (Z.eqb_spec (count env) j); [done|apply He; lia].
  - intros a i. rewrite set_last_known by (done || lia). rewrite Hka. cbn [rnat_addr rnat_value rnat_defined e].
    unfold e0. by rewrite set_last_known by (done || lia).
Qed.

Lemma merge_old_step env v d newer slot :
  table_ok env -> mask_ok v d -> 0 <= slot < count env ->
  let addr := rnat_addr (aget (shadow env) slot) in
  let s := env <| rse; rse_rnat_shadow_last := slot + 1 |>
               <| rse; rse_rnat_shadow @ slot := merge_entry (aget (shadow env) slot) addr v d newer |>
               <| rse; rse_rnat_shadow_last := slot + 1 |> in
  table_step env s /\
  forall a i, 0 <= i < 63 -> shadow_known s a i =
    if a =? addr then merged newer (shadow_known env a i) (known v d i) else shadow_known env a i.
Proof.
  intros [Hs He] Hm Hr addr s. destruct (sh_count _ Hs).
  destruct (merge_entry_old (aget (shadow env) slot) v d newer (He _ Hr) (sh_valid _ Hs _ Hr) Hm)
    as (Hok & Ha & Hv & Hk). fold addr in Hok, Ha, Hv, Hk.
  set (e := merge_entry (aget (shadow env) slot) addr v d newer) in *.
  set (e0 := env <| rse; rse_rnat_shadow_last := slot + 1 |>) in *.
  assert (Hs0 : shadow_shape e0) by (apply set_last_shape; [done|lia]).
  destruct (set_entry_step e0 slot e Hs0 Hr Hv Ha) as (Hsa & Hga & Hka).
  match type of Hsa with shadow_shape ?t => set (e1 := t) in * end.
  change s with (e1 <| rse; rse_rnat_shadow_last := slot + 1 |>). clear s. split.
  - split; [reflexivity|apply set_last_shape; [done|lia]|].
    intros j Hj. change (count _) with (count env) in Hj.
    match goal with |- entry_ok (aget ?l j) => change l with (shadow e1) end.
    rewrite Hga by done. destruct (Z.eqb_spec slot j); [done|by apply He].
  - intros a i Hi. rewrite set_last_known by (done || lia). rewrite Hka, Ha.
    destruct (Z.eqb_spec a addr) as [->|].
    + rewrite Hk by done. unfold addr. by rewrite shadow_known_at.
    + unfold e0. by rewrite set_last_known by (done || lia).
Qed.

(** A full table gives up its first entry for a new collection. *)
Lemma merge_full_step env addr v d newer :
  table_ok env -> uint 64 addr -> ia64_rse_collect_word addr = addr -> count env = 96 ->
  mask_ok v d -> d <> 0 ->
  (forall i, 0 <= i < count env -> rnat_addr (aget (shadow env) i) <> addr) ->
  let s := env <| rse; rse_rnat_shadow_last := 0 |>
               <| rse; rse_rnat_shadow @ 0 := merge_entry (aget (shadow env) 0) addr v d newer |>
               <| rse; rse_rnat_shadow_last := 1 |> in
  table_step env s /\
  forall a i, shadow_known s a i = (if a =? addr then known v d i else shadow_known env a i) \/
    shadow_known s a i = None.
Proof.
  intros [Hs He] Hu Hcw Hfull Hm Hd Hn. cbv zeta. destruct (sh_count _ Hs).
  set (e := mkRnatShadowEntry v addr d true).
  assert (Ee : merge_entry (aget (shadow env) 0) addr v d newer = e).
  { unfold merge_entry. destruct (Z.eqb_spec (rnat_addr (aget (shadow env) 0)) addr) as [E|_].
    - by destruct (Hn 0 ltac:(lia)).
    - rewrite andb_false_r. cbn [upd rnat_value rnat_defined rnat_addr rnat_valid].
      rewrite uint63_land_id by apply Hm. by rewrite mask_ok_land_id. }
  rewrite Ee. set (s := env <| rse; rse_rnat_shadow_last := 0 |> <| rse; rse_rnat_shadow @ 0 := e |>
    <| rse; rse_rnat_shadow_last := 1 |>).
  assert (Hg : forall j, aget (shadow s) j = if 0 =? j then e else aget (shadow env) j).
  { intros j. cbn. apply aget_aset. rewrite (sh_len _ Hs). lia. }
  assert (Hc : count s = 96) by done.
  enough (Hst : table_step env s).
  { split; [done|]. intros a i. destruct (lookup_spec s a (ts_shape _ _ Hst)) as [[_ Hno]|[Hr Ha]].
    - right. apply shadow_known_none; [apply Hst|done].
    - set (r := ia64_rse_rnat_shadow_lookup s a) in *. left. rewrite <- Ha, shadow_known_at by (apply Hst || done).
      rewrite Hg. destruct (Z.eqb_spec 0 r) as [<-|]; [by rewrite Z.eqb_refl|].
      rewrite Hc in Hr. destruct (Z.eqb_spec (rnat_addr (aget (shadow env) r)) addr) as [E|].
      + by destruct (Hn r ltac:(lia)).
      + by rewrite shadow_known_at by (done || lia). }
  split; [reflexivity|split|].
  - cbn. rewrite aset_length. apply Hs.
  - lia.
  - change (0 <= 1 <= 96). lia.
  - intros i Hi. rewrite Hg. destruct (0 =? i); [done|]. apply (sh_valid _ Hs). lia.
  - intros i Hi. lia.
  - intros i j Hi Hj. rewrite !Hg. destruct (Z.eqb_spec 0 i) as [<-|], (Z.eqb_spec 0 j) as [<-|]; try done.
    + intros E. symmetry in E. by destruct (Hn j ltac:(lia)).
    + intros E. by destruct (Hn i ltac:(lia)).
    + apply (sh_inj _ Hs); lia.
  - intros i Hi. rewrite Hg. destruct (0 =? i); [done|]. apply He. lia.
Qed.

(** The merge with a collection: newer bits over the entry, or under it.  The
    table stays well formed in any case; it forgets bits only if it is full. *)
Lemma merge_step env addr value defined newer :
  table_ok env -> uint 64 addr ->
  (if addr =? UINT64_MAX then defined .& INT64_MAX = 0 else ia64_rse_collect_word addr = addr) ->
  let s := ia64_rse_rnat_shadow_merge env addr value defined newer in
  table_step env s /\
  forall a i, 0 <= i < 63 ->
    shadow_known s a i = (if a =? addr then merged newer (shadow_known env a i) (known value defined i)
                          else shadow_known env a i) \/
    count env = 96 /\ shadow_known s a i = None.
Proof.
  intros Hok Hua Haddr. unfold ia64_rse_rnat_shadow_merge. cbv zeta.
  set (d := defined .& INT64_MAX) in *. assert (Hd : uint 63 d) by apply uint63_land.
  assert (Hkn : forall i, 0 <= i < 63 -> known (value .& d) d i = known value defined i).
  { intros i Hi. rewrite known_land_self by lia. by apply known_land_INT64. }
  assert (Hvd : mask_ok (value .& d) d) by by apply mask_ok_land. set (v := value .& d) in *.
  destruct ((addr =? UINT64_MAX) || (d =? 0)) eqn:Hskip.
  { split; [by apply table_step_refl|]. intros a i Hi. left. assert (Hd0 : d = 0)
      by (destruct (addr =? UINT64_MAX); [done|by apply Z.eqb_eq]).
    rewrite <- Hkn by done. unfold known, merged. rewrite Hd0, Z.testbit_0_l.
    destruct (a =? addr), newer; try done. by destruct (shadow_known env a i). }
  apply orb_false_iff in Hskip as [Hnm Hd0%Z.eqb_neq]. rewrite Hnm in Haddr.
  unfold ia64_rse_rnat_shadow_find.
  destruct (lookup_spec env addr (proj1 Hok)) as [[El Hn]|[Hr Ha]].
  - rewrite El. change (-1 <? 0) with true. cbv iota zeta.
    change (-1 + 1) with 0. cbn [rse upd rse_rnat_shadow_count rse_rnat_shadow].
    destruct (Z.eqb_spec (count env) IA64_RSE_RNAT_SHADOW_COUNT) as [E|E];
      change IA64_RSE_RNAT_SHADOW_COUNT with 96 in E; cbv iota.
    { destruct (merge_full_step env addr v d newer Hok Hua Haddr E Hvd Hd0 Hn) as [Hst Hk].
      split; [exact Hst|]. intros a i Hi. destruct (Hk a i) as [Hk'|Hk']; [left|right; by split].
      etransitivity; [exact Hk'|]. destruct (Z.eqb_spec a addr) as [->|]; [|done].
      rewrite Hkn by done. rewrite (shadow_known_none env) by (done || apply Hok).
      unfold merged. by destruct newer, (known value defined i). }
    destruct (sh_count _ (proj1 Hok)).
    destruct (merge_new_step env addr v d newer) as [Hst Hk]; try done; [lia|]. split; [exact Hst|].
    intros a i Hi. left. etransitivity; [apply Hk|]. destruct (Z.eqb_spec a addr) as [->|]; [|done].
    rewrite Hkn by done. rewrite (shadow_known_none env) by (done || apply Hok).
    unfold merged. by destruct newer, (known value defined i).
  - set (slot := ia64_rse_rnat_shadow_lookup env addr) in *.
    destruct (Z.ltb_spec slot 0); [lia|]. cbv iota zeta.
    destruct (merge_old_step env v d newer slot Hok Hvd Hr) as [Hst Hk].
    rewrite Ha in Hst, Hk. split; [exact Hst|]. intros a i Hi. left. etransitivity; [by apply Hk|].
    by rewrite Hkn.
Qed.


Lemma merge_spec env addr value defined newer :
  table_ok env -> uint 64 addr ->
  (if addr =? UINT64_MAX then defined .& INT64_MAX = 0 else ia64_rse_collect_word addr = addr) ->
  let s := ia64_rse_rnat_shadow_merge env addr value defined newer in
  table_step env s /\
  (count env < 96 ->
   forall a i, 0 <= i < 63 -> shadow_known s a i =
    if a =? addr then merged newer (shadow_known env a i) (known value defined i)
    else shadow_known env a i).
Proof.
  intros Hok Hua Haddr s. destruct (merge_step env addr value defined newer Hok Hua Haddr) as [Hst Hk].
  split; [done|]. intros Hroom a i Hi. destruct (Hk a i Hi) as [?|[? _]]; [done|lia].
Qed.

Lemma lookup_known env a i :
  shadow_shape env -> shadow_known env a i =
  (if 0 <=? ia64_rse_rnat_shadow_lookup env a
   then known (rnat_value (aget (shadow env) (ia64_rse_rnat_shadow_lookup env a)))
          (rnat_defined (aget (shadow env) (ia64_rse_rnat_shadow_lookup env a))) i
   else None).
Proof. done. Qed.

(** Looking up a collection, then deleting its entry if it has one. *)
Lemma find_delete_spec env addr slot :
  table_ok env -> slot = ia64_rse_rnat_shadow_lookup env addr -> 0 <= slot ->
  let s := ia64_rse_rnat_shadow_delete (env <| rse; rse_rnat_shadow_last := slot + 1 |>) slot in
  table_step env s /\
  forall a i, shadow_known s a i = if a =? addr then None else shadow_known env a i.
Proof.
  intros [Hs He] -> Hpos s. destruct (lookup_spec env addr Hs) as [[El _]|[Hr Ha]]; [lia|].
  set (slot := ia64_rse_rnat_shadow_lookup env addr) in *. destruct (sh_count _ Hs).
  set (e0 := env <| rse; rse_rnat_shadow_last := slot + 1 |>) in *.
  assert (Hs0 : shadow_shape e0) by (apply set_last_shape; [done|lia]).
  destruct (delete_step e0 slot Hs0 Hr) as ([Hf Hsh Hen] & _ & _ & Hk); [by intros; apply He|].
  fold s in Hf, Hsh, Hen, Hk. split.
  - split; [|done|done]. rewrite Hf. done.
  - intros a i. rewrite Hk. change (shadow e0) with (shadow env). rewrite Ha.
    unfold e0. by rewrite set_last_known by (done || lia).
Qed.

Lemma set_last_step env l : table_ok env -> 0 <= l <= 96 ->
  table_step env (env <| rse; rse_rnat_shadow_last := l |>).
Proof.
  intros [Hs He] Hl. split; [by destruct env, rse|by apply set_last_shape|done].
Qed.

Lemma remove_spec env addr :
  table_ok env ->
  let s := ia64_rse_rnat_shadow_remove env addr in
  table_step env s /\
  forall a i, shadow_known s a i = if a =? addr then None else shadow_known env a i.
Proof.
  intros Hok. unfold ia64_rse_rnat_shadow_remove, ia64_rse_rnat_shadow_find.
  destruct (lookup_spec env addr (proj1 Hok)) as [[El Hn]|[Hr Ha]].
  - rewrite El. cbv zeta iota. change (0 <=? -1) with false. cbv iota. split.
    + apply set_last_step; [done|lia].
    + intros a i. rewrite set_last_known by (apply Hok || lia).
      destruct (Z.eqb_spec a addr) as [->|]; [|done]. apply shadow_known_none; [apply Hok|done].
  - destruct (Z.leb_spec 0 (ia64_rse_rnat_shadow_lookup env addr)); [|lia].
    by apply find_delete_spec.
Qed.

(** Taking a collection out of the table. *)
Lemma take_spec env addr :
  table_ok env ->
  let '(r, s) := ia64_rse_rnat_shadow_take env addr in
  table_step env s /\
  (forall a i, shadow_known s a i = if a =? addr then None else shadow_known env a i) /\
  match r with
  | Some (v, d) => mask_ok v d /\ forall i, 0 <= i < 63 -> shadow_known env addr i = known v d i
  | None => forall i, shadow_known env addr i = None
  end.
Proof.
  intros Hok. unfold ia64_rse_rnat_shadow_take, ia64_rse_rnat_shadow_find.
  destruct (lookup_spec env addr (proj1 Hok)) as [[El Hn]|[Hr Ha]].
  - rewrite El. cbv zeta iota. change (-1 <? 0) with true. cbv iota.
    assert (Hnone : forall i, shadow_known env addr i = None)
      by (intros; apply shadow_known_none; [apply Hok|done]).
    split_and!; [apply set_last_step; [done|lia]| |done].
    intros a i. rewrite set_last_known by (apply Hok || lia).
    by destruct (Z.eqb_spec a addr) as [->|].
  - destruct (Z.ltb_spec (ia64_rse_rnat_shadow_lookup env addr) 0); [lia|].
    destruct (find_delete_spec env addr _ Hok eq_refl ltac:(lia)) as [Hst Hk].
    split_and!; [done|done|apply mask_ok_land, uint63_land|].
    intros i Hi. rewrite known_land_self, known_land_INT64 by lia. rewrite lookup_known by apply Hok.
    destruct (Z.leb_spec 0 (ia64_rse_rnat_shadow_lookup env addr)); [done|lia].
Qed.

Lemma mask_ok_0_known v i : known v 0 i = None.
Proof. unfold known. by rewrite Z.testbit_0_l. Qed.

(** Replacing the bits of an entry by some of them; an entry without bits is
    deleted. *)
Lemma keep_entry_step env slot keep :
  table_ok env -> 0 <= slot < count env ->
  let e := aget (shadow env) slot in
  let e' := mkRnatShadowEntry (rnat_value e .& (rnat_defined e .& keep)) (rnat_addr e)
              (rnat_defined e .& keep) (rnat_valid e) in
  let s0 := env <| rse; rse_rnat_shadow @ slot := e' |> in
  let s := if rnat_defined e' =? 0 then ia64_rse_rnat_shadow_delete s0 slot else s0 in
  table_step env s /\
  (forall a i, 0 <= i -> shadow_known s a i =
    if a =? rnat_addr e then if Z.testbit keep i then shadow_known env a i else None
    else shadow_known env a i) /\
  (if rnat_defined e' =? 0
   then count s = count env - 1 /\ (forall j, 0 <= j < slot -> aget (shadow s) j = aget (shadow env) j)
   else count s = count env /\ (forall j, 0 <= j < slot -> aget (shadow s) j = aget (shadow env) j) /\
        aget (shadow s) slot = e').
Proof.
  intros [Hs He] Hr e e' s0 s. assert (Hv := sh_valid _ Hs _ Hr).
  destruct (He _ Hr) as (Hm & Hne & Hu & Hcw). fold e in Hv, Hm, Hne, Hu, Hcw.
  destruct (set_entry_step env slot e' Hs Hr Hv eq_refl) as (Hs0 & Hg0 & Hk0). fold s0 in Hs0, Hg0, Hk0.
  assert (Hkn : forall a i, 0 <= i ->
    (if a =? rnat_addr e then known (rnat_value e') (rnat_defined e') i else shadow_known env a i) =
    if a =? rnat_addr e then if Z.testbit keep i then shadow_known env a i else None
    else shadow_known env a i).
  { intros a i Hi. destruct (Z.eqb_spec a (rnat_addr e)) as [->|]; [|done].
    unfold e. rewrite shadow_known_at by done. by apply known_keep. }
  unfold s. destruct (Z.eqb_spec (rnat_defined e') 0) as [E|E].
  - destruct (delete_step s0 slot Hs0 Hr) as ([Hf Hsh Hen] & Hc & Hg & Hk).
    { intros j Hj Hjs. rewrite Hg0 by done. destruct (Z.eqb_spec slot j); [done|by apply He]. }
    split_and!; [split; [rewrite Hf; done|done|done]| |done|].
    + intros a i Hi. rewrite Hk, Hg0, Z.eqb_refl, Hk0 by done. rewrite <- Hkn by done.
      change (rnat_addr e') with (rnat_addr e). destruct (a =? rnat_addr e); [|done].
      rewrite E. symmetry. apply mask_ok_0_known.
    + intros j Hj. rewrite Hg by (rewrite Hc; change (count s0) with (count env); lia). 
      destruct (Z.eqb_spec slot j); [lia|]. rewrite Hg0 by lia. by destruct (Z.eqb_spec slot j); [lia|].
  - split_and!; [split; [|done|]| |done| |].
    + unfold s0. by destruct env, rse.
    + intros j Hj. rewrite Hg0 by done. destruct (Z.eqb_spec slot j); [|by apply He].
      split_and!; [by apply mask_ok_keep|done|done|done].
    + intros a i Hi. rewrite Hk0. by apply Hkn.
    + intros j Hj. rewrite Hg0 by lia. by destruct (Z.eqb_spec slot j); [lia|].
    + rewrite Hg0 by done. by rewrite Z.eqb_refl.
Qed.

Lemma clip_spec env addr keep :
  table_ok env ->
  let s := ia64_rse_rnat_shadow_clip env addr keep in
  table_step env s /\
  forall a i, 0 <= i < 63 -> shadow_known s a i =
    if a =? addr then if Z.testbit keep i then shadow_known env a i else None
    else shadow_known env a i.
Proof.
  intros Hok. unfold ia64_rse_rnat_shadow_clip, ia64_rse_rnat_shadow_find.
  destruct (lookup_spec env addr (proj1 Hok)) as [[El Hn]|[Hr Ha]].
  - rewrite El. cbv zeta iota. change (-1 <? 0) with true. cbv iota. split.
    + apply set_last_step; [done|lia].
    + intros a i Hi. rewrite set_last_known by (apply Hok || lia).
      destruct (Z.eqb_spec a addr) as [->|]; [|done].
      rewrite (shadow_known_none env) by (apply Hok || done). by destruct (Z.testbit keep i).
  - set (slot := ia64_rse_rnat_shadow_lookup env addr) in *. destruct (sh_count _ (proj1 Hok)).
    pose proof (set_last_step env (slot + 1) Hok ltac:(lia)) as Hst0.
    destruct (keep_entry_step (env <| rse; rse_rnat_shadow_last := slot + 1 |>) slot
      (keep .& INT64_MAX) (table_step_ok _ _ Hst0) Hr) as (Hst & Hk & _).
    match type of Hst with table_step _ ?t => set (s := t) in * end.
    destruct (Z.ltb_spec slot 0); [lia|]. cbv zeta iota.
    match goal with |- table_step _ ?t /\ _ => assert (Es : t = s) end.
    { unfold s. cbn. by destruct (aget (shadow env) slot). }
    rewrite Es. clearbody s. clear Es. split; [by eapply table_step_trans|].
    intros a i Hi. rewrite Hk by lia. cbn [rse upd rse_rnat_shadow]. rewrite Ha, land_INT64_MAX by done.
    by rewrite set_last_known by (apply Hok || lia).
Qed.

Lemma retain_loop_spec fuel env slot first last :
  table_ok env -> 0 <= slot -> count env - slot <= Z.of_nat fuel ->
  (forall j, 0 <= j < slot -> j < count env -> forall i, 0 <= i ->
    Z.testbit (rnat_defined (aget (shadow env) j)) i = true ->
    Z.testbit (retain_mask (rnat_addr (aget (shadow env) j)) first last) i = true) ->
  let s := retain_loop fuel env slot first last in
  table_step env s /\
  forall a i, 0 <= i -> shadow_known s a i =
    if Z.testbit (retain_mask a first last) i then shadow_known env a i else None.
Proof.
  revert env slot. induction fuel as [|fuel IH]; intros env slot Hok Hslot Hfuel Hdone.
  1: assert (Hge : count env <= slot) by lia.
  2: cbn [retain_loop]; destruct (Z.ltb_spec slot (count env)) as [Hlt|Hge].
  2: { (* one entry *)
    cbv zeta. set (e := aget (shadow env) slot). set (keep := retain_mask (rnat_addr e) first last).
    destruct (keep_entry_step env slot keep Hok ltac:(lia)) as (Hst & Hk & Hc). fold e in Hst, Hk, Hc.
    set (e' := mkRnatShadowEntry (rnat_value e .& (rnat_defined e .& keep)) (rnat_addr e)
                 (rnat_defined e .& keep) (rnat_valid e)) in *.
    match goal with |- context [aset _ slot ?x] => assert (Ee : x = e') by (cbn; by destruct e) end.
    rewrite Ee. clear Ee.
    assert (Hstep : forall s1 slot1,
      table_step env s1 -> 0 <= slot1 -> count s1 - slot1 <= Z.of_nat fuel ->
      (forall a i, 0 <= i -> shadow_known s1 a i =
        if a =? rnat_addr e then if Z.testbit keep i then shadow_known env a i else None
        else shadow_known env a i) ->
      (forall j, 0 <= j < slot1 -> j < count s1 -> forall i, 0 <= i ->
        Z.testbit (rnat_defined (aget (shadow s1) j)) i = true ->
        Z.testbit (retain_mask (rnat_addr (aget (shadow s1) j)) first last) i = true) ->
      let s := retain_loop fuel s1 slot1 first last in
      table_step env s /\
      forall a i, 0 <= i -> shadow_known s a i =
        if Z.testbit (retain_mask a first last) i then shadow_known env a i else None).
    { intros s1 slot1 Hst1 H1 H2 Hk1 H3.
      destruct (IH s1 slot1 (table_step_ok _ _ Hst1) H1 H2 H3) as [Hst2 Hk2].
      split; [by eapply table_step_trans|]. intros a i Hi. rewrite Hk2, Hk1 by done.
      destruct (Z.eqb_spec a (rnat_addr e)) as [->|]; [|done]. fold keep. by destruct (Z.testbit keep i). }
    destruct (rnat_defined e' =? 0); apply Hstep; try done; try lia.
    - destruct Hc as [Hc Hg]. intros j Hj Hjc. rewrite Hg by lia. apply Hdone; lia.
    - destruct Hc as (Hc & Hg & He'). intros j Hj Hjc i Hi. destruct (Z.eq_dec j slot) as [->|].
      + rewrite He'. cbn [rnat_defined rnat_addr e']. rewrite Z.land_spec.
        by intros [_ ?]%andb_true_iff.
      + rewrite Hg by lia. apply Hdone; lia. }
  (* the end of the table *)
  all: try (cbn [retain_loop]); split; [by apply table_step_refl|];
    intros a i Hi; destruct (lookup_spec env a (proj1 Hok)) as [[_ Hn]|[Hr Ha]];
    [rewrite (shadow_known_none env) by (apply Hok || done); by case_match|];
    rewrite <- Ha, shadow_known_at by (apply Hok || done); unfold known;
    specialize (Hdone (ia64_rse_rnat_shadow_lookup env a) ltac:(lia) ltac:(lia) i Hi);
    (destruct (Z.testbit (rnat_defined _) i); [by rewrite Hdone|by case_match]).
Qed.

Lemma retain_range_spec env first last :
  table_ok env ->
  let s := ia64_rse_rnat_shadow_retain_range env first last in
  table_step env s /\
  forall a i, 0 <= i -> shadow_known s a i =
    if Z.testbit (retain_mask a first last) i then shadow_known env a i else None.
Proof.
  intros Hok. apply retain_loop_spec; [done|lia| |intros; lia].
  destruct (sh_count _ (proj1 Hok)). lia.
Qed.

(** ** The knowledge of all three places *)

Definition load_known (env : CPUIA64State) (a i : Z) : option bool :=
  if rse_load_rnat_valid (rse env) && (rse_load_rnat_addr (rse env) =? a)
  then known (rse_load_rnat (rse env)) (rse_load_rnat_defined (rse env)) i else None.

(** The fill latch is at collection [a]. *)
Definition latch_at (env : CPUIA64State) (a : Z) : bool :=
  rse_load_rnat_valid (rse env) && (rse_load_rnat_addr (rse env) =? a).

Definition spill_known (env : CPUIA64State) (a i : Z) : option bool :=
  if rse_rnat_addr (rse env) =? a then known (ar_rnat env) (rse_rnat_defined (rse env)) i else None.

(** The fill latch, then the table, then the spill latch. *)
Definition rnat_known (env : CPUIA64State) (a i : Z) : option bool :=
  over (over (load_known env a i) (shadow_known env a i)) (spill_known env a i).

Definition image_ok (w : IA64RnatWritebackImage) : Prop :=
  mask_ok (rnat_value w) (rnat_defined w) /\ uint 64 (rnat_addr w) /\
  if rnat_valid w
  then rnat_defined w <> 0 /\ ia64_rse_collect_word (rnat_addr w) = rnat_addr w
  else rnat_value w = 0 /\ rnat_addr w = 0 /\ rnat_defined w = 0.

(** The conditions of [ia64_rse_check] on the collections. *)
Record rnat_ok (env : CPUIA64State) : Prop := {
  rn_ar : length (ar env) = 128%nat;
  rn_table : table_ok env;
  rn_spill : mask_ok (ar_rnat env) (rse_rnat_defined (rse env));
  rn_spill_u : uint 64 (rse_rnat_addr (rse env));
  rn_spill_addr :
    if rse_rnat_addr (rse env) =? UINT64_MAX then rse_rnat_defined (rse env) = 0
    else ia64_rse_collect_word (rse_rnat_addr (rse env)) = rse_rnat_addr (rse env);
  rn_load : mask_ok (rse_load_rnat (rse env)) (rse_load_rnat_defined (rse env));
  rn_load_u : uint 64 (rse_load_rnat_addr (rse env));
  rn_load_addr :
    if rse_load_rnat_valid (rse env)
    then ia64_rse_collect_word (rse_load_rnat_addr (rse env)) = rse_load_rnat_addr (rse env)
    else rse_load_rnat (rse env) = 0 /\ rse_load_rnat_addr (rse env) = 0 /\
         rse_load_rnat_defined (rse env) = 0;
  rn_image : image_ok (rse_writeback_rnat (rse env))
}.

(** The same without the spill latch, which [mov ar.rnat] overwrites before
    the bookkeeping sees it. *)
Record rnat_rest (env : CPUIA64State) : Prop := {
  rr_ar : length (ar env) = 128%nat;
  rr_table : table_ok env;
  rr_load : mask_ok (rse_load_rnat (rse env)) (rse_load_rnat_defined (rse env));
  rr_load_u : uint 64 (rse_load_rnat_addr (rse env));
  rr_load_addr :
    if rse_load_rnat_valid (rse env)
    then ia64_rse_collect_word (rse_load_rnat_addr (rse env)) = rse_load_rnat_addr (rse env)
    else rse_load_rnat (rse env) = 0 /\ rse_load_rnat_addr (rse env) = 0 /\
         rse_load_rnat_defined (rse env) = 0;
  rr_image : image_ok (rse_writeback_rnat (rse env))
}.

Lemma rnat_ok_rest env : rnat_ok env -> rnat_rest env.
Proof. by intros []. Qed.

Lemma table_ok_ext env s :
  shadow s = shadow env -> count s = count env ->
  rse_rnat_shadow_last (rse s) = rse_rnat_shadow_last (rse env) -> table_ok env -> table_ok s.
Proof.
  intros E1 E2 E3 [[] He]. split; [split; by rewrite ?E1, ?E2, ?E3|].
  unfold shadow_entries. by rewrite E1, E2.
Qed.

(** The table changes and nothing else. *)
Lemma table_step_rnat_ok env s : rnat_ok env -> table_step env s -> rnat_ok s.
Proof.
  intros [] [Hf Hs He]. assert (Hok : table_ok s) by done. split; [|done|..]; rewrite Hf; done.
Qed.

Lemma table_step_rest env s : rnat_rest env -> table_step env s -> rnat_rest s.
Proof.
  intros [] [Hf Hs He]. assert (Hok : table_ok s) by done. split; [|done|..]; rewrite Hf; done.
Qed.

Lemma table_step_load env s a i : table_step env s -> load_known s a i = load_known env a i.
Proof. intros [Hf _ _]. by rewrite Hf. Qed.

Lemma table_step_latch env s a : table_step env s -> latch_at s a = latch_at env a.
Proof. intros [-> _ _]. done. Qed.

Lemma table_step_spill env s a i : table_step env s -> spill_known s a i = spill_known env a i.
Proof. intros [Hf _ _]. by rewrite Hf. Qed.

(** [ar.rnat], its address and its mask change. *)
Definition set_spill (env : CPUIA64State) (value addr defined : Z) : CPUIA64State :=
  env <| ar @ IA64_AR_RNAT := value |> <| rse; rse_rnat_addr := addr |>
      <| rse; rse_rnat_defined := defined |>.

Lemma set_spill_known env v addr d a i :
  length (ar env) = 128%nat ->
  (spill_known (set_spill env v addr d) a i = if addr =? a then known v d i else None) /\
  shadow_known (set_spill env v addr d) a i = shadow_known env a i /\
  load_known (set_spill env v addr d) a i = load_known env a i.
Proof.
  intros Hl. split_and!; try done. unfold spill_known, set_spill, ar_rnat. cbn.
  by rewrite aget_aset_eq by (rewrite Hl; done).
Qed.

Lemma set_spill_ok env v addr d :
  rnat_rest env -> mask_ok v d -> uint 64 addr ->
  (if addr =? UINT64_MAX then d = 0 else ia64_rse_collect_word addr = addr) ->
  rnat_ok (set_spill env v addr d).
Proof.
  intros [] Hm Hu Ha. assert (Hr : ar_rnat (set_spill env v addr d) = v).
  { unfold ar_rnat, set_spill. cbn. by rewrite aget_aset_eq by (rewrite rr_ar0; done). }
  split; rewrite ?Hr; try done.
  - unfold set_spill. cbn. by rewrite aset_length.
  - by apply (table_ok_ext env).
Qed.

(** The state without the collections: what the operations of this file leave
    alone. *)
Definition rse_erase (r : IA64RSEState) : IA64RSEState :=
  mkRSEState (rse_pgr r) (rse_pgr_nat r) (rse_gr_dirty r) (rse_bol r) (rse_dirty r)
    (rse_dirty_nat r) (rse_clean r) (rse_clean_nat r) (rse_invalid r) (rse_cfle r)
    (rse_access r) (rse_completion_pending r) (rse_completion_demoted r)
    (rse_completion_psr r) (rse_completion_source_ip r) (rse_completion_source_slot r)
    0 0 0 0 0 false empty_rnat [] 0 0.

Definition rnat_erase (env : CPUIA64State) : CPUIA64State :=
  env <| ar @ IA64_AR_RNAT := 0 |> <| rse ::= rse_erase |>.

Lemma erase_ar s env k : k <> IA64_AR_RNAT -> rnat_erase s = rnat_erase env -> aget (ar s) k = aget (ar env) k.
Proof.
  intros Hk E.
  assert (E' : aget (aset (ar s) IA64_AR_RNAT 0) k = aget (aset (ar env) IA64_AR_RNAT 0) k)
    by exact (f_equal (fun e => aget (ar e) k) E).
  by rewrite !aget_aset_ne in E' by done.
Qed.

Lemma erase_bspstore s env : rnat_erase s = rnat_erase env -> ar_bspstore s = ar_bspstore env.
Proof. by apply erase_ar. Qed.

Lemma aset_comm {A} (l : list A) i j x y :
  i <> j -> aset (aset l i x) j y = aset (aset l j y) i x.
Proof.
  intros Hij. unfold aset. destruct (Z.leb_spec 0 i), (Z.leb_spec 0 j); try done.
  apply list_insert_insert_ne. lia.
Qed.

Lemma table_step_erase env s : table_step env s -> rnat_erase s = rnat_erase env.
Proof. intros [Hf _ _]. rewrite Hf. done. Qed.

Lemma set_spill_erase env v addr d : rnat_erase (set_spill env v addr d) = rnat_erase env.
Proof.
  change (rnat_erase (set_spill env v addr d))
    with (env <| ar := aset (aset (ar env) IA64_AR_RNAT v) IA64_AR_RNAT 0 |> <| rse ::= rse_erase |>).
  rewrite aset_aset. done.
Qed.

(** Stashing the spill latch: the table knows its bits too. *)
Lemma stash_step env :
  rnat_ok env ->
  let s := ia64_rse_rnat_shadow_stash env in
  table_step env s /\
  forall a i, 0 <= i < 63 ->
    shadow_known s a i = over (shadow_known env a i) (spill_known env a i) \/
    count env = 96 /\ shadow_known s a i = None.
Proof.
  intros Hok. unfold ia64_rse_rnat_shadow_stash.
  destruct (merge_step env (rse_rnat_addr (rse env)) (ar_rnat env) (rse_rnat_defined (rse env)) true)
    as [Hst Hk]; try apply Hok.
  { pose proof (rn_spill_addr _ Hok) as Ha. case_match; [|done]. by rewrite Ha. }
  split; [done|]. intros a i Hi. destruct (Hk a i Hi) as [->|?]; [left|by right]. unfold spill_known, merged.
  rewrite (Z.eqb_sym a). destruct (_ =? a); [done|]. by destruct (shadow_known env a i).
Qed.

Lemma stash_spec env :
  rnat_ok env ->
  let s := ia64_rse_rnat_shadow_stash env in
  table_step env s /\
  (count env < 96 ->
   forall a i, 0 <= i < 63 -> shadow_known s a i = over (shadow_known env a i) (spill_known env a i)).
Proof.
  intros Hok s. destruct (stash_step env Hok) as [Hst Hk]. split; [done|].
  intros Hroom a i Hi. destruct (Hk a i Hi) as [?|[? _]]; [done|lia].
Qed.

(** Stashing the fill latch before it is given to another collection. *)
Lemma load_stash_step env next :
  rnat_ok env ->
  let s := ia64_rse_load_rnat_stash env next in
  table_step env s /\
  forall a i, 0 <= i < 63 ->
    shadow_known s a i = (if a =? next then shadow_known env a i
                          else over (load_known env a i) (shadow_known env a i)) \/
    count env = 96 /\ shadow_known s a i = None.
Proof.
  intros Hok. unfold ia64_rse_load_rnat_stash, load_known.
  pose proof (rn_load_addr _ Hok) as Ha.
  destruct (rse_load_rnat_valid (rse env)) eqn:Hv; cbn [negb orb andb].
  - destruct (Z.eqb_spec (rse_load_rnat_addr (rse env)) next) as [E|E].
    + split; [by apply table_step_refl, Hok|]. intros a i Hi. left. subst next. rewrite (Z.eqb_sym a).
      destruct (_ =? a); [done|]. by destruct (shadow_known env a i).
    + destruct (merge_step env (rse_load_rnat_addr (rse env)) (rse_load_rnat (rse env))
        (rse_load_rnat_defined (rse env)) false) as [Hst Hk]; try apply Hok.
      { case_match; [|done]. destruct (collect_word_not_max _ (rn_load_u _ Hok)).
        rewrite Ha. by apply Z.eqb_eq. }
      split; [done|]. intros a i Hi. destruct (Hk a i Hi) as [->|?]; [left|by right]. unfold merged.
      rewrite (Z.eqb_sym a (rse_load_rnat_addr _)).
      destruct (Z.eqb_spec (rse_load_rnat_addr (rse env)) a) as [<-|].
      * destruct (Z.eqb_spec (rse_load_rnat_addr (rse env)) next); [done|]. done.
      * destruct (a =? next); [done|]. by destruct (shadow_known env a i).
  - split; [by apply table_step_refl, Hok|]. intros a i Hi. left.
    destruct (a =? next); [done|]. by destruct (shadow_known env a i).
Qed.

Lemma load_stash_spec env next :
  rnat_ok env ->
  let s := ia64_rse_load_rnat_stash env next in
  table_step env s /\
  (count env < 96 ->
   forall a i, 0 <= i < 63 -> shadow_known s a i =
    if a =? next then shadow_known env a i else over (load_known env a i) (shadow_known env a i)).
Proof.
  intros Hok s. destruct (load_stash_step env next Hok) as [Hst Hk]. split; [done|].
  intros Hroom a i Hi. destruct (Hk a i Hi) as [?|[? _]]; [done|lia].
Qed.

(** The latches' own overlay is the precedence of [rnat_known]. *)
Lemma load_part_spec env c :
  rnat_ok env ->
  let '(v, d) := if rse_load_rnat_valid (rse env) && (rse_load_rnat_addr (rse env) =? c)
                 then (rse_load_rnat (rse env) .& (rse_load_rnat_defined (rse env) .& INT64_MAX),
                       rse_load_rnat_defined (rse env) .& INT64_MAX)
                 else (0, 0) in
  mask_ok v d /\ forall i, 0 <= i < 63 -> known v d i = load_known env c i.
Proof.
  intros Hok. unfold load_known. destruct (_ && _).
  - split; [apply mask_ok_land, uint63_land|]. intros i Hi.
    rewrite known_land_self by lia. by apply known_land_INT64.
  - split; [apply mask_ok_0|]. intros i _. apply mask_ok_0_known.
Qed.

(** The spill latch moves to another collection: what it held goes to the
    table, and what the fill latch and the table know of the new collection
    goes to it. *)
Lemma bind_step env c :
  rnat_ok env -> uint 64 c -> ia64_rse_collect_word c = c -> rse_rnat_addr (rse env) <> c ->
  let s := ia64_rse_rnat_bind env c in
  rnat_ok s /\ rse_rnat_addr (rse s) = c /\ rnat_erase s = rnat_erase env /\
  (forall a i, load_known s a i = load_known env a i) /\
  (forall i, 0 <= i < 63 -> shadow_known s c i = None /\
     (spill_known s c i = over (load_known env c i) (shadow_known env c i) \/
      count env = 96 /\ spill_known s c i = load_known env c i)) /\
  (forall a i, 0 <= i < 63 -> a <> c ->
     shadow_known s a i = over (shadow_known env a i) (spill_known env a i) \/
     count env = 96 /\ shadow_known s a i = None).
Proof.
  intros Hok Hu Hcw E. unfold ia64_rse_rnat_bind.
  destruct (Z.eqb_spec (rse_rnat_addr (rse env)) c) as [|_]; [done|].
  destruct (stash_step env Hok) as [Hst1 Hk1].
  set (e1 := ia64_rse_rnat_shadow_stash env) in *. cbv zeta.
  pose proof (table_step_rnat_ok _ _ Hok Hst1) as Hok1.
  pose proof (load_part_spec e1 c Hok1) as Hload. destruct (if _ && _ then _ else _) as [v d].
  destruct Hload as [Hm Hload].
  pose proof (take_spec e1 c (rn_table _ Hok1)) as Htake.
  destruct (ia64_rse_rnat_shadow_take e1 c) as [r e2]. destruct Htake as (Hst2 & Hk2 & Hr).
  pose proof (table_step_rnat_ok _ _ Hok1 Hst2) as Hok2.
  set (vd := match r with Some _ => _ | None => _ end).
  assert (Hvd : mask_ok (fst vd) (snd vd) /\ forall i, 0 <= i < 63 ->
    known (fst vd) (snd vd) i = over (load_known e1 c i) (shadow_known e1 c i)).
  { subst vd. destruct r as [[v' d']|].
    - destruct Hr as [Hm' Hr]. split; [by apply overlay_mask_ok|]. intros i Hi. cbn [fst snd].
      rewrite overlay_known, Hload, Hr by lia. done.
    - split; [done|]. intros i Hi. cbn [fst snd]. by rewrite Hload, Hr. }
  destruct vd as [v'' d'']. cbn [fst snd] in Hvd. destruct Hvd as [Hm'' Hvd].
  change (e2 <| ar @ IA64_AR_RNAT := v'' |> <| rse; rse_rnat_addr := c |>
             <| rse; rse_rnat_defined := d'' |>) with (set_spill e2 v'' c d'').
  assert (Hkn : forall a i, _) by (intros a i; exact (set_spill_known e2 v'' c d'' a i (rn_ar _ Hok2))).
  split_and!; [|done|rewrite set_spill_erase, (table_step_erase _ _ Hst2); by apply table_step_erase|..].
  - apply set_spill_ok; [by apply rnat_ok_rest|done..|]. destruct (Z.eqb_spec c UINT64_MAX); [|exact Hcw].
    destruct (collect_word_not_max c Hu). by rewrite Hcw.
  - intros a i. destruct (Hkn a i) as (_ & _ & ->).
    by rewrite (table_step_load _ _ a i Hst2), (table_step_load _ _ a i Hst1).
  - intros i Hi. destruct (Hkn c i) as (-> & -> & _). rewrite Hk2, Z.eqb_refl, Hvd by done.
    rewrite (table_step_load _ _ c i Hst1). split; [done|].
    destruct (Hk1 c i Hi) as [->|[? ->]]; [left|by right]. unfold spill_known.
    by destruct (Z.eqb_spec (rse_rnat_addr (rse env)) c).
  - intros a i Hi Hne. destruct (Hkn a i) as (_ & -> & _). rewrite Hk2.
    destruct (Z.eqb_spec a c); [done|]. by apply Hk1.
Qed.

Lemma bind_latch env c a : rnat_ok env -> latch_at (ia64_rse_rnat_bind env c) a = latch_at env a.
Proof.
  intros Hok. unfold ia64_rse_rnat_bind. destruct (_ =? c); [done|].
  destruct (stash_step env Hok) as [Hst1 _]. set (e1 := ia64_rse_rnat_shadow_stash env) in *. cbv zeta.
  destruct (if _ && _ then _ else _) as [v d].
  pose proof (take_spec e1 c (table_step_ok _ _ Hst1)) as Htake.
  destruct (ia64_rse_rnat_shadow_take e1 c) as [r e2]. destruct Htake as (Hst2 & _ & _).
  rewrite <- (table_step_latch _ _ a Hst1), <- (table_step_latch _ _ a Hst2). by destruct r as [[]|].
Qed.

(** Moving the spill latch to another collection loses and invents nothing;
    afterwards it holds all that is known of the new one. *)
Lemma bind_spec env c :
  rnat_ok env -> uint 64 c -> ia64_rse_collect_word c = c ->
  let s := ia64_rse_rnat_bind env c in
  rnat_ok s /\ rse_rnat_addr (rse s) = c /\ rnat_erase s = rnat_erase env /\
  (forall a i, load_known s a i = load_known env a i) /\
  (count env < 96 -> forall a i, 0 <= i < 63 -> rnat_known s a i = rnat_known env a i) /\
  (count env < 96 -> rse_rnat_addr (rse env) <> c ->
   forall i, 0 <= i < 63 -> spill_known s c i = rnat_known env c i).
Proof.
  intros Hok Hu Hcw s. destruct (Z.eq_dec (rse_rnat_addr (rse env)) c) as [E|E].
  { unfold s, ia64_rse_rnat_bind. by rewrite E, Z.eqb_refl. }
  destruct (bind_step env c Hok Hu Hcw E) as (Hok' & Ha & He & Hl & Hc & Ho). fold s in Hok', Ha, He, Hl, Hc, Ho.
  assert (Hsp : forall i, spill_known env c i = None)
    by (intros; unfold spill_known; by destruct (Z.eqb_spec (rse_rnat_addr (rse env)) c)).
  assert (Hbound : count env < 96 -> forall i, 0 <= i < 63 -> spill_known s c i = rnat_known env c i).
  { intros Hroom i Hi. destruct (Hc i Hi) as [_ [->|[? _]]]; [|lia]. unfold rnat_known. by rewrite Hsp. }
  split_and!; try done; [|by auto].
  intros Hroom a i Hi. destruct (Z.eq_dec a c) as [->|Hne].
  - unfold rnat_known at 1. rewrite Hbound, Hl by done. destruct (Hc i Hi) as [-> _].
    unfold rnat_known. rewrite Hsp. cbn [over]. by destruct (shadow_known env c i), (load_known env c i).
  - unfold rnat_known. rewrite Hl. destruct (Ho a i Hi Hne) as [->|[? _]]; [|lia].
    assert (Es : spill_known s a i = None)
      by (unfold spill_known; rewrite Ha; by destruct (Z.eqb_spec c a)).
    rewrite Es. symmetry. apply over_assoc.
Qed.

(** ** AR.RNAT *)

Lemma spill_overlay_spec env c v d :
  rnat_ok env -> mask_ok v d ->
  let '(v', d') := spill_overlay env c v d in
  mask_ok v' d' /\ forall i, 0 <= i < 63 -> known v' d' i = over (known v d i) (spill_known env c i).
Proof.
  intros Hok Hm. unfold spill_overlay, spill_known. destruct (_ =? c); [|done]. cbv zeta.
  rewrite uint63_land_id by apply Hok. split; [by apply overlay_mask_ok; [|apply Hok]|].
  intros i Hi. by apply overlay_known; lia.
Qed.

Lemma shadow_overlay_spec env c v d :
  rnat_ok env -> mask_ok v d ->
  let '(v', d') := ia64_rse_rnat_shadow_overlay env c v d in
  mask_ok v' d' /\ forall i, 0 <= i < 63 -> known v' d' i = over (known v d i) (shadow_known env c i).
Proof.
  intros Hok Hm. unfold ia64_rse_rnat_shadow_overlay, shadow_known. cbv zeta.
  destruct (rn_table _ Hok) as [Hs He].
  destruct (Z.leb_spec 0 (ia64_rse_rnat_shadow_lookup env c)); [|done].
  destruct (lookup_spec env c Hs) as [[? _]|[Hr _]]; [lia|]. destruct (He _ Hr) as (Hme & _).
  rewrite uint63_land_id by apply Hme. split; [by apply overlay_mask_ok|].
  intros i Hi. by apply overlay_known; lia.
Qed.

Lemma compose_spec env :
  rnat_ok env ->
  let '(v, d) := ia64_rse_compose_rnat env in
  mask_ok v d /\ forall i, 0 <= i < 63 -> known v d i =
    if (rse_rnat_addr (rse env) =? UINT64_MAX) && negb (rse_load_rnat_valid (rse env)) then None
    else rnat_known env (ia64_rse_collect_word (ar_bspstore env)) i.
Proof.
  intros Hok. unfold ia64_rse_compose_rnat. cbv zeta.
  destruct (_ && negb _); [split; [apply mask_ok_0|intros; apply mask_ok_0_known]|].
  set (c := ia64_rse_collect_word (ar_bspstore env)).
  pose proof (load_part_spec env c Hok) as H1. destruct (if _ && _ then _ else _) as [v1 d1].
  destruct H1 as [Hm1 H1].
  pose proof (shadow_overlay_spec env c v1 d1 Hok Hm1) as H2.
  destruct (ia64_rse_rnat_shadow_overlay env c v1 d1) as [v2 d2]. destruct H2 as [Hm2 H2].
  pose proof (spill_overlay_spec env c v2 d2 Hok Hm2) as H3.
  destruct (spill_overlay env c v2 d2) as [v3 d3]. destruct H3 as [Hm3 H3].
  rewrite (uint63_land_id d3) by apply Hm3. rewrite (mask_ok_land_id v3 d3) by done.
  rewrite (uint63_land_id v3) by apply Hm3.
  split; [done|]. intros i Hi. by rewrite H3, H2, H1.
Qed.

(** The store pointer is not part of the collections' state. *)
Lemma set_bspstore_spec env b :
  rnat_ok env ->
  let s := env <| ar @ IA64_AR_BSPSTORE := b |> in
  rnat_ok s /\ ar_bspstore s = b /\
  rnat_erase s = (rnat_erase env) <| ar @ IA64_AR_BSPSTORE := b |> /\
  (forall a i, load_known s a i = load_known env a i /\ shadow_known s a i = shadow_known env a i /\
    spill_known s a i = spill_known env a i).
Proof.
  intros Hok s. assert (Hr : ar_rnat s = ar_rnat env) by (unfold ar_rnat; cbn; by rewrite aget_aset_ne).
  split_and!.
  - destruct Hok as [Hl Ht ? ? ? ? ? ? ?].
    split; rewrite ?Hr; try done; [cbn; by rewrite aset_length|by apply (table_ok_ext env)].
  - unfold ar_bspstore. cbn. apply aget_aset_eq. by rewrite (rn_ar _ Hok).
  - change (rnat_erase s)
      with (env <| ar := aset (aset (ar env) IA64_AR_BSPSTORE b) IA64_AR_RNAT 0 |> <| rse ::= rse_erase |>).
    rewrite aset_comm by done. done.
  - intros a i. split_and!; try done. unfold spill_known. by rewrite Hr.
Qed.

(** The spill latch restricted to the bits up to a position of its collection. *)
Definition clip_spill (env : CPUIA64State) (c keep : Z) : CPUIA64State :=
  if rse_rnat_addr (rse env) =? c
  then set_spill env (ar_rnat env .& (rse_rnat_defined (rse env) .& keep)) (rse_rnat_addr (rse env))
         (rse_rnat_defined (rse env) .& keep)
  else env.

Lemma clip_spill_spec env c keep :
  rnat_ok env ->
  let s := clip_spill env c keep in
  rnat_ok s /\ rnat_erase s = rnat_erase env /\
  (forall a i, load_known s a i = load_known env a i /\ shadow_known s a i = shadow_known env a i) /\
  (forall a i, 0 <= i -> spill_known s a i =
     if a =? c then if Z.testbit keep i then spill_known env a i else None else spill_known env a i).
Proof.
  intros Hok. unfold clip_spill.
  destruct (Z.eqb_spec (rse_rnat_addr (rse env)) c) as [E|E].
  - split_and!; [|apply set_spill_erase|done|].
    + apply set_spill_ok; [by apply rnat_ok_rest| |apply Hok|].
      * apply mask_ok_keep, Hok.
      * pose proof (rn_spill_addr _ Hok) as Ha. case_match; [|done]. by rewrite Ha.
    + intros a i Hi. destruct (set_spill_known env (ar_rnat env .& (rse_rnat_defined (rse env) .& keep))
        (rse_rnat_addr (rse env)) (rse_rnat_defined (rse env) .& keep) a i (rn_ar _ Hok)) as (-> & _ & _).
      unfold spill_known. rewrite E, (Z.eqb_sym c). destruct (a =? c); [|done]. by apply known_keep.
  - split_and!; [done|done|done|]. intros a i Hi. unfold spill_known.
    destruct (Z.eqb_spec a c) as [->|]; [|done].
    destruct (Z.eqb_spec (rse_rnat_addr (rse env)) c); [done|]. by case_match.
Qed.

Lemma move_bspstore_eq env b :
  ia64_rse_rnat_move_bspstore env b =
  let c := ia64_rse_collect_word b in
  let keep := ia64_rse_rnat_low_mask (ia64_rse_collect_bit b) in
  (ia64_rse_rnat_shadow_clip (clip_spill env c keep) c keep) <| ar @ IA64_AR_BSPSTORE := b |>.
Proof.
  unfold ia64_rse_rnat_move_bspstore, clip_spill. cbv zeta. do 2 f_equal.
Qed.

(** Partition movement within the stack: of the collection that the pointer
    now addresses, only the bits up to the pointer stay. *)
Lemma move_bspstore_spec env b :
  rnat_ok env -> uint 64 b ->
  let s := ia64_rse_rnat_move_bspstore env b in
  let cut a i := (a =? ia64_rse_collect_word b) && (ia64_rse_collect_bit b <? i) in
  rnat_ok s /\ ar_bspstore s = b /\
  rnat_erase s = (rnat_erase env) <| ar @ IA64_AR_BSPSTORE := b |> /\
  (forall a i, load_known s a i = load_known env a i) /\
  (forall a i, 0 <= i < 63 ->
    shadow_known s a i = (if cut a i then None else shadow_known env a i) /\
    spill_known s a i = if cut a i then None else spill_known env a i).
Proof.
  intros Hok Hu s cut. subst s. rewrite move_bspstore_eq. cbv zeta.
  set (c := ia64_rse_collect_word b) in *. set (keep := ia64_rse_rnat_low_mask _).
  pose proof (collect_bit_range b) as Hbit.
  assert (Hkeep : forall i, 0 <= i < 63 -> Z.testbit keep i = negb (ia64_rse_collect_bit b <? i)).
  { intros i Hi. unfold keep. rewrite low_mask_spec by lia. zcmp; done. }
  destruct (clip_spill_spec env c keep Hok) as (Hok1 & Her1 & Hlk1 & Hsp1).
  set (e1 := clip_spill env c keep) in *. clearbody e1.
  destruct (clip_spec e1 c keep (rn_table _ Hok1)) as [Hst Hk].
  pose proof (table_step_rnat_ok _ _ Hok1 Hst) as Hok2.
  set (e2 := ia64_rse_rnat_shadow_clip e1 c keep) in *. clearbody e2.
  destruct (set_bspstore_spec e2 b Hok2) as (Hok3 & Hb & Her3 & Hk3).
  split_and!; [done|done| | |].
  - rewrite Her3, (table_step_erase _ _ Hst), Her1. done.
  - intros a i. destruct (Hk3 a i) as (-> & _ & _). rewrite (table_step_load _ _ a i Hst). apply Hlk1.
  - intros a i Hi. destruct (Hk3 a i) as (_ & -> & ->). destruct (Hlk1 a i) as [_ E].
    rewrite Hk, E, (table_step_spill _ _ a i Hst), Hsp1, Hkeep by (done || lia). unfold cut.
    by destruct (a =? c), (ia64_rse_collect_bit b <? i).
Qed.

Lemma move_bspstore_latches env b :
  rnat_ok env ->
  let s := ia64_rse_rnat_move_bspstore env b in
  rse_rnat_addr (rse s) = rse_rnat_addr (rse env) /\ forall a, latch_at s a = latch_at env a.
Proof.
  intros Hok s. subst s. rewrite move_bspstore_eq. cbv zeta.
  set (c := ia64_rse_collect_word b). set (keep := ia64_rse_rnat_low_mask _).
  destruct (clip_spill_spec env c keep Hok) as (Hok1 & _).
  destruct (clip_spec (clip_spill env c keep) c keep (rn_table _ Hok1)) as [Hst _]. split.
  - destruct Hst as [-> _ _]. unfold clip_spill. by destruct (_ =? c).
  - intros a. change (latch_at (ia64_rse_rnat_shadow_clip (clip_spill env c keep) c keep) a = latch_at env a).
    rewrite (table_step_latch _ _ a Hst). unfold clip_spill. by destruct (_ =? c).
Qed.

(** ** The consistency check *)

Lemma mask_bits x : 0 <= x -> (forall i, 0 <= i -> Z.testbit x i = true -> i < 63) -> uint 63 x.
Proof.
  intros Hx Hb. apply bits_uint; [lia|]. intros i Hi.
  destruct (Z.testbit x i) eqn:E; [|done]. apply Hb in E; lia.
Qed.

Lemma mask_check_spec v d : uint 64 v -> uint 64 d -> mask_check v d = true <-> mask_ok v d.
Proof.
  intros Hv Hd. unfold mask_check. rewrite andb_true_iff, !Z.eqb_eq. split.
  - intros [H1 H2].
    assert (Hb : forall i, 0 <= i -> Z.testbit v i = true \/ Z.testbit d i = true -> i < 63).
    { intros i Hi Hor. destruct (Z.lt_ge_cases i 63); [done|].
      destruct (Z.lt_ge_cases i 64); [|rewrite !(uint_bits 64) in Hor by (done || lia); by destruct Hor].
      apply (f_equal (fun x => Z.testbit x i)) in H1. rewrite Z.testbit_0_l, Z.land_spec, wnot_spec in H1 by lia.
      rewrite INT64_MAX_ones, ones_spec, Z.lor_spec in H1 by lia.
      destruct (Z.ltb_spec i 64), (Z.ltb_spec i 63); try lia. rewrite andb_true_r in H1.
      apply orb_false_iff in H1 as [E1 E2]. rewrite E1, E2 in Hor. by destruct Hor. }
    split.
    + apply (mask_bits v); [apply Hv|]. intros i Hi E. by apply Hb; [|left].
    + apply (mask_bits d); [apply Hd|]. intros i Hi E. by apply Hb; [|right].
    + intros i Hi E. specialize (Hb i Hi (or_introl E)).
      apply (f_equal (fun x => Z.testbit x i)) in H2. rewrite Z.testbit_0_l, Z.land_spec, wnot_spec, E in H2 by lia.
      destruct (Z.ltb_spec i 64); [|lia]. by destruct (Z.testbit d i).
  - intros [Hv' Hd' Hs]. rewrite INT64_MAX_ones. split.
    + assert (uint 63 (v .| d)) by by apply uint_lor. zbits.
    + apply Z.bits_inj'. intros i Hi. rewrite Z.testbit_0_l, Z.land_spec, wnot_spec by lia.
      specialize (Hs i Hi). destruct (Z.testbit v i); [|done]. rewrite Hs by done.
      by rewrite andb_false_r.
Qed.

(** The declared widths of the fields. *)
Record rnat_typed (env : CPUIA64State) : Prop := {
  ty_ar : length (ar env) = 128%nat;
  ty_rnat : uint 64 (ar_rnat env) /\ uint 64 (rse_rnat_defined (rse env)) /\
            uint 64 (rse_rnat_addr (rse env));
  ty_load : uint 64 (rse_load_rnat (rse env)) /\ uint 64 (rse_load_rnat_defined (rse env)) /\
            uint 64 (rse_load_rnat_addr (rse env));
  ty_image : uint 64 (rnat_value (rse_writeback_rnat (rse env))) /\
             uint 64 (rnat_defined (rse_writeback_rnat (rse env))) /\
             uint 64 (rnat_addr (rse_writeback_rnat (rse env)));
  ty_len : length (shadow env) = 96%nat;
  ty_count : 0 <= count env;
  ty_last : 0 <= rse_rnat_shadow_last (rse env) <= 96;
  ty_entry : forall i, 0 <= i < 96 ->
    uint 64 (rnat_value (aget (shadow env) i)) /\ uint 64 (rnat_defined (aget (shadow env) i)) /\
    uint 64 (rnat_addr (aget (shadow env) i))
}.

Lemma empty_rnat_eq e :
  negb (rnat_valid e) && (rnat_value e =? 0) && (rnat_addr e =? 0) && (rnat_defined e =? 0) = true <->
  e = empty_rnat.
Proof.
  rewrite !andb_true_iff, negb_true_iff, !Z.eqb_eq. destruct e as [v a d b]. cbn. split.
  - by intros [[[-> ->] ->] ->].
  - by intros [= -> -> -> ->].
Qed.

Lemma shadow_check_spec env i :
  rnat_typed env -> count env <= 96 -> 0 <= i < 96 ->
  shadow_check (rse env) i = true <->
  if count env <=? i then aget (shadow env) i = empty_rnat
  else rnat_valid (aget (shadow env) i) = true /\ entry_ok (aget (shadow env) i) /\
       forall j, i < j < count env -> rnat_valid (aget (shadow env) j) = true ->
         rnat_addr (aget (shadow env) j) <> rnat_addr (aget (shadow env) i).
Proof.
  intros Hty Hc Hi. unfold shadow_check. cbv zeta. destruct (ty_entry _ Hty i Hi) as (Hv & Hd & Ha).
  destruct (Z.leb_spec (count env) i); [apply empty_rnat_eq|].
  change IA64_RSE_RNAT_SHADOW_COUNT with 96. rewrite (Z.min_l (count env)) by lia.
  rewrite !andb_true_iff, mask_check_spec, negb_true_iff, Z.eqb_neq, Z.eqb_eq, forallb_forall by done.
  assert (Hin : forall j, In j (seqZ (i + 1) (count env - (i + 1))) <-> i < j < count env).
  { intros j. rewrite <- list_elem_of_In, elem_of_seqZ. lia. }
  split.
  - intros ((((Hval & Hm) & Hne) & Hcw) & Hall). split_and!; [done|done|].
    intros j Hj Hvj E. specialize (Hall j (proj2 (Hin j) Hj)). rewrite Hvj, E, Z.eqb_refl in Hall. done.
  - intros (Hval & (Hm & Hne & _ & Hcw) & Hall). split_and!; try done. intros j Hj%Hin.
    apply negb_true_iff, andb_false_iff. destruct (rnat_valid (aget (shadow env) j)) eqn:E; [|by left].
    right. apply Z.eqb_neq. by apply Hall.
Qed.

Lemma table_check_spec env :
  rnat_typed env ->
  (count env <=? 96) && forallb (shadow_check (rse env)) (seqZ 0 96) = true <-> table_ok env.
Proof.
  intros Hty. rewrite andb_true_iff, Z.leb_le, forallb_forall.
  assert (Hin : forall j, In j (seqZ 0 96) <-> 0 <= j < 96).
  { intros j. rewrite <- list_elem_of_In, elem_of_seqZ. lia. }
  pose proof (ty_count _ Hty). split.
  - intros [Hc Hall].
    assert (Hi : forall i, 0 <= i < 96 -> _) by (intros i Hi;
      exact (proj1 (shadow_check_spec env i Hty Hc Hi) (Hall i (proj2 (Hin i) Hi)))).
    split.
    + split; try apply Hty; [done| | |].
      * intros i Hr. specialize (Hi i ltac:(lia)). destruct (Z.leb_spec (count env) i); [lia|]. apply Hi.
      * intros i Hr. specialize (Hi i ltac:(lia)). by destruct (Z.leb_spec (count env) i); [|lia].
      * assert (Hlt : forall i j, 0 <= i < j -> j < count env ->
          rnat_addr (aget (shadow env) j) <> rnat_addr (aget (shadow env) i)).
        { intros i j Hij Hj. pose proof (Hi i ltac:(lia)) as Hi'. pose proof (Hi j ltac:(lia)) as Hj'.
          destruct (Z.leb_spec (count env) i), (Z.leb_spec (count env) j); try lia.
          apply Hi'; [lia|apply Hj']. }
        intros i j Hri Hrj E. destruct (Z.lt_total i j) as [H1|[H1|H1]]; [|done|].
        -- by destruct (Hlt i j ltac:(lia) ltac:(lia)).
        -- by destruct (Hlt j i ltac:(lia) ltac:(lia)).
    + intros i Hr. specialize (Hi i ltac:(lia)). destruct (Z.leb_spec (count env) i); [lia|]. apply Hi.
  - intros [Hs He]. destruct (sh_count _ Hs). split; [done|]. intros i Hi%Hin.
    apply shadow_check_spec; [done..|]. destruct (Z.leb_spec (count env) i).
    + apply (sh_empty _ Hs). lia.
    + split_and!; [apply (sh_valid _ Hs); lia|apply He; lia|]. intros j Hj _ E.
      apply (sh_inj _ Hs) in E; lia.
Qed.

(** The check accepts exactly the states that satisfy the invariant. *)
Lemma rnat_check_spec env : rnat_typed env -> rnat_check env = true <-> rnat_ok env.
Proof.
  intros Hty. unfold rnat_check. cbv zeta. change IA64_RSE_RNAT_SHADOW_COUNT with 96.
  destruct (ty_rnat _ Hty) as (? & ? & ?), (ty_load _ Hty) as (? & ? & ?), (ty_image _ Hty) as (? & ? & ?).
  pose proof (table_check_spec env Hty) as Htab. rewrite andb_true_iff in Htab.
  rewrite !andb_true_iff, !mask_check_spec by done.
  split.
  - intros (((((((C1 & C2) & C3) & C4) & C5) & C6) & C7) & C8). assert (table_ok env) by by apply Htab.
    split; try done; [apply Hty|..].
    + destruct (_ =? UINT64_MAX); by apply Z.eqb_eq.
    + destruct (rse_load_rnat_valid (rse env)); [by apply Z.eqb_eq|].
      apply andb_true_iff in C4 as [[? ?]%andb_true_iff ?]. by rewrite <- !Z.eqb_eq.
    + split_and!; [done|done|]. destruct (rnat_valid _).
      * apply andb_true_iff in C6 as [?%negb_true_iff ?]. by rewrite <- Z.eqb_neq, <- Z.eqb_eq.
      * apply andb_true_iff in C6 as [[? ?]%andb_true_iff ?]. by rewrite <- !Z.eqb_eq.
  - intros [_ Ht Hs _ Hsa Hl _ Hla (Him & _ & Hia)]. apply Htab in Ht as [Hc Hall].
    split_and!; try done.
    + destruct (_ =? UINT64_MAX); by apply Z.eqb_eq.
    + destruct (rse_load_rnat_valid (rse env)); [by apply Z.eqb_eq|].
      rewrite !andb_true_iff, !Z.eqb_eq. tauto.
    + destruct (rnat_valid _).
      * rewrite andb_true_iff, negb_true_iff, Z.eqb_neq, Z.eqb_eq. done.
      * rewrite !andb_true_iff, !Z.eqb_eq. tauto.
Qed.

(** Two numbers of the same width with the same bits. *)
Lemma uint_eq_bits w x y :
  0 <= w -> uint w x -> uint w y ->
  (forall i, 0 <= i < w -> Z.testbit x i = Z.testbit y i) -> x = y.
Proof.
  intros Hw Hx Hy H. apply Z.bits_inj'. intros i Hi. destruct (Z.lt_ge_cases i w); [by apply H|].
  by rewrite !(uint_bits w) by done.
Qed.

(** ** Reading and writing AR.RNAT *)

(** Forgetting the fill latch if it stands for collection [c]. *)
Definition drop_load (env : CPUIA64State) (c : Z) : CPUIA64State :=
  if rse_load_rnat_valid (rse env) && (rse_load_rnat_addr (rse env) =? c)
  then ia64_rse_invalidate_load_rnat env else env.

Lemma invalidate_load_rest env : rnat_rest env -> rnat_rest (ia64_rse_invalidate_load_rnat env).
Proof.
  intros []. split; try done; first [by apply (table_ok_ext env)|apply mask_ok_0].
Qed.

Lemma drop_load_rest env c : rnat_rest env -> rnat_rest (drop_load env c).
Proof. intros. unfold drop_load. case_match; [by apply invalidate_load_rest|done]. Qed.

Lemma drop_load_known env c a i :
  load_known (drop_load env c) a i = (if a =? c then None else load_known env a i) /\
  shadow_known (drop_load env c) a i = shadow_known env a i.
Proof.
  unfold drop_load, load_known. destruct (rse_load_rnat_valid (rse env)) eqn:Hv; cbn [andb].
  - rewrite (Z.eqb_sym a). destruct (Z.eqb_spec (rse_load_rnat_addr (rse env)) c) as [E|E].
    + cbn. rewrite E. by destruct (c =? a).
    + rewrite Hv. cbn [andb]. destruct (Z.eqb_spec c a) as [<-|]; [|done].
      destruct (Z.eqb_spec (rse_load_rnat_addr (rse env)) c); done.
  - rewrite Hv. by destruct (a =? c).
Qed.

Lemma drop_load_erase env c :
  rnat_erase (drop_load env c) = rnat_erase env /\ ar (drop_load env c) = ar env /\
  rse_rnat_addr (rse (drop_load env c)) = rse_rnat_addr (rse env) /\
  rse_rnat_defined (rse (drop_load env c)) = rse_rnat_defined (rse env) /\
  count (drop_load env c) = count env.
Proof. unfold drop_load. by destruct (_ && _). Qed.

Lemma image_ok_empty : image_ok empty_rnat.
Proof. split_and!; [apply mask_ok_0|change (uint 64 0); uint_const|done]. Qed.

(** The latch's former bits go to the table, unless the new collection is the
    same; the table forgets the new collection. *)
Lemma reload_table env c :
  rnat_rest env -> uint 64 (rse_rnat_addr (rse env)) ->
  (if rse_rnat_addr (rse env) =? UINT64_MAX then rse_rnat_defined (rse env) .& INT64_MAX = 0
   else ia64_rse_collect_word (rse_rnat_addr (rse env)) = rse_rnat_addr (rse env)) ->
  let s := ia64_rse_rnat_shadow_remove
             (if negb (rse_rnat_addr (rse env) =? c) then ia64_rse_rnat_shadow_stash env else env) c in
  table_step env s /\
  (forall i, shadow_known s c i = None) /\
  (count env < 96 -> forall a i, 0 <= i < 63 -> a <> c -> shadow_known s a i =
     over (shadow_known env a i) (spill_known env a i)).
Proof.
  intros Hrest Hu Ha s.
  assert (H1 : table_step env (if negb (rse_rnat_addr (rse env) =? c) then ia64_rse_rnat_shadow_stash env else env)
    /\ (count env < 96 -> forall a i, 0 <= i < 63 -> a <> c ->
        shadow_known (if negb (rse_rnat_addr (rse env) =? c) then ia64_rse_rnat_shadow_stash env else env) a i =
        over (shadow_known env a i) (spill_known env a i))).
  { destruct (Z.eqb_spec (rse_rnat_addr (rse env)) c) as [E|E]; cbn [negb].
    - split; [apply table_step_refl, Hrest|]. intros _ a i Hi Hne. unfold spill_known.
      destruct (Z.eqb_spec (rse_rnat_addr (rse env)) a); [congruence|done].
    - destruct (merge_spec env (rse_rnat_addr (rse env)) (ar_rnat env) (rse_rnat_defined (rse env)) true
        (rr_table _ Hrest) Hu Ha) as [Hst Hk].
      split; [exact Hst|]. intros Hroom a i Hi Hne. unfold ia64_rse_rnat_shadow_stash.
      rewrite Hk by done. unfold spill_known, merged.
      rewrite (Z.eqb_sym a). by destruct (_ =? a). }
  destruct H1 as [Hst1 Hk1]. destruct (remove_spec _ c (table_step_ok _ _ Hst1)) as [Hst2 Hk2].
  split_and!; [by eapply table_step_trans| |].
  - intros i. unfold s. rewrite Hk2. by rewrite Z.eqb_refl.
  - intros Hroom a i Hi Hne. unfold s. rewrite Hk2. destruct (Z.eqb_spec a c); [done|]. by apply Hk1.
Qed.

(** Overwriting AR.RNAT without its bookkeeping. *)
Lemma overwrite_rnat_spec env w :
  rnat_ok env ->
  let s := ia64_rse_rnat_writeback_clear (env <| ar @ IA64_AR_RNAT := w |>) in
  rnat_rest s /\ ar_bspstore s = ar_bspstore env /\ ar_rnat s = w /\
  rnat_erase s = rnat_erase env.
Proof.
  intros Hok%rnat_ok_rest s. pose proof (rr_ar _ Hok) as Hl. split_and!.
  - destruct Hok. split; try done; first [by apply (table_ok_ext env)|apply image_ok_empty|cbn; by rewrite aset_length].
  - unfold ar_bspstore, s. cbn. by rewrite aget_aset_ne.
  - unfold ar_rnat, s. cbn. apply aget_aset_eq. by rewrite Hl.
  - change (rnat_erase s)
      with (env <| ar := aset (aset (ar env) IA64_AR_RNAT w) IA64_AR_RNAT 0 |> <| rse ::= rse_erase |>).
    by rewrite aset_aset.
Qed.

Lemma low_bits_known w bit i :
  0 <= bit < 64 -> 0 <= i < 63 ->
  known (w .& ia64_rse_rnat_low_mask bit) (ia64_rse_rnat_low_mask bit) i =
  if i <=? bit then Some (Z.testbit w i) else None.
Proof.
  intros Hb Hi. rewrite known_land_self by lia. unfold known. rewrite low_mask_spec by lia.
  destruct (Z.ltb_spec i 63); [|lia]. rewrite andb_true_r. done.
Qed.

Lemma set_spill_masked s c low :
  (s <| rse; rse_rnat_addr := c |> <| rse; rse_rnat_defined := low |>)
    <| ar @ IA64_AR_RNAT := ar_rnat (s <| rse; rse_rnat_addr := c |> <| rse; rse_rnat_defined := low |>) .&
         rse_rnat_defined (rse (s <| rse; rse_rnat_addr := c |> <| rse; rse_rnat_defined := low |>)) |> =
  set_spill s (ar_rnat s .& low) c low.
Proof. reflexivity. Qed.

Lemma reloaded_eq env :
  let c := ia64_rse_collect_word (ar_bspstore env) in
  let low := ia64_rse_rnat_low_mask (ia64_rse_collect_bit (ar_bspstore env)) in
  let e := drop_load (ia64_rse_rnat_writeback_clear env) c in
  let s := ia64_rse_rnat_shadow_remove
             (if negb (rse_rnat_addr (rse e) =? c) then ia64_rse_rnat_shadow_stash e else e) c in
  ia64_rse_rnat_reloaded env = set_spill s (ar_rnat s .& low) c low.
Proof.
  cbv zeta. rewrite <- set_spill_masked. reflexivity.
Qed.

(** The value goes to the collection of the store pointer; the latch's former
    bits are suspended under their own address, with the values that AR.RNAT
    holds by then. *)
Lemma write_rnat_spec env v :
  rnat_ok env -> uint 64 (ar_bspstore env) ->
  let s := write_ar_rnat env v in
  let c := ia64_rse_collect_word (ar_bspstore env) in
  let bit := ia64_rse_collect_bit (ar_bspstore env) in
  rnat_ok s /\ rnat_erase s = rnat_erase env /\ rse_rnat_addr (rse s) = c /\
  (forall i, 0 <= i < 63 -> rnat_known s c i = if i <=? bit then Some (Z.testbit v i) else None) /\
  (count env < 96 -> forall a i, 0 <= i < 63 -> a <> c -> rnat_known s a i =
    over (over (load_known env a i) (shadow_known env a i))
      (if rse_rnat_addr (rse env) =? a then known v (rse_rnat_defined (rse env)) i else None)).
Proof.
  intros Hok Hub s c bit. pose proof (collect_bit_range (ar_bspstore env)) as Hbit. fold bit in Hbit.
  destruct (overwrite_rnat_spec env (v .& INT64_MAX) Hok) as (Hrest0 & Hb0 & Hw0 & Her0).
  set (e0 := ia64_rse_rnat_writeback_clear _) in *.
  pose proof (drop_load_rest e0 c Hrest0) as Hrest1.
  destruct (drop_load_erase e0 c) as (Her1 & Har1 & Ha1 & Hd1 & Hc1).
  destruct (reload_table (drop_load e0 c) c Hrest1) as (Hst & Hkc & Hk).
  { rewrite Ha1. apply Hok. }
  { rewrite Ha1, Hd1. pose proof (rn_spill_addr _ Hok) as Ha.
    change (rse_rnat_addr (rse e0)) with (rse_rnat_addr (rse env)).
    change (rse_rnat_defined (rse e0)) with (rse_rnat_defined (rse env)). case_match; [by rewrite Ha|done]. }
  set (e2 := ia64_rse_rnat_shadow_remove _ c) in *.
  pose proof (table_step_rest _ _ Hrest1 Hst) as Hrest2.
  assert (Hw2 : ar_rnat e2 = v .& INT64_MAX).
  { unfold ar_rnat. rewrite (ts_frame _ _ Hst). cbn [ar upd]. by rewrite Har1. }
  assert (Es : s = set_spill e2 ((v .& INT64_MAX) .& ia64_rse_rnat_low_mask bit) c (ia64_rse_rnat_low_mask bit)).
  { rewrite <- Hw2. unfold s, write_ar_rnat. rewrite reloaded_eq. cbv zeta. fold e0.
    change (ar_bspstore (env <| ar @ IA64_AR_RNAT := v .& INT64_MAX |>)) with (ar_bspstore e0).
    rewrite Hb0. fold c bit e2. reflexivity. }
  clearbody s e2. subst s. clear Hrest0 Hb0.
  assert (Hlk : forall a i, load_known e2 a i = if a =? c then None else load_known env a i).
  { intros a i. rewrite (table_step_load _ _ a i Hst). by destruct (drop_load_known e0 c a i) as [-> _]. }
  assert (Hkn : forall a i, _) by (intros a i; exact (set_spill_known e2
    ((v .& INT64_MAX) .& ia64_rse_rnat_low_mask bit) c (ia64_rse_rnat_low_mask bit) a i (rr_ar _ Hrest2))).
  split_and!.
  - apply set_spill_ok; [done|apply mask_ok_land, uint_low_mask; lia|by apply uint_collect_word|].
    destruct (Z.eqb_spec c UINT64_MAX) as [E|]; [by apply collect_word_not_max in E|by apply collect_word_idem].
  - by rewrite set_spill_erase, (table_step_erase _ _ Hst), Her1.
  - done.
  - intros i Hi. unfold rnat_known. destruct (Hkn c i) as (-> & -> & ->).
    rewrite Hlk, Hkc, Z.eqb_refl, low_bits_known, land_INT64_MAX by lia. by case_match.
  - intros Hroom a i Hi Hne. unfold rnat_known. destruct (Hkn a i) as (-> & -> & ->).
    rewrite Hlk, Hk by (done || by rewrite Hc1). destruct (drop_load_known e0 c a i) as [_ ->].
    destruct (Z.eqb_spec a c), (Z.eqb_spec c a); try congruence. cbn [over].
    unfold spill_known. rewrite Ha1, Hd1. unfold ar_rnat. rewrite Har1. fold (ar_rnat e0). rewrite Hw0.
    change (rse_rnat_addr (rse e0)) with (rse_rnat_addr (rse env)).
    change (rse_rnat_defined (rse e0)) with (rse_rnat_defined (rse env)).
    destruct (_ =? a); rewrite ?over_assoc; [|done]. unfold known at 1. by rewrite land_INT64_MAX.
Qed.

(** What a read of AR.RNAT shows. *)
Lemma read_rnat_spec env :
  rnat_ok env -> rse_rnat_addr (rse env) <> UINT64_MAX ->
  let c := ia64_rse_collect_word (ar_bspstore env) in
  let bit := ia64_rse_collect_bit (ar_bspstore env) in
  uint 63 (ia64_rse_read_rnat env) /\ uint 63 (ia64_rse_read_rnat_defined env) /\
  forall i, 0 <= i < 63 ->
    known (ia64_rse_read_rnat env) (ia64_rse_read_rnat_defined env) i =
      (if i <=? bit then rnat_known env c i else None) /\
    (Z.testbit (ia64_rse_read_rnat_defined env) i = false ->
     Z.testbit (ia64_rse_read_rnat env) i = false).
Proof.
  intros Hok Hne c bit. pose proof (collect_bit_range (ar_bspstore env)) as Hbit. fold bit in Hbit.
  unfold ia64_rse_read_rnat, ia64_rse_read_rnat_defined. cbv zeta. fold bit.
  pose proof (compose_spec env Hok) as H. destruct (ia64_rse_compose_rnat env) as [v d].
  destruct H as [Hm Hk]. pose proof (uint_low_mask bit ltac:(lia)) as Hlow.
  split_and!; [by apply uint_land_r|by apply uint_land_r|]. intros i Hi. specialize (Hk i Hi).
  destruct (Z.eqb_spec (rse_rnat_addr (rse env)) UINT64_MAX); [done|]. cbn [andb] in Hk. fold c in Hk.
  rewrite <- Hk. unfold known. rewrite !Z.land_spec, low_mask_spec by lia.
  destruct (Z.ltb_spec i 63); [|lia]. rewrite andb_true_r.
  destruct (i <=? bit), (Z.testbit d i), (Z.testbit v i); done.
Qed.

(** ** The table against its specification

    The operations of the table, and what each means for a partial function
    from collections and bit positions. *)
Inductive table_op : Type :=
  | op_merge (addr value defined : Z) (incoming_newer : bool)
  | op_take (addr : Z)
  | op_remove (addr : Z)
  | op_clip (addr keep : Z)
  | op_retain (first last : Z).

Definition table_run1 (env : CPUIA64State) (op : table_op) : CPUIA64State :=
  match op with
  | op_merge addr value defined newer => ia64_rse_rnat_shadow_merge env addr value defined newer
  | op_take addr => snd (ia64_rse_rnat_shadow_take env addr)
  | op_remove addr => ia64_rse_rnat_shadow_remove env addr
  | op_clip addr keep => ia64_rse_rnat_shadow_clip env addr keep
  | op_retain first last => ia64_rse_rnat_shadow_retain_range env first last
  end.

Definition table_spec1 (f : Z -> Z -> option bool) (op : table_op) : Z -> Z -> option bool :=
  fun a i =>
  match op with
  | op_merge addr value defined newer =>
      if a =? addr then
        if newer then over (f a i) (known value defined i) else over (known value defined i) (f a i)
      else f a i
  | op_take addr | op_remove addr => if a =? addr then None else f a i
  | op_clip addr keep => if a =? addr then if Z.testbit keep i then f a i else None else f a i
  | op_retain first last => if Z.testbit (retain_mask a first last) i then f a i else None
  end.

Definition table_op_ok (op : table_op) : Prop :=
  match op with
  | op_merge addr _ _ _ => uint 64 addr /\ ia64_rse_collect_word addr = addr
  | _ => True
  end.

(** No merge meets a full table. *)
Fixpoint table_fits (env : CPUIA64State) (ops : list table_op) : bool :=
  match ops with
  | [] => true
  | op :: ops =>
      match op with op_merge _ _ _ _ => count env <? 96 | _ => true end &&
      table_fits (table_run1 env op) ops
  end.

Lemma table_run1_spec env op :
  table_ok env -> table_op_ok op ->
  table_step env (table_run1 env op) /\
  (match op with op_merge _ _ _ _ => count env < 96 | _ => True end ->
   forall a i, 0 <= i < 63 ->
     shadow_known (table_run1 env op) a i = table_spec1 (shadow_known env) op a i).
Proof.
  intros Hok Hop. destruct op as [addr v d newer|addr|addr|addr keep|first last]; cbn [table_run1 table_spec1].
  - destruct Hop as [Hu Hcw]. apply merge_spec; [done|done|].
    destruct (Z.eqb_spec addr UINT64_MAX) as [E|]; [|done].
    destruct (collect_word_not_max addr Hu). by rewrite Hcw.
  - pose proof (take_spec env addr Hok) as H. destruct (ia64_rse_rnat_shadow_take env addr) as [r s].
    destruct H as (Hst & Hk & _). split; [done|]. intros _ a i _. apply Hk.
  - destruct (remove_spec env addr Hok) as [Hst Hk]. split; [done|]. intros _ a i _. apply Hk.
  - destruct (clip_spec env addr keep Hok) as [Hst Hk]. split; [done|]. intros _ a i Hi. by apply Hk.
  - destruct (retain_range_spec env first last Hok) as [Hst Hk]. split; [done|].
    intros _ a i Hi. apply Hk. lia.
Qed.

Lemma table_spec1_ext f g op :
  (forall a i, 0 <= i < 63 -> f a i = g a i) ->
  forall a i, 0 <= i < 63 -> table_spec1 f op a i = table_spec1 g op a i.
Proof. intros H a i Hi. unfold table_spec1. by rewrite H. Qed.

Lemma table_spec_ext ops : forall f g,
  (forall a i, 0 <= i < 63 -> f a i = g a i) ->
  forall a i, 0 <= i < 63 -> fold_left table_spec1 ops f a i = fold_left table_spec1 ops g a i.
Proof.
  induction ops as [|op ops IH]; intros f g H; cbn [fold_left]; [done|].
  apply IH. by apply table_spec1_ext.
Qed.

(** ** Properties *)

(** C23. As long as the table of suspended collections is not full, the spill
    latch moves from one NaT collection to another without losing or inventing a
    bit: what the latches and the table together know of any
    collection is the same before and after, and the latch then holds all that
    was known of the collection it is bound to. *)
Theorem rnat_bind_keeps_knowledge env c :
  rnat_ok env -> count env < 96 -> uint 64 c -> ia64_rse_collect_word c = c ->
  rse_rnat_addr (rse env) <> c ->
  let s := ia64_rse_rnat_bind env c in
  rnat_ok s /\ rse_rnat_addr (rse s) = c /\
  (forall a i, 0 <= i < 63 -> rnat_known s a i = rnat_known env a i) /\
  (forall i, 0 <= i < 63 -> known (ar_rnat s) (rse_rnat_defined (rse s)) i = rnat_known env c i).
Proof.
  intros Hok Hroom Hu Hcw Hne s.
  destruct (bind_spec env c Hok Hu Hcw) as (Hok' & Ha & _ & _ & Hk & Hsp).
  fold s in Hok', Ha, Hk, Hsp. split_and!; [done|done|by apply Hk|]. intros i Hi. rewrite <- Hsp by done.
  unfold spill_known. by rewrite Ha, Z.eqb_refl.
Qed.

(** A spill latch with bits 0 and 1 of the collection at 0x1f8 and a suspended
    bit 1 of the one at 0x3f8. *)
Definition rnat_example : CPUIA64State :=
  zero_env <| ar @ IA64_AR_RNAT := 2 |> <| rse; rse_rnat_addr := 0x1f8 |>
    <| rse; rse_rnat_defined := 3 |>
    <| rse; rse_rnat_shadow @ 0 := mkRnatShadowEntry 2 0x3f8 2 true |>
    <| rse; rse_rnat_shadow_count := 1 |>.

(** The declared widths of a concrete state, by evaluation. *)
Definition rnat_typedb (env : CPUIA64State) : bool :=
  let u x := (0 <=? x) && (x <? 2 ^ 64) in
  let ue e := u (rnat_value e) && u (rnat_defined e) && u (rnat_addr e) in
  (alen (ar env) =? 128) && u (ar_rnat env) && u (rse_rnat_defined (rse env)) &&
  u (rse_rnat_addr (rse env)) && u (rse_load_rnat (rse env)) && u (rse_load_rnat_defined (rse env)) &&
  u (rse_load_rnat_addr (rse env)) && ue (rse_writeback_rnat (rse env)) &&
  (alen (shadow env) =? 96) && (0 <=? count env) && (0 <=? rse_rnat_shadow_last (rse env)) &&
  (rse_rnat_shadow_last (rse env) <=? 96) && forallb ue (shadow env).

Lemma rnat_typedb_spec env : rnat_typedb env = true -> rnat_typed env.
Proof.
  unfold rnat_typedb. cbv zeta. rewrite !andb_true_iff, !Z.leb_le, !Z.ltb_lt, !Z.eqb_eq, forallb_forall.
  intros H. repeat match type of H with _ /\ _ => let H' := fresh in destruct H as [H H'] end.
  split; unfold uint; try (split_and!; tauto || lia); try lia.
  intros i Hi. pose proof (aget_elem (shadow env) i ltac:(lia)) as Hin%list_elem_of_In.
  match goal with Ha : forall e, In e _ -> _ |- _ => specialize (Ha _ Hin) end.
  rewrite !andb_true_iff, !Z.leb_le, !Z.ltb_lt in *. tauto.
Qed.

Lemma rnat_example_ok : rnat_ok rnat_example.
Proof. apply rnat_check_spec; [apply rnat_typedb_spec|]; vm_compute; reflexivity. Qed.

Lemma rnat_bind_keeps_knowledge_witness :
  rnat_known (ia64_rse_rnat_bind rnat_example 0x3f8) 0x1f8 1 = Some true /\
  ar_rnat (ia64_rse_rnat_bind rnat_example 0x3f8) = 2.
Proof.
  split; [|vm_compute; reflexivity].
  destruct (rnat_bind_keeps_knowledge rnat_example 0x3f8 rnat_example_ok) as (_ & _ & Hk & _).
  - vm_compute. reflexivity.
  - uint_const.
  - vm_compute. reflexivity.
  - vm_compute. discriminate.
  - rewrite Hk by lia. vm_compute. reflexivity.
Defined.

(** C28. Writing AR.RNAT and reading it back: the bits up to RNATBitIndex are the
    written ones, exactly these are defined, and what is known of the other
    collections stays, as long as the latch stood for the same collection or
    for none. *)
Theorem rnat_write_read env v :
  rnat_ok env -> count env < 96 -> uint 64 (ar_bspstore env) -> uint 64 v ->
  let s := write_ar_rnat env v in
  let c := ia64_rse_collect_word (ar_bspstore env) in
  let mask := ia64_rse_rnat_low_mask (ia64_rse_collect_bit (ar_bspstore env)) in
  rnat_ok s /\ rnat_erase s = rnat_erase env /\
  ia64_rse_read_rnat s = v .& mask /\ ia64_rse_read_rnat_defined s = mask /\
  (rse_rnat_addr (rse env) = c \/ rse_rnat_defined (rse env) = 0 ->
   forall a i, 0 <= i < 63 -> a <> c -> rnat_known s a i = rnat_known env a i).
Proof.
  intros Hok Hroom Hub Huv s c mask.
  pose proof (collect_bit_range (ar_bspstore env)) as Hbit.
  destruct (write_rnat_spec env v Hok Hub) as (Hok' & Her & Ha & Hkc & Hk).
  fold s in Hok', Her, Ha, Hkc, Hk. fold c in Ha, Hkc, Hk.
  assert (Hb : ar_bspstore s = ar_bspstore env) by by apply erase_bspstore.
  destruct (read_rnat_spec s Hok') as (Hu1 & Hu2 & Hr).
  { rewrite Ha. by apply collect_word_not_max. }
  rewrite Hb in Hr. fold c in Hr. pose proof (uint_low_mask _ (proj1 Hbit)) as Hum. fold mask in Hum.
  assert (Hbits : forall i, 0 <= i < 63 ->
    Z.testbit (ia64_rse_read_rnat_defined s) i = Z.testbit mask i /\
    Z.testbit (ia64_rse_read_rnat s) i = Z.testbit v i && Z.testbit mask i).
  { intros i Hi. destruct (Hr i Hi) as [H1 H2]. rewrite Hkc in H1 by done. unfold mask.
    rewrite low_mask_spec by lia. destruct (Z.ltb_spec i 63); [|lia]. rewrite andb_true_r.
    unfold known in H1. destruct (i <=? _), (Z.testbit (ia64_rse_read_rnat_defined s) i); try done.
    - split; [done|]. rewrite andb_true_r. congruence.
    - rewrite andb_false_r. auto. }
  split_and!; [done|done| | |].
  - apply (uint_eq_bits 63); [lia|done|by apply uint_land_r|]. intros i Hi.
    rewrite Z.land_spec. by apply Hbits.
  - apply (uint_eq_bits 63); [lia|done|done|]. intros i Hi. by apply Hbits.
  - intros Hcase a i Hi Hne. rewrite Hk by done. unfold rnat_known, spill_known.
    destruct (Z.eqb_spec (rse_rnat_addr (rse env)) a) as [E|]; [|done].
    destruct Hcase as [E'|E']; [congruence|]. by rewrite E', !mask_ok_0_known.
Qed.

Definition rnat_example_pos : CPUIA64State := rnat_example <| ar @ IA64_AR_BSPSTORE := 0x110 |>.

Lemma rnat_write_read_witness :
  ia64_rse_read_rnat (write_ar_rnat rnat_example_pos (2 ^ 40 + 5)) = 5.
Proof.
  destruct (rnat_write_read rnat_example_pos (2 ^ 40 + 5)) as (_ & _ & -> & _).
  - apply rnat_check_spec; [apply rnat_typedb_spec|]; vm_compute; reflexivity.
  - vm_compute. reflexivity.
  - uint_const.
  - uint_const.
  - vm_compute. reflexivity.
Defined.

(** C37. A write to AR.RNAT while the latch holds bits of another collection files
    the written bits under that collection's address: the register has been
    overwritten when the bookkeeping suspends the latch, so the other
    collection's bits become those of the new value. *)
Theorem rnat_write_misfiles_latch env v i :
  rnat_ok env -> count env < 96 -> uint 64 (ar_bspstore env) -> 0 <= i < 63 ->
  rse_rnat_addr (rse env) <> ia64_rse_collect_word (ar_bspstore env) ->
  Z.testbit (rse_rnat_defined (rse env)) i = true ->
  rnat_known (write_ar_rnat env v) (rse_rnat_addr (rse env)) i = Some (Z.testbit v i).
Proof.
  intros Hok Hroom Hub Hi Hne Hd.
  destruct (write_rnat_spec env v Hok Hub) as (_ & _ & _ & _ & Hk).
  rewrite Hk by done. rewrite Z.eqb_refl. unfold known. by rewrite Hd.
Qed.

Definition rnat_example_far : CPUIA64State := rnat_example <| ar @ IA64_AR_BSPSTORE := 0x310 |>.

(** Bit 1 of the collection at 0x1f8 is set before and clear after. *)
Lemma rnat_write_misfiles_latch_witness :
  rse_rnat_addr (rse rnat_example_far) = 0x1f8 /\ rnat_known rnat_example_far 0x1f8 1 = Some true /\
  rnat_known (write_ar_rnat rnat_example_far 0) (rse_rnat_addr (rse rnat_example_far)) 1 = Some false.
Proof.
  split; [vm_compute; reflexivity|]. split; [vm_compute; reflexivity|].
  rewrite (rnat_write_misfiles_latch rnat_example_far 0 1).
  - reflexivity.
  - apply rnat_check_spec; [apply rnat_typedb_spec|]; vm_compute; reflexivity.
  - vm_compute. reflexivity.
  - uint_const.
  - lia.
  - vm_compute. discriminate.
  - vm_compute. reflexivity.
Defined.

(** C24. The table of suspended collections, with its search hint, its compaction
    by moving the last entry and its in-place masks, implements a partial
    function from collection addresses and bit positions: any sequence of
    operations that does not meet a full table changes what it knows as the
    specification says, and every table stays well formed. *)
Theorem table_refines_partial_map env ops :
  table_ok env -> Forall table_op_ok ops -> table_fits env ops = true ->
  table_ok (fold_left table_run1 ops env) /\
  forall a i, 0 <= i < 63 ->
    shadow_known (fold_left table_run1 ops env) a i =
    fold_left table_spec1 ops (shadow_known env) a i.
Proof.
  revert env. induction ops as [|op ops IH]; intros env Hok Hops Hfit; cbn [fold_left]; [done|].
  apply Forall_cons in Hops as [Hop Hops]. cbn [table_fits] in Hfit.
  apply andb_true_iff in Hfit as [Hroom Hfit].
  destruct (table_run1_spec env op Hok Hop) as [Hst Hk].
  destruct (IH (table_run1 env op) (table_step_ok _ _ Hst) Hops Hfit) as [Hok' Hk'].
  split; [done|]. intros a i Hi. rewrite Hk' by done. apply table_spec_ext; [|done].
  apply Hk. destruct op; try done. by apply Z.ltb_lt.
Qed.

Lemma table_refines_partial_map_witness :
  shadow_known (fold_left table_run1
    [op_merge 0x1f8 1 3 true; op_merge 0x5f8 4 4 true; op_take 0x1f8; op_clip 0x5f8 7] rnat_example)
    0x5f8 2 = Some true.
Proof.
  destruct (table_refines_partial_map rnat_example
    [op_merge 0x1f8 1 3 true; op_merge 0x5f8 4 4 true; op_take 0x1f8; op_clip 0x5f8 7]) as [_ H].
  - apply rnat_example_ok.
  - do 2 (apply Forall_cons; split; [split; [uint_const|vm_compute; reflexivity]|]).
    do 2 (apply Forall_cons; split; [exact I|]). constructor.
  - vm_compute. reflexivity.
  - rewrite H by lia. vm_compute. reflexivity.
Defined.
