(* ===== verification/RseOps.v ===== *)
(** * The register stack: operations

    The register stack engine of [arch/rse.c] as it runs: spilling and filling
    registers and NaT collections, calls, returns, [alloc], [cover],
    [flushrs], [loadrs], [rfi], and the transitions to IA-32 code.  An
    operation is a function of the state with exceptions: a fault or an
    interrupt leaves it in the middle, with the changes made so far.

    The memory accesses go through the functions of [exec-access.c] and
    [arch/mmu.c], which together with exception delivery and the IA-32 engine
    are the interface [RseWorld]; its laws, [RseWorldLaws], are what the
    register stack relies on.  [store_collection] is the one access function
    that has a model here.  Trace points and [ia64_rse_check], which only logs,
    are left out of the operations; the check itself is [ia64_rse_check_ok]. *)
From stdpp Require Import list.
From S2P Require Import Prelude Arch Env Alat Registers Interrupt RseMap RseRnat.
Local Open Scope Z_scope.

(** ** Constants of cpu.h *)

Definition MMU_PHYS_IDX : Z := 0.
Definition MMU_IDX_RSE : Z := 5.
Definition IA64_PHYS_UC_BIT : Z := 1 <<< 63.
Definition IA64_ISR_CODE_FP : Z := 1 <<< 0.
Definition IA64_ISR_CODE_LP : Z := 1 <<< 1.
Definition IA64_ISR_CODE_TB : Z := 1 <<< 2.
Definition IA64_ISR_CODE_SS : Z := 1 <<< 3.
Definition IA64_ISR_CODE_UI : Z := 1 <<< 4.
Definition IA64_NATIVE_TRAP_TAKEN : Z := 1 <<< 0.
Definition IA64_NATIVE_TRAP_LOWER : Z := 1 <<< 1.
Definition IA64_NATIVE_TRAP_FP : Z := 1 <<< 2.
Definition IA64_NATIVE_TRAP_SLOTS (target source : Z) : Z := target .| (source <<< 2).

(** The properties of the processor model that the register stack reads. *)
Record IA64CPUClass : Type := mkCPUClass {
  rse_has_clean_partition : bool;
  has_native_ia32 : bool;
  impl_va_msb : Z;
  phys_addr_bits : Z
}.

(** ** The rest of the machine *)

(** The processor and the rest of the machine: memory, translations, the
    IA-32 engine. *)
Record rse_sys (W : Type) : Type := mkRseSys {
  sys_cpu : IA64CPU;
  sys_world : W
}.
Arguments mkRseSys {W} sys_cpu sys_world.
Arguments sys_cpu {W} r.
Arguments sys_world {W} r.

#[export] Instance upd_sys_cpu W : Upd (@sys_cpu W) := fun f s => mkRseSys (f (sys_cpu s)) (sys_world s).
#[export] Instance upd_sys_world W : Upd (@sys_world W) := fun f s => mkRseSys (sys_cpu s) (f (sys_world s)).

Abbreviation senv s := (env (sys_cpu s)).
Abbreviation RM W A := (M cpu_exit (rse_sys W) A).

(** What the register stack calls.  [exec_probe_store] is the store probe of
    [ia64_exec_rse_store_collection] with its read of the resolved backing:
    [None] when that is not writable RAM.  [complete_pending_purges] and
    [flush_translations] change the TLBs.  [deliver_external_interrupt] is
    [ia64_cpu_do_interrupt] for an external interrupt, see [Exception]. *)
Class RseWorld (W : Type) : Type := {
  cpu_class : IA64CPUClass;
  ia64_mmu_check_data_debug : Z -> bool -> RM W unit;
  ia64_exec_load_mmuidx : Z -> bool -> Z -> RM W Z;
  ia64_exec_store_mmuidx : Z -> Z -> bool -> Z -> RM W unit;
  exec_probe_store : Z -> bool -> Z -> RM W (option Z);
  ia64_flush_suppressed_tlb : rse_sys W -> rse_sys W;
  deliver_external_interrupt : rse_sys W -> rse_sys W;
  ia32_interruptible : rse_sys W -> bool;
  ia64_ia32_enter : rse_sys W -> rse_sys W;
  complete_pending_purges : rse_sys W -> rse_sys W;
  flush_translations : rse_sys W -> rse_sys W;
  alat_memory_generation : rse_sys W -> Z
}.

Section ops.
Context {W : Type} `{World : RseWorld W}.

Local Abbreviation cc := (@cpu_class W World).

Definition getenv : RM W CPUIA64State := mget (fun s => senv s).
Definition modenv (f : CPUIA64State -> CPUIA64State) : RM W unit :=
  mmod (fun s => s <| sys_cpu; env ::= f |>).
Definition modcpu (f : IA64CPU -> IA64CPU) : RM W unit := mmod (fun s => s <| sys_cpu ::= f |>).

(** *** exception.c *)

Definition ia64_raise_exception {A} (e : IA64Exception) (ip_ imm slot : Z) : RM W A :=
  modenv (fun env =>
    env <| ip := ip_ |> <| exception_state; fault_ip := ip_ |> <| exception_state; fault_imm := imm |>
        <| exception_state; fault_slot := slot |> <| exception_state; fault_exception := e |>
        <| exception_state; exception := e |>) ;;;
  mraise (Exit e).

Definition ia64_raise_disabled_isa_transition {A} (fault_ip fault_slot : Z) : RM W A :=
  modenv (fun env => env <| cr @ IA64_CR_ISR := 4 <<< 4 |>) ;;;
  ia64_raise_exception IA64_EXCP_DISABLED_ISA_TRANSITION fault_ip 0 fault_slot.

Definition ia64_pa_is_implemented (cc : IA64CPUClass) (addr : Z) : bool :=
  let implemented_mask := (1 <<< phys_addr_bits cc) - 1 in
  addr .& ~64 (IA64_PHYS_UC_BIT .| implemented_mask) =? 0.

Definition ia64_va_is_implemented (cc : IA64CPUClass) (va : Z) : bool :=
  let msb := impl_va_msb cc in
  if 60 <=? msb then true
  else
    let mask := (1 <<< (60 - msb)) - 1 in
    let unimplemented := (va >>> (msb + 1)) .& mask in
    let expected := if truth (va .& (1 <<< msb)) then mask else 0 in
    unimplemented =? expected.

Definition ia64_check_native_traps (target_ip source_ip slots conditions base_isr trap_psr : Z) : RM W unit :=
  let target_slot := slots .& 3 in
  let source_slot := (slots >>> 2) .& 3 in
  let unimplemented := if truth (trap_psr .& IA64_PSR_IT) then negb (ia64_va_is_implemented cc target_ip)
                       else negb (ia64_pa_is_implemented cc target_ip) in
  let code := base_isr in
  let code := if unimplemented then code .| IA64_ISR_CODE_UI else code in
  let code := if truth (conditions .& IA64_NATIVE_TRAP_FP) then code .| IA64_ISR_CODE_FP else code in
  let code := if truth (conditions .& IA64_NATIVE_TRAP_LOWER) && truth (trap_psr .& IA64_PSR_LP)
              then code .| IA64_ISR_CODE_LP else code in
  let code := if truth (conditions .& IA64_NATIVE_TRAP_TAKEN) && truth (trap_psr .& IA64_PSR_TB)
              then code .| IA64_ISR_CODE_TB else code in
  let code := if truth (trap_psr .& IA64_PSR_SS) then code .| IA64_ISR_CODE_SS else code in
  if code =? 0 then mret tt
  else
    mwhen (truth (trap_psr .& IA64_PSR_IC))
      (modenv (fun env => env <| last_successful_bundle := ia64_ip_bundle_addr source_ip |>)) ;;;
    let trap := if unimplemented then IA64_EXCP_UNIMPL_INST_ADDR
                else if truth (conditions .& IA64_NATIVE_TRAP_FP) then IA64_EXCP_FP_TRAP
                else if truth (code .& IA64_ISR_CODE_LP) then IA64_EXCP_LOWER_PRIVILEGE
                else if truth (code .& IA64_ISR_CODE_TB) then IA64_EXCP_TAKEN_BRANCH
                else IA64_EXCP_SINGLE_STEP in
    modenv (fun env =>
      env <| psr := (psr env .& ~64 IA64_PSR_RI_MASK) .| (target_slot <<< IA64_PSR_RI_SHIFT) |>
          <| ip := target_ip |> <| cr @ IA64_CR_ISR := code |>
          <| exception_state; psr_suppression_before_insn := 0 |>
          <| exception_state; native_completion_trap := true |>) ;;;
    ia64_raise_exception trap target_ip (ia64_ip_bundle_addr source_ip) source_slot.

Definition ia64_external_interrupt_enabled (s : rse_sys W) : bool :=
  let env := senv s in
  let nmi_pending := truth (aget (sapic_irr (interrupt env)) 0 .& (1 <<< 2)) in
  let interrupt_enabled := truth (psr env .& IA64_PSR_I) || nmi_pending in
  if negb nmi_pending && psr_i_deferred (exception_state env) then false
  else if truth (psr env .& IA64_PSR_IS) && negb nmi_pending
  then truth (psr env .& IA64_PSR_I) && ia32_interruptible s
  else interrupt_enabled.

Definition ia64_rse_interrupt_window : RM W unit := fun s =>
  if negb (interrupt_hard (sys_cpu s)) || negb (ia64_external_interrupt_enabled s) ||
     negb (ia64_sapic_has_pending (senv s))
  then Ok tt s
  else Raise (Exit IA64_EXCP_EXTINT) (deliver_external_interrupt s).

(** *** system.c *)

Definition ia64_system_reset_dahr (env : CPUIA64State) : CPUIA64State := env <| dahr := replicate 8 0 |>.

Definition ia64_system_clear_psr_fault_suppression : RM W unit :=
  let! env := getenv in
  let old_mask := psr_suppression_before_insn (exception_state env) .& IA64_PSR_FAULT_SUPPRESS_MASK in
  let clear_mask := psr env .& old_mask in
  mwhen (truth clear_mask) (modcpu (fun cpu => ia64_set_psr cpu (psr env .& ~64 clear_mask))) ;;;
  mwhen (truth (old_mask .& (IA64_PSR_DA .| IA64_PSR_IA))) (mmod ia64_flush_suppressed_tlb) ;;;
  modenv (fun env => env <| exception_state; psr_suppression_before_insn := 0 |>).

(** [ia64_tlb_serialize(env, 1, 1)] of mmu.c. *)
Definition ia64_tlb_serialize (s : rse_sys W) : rse_sys W :=
  complete_pending_purges
    (s <| sys_cpu; env ::= fun env => env <| exception_state; psr_ic_inflight := false |>
                                          <| exception_state; psr_i_deferred := false |> |>).

Definition ia64_flush_on_pk_change (old_psr : Z) (s : rse_sys W) : rse_sys W :=
  if truth ((old_psr .^ psr (senv s)) .& IA64_PSR_PK) then flush_translations s else s.

(** *** Backing-store accesses *)

Definition ia64_rse_mmu_index (env : CPUIA64State) : Z :=
  if truth (psr env .& IA64_PSR_RT) then MMU_IDX_RSE else MMU_PHYS_IDX.

Definition rse_big_endian (env : CPUIA64State) : bool := negb (ar_rsc env .& IA64_RSC_BE =? 0).

Definition ia64_rse_access_begin (env : CPUIA64State) : CPUIA64State := env <| rse; rse_access := true |>.
Definition ia64_rse_access_end (env : CPUIA64State) : CPUIA64State := env <| rse; rse_access := false |>.

Definition ia64_rse_complete_memory_reference : RM W unit :=
  let! env := getenv in
  let data_access_suppressed := truth (psr env .& IA64_PSR_DA) in
  modenv (fun env => env <| psr ::= fun p => p .& ~64 (IA64_PSR_DA .| IA64_PSR_DD) |>) ;;;
  mwhen data_access_suppressed (mmod ia64_flush_suppressed_tlb).

Definition ia64_rse_write_u64 (addr value : Z) : RM W unit :=
  let! env := getenv in
  let mmu_idx := ia64_rse_mmu_index env in
  ia64_mmu_check_data_debug addr true ;;;
  modenv ia64_rse_access_begin ;;;
  let! env := getenv in
  ia64_exec_store_mmuidx addr value (rse_big_endian env) mmu_idx ;;;
  modenv ia64_rse_access_end ;;;
  ia64_rse_complete_memory_reference.

Definition ia64_exec_rse_store_collection (addr value defined : Z) (big_endian : bool) (mmu_idx : Z)
    : RM W Z :=
  if negb (addr .& 7 =? 0) then mraise Assertion
  else
    let defined := defined .& INT64_MAX in
    let value := value .& defined in
    if defined =? INT64_MAX then
      ia64_exec_store_mmuidx addr value big_endian mmu_idx ;;;
      mret value
    else
      let! probed := exec_probe_store addr big_endian mmu_idx in
      let old := match probed with Some old => old | None => 0 end in
      let value := ((old .& ~64 defined) .| value) .& INT64_MAX in
      ia64_exec_store_mmuidx addr value big_endian mmu_idx ;;;
      mret value.

Definition ia64_rse_write_collection (addr value defined : Z) : RM W Z :=
  let! env := getenv in
  let mmu_idx := ia64_rse_mmu_index env in
  ia64_mmu_check_data_debug addr true ;;;
  modenv ia64_rse_access_begin ;;;
  let! env := getenv in
  let! stored := ia64_exec_rse_store_collection addr value defined (rse_big_endian env) mmu_idx in
  modenv ia64_rse_access_end ;;;
  ia64_rse_complete_memory_reference ;;;
  mret stored.

Definition ia64_rse_read_u64 (addr : Z) : RM W Z :=
  let! env := getenv in
  let mmu_idx := ia64_rse_mmu_index env in
  ia64_mmu_check_data_debug addr false ;;;
  modenv ia64_rse_access_begin ;;;
  let! env := getenv in
  let! value := ia64_exec_load_mmuidx addr (rse_big_endian env) mmu_idx in
  modenv ia64_rse_access_end ;;;
  ia64_rse_complete_memory_reference ;;;
  mret value.

(** *** One word of the backing store *)

(** The NaT bit of the register that has been stored. *)
Definition set_spill_bit (env : CPUIA64State) (p ncb : Z) : CPUIA64State :=
  let env :=
    if ia64_rse_pgr_nat_get env p
    then env <| ar @ IA64_AR_RNAT := ar_rnat env .| (1 <<< ncb) |>
    else env <| ar @ IA64_AR_RNAT := ar_rnat env .& ~64 (1 <<< ncb) |> in
  env <| rse; rse_rnat_defined ::= fun d => d .| (1 <<< ncb) |>.

(** The fill latch takes over a collection. *)
Definition set_load_rnat (env : CPUIA64State) (collection addr defined : Z) : CPUIA64State :=
  env <| rse; rse_load_rnat := collection |> <| rse; rse_load_rnat_addr := addr |>
      <| rse; rse_load_rnat_defined := defined |> <| rse; rse_load_rnat_valid := true |>.

(** The value and the mask of a completed collection: the spill latch over the
    writeback image. *)
Definition store_collection_value (env : CPUIA64State) (collection_addr : Z) : Z * Z :=
  let image := rse_writeback_rnat (rse env) in
  let spill_defined := rse_rnat_defined (rse env) .& INT64_MAX in
  let defined := spill_defined in
  let value := ar_rnat env .& spill_defined in
  if rnat_valid image && (rnat_addr image =? collection_addr) then
    let saved_defined := rnat_defined image .& INT64_MAX in
    ((rnat_value image .& saved_defined .& ~64 spill_defined) .| value, defined .| saved_defined)
  else (value, defined).

(** After the store of a completed collection. *)
Definition collection_stored (cc : IA64CPUClass) (env : CPUIA64State)
    (bspstore collection_addr collection : Z) : CPUIA64State :=
  let image := rse_writeback_rnat (rse env) in
  let env := if rnat_valid image && (rnat_addr image =? collection_addr)
             then ia64_rse_rnat_writeback_clear env else env in
  let env := ia64_rse_rnat_shadow_remove env collection_addr in
  let env := ia64_rse_load_rnat_stash env collection_addr in
  let env := set_load_rnat env collection collection_addr INT64_MAX in
  let env := env <| ar @ IA64_AR_RNAT := 0 |> <| ar @ IA64_AR_BSPSTORE := u64 (bspstore + 8) |>
                 <| rse; rse_rnat_addr := UINT64_MAX |> <| rse; rse_rnat_defined := 0 |>
                 <| rse; rse_dirty_nat ::= fun n => n - 1 |> in
  if rse_has_clean_partition cc then env <| rse; rse_clean_nat ::= fun n => n + 1 |> else env.

(** After the store of a register. *)
Definition register_stored (cc : IA64CPUClass) (env : CPUIA64State) (bspstore p ncb : Z) : CPUIA64State :=
  let env := set_spill_bit env p ncb in
  let env := env <| ar @ IA64_AR_BSPSTORE := u64 (bspstore + 8) |>
                 <| rse; rse_dirty ::= fun n => n - 1 |> in
  if rse_has_clean_partition cc then env <| rse; rse_clean ::= fun n => n + 1 |>
  else env <| rse; rse_invalid ::= fun n => n + 1 |>.

Definition ia64_rse_store_one : RM W Z :=
  let! env := getenv in
  let bspstore := ar_bspstore env in
  let collection_addr := ia64_rse_collect_word bspstore in
  let ncb := ia64_rse_collect_bit bspstore in
  modenv (fun env => ia64_rse_rnat_bind env collection_addr) ;;;
  let! env := getenv in
  if ncb =? 63 then
    let vd := store_collection_value env collection_addr in
    let! collection := ia64_rse_write_collection bspstore (fst vd) (snd vd) in
    modenv (fun env => collection_stored cc env bspstore collection_addr collection) ;;;
    mret 0
  else
    let p := ia64_rse_wrap_phys (rse_bol (rse env) - rse_dirty (rse env)) in
    ia64_rse_write_u64 bspstore (aget (rse_pgr (rse env)) p) ;;;
    modenv (fun env => register_stored cc env bspstore p ncb) ;;;
    mret 1.

(** The collection for a fill: the fill latch or the backing store, under the
    table and the spill latch. *)
Definition ia64_rse_fill_collection (addr : Z) : RM W Z :=
  let! env := getenv in
  let collection_addr := ia64_rse_collect_word addr in
  let! base :=
    if rse_load_rnat_valid (rse env) && (rse_load_rnat_addr (rse env) =? collection_addr) then
      let defined := rse_load_rnat_defined (rse env) .& INT64_MAX in
      mret (rse_load_rnat (rse env) .& defined, defined)
    else if collection_addr <? ar_bspstore env then
      let! word := ia64_rse_read_u64 collection_addr in
      mret (word .& INT64_MAX, INT64_MAX)
    else mret (0, 0) in
  modenv (fun env => snd (ia64_rse_rnat_shadow_find env collection_addr)) ;;;
  let! env := getenv in
  let '(collection, defined) := ia64_rse_rnat_shadow_overlay env collection_addr (fst base) (snd base) in
  let '(collection, defined) := spill_overlay env collection_addr collection defined in
  let collection := collection .& (defined .& INT64_MAX) in
  modenv (fun env => ia64_rse_load_rnat_stash env collection_addr) ;;;
  modenv (fun env => set_load_rnat env collection collection_addr defined) ;;;
  mret collection.

(** A register word has been read: the physical register, its NaT bit, and the
    view if the register is in the frame. *)
Definition register_loaded (env : CPUIA64State) (p value : Z) (nat : bool) : CPUIA64State :=
  let v := ia64_rse_phys_to_virt env p in
  let env := env <| rse; rse_pgr @ p := value |> in
  let env := ia64_rse_pgr_nat_set env p nat in
  let env := env <| rse; rse_clean ::= fun n => n + 1 |> <| rse; rse_invalid ::= fun n => n - 1 |> in
  if v <? cfm_sof env then
    let env := env <| gr @ IA64_STACKED_GR_BASE + v := value |> in
    ia64_gr_nat_set env (IA64_STACKED_GR_BASE + v) (ia64_rse_pgr_nat_get env p)
  else env.

Definition ia64_rse_load_one (bspload : Z) : RM W Z :=
  let ncb := ia64_rse_collect_bit bspload in
  if ncb =? 63 then
    let! word := ia64_rse_read_u64 bspload in
    let collection := word .& INT64_MAX in
    let collection_addr := ia64_rse_collect_word bspload in
    modenv (fun env => ia64_rse_load_rnat_stash env collection_addr) ;;;
    modenv (fun env => set_load_rnat env collection collection_addr INT64_MAX) ;;;
    modenv (fun env => env <| rse; rse_clean_nat ::= fun n => n + 1 |>) ;;;
    mret 0
  else
    let! value := ia64_rse_read_u64 bspload in
    let! env := getenv in
    let p := ia64_rse_wrap_phys (rse_bol (rse env) - (rse_clean (rse env) + rse_dirty (rse env) + 1)) in
    let! collection := ia64_rse_fill_collection bspload in
    let nat := truth ((collection >>> ncb) .& 1) in
    modenv (fun env => register_loaded env p value nat) ;;;
    mret 1.

(** *** Frames *)

Definition ia64_rse_current_cfm (env : CPUIA64State) : Z :=
  cfm_sof env .| (cfm_sol env <<< IA64_CFM_SOL_SHIFT) .| (cfm_sor env <<< IA64_CFM_SOR_SHIFT) .|
  (cfm_rrb_gr env <<< IA64_CFM_RRB_GR_SHIFT) .| (cfm_rrb_fr env <<< IA64_CFM_RRB_FR_SHIFT) .|
  (cfm_rrb_pr env <<< IA64_CFM_RRB_PR_SHIFT).

Definition ia64_rse_current_pfs (env : CPUIA64State) : Z :=
  ia64_rse_current_cfm env .| ((ar_ec env .& 0x3f) <<< IA64_PFS_PEC_SHIFT) .|
  (ia64_psr_cpl (psr env) <<< IA64_PFS_PPL_SHIFT).

(** The words of the live partitions, and the word below them. *)
Definition rse_bspload (env : CPUIA64State) : Z :=
  let live := rse_clean (rse env) + rse_clean_nat (rse env) + rse_dirty (rse env) +
              rse_dirty_nat (rse env) in
  u64 (ar_bsp env - (live + 1) * 8).

Definition frame_incomplete (env : CPUIA64State) : bool :=
  (rse_dirty (rse env) <? 0) || (rse_dirty_nat (rse env) <? 0).

(** One turn adds a word to the live partitions, so as many turns as words are
    missing are enough. *)
Fixpoint frame_loads_loop (fuel : nat) (bspload : Z) : RM W unit :=
  match fuel with
  | O => mret tt
  | S fuel =>
      let! env := getenv in
      if frame_incomplete env then
        let! n := ia64_rse_load_one bspload in
        modenv (fun env =>
          if negb (n =? 0)
          then env <| rse; rse_clean ::= fun n => n - 1 |> <| rse; rse_dirty ::= fun n => n + 1 |>
          else env <| rse; rse_clean_nat ::= fun n => n - 1 |>
                   <| rse; rse_dirty_nat ::= fun n => n + 1 |>) ;;;
        modenv (fun env => ia64_rse_rnat_move_bspstore env (u64 (ar_bspstore env - 8))) ;;;
        ia64_rse_interrupt_window ;;;
        frame_loads_loop fuel (u64 (bspload - 8))
      else mret tt
  end.

Definition missing_words (env : CPUIA64State) : nat :=
  Z.to_nat (- (rse_dirty (rse env) + rse_dirty_nat (rse env))).

Definition ia64_rse_complete_frame_loads : RM W unit :=
  let! env := getenv in
  if negb (frame_incomplete env) then mret tt
  else
    modenv (fun env => env <| rse; rse_cfle := true |>) ;;;
    ia64_rse_interrupt_window ;;;
    frame_loads_loop (missing_words env) (rse_bspload env) ;;;
    modenv (fun env => env <| rse; rse_cfle := false |>).

Definition ia64_rse_preserve_frame (env : CPUIA64State) (nregs : Z) : CPUIA64State :=
  if nregs =? 0 then env
  else
    let nats := ia64_rse_nat_words_grow (ar_bsp env) nregs in
    env <| rse; rse_bol := ia64_rse_wrap_phys (rse_bol (rse env) + nregs) |>
        <| ar @ IA64_AR_BSP := u64 (ar_bsp env + (nregs + nats) * 8) |>
        <| rse; rse_dirty ::= fun n => n + nregs |> <| rse; rse_dirty_nat ::= fun n => n + nats |>.

(** A store moves one word out of the dirty partition, so as many turns as
    the partition has words are enough. *)
Fixpoint new_frame_loop (fuel : nat) (growth : Z) : RM W unit :=
  match fuel with
  | O => mret tt
  | S fuel =>
      if 0 <? growth then
        let! n := ia64_rse_store_one in
        ia64_rse_interrupt_window ;;;
        new_frame_loop fuel (growth - n)
      else mret tt
  end.

Definition dirty_words (env : CPUIA64State) : nat :=
  Z.to_nat (rse_dirty (rse env) + rse_dirty_nat (rse env)).

Definition ia64_rse_new_frame (growth : Z) : RM W unit :=
  let! env := getenv in
  let r := rse env in
  if growth <=? rse_invalid r then
    modenv (fun env => env <| rse; rse_invalid ::= fun n => n - growth |>)
  else
    let growth := growth - rse_invalid r in
    if growth <=? rse_clean r then
      modenv (fun env =>
        let env := env <| rse; rse_invalid := 0 |> <| rse; rse_clean ::= fun n => n - growth |> in
        env <| rse; rse_clean_nat :=
                 ia64_rse_nat_words_shrink (ar_bsp env) (rse_clean (rse env) + rse_dirty (rse env) + 1) -
                 rse_dirty_nat (rse env) |>)
    else
      let growth := growth - rse_clean r in
      new_frame_loop (dirty_words env) growth ;;;
      modenv (fun env => env <| rse; rse_invalid := 0 |> <| rse; rse_clean := 0 |>
                             <| rse; rse_clean_nat := 0 |>).

(** [CFM] forced to zero. *)
Definition clear_cfm (env : CPUIA64State) : CPUIA64State :=
  let env := env <| cfm_sof := 0 |> <| cfm_sol := 0 |> <| cfm_sor := 0 |> <| cfm_rrb_gr := 0 |> in
  ia64_set_cfm_rrb_pr (ia64_set_cfm_rrb_fr env 0) 0.

Definition ia64_rse_restore_frame (env : CPUIA64State) (preserved growth old_sof : Z) : CPUIA64State :=
  let preserved_nats := ia64_rse_nat_words_shrink (ar_bsp env) preserved in
  let env := env <| ar @ IA64_AR_BSP := u64 (ar_bsp env - (preserved + preserved_nats) * 8) |> in
  if rse_invalid (rse env) + rse_clean (rse env) <? growth then
    clear_cfm (env <| rse; rse_invalid ::= fun n => n + (preserved + old_sof) |>
                   <| rse; rse_dirty ::= fun n => n - preserved |>
                   <| rse; rse_dirty_nat ::= fun n => n - preserved_nats |>)
  else
    let env :=
      if rse_invalid (rse env) <? growth then
        let env := env <| rse; rse_clean ::= fun n => n - (growth - rse_invalid (rse env)) |> in
        env <| rse; rse_clean_nat :=
                 ia64_rse_nat_words_shrink (ar_bsp env) (rse_clean (rse env) + rse_dirty (rse env) + 1) -
                 rse_dirty_nat (rse env) |>
            <| rse; rse_invalid := 0 |>
      else env <| rse; rse_invalid ::= fun n => n - growth |> in
    let missing := preserved - rse_dirty (rse env) in
    let missing_nats := preserved_nats - rse_dirty_nat (rse env) in
    if missing <=? 0 then
      env <| rse; rse_dirty ::= fun n => n - preserved |>
          <| rse; rse_dirty_nat ::= fun n => n - preserved_nats |>
    else if missing <=? rse_clean (rse env) then
      let env := env <| rse; rse_clean ::= fun n => n - missing |>
                     <| rse; rse_clean_nat ::= fun n => n - missing_nats |>
                     <| rse; rse_dirty := 0 |> <| rse; rse_dirty_nat := 0 |> in
      ia64_rse_rnat_move_bspstore env (ar_bsp env)
    else
      let env := env <| rse; rse_dirty := - (missing - rse_clean (rse env)) |>
                     <| rse; rse_dirty_nat := - (missing_nats - rse_clean_nat (rse env)) |>
                     <| rse; rse_clean := 0 |> <| rse; rse_clean_nat := 0 |> in
      ia64_rse_rnat_move_bspstore env
        (u64 (ar_bsp env - (rse_dirty (rse env) + rse_dirty_nat (rse env)) * 8)).

Definition ia64_rse_invalidate_non_current (env : CPUIA64State) : CPUIA64State :=
  let env := env <| rse; rse_dirty := 0 |> <| rse; rse_dirty_nat := 0 |> <| rse; rse_clean := 0 |>
                 <| rse; rse_clean_nat := 0 |>
                 <| rse; rse_invalid := IA64_STACKED_GR_COUNT - cfm_sof env |> in
  ia64_rse_rnat_move_bspstore env (ar_bsp env).

Definition ia64_rse_invalidate_stacked_alat (env : CPUIA64State) : CPUIA64State :=
  if negb (alat_active_count (alat_state env) =? 0) then ia64_invalidate_stacked_alat env else env.

Definition ia64_rse_reset_rotations (env : CPUIA64State) : CPUIA64State :=
  let env := env <| cfm_rrb_gr := 0 |> in
  let env := if negb (cfm_rrb_fr env =? 0) then ia64_set_cfm_rrb_fr env 0 else env in
  if negb (cfm_rrb_pr env =? 0) then ia64_set_cfm_rrb_pr env 0 else env.

(** The frame marker of the frame that is returned to, and the move of the
    frame's bottom; the partitions follow. *)
Definition return_cfm (env : CPUIA64State) (pfm preserved : Z) : CPUIA64State :=
  let new_rrb_fr := (pfm .& IA64_CFM_RRB_FR_MASK) >>> IA64_CFM_RRB_FR_SHIFT in
  let new_rrb_pr := (pfm .& IA64_CFM_RRB_PR_MASK) >>> IA64_CFM_RRB_PR_SHIFT in
  let env := env <| cfm_sof := pfm .& IA64_CFM_SOF_MASK |>
                 <| cfm_sol := (pfm .& IA64_CFM_SOL_MASK) >>> IA64_CFM_SOL_SHIFT |>
                 <| cfm_sor := (pfm .& IA64_CFM_SOR_MASK) >>> IA64_CFM_SOR_SHIFT |>
                 <| cfm_rrb_gr := (pfm .& IA64_CFM_RRB_GR_MASK) >>> IA64_CFM_RRB_GR_SHIFT |> in
  let env := if negb (new_rrb_fr =? cfm_rrb_fr env) || (IA64_ROTATING_FR_COUNT <=? new_rrb_fr)
             then ia64_set_cfm_rrb_fr env new_rrb_fr else env in
  let env := if negb (new_rrb_pr =? cfm_rrb_pr env) ||
                (IA64_PR_COUNT - IA64_PR_ROTATING_BASE <=? new_rrb_pr)
             then ia64_set_cfm_rrb_pr env new_rrb_pr else env in
  env <| rse; rse_bol := ia64_rse_wrap_phys (rse_bol (rse env) - preserved) |>.

(** The move of the frame, all but the loads of the missing registers. *)
Definition return_frame (pfm preserved : Z) (env : CPUIA64State) : CPUIA64State :=
  let old_sof := cfm_sof env in
  let growth := (pfm .& IA64_CFM_SOF_MASK) - preserved - old_sof in
  let env := ia64_rse_sync_frame_out env in
  let env := return_cfm env pfm preserved in
  let env := ia64_rse_restore_frame env preserved growth old_sof in
  let env := ia64_rse_sync_frame_in env in
  ia64_rse_invalidate_stacked_alat env.

Definition ia64_rse_return_to_frame (pfm preserved : Z) : RM W unit :=
  modenv (return_frame pfm preserved) ;;;
  ia64_rse_complete_frame_loads.

Definition ia64_rse_return_from_min_state (cfm : Z) : RM W unit :=
  ia64_rse_return_to_frame cfm (cfm .& IA64_CFM_SOF_MASK).

(** *** Branches *)

(** The output registers move to the start of the new frame. *)
Definition call_outputs (sol outputs : Z) (env : CPUIA64State) : CPUIA64State :=
  let env := env <| gr := memcpy (gr env) IA64_STACKED_GR_BASE (gr env) (IA64_STACKED_GR_BASE + sol)
                            outputs |> in
  if truth ((aget (nat_ env) 0 >>> IA64_STACKED_GR_BASE) .| aget (nat_ env) 1)
  then env <| nat_ := ia64_copy_bit_range (nat_ env) IA64_STACKED_GR_BASE (nat_ env)
                        (IA64_STACKED_GR_BASE + sol) outputs |>
  else env.

(** The callee's frame. *)
Definition call_frame (env : CPUIA64State) : CPUIA64State :=
  let old_sof := cfm_sof env in
  let sol := cfm_sol env in
  let outputs := if sol <? old_sof then old_sof - sol else 0 in
  let move_outputs := cfm_rrb_gr env =? 0 in
  let env := ia64_rse_sync_frame_out env in
  let env := ia64_rse_preserve_frame env sol in
  let env := if move_outputs && negb (outputs =? 0) && negb (sol =? 0)
             then call_outputs sol outputs env else env in
  let env := env <| cfm_sof := outputs |> <| cfm_sol := 0 |> <| cfm_sor := 0 |> in
  let env := ia64_rse_reset_rotations env in
  if negb move_outputs then ia64_rse_sync_frame_in env else env.

Definition ia64_rse_br_call (b_reg next_ip target : Z) (env : CPUIA64State) : CPUIA64State :=
  let pfs := ia64_rse_current_pfs env in
  let env := ia64_rse_invalidate_stacked_alat (call_frame env) in
  let env := env <| ar @ IA64_AR_PFS := pfs |> <| br @ b_reg := next_ip |> in
  let env := ia64_system_reset_dahr env in
  env <| ip := ia64_ip_bundle_addr target |> <| psr ::= fun p => p .& ~64 IA64_PSR_RI_MASK |>.

(** [ia64_alat_invala] on the processor state. *)
Definition alat_invala (s : rse_sys W) : rse_sys W :=
  let g := alat_memory_generation s in
  s <| sys_cpu; env ::= fun env => env <| alat_state ::= ia64_alat_clear |>
                                     <| alat_state; memory_write_generation := g |> |>.

Definition ia64_rse_br_ia (b_reg fault_ip fault_slot : Z) : RM W unit :=
  let! env := getenv in
  let target := aget (br env) b_reg in
  if negb (ar_bspstore env =? ar_bsp env) then
    ia64_raise_exception IA64_EXCP_ILLEGAL fault_ip 0 fault_slot
  else
    mwhen (truth (psr env .& IA64_PSR_DI) || negb (has_native_ia32 cc))
      (ia64_raise_disabled_isa_transition fault_ip fault_slot) ;;;
    modenv (fun env =>
      let env := env <| ip := target .& UINT32_MAX |> <| psr ::= fun p => p .| IA64_PSR_IS |>
        <| psr ::= fun p => p .& ~64 (IA64_PSR_DA .| IA64_PSR_DD .| IA64_PSR_ID .| IA64_PSR_IA .|
                                      IA64_PSR_ED .| IA64_PSR_RI_MASK) |> in
      let env := ia64_rse_sync_frame_out env in
      let env := env <| cfm_sof := 0 |> <| cfm_sol := 0 |> <| cfm_sor := 0 |> in
      ia64_rse_invalidate_non_current (ia64_rse_reset_rotations env)) ;;;
    mmod alat_invala ;;;
    mmod ia64_ia32_enter ;;;
    let! env := getenv in
    let unimplemented := if truth (psr env .& IA64_PSR_IT) then negb (ia64_va_is_implemented cc target)
                         else negb (ia64_pa_is_implemented cc target) in
    let trap_code := if unimplemented then IA64_ISR_CODE_UI else 0 in
    let trap_code := trap_code .| (if truth (psr env .& IA64_PSR_TB) then IA64_ISR_CODE_TB else 0) in
    let trap_code := trap_code .| (if truth (psr env .& IA64_PSR_SS) then IA64_ISR_CODE_SS else 0) in
    if trap_code =? 0 then mret tt
    else
      let trap := if truth (trap_code .& IA64_ISR_CODE_UI) then IA64_EXCP_UNIMPL_INST_ADDR
                  else if truth (trap_code .& IA64_ISR_CODE_TB) then IA64_EXCP_TAKEN_BRANCH
                  else IA64_EXCP_SINGLE_STEP in
      modenv (fun env => env <| cr @ IA64_CR_ISR := trap_code |>
                             <| exception_state; ia32_transition_trap := true |>) ;;;
      ia64_raise_exception trap target fault_ip fault_slot.

Definition ia64_rse_complete_pending_trap : RM W unit :=
  let! env := getenv in
  if negb (rse_completion_pending (rse env)) then mret tt
  else
    let conditions := IA64_NATIVE_TRAP_TAKEN .|
                      (if rse_completion_demoted (rse env) then IA64_NATIVE_TRAP_LOWER else 0) in
    let source_ip := rse_completion_source_ip (rse env) in
    let source_slot := rse_completion_source_slot (rse env) in
    let target_slot := (psr env .& IA64_PSR_RI_MASK) >>> IA64_PSR_RI_SHIFT in
    modenv (fun env =>
      env <| rse; rse_completion_pending := false |>
          <| exception_state; psr_suppression_before_insn :=
               rse_completion_psr (rse env) .& IA64_PSR_FAULT_SUPPRESS_MASK |>) ;;;
    ia64_system_clear_psr_fault_suppression ;;;
    let! env := getenv in
    ia64_check_native_traps (ip env) source_ip (IA64_NATIVE_TRAP_SLOTS target_slot source_slot)
      conditions 0 (rse_completion_psr (rse env)).

Definition ia64_rse_resume_incomplete_frame : RM W unit :=
  ia64_rse_complete_frame_loads ;;; ia64_rse_complete_pending_trap.

Definition ia64_rse_pop_return_frame (pfs : Z) : RM W unit :=
  modenv (fun env => env <| ar @ IA64_AR_EC := (pfs .& IA64_PFS_PEC_MASK) >>> IA64_PFS_PEC_SHIFT |>) ;;;
  ia64_rse_return_to_frame (pfs .& IA64_PFS_PFM_MASK)
    ((pfs .& IA64_CFM_SOL_MASK) >>> IA64_CFM_SOL_SHIFT).

Definition ia64_rse_br_ret (b_reg source_ip source_slot : Z) : RM W unit :=
  let! env := getenv in
  let old_psr := psr env in
  let pfs := ar_pfs env in
  let target := aget (br env) b_reg in
  let ppl := u8 ((pfs .& IA64_PFS_PPL_MASK) >>> IA64_PFS_PPL_SHIFT) in
  let demoted := ia64_psr_cpl (psr env) <? ppl in
  modenv (fun env => env <| ip := ia64_ip_bundle_addr target |>
                         <| psr ::= fun p => p .& ~64 IA64_PSR_RI_MASK |>) ;;;
  mwhen demoted (modcpu (fun cpu => ia64_set_psr cpu
    ((psr (Interrupt.env cpu) .& ~64 IA64_PSR_CPL_MASK) .| (ppl <<< IA64_PSR_CPL_SHIFT)))) ;;;
  modenv (fun env =>
    env <| rse; rse_completion_pending := true |> <| rse; rse_completion_demoted := demoted |>
        <| rse; rse_completion_psr := old_psr |>
        <| rse; rse_completion_source_ip := ia64_ip_bundle_addr source_ip |>
        <| rse; rse_completion_source_slot := source_slot .& 3 |>) ;;;
  modenv (fun env => if truth (rse_completion_psr (rse env) .& IA64_PSR_IC)
                     then env <| last_successful_bundle := rse_completion_source_ip (rse env) |>
                     else env) ;;;
  ia64_rse_pop_return_frame pfs ;;;
  ia64_rse_complete_pending_trap.

(** [rfi]. *)
Definition ia64_rfi (fault_ip_ fault_slot_ : Z) : RM W unit :=
  let! env := getenv in
  let old_psr := psr env in
  let ipsr := cr_ipsr env in
  let raw_iip := cr_iip env in
  let iip := if truth (ipsr .& IA64_PSR_IS) then raw_iip .& UINT32_MAX else ia64_ip_bundle_addr raw_iip in
  let ifs := cr_ifs env in
  let unimplemented_ia32_target :=
    truth (ipsr .& IA64_PSR_IS) &&
    (if truth (ipsr .& IA64_PSR_IT) then negb (ia64_va_is_implemented cc raw_iip)
     else negb (ia64_pa_is_implemented cc raw_iip)) in
  mwhen (truth (ipsr .& IA64_PSR_IS) && negb (has_native_ia32 cc))
    (ia64_raise_disabled_isa_transition fault_ip_ fault_slot_) ;;;
  modenv (fun env =>
    env <| exception_state; exception := IA64_EXCP_NONE |> <| exception_state; fault_ip := 0 |>
        <| exception_state; fault_addr := 0 |> <| exception_state; fault_imm := 0 |>
        <| exception_state; fault_slot := 0 |> <| instruction_group_start := true |>) ;;;
  let ipsr := if truth (ipsr .& IA64_PSR_IS)
              then ipsr .& ~64 (IA64_PSR_DA .| IA64_PSR_DD .| IA64_PSR_IA .| IA64_PSR_ED) else ipsr in
  modcpu (fun cpu => ia64_set_psr cpu ipsr) ;;;
  modenv (fun env => env <| ip := iip |>) ;;;
  mmod ia64_tlb_serialize ;;;
  mmod (ia64_flush_on_pk_change old_psr) ;;;
  if truth (ipsr .& IA64_PSR_IS) then
    modenv (fun env => ia64_rse_invalidate_non_current (clear_cfm (ia64_rse_sync_frame_out env))) ;;;
    mmod alat_invala ;;;
    mmod ia64_ia32_enter ;;;
    mwhen unimplemented_ia32_target
      (modenv (fun env => env <| cr @ IA64_CR_ISR := IA64_ISR_CODE_UI |>
                              <| exception_state; ia32_transition_trap := true |>) ;;;
       ia64_raise_exception IA64_EXCP_UNIMPL_INST_ADDR raw_iip fault_ip_ fault_slot_)
  else if truth (ifs .& IA64_IFS_V) then
    ia64_rse_return_to_frame (ifs .& IA64_IFS_IFM_MASK) (ifs .& IA64_CFM_SOF_MASK) ;;;
    ia64_rse_complete_pending_trap
  else
    let! env := getenv in
    mwhen (rse_completion_pending (rse env) || frame_incomplete env) ia64_rse_resume_incomplete_frame.

(** *** Register stack instructions *)

Definition ia64_rse_mark_gr_dirty (env : CPUIA64State) (reg : Z) : CPUIA64State :=
  if (IA64_STACKED_GR_BASE <=? reg) && (reg <? IA64_GR_COUNT)
  then env <| rse; rse_gr_dirty ::= fun m => bm_set m (reg - IA64_STACKED_GR_BASE) |> else env.

(** A general register takes a value and a NaT bit, as [alloc] writes its
    destination; in programs it also stands for the writes of registers that the
    translator emits. *)
Definition write_gr (r value : Z) (nat : bool) (env : CPUIA64State) : CPUIA64State :=
  ia64_rse_mark_gr_dirty (ia64_gr_nat_set (env <| gr @ r := value |>) r nat) r.

(** The frame marker of [alloc], and the registers that come into view. *)
Definition alloc_frame (new_sof new_sol new_sor old_sof : Z) (env : CPUIA64State) : CPUIA64State :=
  let env := env <| cfm_sof := new_sof |> <| cfm_sol := new_sol |> <| cfm_sor := new_sor |> in
  if old_sof <? new_sof
  then ia64_rse_sync_frame_in_range env old_sof (new_sof - old_sof) else env.

Definition ia64_rse_alloc (r1 pfm fault_ip slot : Z) : RM W unit :=
  let! env := getenv in
  let old_sof := cfm_sof env in
  let new_sof := pfm .& 0x7f in
  let new_sol := (pfm >>> 7) .& 0x7f in
  let new_sor := (pfm >>> 14) .& 0x0f in
  let growth := new_sof - cfm_sof env in
  mwhen (negb (ia64_cfm_frame_fields_valid new_sof new_sol new_sor))
    (modenv (fun env => env <| cr @ IA64_CR_ISR := 0 |>) ;;;
     ia64_raise_exception IA64_EXCP_ILLEGAL fault_ip 0 slot) ;;;
  mwhen (negb (new_sor =? cfm_sor env) &&
         (truth (cfm_rrb_gr env) || truth (cfm_rrb_fr env) || truth (cfm_rrb_pr env)))
    (modenv (fun env => env <| cr @ IA64_CR_ISR := 0x30 |>) ;;;
     ia64_raise_exception IA64_EXCP_RESERVED_REG_FIELD fault_ip 0 slot) ;;;
  modenv ia64_rse_sync_frame_out ;;;
  ia64_rse_new_frame growth ;;;
  modenv (alloc_frame new_sof new_sol new_sor old_sof) ;;;
  modenv ia64_rse_invalidate_stacked_alat ;;;
  modenv (fun env => if negb (r1 =? 0) then write_gr r1 (ar_pfs env) false env else env).

(** The whole frame is left behind. *)
Definition cover_frame (env : CPUIA64State) : CPUIA64State :=
  let env := ia64_rse_sync_frame_out env in
  let env := ia64_rse_preserve_frame env (cfm_sof env) in
  let env := env <| cfm_sof := 0 |> <| cfm_sol := 0 |> <| cfm_sor := 0 |> in
  ia64_rse_invalidate_stacked_alat (ia64_rse_reset_rotations env).

Definition ia64_rse_cover (env : CPUIA64State) : CPUIA64State :=
  let env := if negb (truth (psr env .& IA64_PSR_IC))
             then env <| cr @ IA64_CR_IFS := IA64_IFS_V .| ia64_rse_current_cfm env |> else env in
  cover_frame env.

Fixpoint flush_loop (fuel : nat) : RM W unit :=
  match fuel with
  | O => mret tt
  | S fuel =>
      let! env := getenv in
      if 0 <? rse_dirty (rse env) + rse_dirty_nat (rse env) then
        ia64_rse_store_one ;;; ia64_rse_interrupt_window ;;; flush_loop fuel
      else mret tt
  end.

Definition ia64_rse_flush : RM W unit :=
  let! env := getenv in flush_loop (dirty_words env).

(** [BSPSTORE] where the dirty partition ends. *)
Definition set_bspstore_dirty (env : CPUIA64State) : CPUIA64State :=
  env <| ar @ IA64_AR_BSPSTORE :=
           u64 (ar_bsp env - (rse_dirty (rse env) + rse_dirty_nat (rse env)) * 8) |>.

Fixpoint loadrs_loop (fuel : nat) (bspload : Z) (fault_ip raw slot : Z) : RM W unit :=
  match fuel with
  | O => mret tt
  | S fuel =>
      let! env := getenv in
      mwhen ((rse_dirty (rse env) =? IA64_STACKED_GR_COUNT) &&
             negb (ia64_rse_collect_bit bspload =? 63))
        (ia64_raise_exception IA64_EXCP_ILLEGAL fault_ip raw slot) ;;;
      let! n := ia64_rse_load_one bspload in
      modenv (fun env =>
        set_bspstore_dirty
          (if negb (n =? 0)
           then env <| rse; rse_dirty ::= fun n => n + 1 |> <| rse; rse_clean ::= fun n => n - 1 |>
           else env <| rse; rse_dirty_nat ::= fun n => n + 1 |>
                    <| rse; rse_clean_nat ::= fun n => n - 1 |>)) ;;;
      ia64_rse_interrupt_window ;;;
      loadrs_loop fuel (u64 (bspload - 8)) fault_ip raw slot
  end.

Definition ia64_rse_load (fault_ip raw slot : Z) : RM W unit :=
  let! env := getenv in
  let loadrs_bytes := ((ar_rsc env >>> IA64_RSC_LOADRS_SHIFT) .& IA64_RSC_LOADRS_MASK) .& ~64 7 in
  let words := loadrs_bytes >>> 3 in
  mwhen (negb (ar_rsc env .& IA64_RSC_MODE =? 0) ||
         (negb (cfm_sof env =? 0) && negb (loadrs_bytes =? 0)))
    (ia64_raise_exception IA64_EXCP_ILLEGAL fault_ip raw slot) ;;;
  mwhen (IA64_STACKED_GR_COUNT <? ia64_rse_register_words_below (ar_bsp env) words)
    (ia64_raise_exception IA64_EXCP_ILLEGAL fault_ip raw slot) ;;;
  let words_to_load := words - (rse_clean (rse env) + rse_clean_nat (rse env) +
                                rse_dirty (rse env) + rse_dirty_nat (rse env)) in
  (if 0 <=? words_to_load then
     modenv (fun env =>
       set_bspstore_dirty
         (env <| rse; rse_dirty_nat ::= fun n => n + rse_clean_nat (rse env) |>
              <| rse; rse_dirty ::= fun n => n + rse_clean (rse env) |>
              <| rse; rse_clean := 0 |> <| rse; rse_clean_nat := 0 |>)) ;;;
     let! env := getenv in
     loadrs_loop (Z.to_nat words_to_load) (rse_bspload env) fault_ip raw slot
   else
     modenv (fun env =>
       let tear := u64 (ar_bsp env - loadrs_bytes) in
       let env := env <| rse; rse_dirty_nat := (ar_bsp env >>> 9) - (tear >>> 9) |> in
       let env := env <| rse; rse_dirty := words - rse_dirty_nat (rse env) |> in
       let env := set_bspstore_dirty env in
       env <| rse; rse_clean := 0 |> <| rse; rse_clean_nat := 0 |>
           <| rse; rse_invalid := IA64_STACKED_GR_COUNT - (cfm_sof env + rse_dirty (rse env)) |>)) ;;;
  modenv (fun env =>
    let env := ia64_rse_rnat_writeback_capture_loadrs env in
    let env := ia64_rse_rnat_shadow_stash env in
    let env := ia64_rse_load_rnat_stash env UINT64_MAX in
    let env := ia64_rse_rnat_shadow_retain_range env (ar_bspstore env .& ~64 0x1ff) (ar_bsp env) in
    ia64_rse_rnat_detach env false).

(** [mov ar.bspstore = value], in [ia64_system_write_ar]. *)
Definition write_ar_bspstore (value : Z) (env : CPUIA64State) : CPUIA64State :=
  let value := value .& ~64 7 in
  let env := env <| ar @ IA64_AR_BSPSTORE := value |> in
  let dirty := Z.max (rse_dirty (rse env)) 0 in
  let env := ia64_rse_rnat_undefined env in
  let env := env <| rse; rse_dirty_nat := ia64_rse_nat_words_grow value dirty |> in
  let env := env <| ar @ IA64_AR_BSP :=
                      u64 (value + (rse_dirty (rse env) + rse_dirty_nat (rse env)) * 8) |>
                 <| rse; rse_invalid ::= fun n => n + rse_clean (rse env) |>
                 <| rse; rse_clean := 0 |> <| rse; rse_clean_nat := 0 |> in
  ia64_system_reset_dahr env.

(** [ia64_rse_check] finds nothing to report. *)
Definition ia64_rse_check_ok (cc : IA64CPUClass) (env : CPUIA64State) : bool :=
  let r := rse env in
  (cfm_sof env + rse_dirty r + rse_clean r + rse_invalid r =? IA64_STACKED_GR_COUNT) &&
  (ar_bspstore env =? u64 (ar_bsp env - (rse_dirty r + rse_dirty_nat r) * 8)) &&
  (0 <=? rse_clean r) && (0 <=? rse_invalid r) && (rse_bol r <? IA64_STACKED_GR_COUNT) &&
  ia64_cfm_frame_fields_valid (cfm_sof env) (cfm_sol env) (cfm_sor env) &&
  (if truth (cfm_sor env) then cfm_rrb_gr env <? u32 (cfm_sor env <<< 3) else cfm_rrb_gr env =? 0) &&
  (cfm_rrb_fr env <? IA64_ROTATING_FR_COUNT) &&
  (cfm_rrb_pr env <? IA64_PR_COUNT - IA64_PR_ROTATING_BASE) &&
  rnat_check env &&
  (rse_has_clean_partition cc || (rse_clean r =? 0) && (rse_clean_nat r =? 0)) &&
  (if 0 <=? rse_dirty r
   then rse_dirty_nat r =? signed 32 ((ar_bsp env >>> 9) - (ar_bspstore env >>> 9)) else true) &&
  (if (0 <=? rse_clean r) && (0 <=? rse_dirty r) then
     let bspload := u64 (ar_bspstore env - (rse_clean r + rse_clean_nat r) * 8) in
     rse_clean_nat r =? signed 32 ((ar_bspstore env >>> 9) - (bspload >>> 9)) else true).

End ops.

(** ** What the register stack relies on *)

(** The part of the register-stack state that an access, a fault or an
    interruption does not touch: all but the two flags of the access itself. *)
Definition rse_quiet (r : IA64RSEState) : IA64RSEState :=
  r <| rse_cfle := false |> <| rse_access := false |>.

(** The application registers of the register stack. *)
Definition rse_ars (e : CPUIA64State) := (ar_rsc e, ar_bsp e, ar_bspstore e, ar_rnat e, ar_pfs e, length (ar e)).

(** A fault or an interruption leaves the register stack alone.  Interruption
    delivery may switch the banked static registers, and writes the IA-32
    registers back when it interrupts IA-32 code. *)
Record kept (e e' : CPUIA64State) : Prop := {
  k_ar : rse_ars e' = rse_ars e;
  k_cfm : (cfm_sof e', cfm_sol e', cfm_sor e') = (cfm_sof e, cfm_sol e, cfm_sor e);
  k_rrb : (cfm_rrb_gr e', cfm_rrb_fr e', cfm_rrb_pr e') = (cfm_rrb_gr e, cfm_rrb_fr e, cfm_rrb_pr e);
  k_rse : rse_quiet (rse e') = rse_quiet (rse e);
  k_gr_len : length (gr e') = length (gr e);
  k_gr : forall r, 32 <= r < 128 -> aget (gr e') r = aget (gr e) r;
  k_nat_len : bmap (nat_ e) -> bmap (nat_ e');
  k_nat : forall r, 32 <= r < 128 -> bm_get (nat_ e') r = bm_get (nat_ e) r
}.

Lemma kept_refl e : kept e e.
Proof. by split. Qed.

Lemma kept_trans e1 e2 e3 : kept e1 e2 -> kept e2 e3 -> kept e1 e3.
Proof.
  intros H1 H2. destruct H1 as [A1 A2 A3 A4 A5 A6 A7 A8], H2 as [B1 B2 B3 B4 B5 B6 B7 B8].
  split; [congruence..| | |].
  - intros r Hr. rewrite B6 by done. by apply A6.
  - auto.
  - intros r Hr. rewrite B8 by done. by apply A8.
Qed.

Lemma kept_ars e e' :
  kept e e' ->
  ar_rsc e' = ar_rsc e /\ ar_bsp e' = ar_bsp e /\ ar_bspstore e' = ar_bspstore e /\ ar_rnat e' = ar_rnat e /\
  ar_pfs e' = ar_pfs e /\ length (ar e') = length (ar e).
Proof. intros [E _ _ _ _ _ _ _]. unfold rse_ars in E. by injection E. Qed.

Section laws.
Context {W : Type} `{World : RseWorld W}.

(** The state a fault leaves: the processor's register stack and the backing
    store are as they were. *)
Definition faulted (mem : W -> bool -> Z -> Z -> Z) (s s' : rse_sys W) : Prop :=
  kept (senv s) (senv s') /\
  forall be idx a, mem (sys_world s') be idx a = mem (sys_world s) be idx a.

End laws.

(** [rse_mem w big_endian mmu_idx addr] is the doubleword that the register
    stack reads at [addr].  Loads read it, a store changes one doubleword of it
    and may remove ALAT entries, a failed access changes nothing, and no other
    function of the interface changes it. *)
Class RseWorldLaws (W : Type) `{World : RseWorld W} : Type := {
  rse_mem : W -> bool -> Z -> Z -> Z;
  mem_u64 w be idx a : uint 64 (rse_mem w be idx a);
  debug_law a is_write s :
    ensures (ia64_mmu_check_data_debug a is_write s) (fun _ s' => s' = s) (fun _ => faulted rse_mem s);
  load_law a be idx s :
    ensures (ia64_exec_load_mmuidx a be idx s)
      (fun v s' => v = rse_mem (sys_world s) be idx a /\ sys_cpu s' = sys_cpu s /\
         forall be idx a, rse_mem (sys_world s') be idx a = rse_mem (sys_world s) be idx a)
      (fun _ => faulted rse_mem s);
  store_law a v be idx s :
    ensures (ia64_exec_store_mmuidx a v be idx s)
      (fun _ s' => (exists t, sys_cpu s' = (sys_cpu s) <| env; alat_state := t |>) /\
         (uint 64 v -> uint 64 a -> a mod 8 = 0 -> forall a', uint 64 a' -> a' mod 8 = 0 ->
           rse_mem (sys_world s') be idx a' =
           if a' =? a then v else rse_mem (sys_world s) be idx a'))
      (fun _ => faulted rse_mem s);
  probe_law a be idx s :
    ensures (exec_probe_store a be idx s)
      (fun r s' => (r = Some (rse_mem (sys_world s) be idx a) \/ r = None) /\
         sys_cpu s' = sys_cpu s /\
         forall be idx a, rse_mem (sys_world s') be idx a = rse_mem (sys_world s) be idx a)
      (fun _ => faulted rse_mem s);
  flush_law s :
    sys_cpu (ia64_flush_suppressed_tlb s) = sys_cpu s /\
    forall be idx a, rse_mem (sys_world (ia64_flush_suppressed_tlb s)) be idx a =
      rse_mem (sys_world s) be idx a;
  purges_law s :
    sys_cpu (complete_pending_purges s) = sys_cpu s /\
    forall be idx a, rse_mem (sys_world (complete_pending_purges s)) be idx a = rse_mem (sys_world s) be idx a;
  translations_law s :
    sys_cpu (flush_translations s) = sys_cpu s /\
    forall be idx a, rse_mem (sys_world (flush_translations s)) be idx a = rse_mem (sys_world s) be idx a;
  interrupt_law s : faulted rse_mem s (deliver_external_interrupt s)
}.

Section accesses.
Context {W : Type} `{World : RseWorld W} `{Laws : !RseWorldLaws W}.

Abbreviation mem s := (rse_mem (sys_world s)).

(** The backing store as the register stack now addresses it. *)
Definition bmem (s : rse_sys W) (a : Z) : Z :=
  mem s (rse_big_endian (senv s)) (ia64_rse_mmu_index (senv s)) a.

(** An access that has succeeded: the register stack is untouched, and the
    next access goes the same way. *)
Definition accessed (s s' : rse_sys W) : Prop :=
  kept (senv s) (senv s') /\ rse_big_endian (senv s') = rse_big_endian (senv s) /\
  ia64_rse_mmu_index (senv s') = ia64_rse_mmu_index (senv s).

Lemma accessed_refl s : accessed s s.
Proof. split_and!; [apply kept_refl|done|done]. Qed.

Lemma kept_access e b : kept e (e <| rse; rse_access := b |>).
Proof. by split. Qed.

Lemma kept_psr e p : kept e (e <| psr := p |>).
Proof. by split. Qed.

Lemma kept_alat e t : kept e (e <| alat_state := t |>).
Proof. by split. Qed.

Lemma clear_suppress_rt p :
  truth ((p .& ~64 (IA64_PSR_DA .| IA64_PSR_DD)) .& IA64_PSR_RT) = truth (p .& IA64_PSR_RT).
Proof.
  change IA64_PSR_RT with (2 ^ 27). rewrite !truth_land_pow2 by lia.
  rewrite Z.land_spec, wnot_spec by lia. change (Z.testbit (IA64_PSR_DA .| IA64_PSR_DD) 27) with false.
  by rewrite andb_true_r.
Qed.

Lemma complete_reference_spec s :
  ensures (ia64_rse_complete_memory_reference s)
    (fun _ s' => senv s' = (senv s) <| psr := psr (senv s) .& ~64 (IA64_PSR_DA .| IA64_PSR_DD) |> /\
       forall be idx a, mem s' be idx a = mem s be idx a)
    (fun _ _ => False).
Proof.
  unfold ia64_rse_complete_memory_reference, mbind, getenv, mget, modenv, mmod, mwhen.
  destruct (truth (psr (senv s) .& IA64_PSR_DA)); cbn [ensures].
  - match goal with |- context [ia64_flush_suppressed_tlb ?t] => destruct (flush_law t) as [E Hm] end.
    rewrite E. split; [reflexivity|]. intros. by rewrite Hm.
  - split; [reflexivity|done].
Qed.

Abbreviation fault s := (fun _ : cpu_exit => faulted rse_mem s).

Lemma faulted_refl s : faulted rse_mem s s.
Proof. split; [apply kept_refl|done]. Qed.

Lemma faulted_trans s1 s2 s3 : faulted rse_mem s1 s2 -> faulted rse_mem s2 s3 -> faulted rse_mem s1 s3.
Proof.
  intros [Hk Hm] [Hk' Hm']. split; [by eapply kept_trans|]. intros. by rewrite Hm', Hm.
Qed.

Lemma faulted_begin s s' :
  faulted rse_mem (s <| sys_cpu; env ::= ia64_rse_access_begin |>) s' -> faulted rse_mem s s'.
Proof. apply faulted_trans. split; [apply kept_access|done]. Qed.

Lemma ensures_getenv {A} (k : CPUIA64State -> RM W A) s P Q :
  ensures (k (senv s) s) P Q -> ensures (mbind getenv k s) P Q.
Proof. done. Qed.

Lemma ensures_modenv {A} f (k : unit -> RM W A) s P Q :
  ensures (k tt (s <| sys_cpu; env ::= f |>)) P Q -> ensures (mbind (modenv f) k s) P Q.
Proof. done. Qed.

Lemma ensures_ret {A} (a : A) (s : rse_sys W) (P : A -> rse_sys W -> Prop) (Q : cpu_exit -> rse_sys W -> Prop) :
  P a s -> ensures (mret a s) P Q.
Proof. done. Qed.

Lemma ensures_bind_ret {A} (m : RM W A) s P Q : ensures (mbind m mret s) P Q -> ensures (m s) P Q.
Proof. unfold mbind. by destruct (m s). Qed.

Lemma ensures_bind_assoc {A B C} (m : RM W A) (k : A -> RM W B) (l : B -> RM W C) s P Q :
  ensures (mbind m (fun a => mbind (k a) l) s) P Q -> ensures (mbind (mbind m k) l s) P Q.
Proof. unfold mbind. by destruct (m s). Qed.

Lemma ensures_access_end {A} (k : unit -> RM W A) s s2 t P :
  senv s2 = (senv s) <| rse; rse_access := true |> <| alat_state := t |> ->
  (forall s', accessed s s' -> (forall be idx a, mem s' be idx a = mem s2 be idx a) ->
     ensures (k tt s') P (fault s)) ->
  ensures (mbind (modenv ia64_rse_access_end)
             (fun _ => mbind ia64_rse_complete_memory_reference k) s2) P (fault s).
Proof.
  intros E2 Hk. apply ensures_modenv. set (s3 := s2 <| sys_cpu; env ::= ia64_rse_access_end |>).
  assert (E3 : senv s3 = (senv s) <| rse; rse_access := false |> <| alat_state := t |>).
  { change (senv s3) with (ia64_rse_access_end (senv s2)). by rewrite E2. }
  eapply ensures_bind.
  { eapply ensures_mono; [apply (complete_reference_spec s3)|intros u s' H; exact H|done]. }
  intros [] s4 [He Hm']. rewrite E3 in He. apply Hk.
  - split_and!; rewrite He.
    + eapply kept_trans; [apply kept_access|]. eapply kept_trans; [apply kept_alat|apply kept_psr].
    + done.
    + unfold ia64_rse_mmu_index. cbn [psr upd]. by rewrite clear_suppress_rt.
  - intros. by rewrite Hm'.
Qed.

Lemma read_u64_spec a s :
  ensures (ia64_rse_read_u64 a s)
    (fun v s' => v = bmem s a /\ accessed s s' /\
       forall be idx a, mem s' be idx a = mem s be idx a)
    (fault s).
Proof.
  unfold ia64_rse_read_u64. apply ensures_getenv. eapply ensures_bind; [apply debug_law|].
  intros ? s0 ->. apply ensures_modenv. set (s1 := s <| sys_cpu; env ::= ia64_rse_access_begin |>).
  apply ensures_getenv. eapply ensures_bind.
  { eapply ensures_mono; [apply load_law|intros v s' H; exact H|]. intros ? s'. apply faulted_begin. }
  intros v s2 (Hv & Hcpu & Hm). apply (ensures_access_end _ s _ (alat_state (senv s))).
  { rewrite Hcpu. by destruct s as [[[]] ?]. }
  intros s' Hacc Hm'. apply ensures_ret. split_and!; [done|done|]. intros. rewrite Hm'. apply Hm.
Qed.

Lemma store_spec a v be idx s :
  uint 64 v -> uint 64 a -> a mod 8 = 0 ->
  ensures (ia64_exec_store_mmuidx a v be idx s)
    (fun _ s' => (exists t, sys_cpu s' = (sys_cpu s) <| env; alat_state := t |>) /\
       forall a', uint 64 a' -> a' mod 8 = 0 ->
         rse_mem (sys_world s') be idx a' = if a' =? a then v else rse_mem (sys_world s) be idx a')
    (fun _ => faulted rse_mem s).
Proof.
  intros Hv Ha Ha8. eapply ensures_mono; [apply store_law| |done]. intros u s' [Ht Hm]. split; [done|]. by apply Hm.
Qed.

Lemma write_u64_spec a v s :
  uint 64 v -> uint 64 a -> a mod 8 = 0 ->
  ensures (ia64_rse_write_u64 a v s)
    (fun _ s' => accessed s s' /\
       forall a', uint 64 a' -> a' mod 8 = 0 -> bmem s' a' = if a' =? a then v else bmem s a')
    (fault s).
Proof.
  intros Hv Ha Ha8. unfold ia64_rse_write_u64. apply ensures_getenv.
  eapply ensures_bind; [apply debug_law|].
  intros ? s0 ->. apply ensures_modenv. set (s1 := s <| sys_cpu; env ::= ia64_rse_access_begin |>).
  apply ensures_getenv. eapply ensures_bind.
  { eapply ensures_mono; [by apply store_spec|intros u s' H; exact H|]. intros ? s'. apply faulted_begin. }
  intros u s2 ((t & Hcpu) & Hm). apply ensures_bind_ret, ensures_bind_assoc.
  apply (ensures_access_end _ s _ t).
  { rewrite Hcpu. by destruct s as [[[]] ?]. }
  intros s' (Hk & Hbe & Hidx) Hm'. apply ensures_ret. split; [done|]. intros a' Ha' Ha8'. unfold bmem.
  rewrite Hm', Hbe, Hidx. by rewrite Hm.
Qed.

Lemma probe_bits (r : option Z) old defined value i :
  0 <= i < 63 ->
  let v := (((match r with Some o => o | None => 0 end) .& ~64 defined) .| (value .& defined)) .& INT64_MAX in
  (r = Some old \/ r = None) ->
  (Z.testbit defined i = true -> Z.testbit v i = Z.testbit value i) /\
  (Z.testbit defined i = false -> Z.testbit v i = Z.testbit old i \/ Z.testbit v i = false).
Proof.
  intros Hi v Hr. unfold v. rewrite land_INT64_MAX, Z.lor_spec, !Z.land_spec, wnot_spec by lia.
  destruct (Z.ltb_spec i 64); [|lia]. cbn [andb].
  destruct Hr as [->| ->]; rewrite ?Z.testbit_0_l; split; intros ->; cbn [negb];
    rewrite ?andb_true_r, ?andb_false_r, ?orb_false_r; auto.
Qed.

(** The defined bits are written; the others keep the bits of the backing
    store, if it is RAM. *)
Lemma store_collection_spec a value defined be idx s :
  uint 64 a -> a mod 8 = 0 -> uint 63 defined ->
  ensures (ia64_exec_rse_store_collection a value defined be idx s)
    (fun v s' => uint 63 v /\
       (forall i, 0 <= i < 63 ->
         (Z.testbit defined i = true -> Z.testbit v i = Z.testbit value i) /\
         (Z.testbit defined i = false -> Z.testbit v i = Z.testbit (mem s be idx a) i \/ Z.testbit v i = false)) /\
       (exists t, sys_cpu s' = (sys_cpu s) <| env; alat_state := t |>) /\
       forall a', uint 64 a' -> a' mod 8 = 0 ->
           mem s' be idx a' = if a' =? a then v else mem s be idx a')
    (fault s).
Proof.
  intros Ha Ha8 Hd. unfold ia64_exec_rse_store_collection.
  replace (a .& 7) with 0 by (change 7 with (2 ^ 3 - 1); by rewrite land_mask).
  cbn [Z.eqb negb]. cbv zeta. rewrite (uint63_land_id defined) by done.
  destruct (Z.eqb_spec defined INT64_MAX) as [->|_].
  - eapply ensures_bind.
    { apply store_spec; [|done|done]. apply uint63_64, uint63_land. }
    intros u s' [Hcpu Hm]. apply ensures_ret. split_and!; [apply uint63_land| |done|done].
    intros i Hi. rewrite land_INT64_MAX by done. split; [done|].
    rewrite INT64_MAX_ones, ones_spec by lia. destruct (Z.ltb_spec i 63); [done|lia].
  - eapply ensures_bind; [apply probe_law|]. intros r s1 (Hr & Hcpu1 & Hm1).
    eapply ensures_bind.
    { eapply ensures_mono; [apply store_spec; [apply uint63_64, uint63_land|done|done]|intros u s' H; exact H|].
      intros ? s' [Hk Hm]. split; [by rewrite <- Hcpu1|]. intros. by rewrite Hm, Hm1. }
    intros u s' [Hcpu Hm]. apply ensures_ret. split_and!; [apply uint63_land| | |].
    + intros i Hi. by apply (probe_bits r (mem s be idx a)).
    + destruct Hcpu as [t Hcpu]. exists t. by rewrite Hcpu, Hcpu1.
    + intros a' Ha' Ha8'. rewrite Hm by done. by rewrite Hm1.
Qed.

Lemma write_collection_spec a value defined s :
  uint 64 a -> a mod 8 = 0 -> uint 63 defined ->
  ensures (ia64_rse_write_collection a value defined s)
    (fun v s' => uint 63 v /\
       (forall i, 0 <= i < 63 ->
         (Z.testbit defined i = true -> Z.testbit v i = Z.testbit value i) /\
         (Z.testbit defined i = false -> Z.testbit v i = Z.testbit (bmem s a) i \/ Z.testbit v i = false)) /\
       accessed s s' /\
       forall a', uint 64 a' -> a' mod 8 = 0 -> bmem s' a' = if a' =? a then v else bmem s a')
    (fault s).
Proof.
  intros Ha Ha8 Hd. unfold ia64_rse_write_collection. apply ensures_getenv.
  eapply ensures_bind; [apply debug_law|].
  intros ? s0 ->. apply ensures_modenv. set (s1 := s <| sys_cpu; env ::= ia64_rse_access_begin |>).
  apply ensures_getenv. eapply ensures_bind.
  { eapply ensures_mono; [by apply store_collection_spec|intros u s' H; exact H|].
    intros ? s'. apply faulted_begin. }
  intros v s2 (Hv & Hbits & (t & Hcpu) & Hm). apply (ensures_access_end _ s _ t).
  { rewrite Hcpu. by destruct s as [[[]] ?]. }
  intros s' (Hk & Hbe & Hidx) Hm'. apply ensures_ret. split_and!; [done|done|done|].
  intros a' Ha' Ha8'. unfold bmem. rewrite Hm', Hbe, Hidx. by rewrite Hm.
Qed.

Lemma interrupt_window_spec s :
  ensures (ia64_rse_interrupt_window s) (fun _ s' => s' = s) (fault s).
Proof. unfold ia64_rse_interrupt_window. case_match; [done|]. apply interrupt_law. Qed.

End accesses.

(** ** A machine

    A flat memory with a page fault after a given number of accesses, which
    the handler repairs: the concrete machine of the witnesses. *)
Record flat : Type := mkFlat {
  words : list (Z * Z);
  until_fault : option nat
}.

#[export] Instance eta_flat : Eta flat := fun s =>
  mkFlat (words s) (until_fault s).

Fixpoint find_word (l : list (Z * Z)) (a : Z) : Z :=
  match l with
  | [] => 0
  | (k, v) :: l => if a =? k then u64 v else find_word l a
  end.

Definition flat_word (w : flat) (a : Z) : Z := find_word (words w) a.

(** The next access faults, or it is counted. *)
Definition flat_tick {A} (k : flat -> A * flat) (s : rse_sys flat) : outcome cpu_exit (rse_sys flat) A :=
  match until_fault (sys_world s) with
  | Some O => Raise (Exit IA64_EXCP_DTLB_FAULT) (s <| sys_world ::= fun w => w <| until_fault := None |> |>)
  | n => let (a, w) := k (sys_world s) in Ok a (s <| sys_world := w <| until_fault := pred <$> n |> |>)
  end.

Definition flat_class (has_clean : bool) : IA64CPUClass := mkCPUClass has_clean false 60 50.

Definition flat_world (has_clean : bool) : RseWorld flat := {|
  cpu_class := flat_class has_clean;
  ia64_mmu_check_data_debug := fun _ _ s => Ok tt s;
  ia64_exec_load_mmuidx := fun a _ _ => flat_tick (fun w => (flat_word w a, w));
  ia64_exec_store_mmuidx := fun a v _ _ => flat_tick (fun w => (tt, w <| words ::= fun l => (a, v) :: l |>));
  exec_probe_store := fun a _ _ s => Ok (Some (flat_word (sys_world s) a)) s;
  ia64_flush_suppressed_tlb := id;
  deliver_external_interrupt := id;
  ia32_interruptible := fun _ => true;
  ia64_ia32_enter := id;
  complete_pending_purges := id;
  flush_translations := id;
  alat_memory_generation := fun _ => 0
|}.

Lemma flat_word_u64 w a : uint 64 (flat_word w a).
Proof.
  unfold flat_word. induction (words w) as [|[k v] l IH]; cbn [find_word]; [uint_const|].
  case_match; [apply uint_wrap; lia|done].
Qed.

Lemma flat_tick_spec {A} (k : flat -> A * flat) s (P : A -> rse_sys flat -> Prop) :
  (let (a, w) := k (sys_world s) in
   forall n, P a (s <| sys_world := w <| until_fault := n |> |>)) ->
  ensures (flat_tick k s) P (fun _ s' => faulted (fun w _ _ a => flat_word w a) s s').
Proof.
  intros HP. unfold flat_tick. destruct (until_fault (sys_world s)) as [[|n]|].
  - split; [apply kept_refl|done].
  - destruct (k (sys_world s)). apply HP.
  - destruct (k (sys_world s)). apply HP.
Qed.

#[export] Instance flat_laws has_clean : @RseWorldLaws flat (flat_world has_clean).
Proof.
  refine {| rse_mem := fun w _ _ a => flat_word w a |}.
  - intros. apply flat_word_u64.
  - done.
  - intros. apply flat_tick_spec. done.
  - intros a v be idx s. apply flat_tick_spec. intros n.
    split; [exists (alat_state (senv s)); by destruct s as [[[]] ?]|]. intros Hv Ha Ha8 a' _ _.
    change ((if a' =? a then u64 v else flat_word (sys_world s) a') =
            if a' =? a then v else flat_word (sys_world s) a').
    by rewrite wrap_small.
  - intros. split; [by left|done].
  - done.
  - done.
  - done.
  - intros. split; [apply kept_refl|done].
Defined.
