(* ===== verification/RsePart.v ===== *)
(** * The register stack: partitions

    The invariant of the register stack engine.  The physical file is divided
    into the current frame and the dirty, clean and invalid partitions; the
    backing-store pointers and the counts of NaT collection words follow from
    the position of the frame.  [RseSteps] to [RseAlloc] show that the spills,
    fills, calls, returns, [alloc], [cover] and [flushrs] keep the invariant,
    whether they return or leave by a fault or an interrupt; the invariant
    implies that [ia64_rse_check] finds nothing to report. *)
From stdpp Require Import list.
From S2P Require Import Prelude Arch Env Alat Registers Interrupt RseMap RseRnat RseOps.
Local Open Scope Z_scope.

(** ** Positions

    Registers of the backing store are counted from address 0, see
    [RseMap.bs_addr].  A boundary between two words is a register [j] with a
    flag [b]: the word that begins there is register [j] when [b] is 0, and
    the NaT collection word before it when [b] is 1. *)
Definition boundary (j b : Z) : Prop := b = 0 \/ b = 1 /\ j mod 63 = 0 /\ 63 <= j.

Definition word_at (j b : Z) : Z := j + j / 63 - b.

(** [d] and [dn] are the dirty registers and collection words, [c] and [cn]
    the clean ones, [v] the invalid registers; the frame of [sof] registers
    begins at register [K].  A frame is incomplete when [d] is negative. *)
Definition store_flag (K d dn : Z) : Z := dn - (K / 63 - (K - d) / 63).
Definition load_flag (K d dn c cn : Z) : Z :=
  cn - ((K - d) / 63 - store_flag K d dn) + (K - d - c) / 63.

Record part_ok (clean : bool) (K sof d dn c cn v bsp bspstore : Z) : Prop := {
  po_sum : sof + d + c + v = 96;
  po_sof : 0 <= sof <= 96;
  po_d : - sof <= d;
  po_c : 0 <= c /\ 0 <= cn;
  po_v : 0 <= v;
  po_low : 0 <= K - d - c /\ 0 <= K;
  po_high : (K + sof) + (K + sof) / 63 < 2 ^ 61 - 1;
  po_bsp : bsp = 8 * (K + K / 63);
  po_bspstore : bspstore = bsp - 8 * (d + dn);
  po_store : boundary (K - d) (store_flag K d dn);
  po_load : boundary (K - d - c) (load_flag K d dn c cn);
  po_noclean : clean = false -> c = 0 /\ cn = 0;
  po_incomplete : d < 0 -> c = 0 /\ cn = 0
}.

Lemma div63_step j : (j + 1) / 63 = if (j + 1) mod 63 =? 0 then j / 63 + 1 else j / 63.
Proof.
  pose proof (Z.div_mod j 63 ltac:(lia)). pose proof (Z.mod_pos_bound j 63 ltac:(lia)).
  pose proof (Z.div_mod (j + 1) 63 ltac:(lia)). pose proof (Z.mod_pos_bound (j + 1) 63 ltac:(lia)).
  destruct (Z.eqb_spec ((j + 1) mod 63) 0); lia.
Qed.

Ltac div63 t :=
  let q := fresh "q" in let r := fresh "r" in
  pose proof (Z.div_mod t 63 ltac:(lia)); pose proof (Z.mod_pos_bound t 63 ltac:(lia));
  set (q := t / 63) in *; set (r := t mod 63) in *; clearbody q r.

(** The word index of a boundary modulo a group: a collection word is the
    64th of its group. *)
Lemma word_at_bit j b :
  boundary j b -> word_at j b mod 64 = if b =? 1 then 63 else j mod 63.
Proof.
  intros Hb. unfold word_at. pose proof (Z.div_mod j 63 ltac:(lia)) as E.
  pose proof (Z.mod_pos_bound j 63 ltac:(lia)). destruct Hb as [->|(-> & Hm & Hge)].
  - change (0 =? 1) with false. cbv iota. symmetry. apply Z.mod_unique with (j / 63); lia.
  - change (1 =? 1) with true. cbv iota. symmetry. apply Z.mod_unique with (j / 63 - 1); lia.
Qed.

Lemma word_at_group j b : boundary j b -> word_at j b / 64 = j / 63 - b.
Proof.
  intros Hb. unfold word_at. pose proof (Z.div_mod j 63 ltac:(lia)) as E.
  pose proof (Z.mod_pos_bound j 63 ltac:(lia)). symmetry. destruct Hb as [->|(-> & Hm & Hge)].
  - apply Z.div_unique with (j mod 63); lia.
  - apply Z.div_unique with 63; lia.
Qed.

Section part.
Context {clean : bool} {K sof d dn c cn v bsp bspstore : Z}.
Context (P : part_ok clean K sof d dn c cn v bsp bspstore).

Lemma part_words :
  bspstore = 8 * word_at (K - d) (store_flag K d dn) /\
  bsp - 8 * (c + cn + d + dn) = 8 * word_at (K - d - c) (load_flag K d dn c cn).
Proof.
  destruct P. unfold word_at, load_flag, store_flag. lia.
Qed.

Lemma word_at_range j b : boundary j b -> 0 <= j <= K + sof -> 0 <= 8 * word_at j b < 2 ^ 64 - 8.
Proof.
  intros Hb Hj. destruct P as [_ _ _ _ _ _ Hh _ _ _ _ _ _].
  assert (j / 63 <= (K + sof) / 63) by (apply Z.div_le_mono; lia).
  assert (0 <= j / 63) by (apply Z.div_pos; lia).
  change (2 ^ 61) with 2305843009213693952 in Hh. change (2 ^ 64) with 18446744073709551616.
  unfold word_at. destruct Hb as [->|(-> & _ & ?)]; lia.
Qed.

Lemma part_store_range : 0 <= K - d <= K + sof.
Proof. destruct P. lia. Qed.

Lemma part_bspstore_u64 : uint 64 bspstore /\ uint 64 bsp /\ uint 64 (bspstore + 8).
Proof.
  destruct part_words as [E _]. destruct P.
  pose proof (word_at_range (K - d) _ po_store0 part_store_range).
  pose proof (word_at_range K 0 (or_introl eq_refl) ltac:(lia)). unfold word_at in *.
  unfold uint. lia.
Qed.

Lemma part_bspstore_aligned : bspstore mod 8 = 0.
Proof.
  destruct part_words as [-> _]. rewrite Z.mul_comm. apply Z.mod_mul. lia.
Qed.

Lemma part_store_bit :
  ia64_rse_collect_bit bspstore = if store_flag K d dn =? 1 then 63 else (K - d) mod 63.
Proof.
  destruct part_words as [-> _]. rewrite collect_bit_spec.
  rewrite (Z.mul_comm 8), Z.div_mul by lia. apply word_at_bit. by destruct P.
Qed.

(** Where the next register or collection is stored. *)
Lemma part_store_kind :
  (ia64_rse_collect_bit bspstore = 63 /\ store_flag K d dn = 1) \/
  (ia64_rse_collect_bit bspstore = (K - d) mod 63 /\ store_flag K d dn = 0 /\
   bspstore = bs_addr (K - d)).
Proof.
  rewrite part_store_bit. destruct part_bspstore_u64 as [Hu _]. destruct part_words as [E _].
  destruct (po_store _ _ _ _ _ _ _ _ _ _ P) as [Hf|(Hf & _)]; rewrite Hf; [right|by left].
  rewrite Hf in E. unfold word_at in E. split_and!; [done|done|]. unfold bs_addr.
  rewrite wrap_small; [lia|]. by replace (8 * (K - d + (K - d) / 63)) with bspstore by lia.
Qed.

Lemma part_store_register :
  store_flag K d dn = 0 -> 0 < d + dn -> 0 <= d ->
  0 < d /\
  part_ok clean K sof (d - 1) dn (if clean then c + 1 else c) cn (if clean then v else v + 1)
    bsp (bspstore + 8).
Proof.
  destruct P. intros Hf Hpos Hd.
  assert (Hd1 : 0 < d).
  { destruct (Z.eq_dec d 0) as [->|]; [|lia]. unfold store_flag in Hf. rewrite Z.sub_0_r in Hf. lia. }
  split; [done|].
  assert (Hstep : (K - (d - 1)) / 63 = if (K - (d - 1)) mod 63 =? 0 then (K - d) / 63 + 1 else (K - d) / 63).
  { replace (K - (d - 1)) with (K - d + 1) by lia. apply div63_step. }
  assert (Hflag : store_flag K (d - 1) dn = if (K - (d - 1)) mod 63 =? 0 then 1 else 0).
  { unfold store_flag in *. rewrite Hstep. destruct (_ =? 0); lia. }
  assert (Hb : boundary (K - (d - 1)) (store_flag K (d - 1) dn)).
  { rewrite Hflag. destruct (Z.eqb_spec ((K - (d - 1)) mod 63) 0) as [E|]; [right|by left].
    split_and!; [done|done|]. apply Z.mod_divide in E; [|lia]. destruct E as [m Em]. lia. }
  destruct clean.
  - split; try done; try lia.
    replace (load_flag K (d - 1) dn (c + 1) cn) with (load_flag K d dn c cn).
    + by replace (K - (d - 1) - (c + 1)) with (K - d - c) by lia.
    + unfold load_flag. replace (K - (d - 1) - (c + 1)) with (K - d - c) by lia.
      rewrite Hflag, Hstep, Hf. destruct (_ =? 0); lia.
  - destruct (po_noclean0 eq_refl) as [-> ->]. split; try done; try lia.
    replace (load_flag K (d - 1) dn 0 0) with (store_flag K (d - 1) dn)
      by (unfold load_flag; rewrite Z.sub_0_r; lia).
    by rewrite Z.sub_0_r.
Qed.

Lemma part_store_collection :
  store_flag K d dn = 1 -> 0 <= d ->
  part_ok clean K sof d (dn - 1) c (if clean then cn + 1 else cn) v bsp (bspstore + 8).
Proof.
  destruct P. intros Hf Hd.
  assert (Hflag : store_flag K d (dn - 1) = 0) by (unfold store_flag in *; lia).
  assert (Hload : load_flag K d (dn - 1) c (if clean then cn + 1 else cn) =
    if clean then load_flag K d dn c cn else 0).
  { unfold load_flag. rewrite Hflag, Hf. destruct clean; [lia|].
    destruct (po_noclean0 eq_refl) as [-> ->]. replace (K - d - 0) with (K - d) by lia. lia. }
  split; try done; try lia.
  - destruct clean; lia.
  - left. done.
  - rewrite Hload. destruct clean; [done|by left].
  - intros ->. by apply po_noclean0.
Qed.

(** The word below the dirty partition, when there are no clean registers: a
    NaT collection, or the register before the partition. *)
Lemma part_below :
  c = 0 -> cn = 0 -> 1 <= K - d ->
  (store_flag K d dn = 0 /\ (K - d) mod 63 = 0 /\ 63 <= K - d /\
   ia64_rse_collect_bit (bspstore - 8) = 63) \/
  ((store_flag K d dn = 1 \/ (K - d) mod 63 <> 0) /\
   ia64_rse_collect_bit (bspstore - 8) = (K - d - 1) mod 63 /\
   bspstore - 8 = bs_addr (K - d - 1) /\ store_flag K (d + 1) dn = 0).
Proof.
  intros Hc Hcn Hlow. destruct part_words as [E _]. set (f := store_flag K d dn) in *.
  assert (Hbit : forall j b, boundary j b -> bspstore - 8 = 8 * word_at j b ->
    ia64_rse_collect_bit (bspstore - 8) = if b =? 1 then 63 else j mod 63).
  { intros j b Hb ->. rewrite collect_bit_spec, (Z.mul_comm 8), Z.div_mul by lia. by apply word_at_bit. }
  pose proof (div63_step (K - d - 1)) as Hstep. replace (K - d - 1 + 1) with (K - d) in Hstep by lia.
  destruct (po_store _ _ _ _ _ _ _ _ _ _ P) as [Hf|(Hf & Hm & Hge)]; fold f in Hf.
  - destruct (Z.eqb_spec ((K - d) mod 63) 0) as [Hm|Hm].
    + left. assert (63 <= K - d) by (apply Z.mod_divide in Hm as [m Hm]; lia).
      split_and!; [done|done|done|]. apply (Hbit (K - d) 1); [by right|].
      unfold word_at in *. lia.
    + right. split; [by right|].
      assert (E1 : bspstore - 8 = 8 * word_at (K - d - 1) 0) by (unfold word_at in *; lia).
      split_and!; [apply (Hbit (K - d - 1) 0); [by left|done]| |].
      * unfold bs_addr. rewrite wrap_small; [unfold word_at in E1; lia|].
        pose proof (word_at_range (K - d - 1) 0 (or_introl eq_refl)
          ltac:(pose proof part_store_range; lia)). unfold word_at, uint in *. lia.
      * unfold f, store_flag in *. replace (K - (d + 1)) with (K - d - 1) by lia. lia.
  - destruct (Z.eqb_spec ((K - d) mod 63) 0); [|done]. right. split; [by left|].
    assert (E1 : bspstore - 8 = 8 * word_at (K - d - 1) 0) by (unfold word_at in *; lia).
    split_and!; [apply (Hbit (K - d - 1) 0); [by left|done]| |].
    + unfold bs_addr. rewrite wrap_small; [unfold word_at in E1; lia|].
      pose proof (word_at_range (K - d - 1) 0 (or_introl eq_refl)
        ltac:(pose proof part_store_range; lia)). unfold word_at, uint in *. lia.
    + unfold f, store_flag in *. replace (K - (d + 1)) with (K - d - 1) by lia. lia.
Qed.

Lemma part_fill_collection :
  c = 0 -> cn = 0 -> store_flag K d dn = 0 -> (K - d) mod 63 = 0 -> 63 <= K - d ->
  part_ok clean K sof d (dn + 1) 0 0 v bsp (bspstore - 8).
Proof.
  intros -> -> Hf Hm Hge. destruct P.
  assert (Hflag : store_flag K d (dn + 1) = 1) by (unfold store_flag in *; lia).
  assert (Hload : load_flag K d (dn + 1) 0 0 = 1).
  { unfold load_flag. rewrite Hflag. replace (K - d - 0) with (K - d) by lia. lia. }
  split; try done; try lia.
  - by right.
  - rewrite Hload. replace (K - d - 0) with (K - d) by lia. by right.
Qed.

Lemma part_fill_register :
  c = 0 -> cn = 0 -> 1 <= K - d -> 0 < v -> store_flag K (d + 1) dn = 0 ->
  part_ok clean K sof (d + 1) dn 0 0 (v - 1) bsp (bspstore - 8).
Proof.
  intros -> -> Hlow Hv Hflag. destruct P.
  assert (Hload : load_flag K (d + 1) dn 0 0 = 0).
  { unfold load_flag. rewrite Hflag. replace (K - (d + 1) - 0) with (K - (d + 1)) by lia. lia. }
  split; try done; try lia.
  - by left.
  - by left.
Qed.

(** A complete frame leaves no collection word to load. *)
Lemma part_complete : 0 <= d -> 0 <= dn.
Proof.
  intros Hd. destruct P. assert ((K - d) / 63 <= K / 63) by (apply Z.div_le_mono; lia).
  unfold store_flag in *. destruct po_store0 as [?|[? _]]; lia.
Qed.

(** An incomplete frame has no dirty collection words, and words are missing. *)
Lemma part_missing : d < 0 -> dn <= 0 /\ 0 < - (d + dn).
Proof.
  intros Hd. destruct P. assert (K / 63 <= (K - d) / 63) by (apply Z.div_le_mono; lia).
  unfold store_flag in *. destruct po_store0 as [?|(? & Hm & ?)]; [lia|].
  assert (K / 63 < (K - d) / 63); [|lia].
  apply Z.mod_divide in Hm as [m Hm]; [|lia]. rewrite Hm, Z.div_mul by lia.
  apply Z.div_lt_upper_bound; lia.
Qed.

Lemma bsp_bs_addr : bsp = bs_addr K.
Proof.
  destruct part_bspstore_u64 as (_ & Hu & _). destruct P. unfold bs_addr. rewrite wrap_small; [done|].
  by rewrite <- po_bsp0.
Qed.

End part.

(** Frames: the numbers of [ia64_rse_preserve_frame], [ia64_rse_new_frame] and
    [ia64_rse_restore_frame]. *)
Section frames.
Context {clean : bool} {K sof d dn c cn v bsp bspstore : Z}.
Context (P : part_ok clean K sof d dn c cn v bsp bspstore).

Lemma part_bsp_u64 k : 0 <= k <= K + sof -> u64 (8 * (k + k / 63)) = 8 * (k + k / 63).
Proof.
  intros Hk. apply wrap_small. pose proof (word_at_range P k 0 (or_introl eq_refl) Hk).
  unfold word_at, uint in *. lia.
Qed.

Lemma part_preserve n :
  0 <= n <= sof ->
  let nats := ia64_rse_nat_words_grow bsp n in
  u64 (bsp + (n + nats) * 8) = 8 * ((K + n) + (K + n) / 63) /\
  part_ok clean (K + n) (sof - n) (d + n) (dn + nats) c cn v (u64 (bsp + (n + nats) * 8)) bspstore.
Proof.
  intros Hn nats. assert (Hnats : nats = (K + n) / 63 - K / 63).
  { unfold nats. destruct P. rewrite (bsp_bs_addr P). apply grow_bs_addr. lia. }
  assert (Hbsp : u64 (bsp + (n + nats) * 8) = 8 * ((K + n) + (K + n) / 63)).
  { rewrite <- (part_bsp_u64 (K + n)) by (destruct P; lia). f_equal. destruct P. lia. }
  split; [done|]. rewrite Hbsp.
  assert (Hf : store_flag (K + n) (d + n) (dn + nats) = store_flag K d dn).
  { unfold store_flag. replace (K + n - (d + n)) with (K - d) by lia. lia. }
  assert (Hl : load_flag (K + n) (d + n) (dn + nats) c cn = load_flag K d dn c cn).
  { unfold load_flag. rewrite Hf. by replace (K + n - (d + n)) with (K - d) by lia. }
  destruct P. split; try done; try lia.
  - by replace (K + n + (sof - n)) with (K + sof) by lia.
  - rewrite Hf. by replace (K + n - (d + n)) with (K - d) by lia.
  - rewrite Hl. by replace (K + n - (d + n)) with (K - d) by lia.
Qed.

(** The new frame's top stays within the address space. *)
Definition top_ok (top : Z) : Prop := top + top / 63 < 2 ^ 61 - 1.

Lemma part_use_invalid g :
  g <= v -> 0 <= sof + g <= 96 -> 0 <= d -> top_ok (K + (sof + g)) ->
  part_ok clean K (sof + g) d dn c cn (v - g) bsp bspstore.
Proof. intros Hg Hs Hd Ht. destruct P. split; try done; lia. Qed.

Lemma part_reuse_clean c' :
  0 <= c' < c -> 0 <= d -> top_ok (K + (96 - d - c')) ->
  part_ok clean K (96 - d - c') d dn c' (ia64_rse_nat_words_shrink bsp (c' + d + 1) - dn) 0 bsp bspstore.
Proof.
  intros Hc' Hd Ht. set (cn' := ia64_rse_nat_words_shrink bsp (c' + d + 1) - dn).
  set (l := K - d - c'). assert (Hcn : cn' = K / 63 - (l - 1) / 63 - dn).
  { unfold cn', l. destruct P. rewrite (bsp_bs_addr P), shrink_bs_addr by lia. do 3 f_equal. lia. }
  pose proof (div63_step (l - 1)) as Hstep. replace (l - 1 + 1) with l in Hstep by lia.
  destruct P. assert (Hl : 1 <= l) by (unfold l; lia).
  assert (Hflag : load_flag K d dn c' cn' = if l mod 63 =? 0 then 1 else 0).
  { unfold load_flag, store_flag. fold l. rewrite Hcn. destruct (l mod 63 =? 0); lia. }
  assert (Hb : boundary l (load_flag K d dn c' cn')).
  { rewrite Hflag. destruct (Z.eqb_spec (l mod 63) 0) as [E|]; [right|by left].
    split_and!; [done|done|]. apply Z.mod_divide in E as [m Em]; lia. }
  split; try done; try lia; try (intros; exfalso; destruct clean; [done|destruct po_noclean0; [done|lia]]).
  split; [lia|]. rewrite Hcn. unfold store_flag in po_store0.
  assert ((l - 1) / 63 <= (K - d) / 63) by (apply Z.div_le_mono; unfold l; lia).
  destruct po_store0 as [?|(? & Hm & ?)]; [lia|].
  assert ((l - 1) / 63 < (K - d) / 63); [|lia]. apply Z.mod_divide in Hm as [m Hm]; [|lia].
  rewrite Hm, Z.div_mul by lia. apply Z.div_lt_upper_bound; unfold l; lia.
Qed.

(** Everything but the dirty registers joins the frame. *)
Lemma part_take_rest :
  0 <= d -> top_ok (K + (96 - d)) -> part_ok clean K (96 - d) d dn 0 0 0 bsp bspstore.
Proof.
  intros Hd Ht. destruct P. split; try done; try lia.
  replace (load_flag K d dn 0 0) with (store_flag K d dn)
    by (unfold load_flag; replace (K - d - 0) with (K - d) by lia; lia).
  by replace (K - d - 0) with (K - d) by lia.
Qed.

(** The frame below: [n] registers are preserved, the new frame has [sof']. *)
Section restore.
Context (n sof' : Z).
Context (Hn : 0 <= n <= K) (Hsof : n <= sof' <= 96) (Hd : 0 <= d).
Context (Htop : top_ok (K - n + sof')).
Let nats := ia64_rse_nat_words_shrink bsp n.
Let growth := sof' - n - sof.
Context (Hgrowth : growth <= v).

Lemma restore_nats : nats = K / 63 - (K - n) / 63.
Proof.
  unfold nats. destruct P. rewrite (bsp_bs_addr P). apply shrink_bs_addr. lia.
Qed.

Lemma restore_bsp : u64 (bsp - (n + nats) * 8) = 8 * ((K - n) + (K - n) / 63).
Proof.
  rewrite <- (part_bsp_u64 (K - n)) by (destruct P; lia). f_equal. pose proof restore_nats.
  destruct P. lia.
Qed.

Lemma part_restore_dirty :
  n <= d ->
  part_ok clean (K - n) sof' (d - n) (dn - nats) c cn (v - growth) (u64 (bsp - (n + nats) * 8)) bspstore.
Proof.
  intros Hnd. rewrite restore_bsp. pose proof restore_nats as Hnats. clearbody nats.
  assert (Hf : store_flag (K - n) (d - n) (dn - nats) = store_flag K d dn).
  { unfold store_flag. replace (K - n - (d - n)) with (K - d) by lia. lia. }
  assert (Hl : load_flag (K - n) (d - n) (dn - nats) c cn = load_flag K d dn c cn).
  { unfold load_flag. rewrite Hf. by replace (K - n - (d - n)) with (K - d) by lia. }
  destruct P. split; try done; try (unfold growth in *; lia).
  - rewrite Hf. by replace (K - n - (d - n)) with (K - d) by lia.
  - rewrite Hl. by replace (K - n - (d - n)) with (K - d) by lia.
Qed.

Lemma part_restore_clean :
  d < n -> n - d <= c ->
  let bsp' := u64 (bsp - (n + nats) * 8) in
  part_ok clean (K - n) sof' 0 0 (c - (n - d)) (cn - (nats - dn)) (v - growth) bsp' bsp'.
Proof.
  intros Hnd Hc. cbv zeta. rewrite restore_bsp. pose proof restore_nats as Hnats. clearbody nats.
  destruct P.
  assert (Hf : store_flag (K - n) 0 0 = 0).
  { unfold store_flag. replace (K - n - 0) with (K - n) by lia. lia. }
  assert (Hl : load_flag (K - n) 0 0 (c - (n - d)) (cn - (nats - dn)) = load_flag K d dn c cn).
  { unfold load_flag. rewrite Hf. unfold store_flag.
    replace (K - n - 0 - (c - (n - d))) with (K - d - c) by lia.
    replace (K - n - 0) with (K - n) by lia. lia. }
  assert (Hcn : 0 <= cn - (nats - dn)).
  { assert ((K - d - c) / 63 <= (K - n) / 63) by (apply Z.div_le_mono; lia).
    unfold load_flag, store_flag in po_load0. destruct po_load0 as [?|[? _]]; lia. }
  split; try done; try (unfold growth in *; lia).
  - left. done.
  - rewrite Hl. by replace (K - n - 0 - (c - (n - d))) with (K - d - c) by lia.
  - intros Hcl. destruct (po_noclean0 Hcl). lia.
Qed.

Lemma part_restore_missing :
  c < n - d ->
  let bsp' := u64 (bsp - (n + nats) * 8) in
  let d' := - (n - d - c) in
  let dn' := - (nats - dn - cn) in
  u64 (bsp' - (d' + dn') * 8) = bsp' - 8 * (d' + dn') /\
  part_ok clean (K - n) sof' d' dn' 0 0 (v - growth) bsp' (u64 (bsp' - (d' + dn') * 8)).
Proof.
  intros Hc. cbv zeta. rewrite restore_bsp. pose proof restore_nats as Hnats. clearbody nats.
  set (d' := - (n - d - c)). set (dn' := - (nats - dn - cn)).
  assert (Ej : K - n - d' = K - d - c) by (unfold d'; lia).
  assert (Hf : store_flag (K - n) d' dn' = load_flag K d dn c cn).
  { unfold load_flag, store_flag. rewrite Ej. unfold dn'. lia. }
  assert (Hst : 8 * (K - n + (K - n) / 63) - 8 * (d' + dn') = 8 * word_at (K - d - c) (load_flag K d dn c cn)).
  { unfold word_at. rewrite <- Hf. unfold store_flag. rewrite Ej. lia. }
  assert (Hu : u64 (8 * (K - n + (K - n) / 63) - (d' + dn') * 8) = 8 * (K - n + (K - n) / 63) - 8 * (d' + dn')).
  { replace (8 * (K - n + (K - n) / 63) - (d' + dn') * 8)
      with (8 * (K - n + (K - n) / 63) - 8 * (d' + dn')) by lia. rewrite Hst. apply wrap_small.
    pose proof (word_at_range P (K - d - c) _ (po_load _ _ _ _ _ _ _ _ _ _ P) ltac:(destruct P; lia)).
    unfold uint. lia. }
  split; [done|]. rewrite Hu. destruct P.
  split; try done; try (unfold d', growth in *; lia).
  - by rewrite Ej, Hf.
  - replace (load_flag (K - n) d' dn' 0 0) with (store_flag (K - n) d' dn')
      by (unfold load_flag; replace (K - n - d' - 0) with (K - n - d') by lia; lia).
    replace (K - n - d' - 0) with (K - n - d') by lia. by rewrite Ej, Hf.
Qed.

End restore.

End frames.

(** ** The invariant *)

Definition part_of (clean : bool) (K : Z) (e : CPUIA64State) : Prop :=
  part_ok clean K (cfm_sof e) (rse_dirty (rse e)) (rse_dirty_nat (rse e)) (rse_clean (rse e))
    (rse_clean_nat (rse e)) (rse_invalid (rse e)) (ar_bsp e) (ar_bspstore e).

Record rse_inv (clean : bool) (K : Z) (e : CPUIA64State) : Prop := {
  ri_views : views_wf e;
  ri_coherent : coherent e;
  ri_part : part_of clean K e;
  ri_rnat : rnat_ok e;
  ri_sol : 0 <= cfm_sol e <= cfm_sof e;
  ri_rrb : 0 <= cfm_rrb_fr e < 96 /\ 0 <= cfm_rrb_pr e < 48;
  ri_pgr : Forall (uint 64) (rse_pgr (rse e));
  ri_gr : forall r, 32 <= r < 128 -> uint 64 (aget (gr e) r)
}.

(** The fields that the collections are made of. *)
Definition rnat_part (e : CPUIA64State) :=
  (length (ar e), ar_rnat e,
   (rse_rnat_addr (rse e), rse_rnat_defined (rse e), rse_writeback_rnat (rse e)),
   (rse_load_rnat (rse e), rse_load_rnat_addr (rse e), rse_load_rnat_defined (rse e),
    rse_load_rnat_valid (rse e)),
   (rse_rnat_shadow (rse e), rse_rnat_shadow_count (rse e), rse_rnat_shadow_last (rse e))).

Lemma rnat_part_ok e e' : rnat_part e' = rnat_part e -> rnat_ok e -> rnat_ok e'.
Proof.
  intros [= E1 E2 E3 E4 E5 E6 E7 E8 E9 E10 E11 E12] [].
  split; rewrite ?E1, ?E2, ?E3, ?E4, ?E5, ?E6, ?E7, ?E8, ?E9; try done. by apply (table_ok_ext e).
Qed.

Lemma rnat_part_known e e' a i :
  rnat_part e' = rnat_part e ->
  load_known e' a i = load_known e a i /\ shadow_known e' a i = shadow_known e a i /\
  spill_known e' a i = spill_known e a i.
Proof.
  intros [= E1 E2 E3 E4 E5 E6 E7 E8 E9 E10 E11 E12].
  unfold load_known, spill_known, shadow_known, ia64_rse_rnat_shadow_lookup.
  by rewrite E2, E3, E4, E6, E7, E8, E9, E10, E11, E12.
Qed.

(** The fields of [rse_quiet]. *)
Lemma quiet_fields r r' :
  rse_quiet r' = rse_quiet r ->
  (rse_pgr r', rse_pgr_nat r', rse_gr_dirty r', rse_bol r') =
    (rse_pgr r, rse_pgr_nat r, rse_gr_dirty r, rse_bol r) /\
  (rse_dirty r', rse_dirty_nat r', rse_clean r', rse_clean_nat r', rse_invalid r') =
    (rse_dirty r, rse_dirty_nat r, rse_clean r, rse_clean_nat r, rse_invalid r) /\
  (rse_rnat_addr r', rse_rnat_defined r', rse_writeback_rnat r') =
    (rse_rnat_addr r, rse_rnat_defined r, rse_writeback_rnat r) /\
  (rse_load_rnat r', rse_load_rnat_addr r', rse_load_rnat_defined r', rse_load_rnat_valid r') =
    (rse_load_rnat r, rse_load_rnat_addr r, rse_load_rnat_defined r, rse_load_rnat_valid r) /\
  (rse_rnat_shadow r', rse_rnat_shadow_count r', rse_rnat_shadow_last r') =
    (rse_rnat_shadow r, rse_rnat_shadow_count r, rse_rnat_shadow_last r).
Proof. destruct r, r'. intros [=]. by subst. Qed.

Section kept.
Context {e e' : CPUIA64State} (Hk : kept e e').

Lemma kept_rnat_part : rnat_part e' = rnat_part e.
Proof.
  destruct (quiet_fields _ _ (k_rse _ _ Hk)) as (_ & _ & E1 & E2 & E3).
  destruct (kept_ars _ _ Hk) as (_ & _ & _ & Er & _ & El). unfold rnat_part. by rewrite E1, E2, E3, Er, El.
Qed.

Lemma kept_ptv p : ia64_rse_phys_to_virt e' p = ia64_rse_phys_to_virt e p.
Proof.
  destruct (quiet_fields _ _ (k_rse _ _ Hk)) as (E1 & _). pose proof (k_cfm _ _ Hk) as E2.
  pose proof (k_rrb _ _ Hk) as E3. unfold ia64_rse_phys_to_virt, ia64_rse_rotating_gr_count.
  injection E1 as ? ? ? ->. injection E2 as -> ? ->. by injection E3 as -> ? ?.
Qed.

Lemma kept_vtp v : ia64_rse_virt_to_phys e' v = ia64_rse_virt_to_phys e v.
Proof.
  destruct (quiet_fields _ _ (k_rse _ _ Hk)) as (E1 & _). pose proof (k_cfm _ _ Hk) as E2.
  pose proof (k_rrb _ _ Hk) as E3. unfold ia64_rse_virt_to_phys, ia64_rse_rotating_gr_count.
  injection E1 as ? ? ? ->. injection E2 as -> ? ->. by injection E3 as -> ? ?.
Qed.

Lemma kept_part clean K : part_of clean K e -> part_of clean K e'.
Proof.
  destruct (quiet_fields _ _ (k_rse _ _ Hk)) as (_ & E1 & _). pose proof (k_cfm _ _ Hk) as E2.
  destruct (kept_ars _ _ Hk) as (_ & Eb & Es & _). unfold part_of. rewrite Eb, Es.
  injection E1 as -> -> -> -> ->. by injection E2 as -> ? ?.
Qed.

Lemma kept_frame : frame_wf e -> frame_wf e'.
Proof.
  destruct (quiet_fields _ _ (k_rse _ _ Hk)) as (E1 & _). pose proof (k_cfm _ _ Hk) as E2.
  pose proof (k_rrb _ _ Hk) as E3. injection E1 as ? ? ? E1. injection E2 as E2 ? E2'.
  injection E3 as E3 ? ?. intros []. split; rewrite ?E1, ?E2, ?E2', ?E3; done.
Qed.

Lemma kept_views : views_wf e -> views_wf e'.
Proof.
  destruct (quiet_fields _ _ (k_rse _ _ Hk)) as (E1 & _). injection E1 as E1 E2 E3 ?.
  intros []. split; rewrite ?E1, ?E2, ?E3; try done.
  - by apply kept_frame.
  - by rewrite (k_gr_len _ _ Hk).
  - by apply Hk.
Qed.

Lemma kept_dirty_bit v : frame_dirty_bit e' v = frame_dirty_bit e v.
Proof.
  destruct (quiet_fields _ _ (k_rse _ _ Hk)) as (E1 & _). pose proof (k_cfm _ _ Hk) as E2.
  unfold frame_dirty_bit. injection E1 as ? ? -> ?. by injection E2 as -> ? ?.
Qed.

Lemma kept_content p : views_wf e -> 0 <= p < 96 -> content e' p = content e p.
Proof.
  intros Hw Hp. destruct (quiet_fields _ _ (k_rse _ _ Hk)) as (E1 & _). injection E1 as E1 E2 ? ?.
  unfold content. rewrite kept_ptv, kept_dirty_bit, E1, E2.
  pose proof (phys_to_virt_range e p (vw_frame _ Hw) Hp).
  by rewrite (k_gr _ _ Hk), (k_nat _ _ Hk) by lia.
Qed.

Lemma kept_coherent : views_wf e -> coherent e -> coherent e'.
Proof.
  intros Hw Hc v Hv Hd. destruct (quiet_fields _ _ (k_rse _ _ Hk)) as (E1 & _). injection E1 as E1 E2 ? ?.
  pose proof (k_cfm _ _ Hk) as E3. injection E3 as E3 ? ?. rewrite E3 in Hv.
  rewrite kept_dirty_bit in Hd. destruct (wf_sof _ (vw_frame _ Hw)).
  unfold view. rewrite kept_vtp, E1, E2, (k_gr _ _ Hk), (k_nat _ _ Hk) by lia. by apply (Hc v).
Qed.

Lemma kept_inv clean K : rse_inv clean K e -> rse_inv clean K e'.
Proof.
  intros []. destruct (quiet_fields _ _ (k_rse _ _ Hk)) as (E1 & _). injection E1 as E1 ? ? ?.
  pose proof (k_cfm _ _ Hk) as E2. injection E2 as E2 E2' ?. pose proof (k_rrb _ _ Hk) as E3.
  injection E3 as ? E3 E3'. split; rewrite ?E1, ?E2, ?E2', ?E3, ?E3'; try done.
  - by apply kept_views.
  - by apply kept_coherent.
  - by apply kept_part.
  - by apply (rnat_part_ok e), ri_rnat0; apply kept_rnat_part.
  - intros r Hr. rewrite (k_gr _ _ Hk) by done. by apply ri_gr0.
Qed.

End kept.

(** ** What the operations leave alone *)

(** The fields that decide the contents of the registers. *)
Definition view_part (e : CPUIA64State) :=
  (gr e, nat_ e, (rse_pgr (rse e), rse_pgr_nat (rse e), rse_gr_dirty (rse e), rse_bol (rse e)),
   (cfm_sof e, cfm_sor e, cfm_rrb_gr e)).

(** The rest of the frame marker. *)
Definition marker_part (e : CPUIA64State) := (cfm_sol e, cfm_rrb_fr e, cfm_rrb_pr e).

(** The counts and the pointers. *)
Definition count_part (e : CPUIA64State) :=
  (rse_dirty (rse e), rse_dirty_nat (rse e), rse_clean (rse e), rse_clean_nat (rse e),
   rse_invalid (rse e), ar_bsp e, ar_bspstore e).

Section view_part.
Context {e s : CPUIA64State} (E : view_part s = view_part e).

Lemma view_part_ptv p : ia64_rse_phys_to_virt s p = ia64_rse_phys_to_virt e p.
Proof.
  injection E as _ _ _ _ _ E1 E2 E3 E4. unfold ia64_rse_phys_to_virt, ia64_rse_rotating_gr_count.
  by rewrite E1, E2, E3, E4.
Qed.

Lemma view_part_vtp v : ia64_rse_virt_to_phys s v = ia64_rse_virt_to_phys e v.
Proof.
  injection E as _ _ _ _ _ E1 E2 E3 E4. unfold ia64_rse_virt_to_phys, ia64_rse_rotating_gr_count.
  by rewrite E1, E2, E3, E4.
Qed.

Lemma view_part_wf : views_wf e -> views_wf s.
Proof.
  injection E as E1 E2 E3 E4 E5 E6 E7 E8 E9. intros [[] ? ? ? ? ?].
  split; [split|..]; by rewrite ?E1, ?E2, ?E3, ?E4, ?E5, ?E6, ?E7, ?E8, ?E9.
Qed.

Lemma view_part_dirty_bit v : frame_dirty_bit s v = frame_dirty_bit e v.
Proof. injection E as _ _ _ _ E1 _ E2 _ _. unfold frame_dirty_bit. by rewrite E1, E2. Qed.

Lemma view_part_content p : content s p = content e p.
Proof.
  unfold content. rewrite view_part_ptv, view_part_dirty_bit. by injection E as -> -> -> -> _ _ _ _ _.
Qed.

Lemma view_part_view v : view s v = view e v.
Proof. unfold view. by injection E as -> -> _ _ _ _ _ _ _. Qed.

Lemma view_part_coherent : coherent e -> coherent s.
Proof.
  intros Hc v Hv Hd. rewrite view_part_dirty_bit in Hd. rewrite view_part_view, view_part_vtp.
  injection E as _ _ E1 E2 _ _ E3 _ _. rewrite E3 in Hv. rewrite E1, E2. by apply Hc.
Qed.

End view_part.

Lemma erase_parts s e :
  rnat_erase s = rnat_erase e ->
  view_part s = view_part e /\ marker_part s = marker_part e /\ count_part s = count_part e.
Proof.
  intros E. split_and!.
  - exact (f_equal view_part E).
  - exact (f_equal marker_part E).
  - assert (Er : rse_erase (rse s) = rse_erase (rse e)) by exact (f_equal rse E).
    unfold count_part, ar_bsp, ar_bspstore.
    rewrite (erase_ar s e IA64_AR_BSP), (erase_ar s e IA64_AR_BSPSTORE) by done.
    by injection Er as _ _ _ _ -> -> -> -> -> _ _ _ _ _ _ _.
Qed.

Lemma count_part_of clean K s e :
  count_part s = count_part e -> cfm_sof s = cfm_sof e -> part_of clean K e -> part_of clean K s.
Proof. intros [= E1 E2 E3 E4 E5 E6 E7] E8. unfold part_of. by rewrite E1, E2, E3, E4, E5, E6, E7, E8. Qed.

(** A step that changes counts and pointers, and the collections. *)
Lemma inv_step clean K K' e s :
  rse_inv clean K e -> view_part s = view_part e -> marker_part s = marker_part e ->
  rnat_ok s -> part_of clean K' s -> rse_inv clean K' s.
Proof.
  intros [] E Em Hr Hp. injection Em as E1 E2 E3. injection E as Eg En E4 E5 E6 E7 E8 E9 E10.
  assert (E : view_part s = view_part e) by (unfold view_part; congruence).
  split; rewrite ?E1, ?E2, ?E3, ?E4, ?E8, ?Eg; try done.
  - by apply (view_part_wf E).
  - by apply (view_part_coherent E).
Qed.

(** A step that changes the collections only. *)
Lemma inv_rnat_step clean K e s :
  rse_inv clean K e -> rnat_erase s = rnat_erase e -> rnat_ok s -> rse_inv clean K s.
Proof.
  intros Hi E Hr. destruct (erase_parts s e E) as (E1 & E2 & E3).
  apply (inv_step clean K K e); try done. apply (count_part_of clean K s e); [done| |apply Hi].
  by injection E1.
Qed.

(** Updates of counts. *)
Definition set_counts (e : CPUIA64State) (d dn c cn v : Z) : CPUIA64State :=
  e <| rse; rse_dirty := d |> <| rse; rse_dirty_nat := dn |> <| rse; rse_clean := c |>
    <| rse; rse_clean_nat := cn |> <| rse; rse_invalid := v |>.

Lemma set_counts_parts e d dn c cn v :
  let s := set_counts e d dn c cn v in
  view_part s = view_part e /\ marker_part s = marker_part e /\ rnat_part s = rnat_part e /\
  count_part s = (d, dn, c, cn, v, ar_bsp e, ar_bspstore e) /\ cfm_sof s = cfm_sof e.
Proof. done. Qed.

(** Updates of the two pointers. *)
Lemma set_pointer_parts e i x :
  i = IA64_AR_BSP \/ i = IA64_AR_BSPSTORE -> length (ar e) = 128%nat ->
  let s := e <| ar @ i := x |> in
  view_part s = view_part e /\ marker_part s = marker_part e /\ rnat_part s = rnat_part e /\
  ar_bsp s = (if i =? IA64_AR_BSP then x else ar_bsp e) /\
  ar_bspstore s = (if i =? IA64_AR_BSPSTORE then x else ar_bspstore e) /\ rse s = rse e /\
  cfm_sof s = cfm_sof e.
Proof.
  intros Hi Hl s. split_and!; try done.
  - unfold rnat_part, ar_rnat. unfold s. cbn [ar rse upd]. rewrite aset_length.
    rewrite aget_aset_ne; [done|]. by destruct Hi as [->| ->].
  - unfold ar_bsp, s. cbn [ar upd]. destruct Hi as [->| ->]; cbn.
    + apply aget_aset_eq. by rewrite Hl.
    + by apply aget_aset_ne.
  - unfold ar_bspstore, s. cbn [ar upd]. destruct Hi as [->| ->]; cbn.
    + by apply aget_aset_ne.
    + apply aget_aset_eq. by rewrite Hl.
Qed.

(** ** Storing a word *)

(** The spill latch takes the NaT bit of a stored register. *)
Definition reg_latch (e : CPUIA64State) (p ncb : Z) : CPUIA64State :=
  set_spill e (if ia64_rse_pgr_nat_get e p then ar_rnat e .| (1 <<< ncb)
               else ar_rnat e .& ~64 (1 <<< ncb))
    (rse_rnat_addr (rse e)) (rse_rnat_defined (rse e) .| (1 <<< ncb)).

Lemma set_spill_bit_eq e p ncb : set_spill_bit e p ncb = reg_latch e p ncb.
Proof. unfold set_spill_bit, reg_latch. by destruct (ia64_rse_pgr_nat_get e p). Qed.

Lemma bit_mask_ok value defined (b : bool) n :
  mask_ok value defined -> 0 <= n < 63 ->
  mask_ok (if b then value .| (1 <<< n) else value .& ~64 (1 <<< n)) (defined .| (1 <<< n)).
Proof.
  intros [Hv Hd Hs] Hn. rewrite shiftl_1_pow2 by lia.
  assert (H2 : uint 63 (2 ^ n)) by (split; [lia|apply Z.pow_lt_mono_r; lia]).
  split.
  - destruct b; [by apply uint_lor|by apply uint_land_l].
  - by apply uint_lor.
  - intros i Hi. rewrite Z.lor_spec. destruct b; rewrite ?Z.lor_spec, ?Z.land_spec;
      destruct (Z.testbit value i) eqn:E; rewrite ?Hs by done; cbn [orb andb]; try done.
    by intros ->; rewrite orb_true_r.
Qed.

Lemma bit_mask_known value defined (b : bool) n i :
  0 <= n < 63 -> 0 <= i < 63 ->
  known (if b then value .| (1 <<< n) else value .& ~64 (1 <<< n)) (defined .| (1 <<< n)) i =
  if i =? n then Some b else known value defined i.
Proof.
  intros Hn Hi. rewrite shiftl_1_pow2 by lia. unfold known.
  rewrite Z.lor_spec, Z.pow2_bits_eqb, (Z.eqb_sym n) by lia.
  destruct b; rewrite ?Z.lor_spec, ?Z.land_spec, ?wnot_spec, Z.pow2_bits_eqb, (Z.eqb_sym n) by lia;
    destruct (Z.eqb_spec i n) as [->|]; rewrite ?orb_true_r, ?orb_false_r; try done.
  - destruct (Z.ltb_spec n 64); [|lia]. by rewrite andb_false_r.
  - destruct (Z.ltb_spec i 64); [|lia]. by rewrite andb_true_r.
Qed.

Lemma reg_latch_spec e p ncb :
  rnat_ok e -> rse_rnat_addr (rse e) <> UINT64_MAX -> 0 <= ncb < 63 ->
  let s := reg_latch e p ncb in
  rnat_ok s /\ rnat_erase s = rnat_erase e /\ rse_rnat_addr (rse s) = rse_rnat_addr (rse e) /\
  (forall a i, load_known s a i = load_known e a i /\ shadow_known s a i = shadow_known e a i) /\
  (forall a i, 0 <= i < 63 -> spill_known s a i =
    if (rse_rnat_addr (rse e) =? a) && (i =? ncb) then Some (ia64_rse_pgr_nat_get e p)
    else spill_known e a i).
Proof.
  intros Hok Hne Hn s. pose proof (rn_spill_addr _ Hok) as Ha. unfold s, reg_latch.
  destruct (Z.eqb_spec (rse_rnat_addr (rse e)) UINT64_MAX); [done|].
  split_and!; [|apply set_spill_erase|done| |].
  - apply set_spill_ok; [by apply rnat_ok_rest|by apply bit_mask_ok; [apply Hok|]|apply Hok|].
    by destruct (Z.eqb_spec (rse_rnat_addr (rse e)) UINT64_MAX).
  - done.
  - intros a i Hi. destruct (set_spill_known e (if ia64_rse_pgr_nat_get e p then ar_rnat e .| (1 <<< ncb)
      else ar_rnat e .& ~64 (1 <<< ncb)) (rse_rnat_addr (rse e)) (rse_rnat_defined (rse e) .| (1 <<< ncb))
      a i (rn_ar _ Hok)) as (-> & _ & _).
    unfold spill_known. destruct (_ =? a); cbn [andb]; [|done]. by apply bit_mask_known.
Qed.

Lemma register_stored_eq cc e bspstore p ncb :
  register_stored cc e bspstore p ncb =
  set_counts ((reg_latch e p ncb) <| ar @ IA64_AR_BSPSTORE := u64 (bspstore + 8) |>)
    (rse_dirty (rse e) - 1) (rse_dirty_nat (rse e))
    (if rse_has_clean_partition cc then rse_clean (rse e) + 1 else rse_clean (rse e))
    (rse_clean_nat (rse e))
    (if rse_has_clean_partition cc then rse_invalid (rse e) else rse_invalid (rse e) + 1).
Proof. unfold register_stored. rewrite set_spill_bit_eq. by destruct (rse_has_clean_partition cc). Qed.

(** The fill latch takes a collection. *)
Lemma set_load_spec e v c d :
  rnat_rest e -> mask_ok v d -> uint 64 c -> ia64_rse_collect_word c = c ->
  let s := set_load_rnat e v c d in
  rnat_rest s /\ rnat_erase s = rnat_erase e /\ ar s = ar e /\
  rse_rnat_addr (rse s) = rse_rnat_addr (rse e) /\ rse_rnat_defined (rse s) = rse_rnat_defined (rse e) /\
  (forall a i, load_known s a i = if c =? a then known v d i else None) /\
  (forall a i, shadow_known s a i = shadow_known e a i /\ spill_known s a i = spill_known e a i).
Proof.
  intros [] Hm Hu Hc s. split_and!; try done. by split; try done; apply (table_ok_ext e).
Qed.

(** After the store of a collection: the table forgets it, the fill latch
    holds it, the spill latch is free. *)
Definition coll_latch (e : CPUIA64State) (c collection : Z) : CPUIA64State :=
  let e := if rnat_valid (rse_writeback_rnat (rse e)) && (rnat_addr (rse_writeback_rnat (rse e)) =? c)
           then ia64_rse_rnat_writeback_clear e else e in
  set_spill (set_load_rnat (ia64_rse_load_rnat_stash (ia64_rse_rnat_shadow_remove e c) c)
               collection c INT64_MAX) 0 UINT64_MAX 0.

Lemma collection_stored_eq cc e bspstore c collection :
  collection_stored cc e bspstore c collection =
  set_counts ((coll_latch e c collection) <| ar @ IA64_AR_BSPSTORE := u64 (bspstore + 8) |>)
    (rse_dirty (rse (coll_latch e c collection))) (rse_dirty_nat (rse (coll_latch e c collection)) - 1)
    (rse_clean (rse (coll_latch e c collection)))
    (if rse_has_clean_partition cc then rse_clean_nat (rse (coll_latch e c collection)) + 1
     else rse_clean_nat (rse (coll_latch e c collection)))
    (rse_invalid (rse (coll_latch e c collection))).
Proof.
  unfold collection_stored, coll_latch. cbv zeta.
  generalize (ia64_rse_load_rnat_stash (ia64_rse_rnat_shadow_remove
    (if rnat_valid (rse_writeback_rnat (rse e)) && (rnat_addr (rse_writeback_rnat (rse e)) =? c)
     then ia64_rse_rnat_writeback_clear e else e) c) c).
  intros s. by destruct (rse_has_clean_partition cc).
Qed.

Lemma writeback_clear_spec e :
  rnat_ok e ->
  let s := ia64_rse_rnat_writeback_clear e in
  rnat_ok s /\ rnat_erase s = rnat_erase e /\ count s = count e /\
  (forall a i, load_known s a i = load_known e a i /\ shadow_known s a i = shadow_known e a i /\
     spill_known s a i = spill_known e a i).
Proof.
  intros [] s. split_and!; try done.
  split; try done; first [by apply (table_ok_ext e)|apply image_ok_empty].
Qed.

Lemma coll_latch_spec e c collection :
  rnat_ok e -> uint 64 c -> ia64_rse_collect_word c = c -> uint 63 collection ->
  let s := coll_latch e c collection in
  rnat_ok s /\ rnat_erase s = rnat_erase e /\ rse_rnat_addr (rse s) = UINT64_MAX /\
  (forall a i, load_known s a i = if c =? a then known collection INT64_MAX i else None) /\
  (forall a i, spill_known s a i = None) /\
  (forall i, 0 <= i < 63 -> shadow_known s c i = None) /\
  (forall a i, 0 <= i < 63 -> a <> c ->
     shadow_known s a i = over (load_known e a i) (shadow_known e a i) \/ shadow_known s a i = None).
Proof.
  intros Hok Hu Hc Hcoll s. unfold s, coll_latch.
  set (e0 := if _ && _ then ia64_rse_rnat_writeback_clear e else e).
  assert (H0 : rnat_ok e0 /\ rnat_erase e0 = rnat_erase e /\ count e0 = count e /\
    forall a i, load_known e0 a i = load_known e a i /\ shadow_known e0 a i = shadow_known e a i).
  { unfold e0. case_match; [|done]. destruct (writeback_clear_spec e Hok) as (? & ? & ? & Hk).
    by split_and!. }
  destruct H0 as (Hok0 & Her0 & Hc0 & Hk0). clearbody e0.
  destruct (remove_spec e0 c (rn_table _ Hok0)) as [Hst1 Hk1].
  set (e1 := ia64_rse_rnat_shadow_remove e0 c) in *.
  pose proof (table_step_rnat_ok _ _ Hok0 Hst1) as Hok1.
  destruct (load_stash_step e1 c Hok1) as [Hst2 Hk2].
  set (e2 := ia64_rse_load_rnat_stash e1 c) in *. clearbody e2.
  pose proof (table_step_rnat_ok _ _ Hok1 Hst2) as Hok2.
  destruct (set_load_spec e2 collection c INT64_MAX (rnat_ok_rest _ Hok2)) as
    (Hrest & Her & _ & _ & _ & Hlk & Hsk); [|done|done|].
  { rewrite <- (uint63_land_id collection) by done. apply mask_ok_land. uint_const. }
  set (e3 := set_load_rnat e2 collection c INT64_MAX) in *. clearbody e3.
  assert (Hkn : forall a i, _) by (intros a i; exact (set_spill_known e3 0 UINT64_MAX 0 a i (rr_ar _ Hrest))).
  split_and!.
  - apply set_spill_ok; [done|apply mask_ok_0|change UINT64_MAX with (2 ^ 64 - 1); split; lia|done].
  - by rewrite set_spill_erase, Her, (table_step_erase _ _ Hst2), (table_step_erase _ _ Hst1).
  - done.
  - intros a i. destruct (Hkn a i) as (_ & _ & ->). apply Hlk.
  - intros a i. destruct (Hkn a i) as (-> & _ & _). case_match; [apply mask_ok_0_known|done].
  - intros i Hi. destruct (Hkn c i) as (_ & -> & _). destruct (Hsk c i) as [-> _].
    destruct (Hk2 c i Hi) as [->|[_ ->]]; [|done]. by rewrite Z.eqb_refl, Hk1, Z.eqb_refl.
  - intros a i Hi Hne. destruct (Hkn a i) as (_ & -> & _). destruct (Hsk a i) as [-> _].
    destruct (Hk2 a i Hi) as [->|[_ ->]]; [left|by right].
    rewrite Hk1, (table_step_load _ _ a i Hst1).
    destruct (Hk0 a i) as [-> ->]. by destruct (Z.eqb_spec a c).
Qed.

(** ** The check *)

Lemma mask_uint v d : mask_ok v d -> uint 64 v /\ uint 64 d.
Proof. intros [Hv Hd _]. split; by apply uint63_64. Qed.

Lemma rnat_ok_typed e : rnat_ok e -> rnat_typed e.
Proof.
  intros [Har [Hsh He] Hs Hsu _ Hl Hlu _ (Him & Hiu & _)].
  destruct (mask_uint _ _ Hs), (mask_uint _ _ Hl), (mask_uint _ _ Him).
  split; try done; try apply Hsh. intros i Hi. destruct (Z.lt_ge_cases i (rse_rnat_shadow_count (rse e))).
  - destruct (He i ltac:(lia)) as (Hm & _ & Hu & _). destruct (mask_uint _ _ Hm). done.
  - rewrite (sh_empty _ Hsh) by lia. split_and!; uint_const.
Qed.

Lemma word_shift j b : boundary j b -> (8 * word_at j b) >>> 9 = j / 63 - b.
Proof.
  intros Hb. rewrite Z.shiftr_div_pow2 by lia. change (2 ^ 9) with (8 * 64). rewrite Z.div_mul_cancel_l by lia.
  by apply word_at_group.
Qed.

Lemma signed_small x : 0 <= x < 2 ^ 31 -> signed 32 x = x.
Proof.
  intros Hx. unfold signed. rewrite wrap_small by (unfold uint; lia). change (2 ^ (32 - 1)) with (2 ^ 31).
  destruct (Z.ltb_spec x (2 ^ 31)); lia.
Qed.

(** The counts of the collection words are what the pointers say. *)
Lemma part_check {cl K sof d dn c cn v bsp bspstore} :
  part_ok cl K sof d dn c cn v bsp bspstore ->
  u64 (bsp - (d + dn) * 8) = bspstore /\
  (0 <= d -> dn = signed 32 ((bsp >>> 9) - (bspstore >>> 9))) /\
  (0 <= d -> cn = signed 32 ((bspstore >>> 9) - (u64 (bspstore - (c + cn) * 8) >>> 9))).
Proof.
  intros P. destruct (part_words P) as [Eb El]. destruct (part_bspstore_u64 P) as (Hu & _ & _). pose proof P as [].
  assert (E1 : bsp - (d + dn) * 8 = bspstore) by lia.
  assert (Ebs : bsp >>> 9 = K / 63).
  { rewrite po_bsp0. replace (8 * (K + K / 63)) with (8 * word_at K 0) by (unfold word_at; lia).
    rewrite word_shift; [lia|by left]. }
  assert (Es : bspstore >>> 9 = (K - d) / 63 - store_flag K d dn) by (rewrite Eb; by apply word_shift).
  assert (Hlu : uint 64 (8 * word_at (K - d - c) (load_flag K d dn c cn))).
  { pose proof (word_at_range P (K - d - c) _ po_load0 ltac:(lia)). unfold uint. lia. }
  assert (El2 : u64 (bspstore - (c + cn) * 8) >>> 9 = (K - d - c) / 63 - load_flag K d dn c cn).
  { replace (bspstore - (c + cn) * 8) with (8 * word_at (K - d - c) (load_flag K d dn c cn)) by lia.
    rewrite wrap_small by done. by apply word_shift. }
  assert (Hbound : forall j, 0 <= j -> j <= K -> K - j <= 96 -> K / 63 - j / 63 <= 2).
  { intros j Hj1 Hj2 Hj3. pose proof (Z.div_mod j 63 ltac:(lia)). pose proof (Z.div_mod K 63 ltac:(lia)).
    pose proof (Z.mod_pos_bound j 63 ltac:(lia)). pose proof (Z.mod_pos_bound K 63 ltac:(lia)). lia. }
  split; [rewrite E1; by apply wrap_small|]. split; intros Hd.
  - pose proof (part_complete P Hd). rewrite Ebs, Es. unfold store_flag in *. pose proof (Hbound (K - d) ltac:(lia) ltac:(lia) ltac:(lia)).
    rewrite signed_small; [lia|]. destruct po_store0 as [?|[? _]]; lia.
  - rewrite Es, El2. pose proof (Hbound (K - d - c) ltac:(lia) ltac:(lia) ltac:(lia)).
    pose proof (part_complete P Hd). unfold load_flag in *. rewrite signed_small; [lia|].
    unfold store_flag in *. destruct po_load0 as [?|[? _]], po_store0 as [?|[? _]]; lia.
Qed.

(** The invariant implies that [ia64_rse_check] has nothing to report. *)
Lemma inv_check cc K e : rse_inv (rse_has_clean_partition cc) K e -> ia64_rse_check_ok cc e = true.
Proof.
  intros Hi. pose proof (ri_part _ _ _ Hi) as P. unfold part_of in P. destruct (part_check P) as (E1 & E2 & E3).
  pose proof (ri_rnat _ _ _ Hi) as Hok. apply rnat_check_spec in Hok; [|by apply rnat_ok_typed, Hi].
  pose proof (vw_frame _ (ri_views _ _ _ Hi)) as [Hsof Hsor Hrg Hbol]. pose proof (ri_sol _ _ _ Hi) as Hsol.
  destruct (ri_rrb _ _ _ Hi) as [Hf Hp]. pose proof P as [Hsum _ _ [Hc _] Hv _ _ _ _ _ _ Hncl _].
  assert (E8 : u32 (cfm_sor e <<< 3) = 8 * cfm_sor e).
  { rewrite Z.shiftl_mul_pow2 by lia. rewrite wrap_small by (unfold uint; lia). lia. }
  unfold ia64_rse_check_ok, ia64_cfm_frame_fields_valid. cbv zeta.
  change IA64_STACKED_GR_COUNT with 96. change (IA64_PR_COUNT - IA64_PR_ROTATING_BASE) with 48.
  change IA64_ROTATING_FR_COUNT with 96. rewrite Hok, E1, E8, !andb_true_iff, !Z.eqb_eq, !Z.leb_le, !Z.ltb_lt.
  split_and!; try done; try lia.
  - unfold truth. destruct (Z.eqb_spec (cfm_sor e) 0); cbn [negb]; [apply Z.eqb_eq; lia|apply Z.ltb_lt; lia].
  - destruct (rse_has_clean_partition cc); [done|]. destruct (Hncl eq_refl) as [-> ->]. done.
  - destruct (Z.leb_spec 0 (rse_dirty (rse e))); [apply Z.eqb_eq; by apply E2|done].
  - destruct (Z.leb_spec 0 (rse_clean (rse e))), (Z.leb_spec 0 (rse_dirty (rse e))); cbn [andb]; try done.
    apply Z.eqb_eq. by apply E3.
Qed.
