(* ===== verification/RseSteps.v ===== *)
(** * The register stack: words between the file and memory

    The relation between the physical file, the backing store and the stack of
    registers they represent together, and that the stores and loads of
    single words keep it, also when they fault: the mandatory stores and loads
    of the engine move registers, and never change one. *)
From stdpp Require Import list.
From S2P Require Import Prelude Arch Env Alat Registers Interrupt RseMap RseRnat RseOps RsePart.
Local Open Scope Z_scope.

(** ** Collections

    The address of the collection of register [j], and of the collection that
    is open when the registers below [top] have been stored. *)
Definition coll (j : Z) : Z := 8 * (64 * (j / 63) + 63).

Definition open_coll (top f : Z) : Z := 8 * (64 * (top / 63 - f) + 63).

Lemma collect_word_at j b :
  boundary j b -> 0 <= j -> uint 64 (8 * word_at j b) -> ia64_rse_collect_word (8 * word_at j b) = open_coll j b.
Proof.
  intros Hb Hj Hu. unfold open_coll. rewrite <- (word_at_group j b Hb), collect_word_spec by done.
  replace (8 * word_at j b / 512) with (word_at j b / 64).
  - lia.
  - rewrite <- (Z.div_mul_cancel_l (word_at j b) 64 8) by lia. done.
Qed.

Lemma coll_below j top f : boundary top f -> j < top -> coll j <= open_coll top f.
Proof.
  intros Hb Hj. unfold coll, open_coll. destruct Hb as [->|(-> & Hm & _)].
  - assert (j / 63 <= top / 63) by (apply Z.div_le_mono; lia). lia.
  - assert (j / 63 < top / 63); [|lia]. apply Z.div_lt_upper_bound; [lia|].
    pose proof (Z.div_mod top 63 ltac:(lia)). lia.
Qed.

Lemma load_known_latch e c i : latch_at e c = false -> load_known e c i = None.
Proof. unfold load_known, latch_at. by intros ->. Qed.

(** ** The NaT bits of stored registers

    [m] is the backing store, [c0] the open collection; the registers from
    [base] to [top] are stored, and [nat] are their NaT bits.  The bit of a
    register is in the spill latch if that is at its collection; if not, then
    the table and the fill latch have it or do not know it, and it is in
    memory, or for the open collection in the fill latch. *)
Record nats_ok (m : Z -> Z) (c0 base top : Z) (nat : Z -> bool) (e : CPUIA64State) : Prop := {
  na_spill : forall j, base <= j < top -> rse_rnat_addr (rse e) = coll j ->
    spill_known e (coll j) (j mod 63) = Some (nat j);
  na_other : forall j, base <= j < top -> rse_rnat_addr (rse e) <> coll j ->
    (shadow_known e (coll j) (j mod 63) = None \/ shadow_known e (coll j) (j mod 63) = Some (nat j)) /\
    (latch_at e (coll j) = true -> load_known e (coll j) (j mod 63) = Some (nat j));
  na_open : forall j, base <= j < top -> coll j = c0 ->
    rse_rnat_addr (rse e) = c0 \/ latch_at e c0 = true;
  na_mem : forall j, base <= j < top -> coll j <> c0 -> Z.testbit (m (coll j)) (j mod 63) = nat j;
  na_closed : forall j, base <= j < top -> rse_rnat_addr (rse e) = coll j -> coll j = c0
}.

Lemma mod63_range j : 0 <= j mod 63 < 63.
Proof. apply Z.mod_pos_bound. lia. Qed.

#[export] Hint Resolve mod63_range : core.

Lemma coll_not_max j : coll j <> UINT64_MAX.
Proof. unfold coll. change UINT64_MAX with (8 * 2305843009213693951 + 7). lia. Qed.

(** The register of a collection's bit. *)
Lemma coll_bit_inj j j' : coll j = coll j' -> j mod 63 = j' mod 63 -> j = j'.
Proof.
  unfold coll. intros E1 E2. rewrite (Z.div_mod j 63), (Z.div_mod j' 63) by lia. lia.
Qed.

Lemma rnat_part_latch e s c : rnat_part s = rnat_part e -> latch_at s c = latch_at e c.
Proof. intros [= _ _ _ _ _ _ E1 _ E2 _ _ _]. unfold latch_at. by rewrite E1, E2. Qed.

Lemma nats_part m c0 base top nat e s :
  rnat_part s = rnat_part e -> nats_ok m c0 base top nat e -> nats_ok m c0 base top nat s.
Proof.
  intros E []. assert (Ea : rse_rnat_addr (rse s) = rse_rnat_addr (rse e)) by (by injection E).
  split; rewrite ?Ea; try done; intros j Hj.
  - intros Hs. destruct (rnat_part_known e s (coll j) (j mod 63) E) as (_ & _ & ->). by apply na_spill0.
  - intros Hs. destruct (rnat_part_known e s (coll j) (j mod 63) E) as (-> & -> & _).
    rewrite (rnat_part_latch e s) by done. by apply na_other0.
  - intros Hs. rewrite (rnat_part_latch e s) by done. by apply (na_open0 j).
Qed.

Lemma nats_sub m m' c0 base base' top top' nat nat' e :
  base <= base' -> top' <= top ->
  (forall j, base' <= j < top' -> nat' j = nat j) ->
  (forall j, base' <= j < top' -> coll j <> c0 -> m' (coll j) = m (coll j)) ->
  nats_ok m c0 base top nat e -> nats_ok m' c0 base' top' nat' e.
Proof.
  intros Hb Ht Hn Hm []. split; try done; intros j Hj; rewrite ?Hn by done.
  - apply na_spill0. lia.
  - apply na_other0. lia.
  - apply (na_open0 j). lia.
  - intros Hc. rewrite Hm by done. apply na_mem0; [lia|done].
  - apply na_closed0. lia.
Qed.

(** With the spill latch elsewhere no stored register has its bit there. *)
Lemma nats_spill_elsewhere m c0 base top nat e j :
  nats_ok m c0 base top nat e -> base <= j < top ->
  rse_rnat_addr (rse e) <> c0 -> rse_rnat_addr (rse e) <> coll j.
Proof.
  intros Hn Hj Hne E. pose proof (na_closed _ _ _ _ _ _ Hn j Hj E). congruence.
Qed.

Lemma nats_bind m c0 base top nat e :
  rnat_ok e -> uint 64 c0 -> ia64_rse_collect_word c0 = c0 ->
  nats_ok m c0 base top nat e -> nats_ok m c0 base top nat (ia64_rse_rnat_bind e c0).
Proof.
  intros Hok Hu Hcw Hn. destruct (Z.eq_dec (rse_rnat_addr (rse e)) c0) as [E|E].
  { unfold ia64_rse_rnat_bind. by rewrite E, Z.eqb_refl. }
  destruct (bind_step e c0 Hok Hu Hcw E) as (Hok' & Ha & _ & Hl & Hc & Ho).
  pose proof (fun a => bind_latch e c0 a Hok) as Hlat. set (s := ia64_rse_rnat_bind e c0) in *.
  split; rewrite ?Ha; try (by intros; left); try done; intros j Hj.
  - intros Es. destruct (Hc (j mod 63) (mod63_range j)) as [_ Hsp].
    assert (Hne : rse_rnat_addr (rse e) <> coll j) by congruence.
    destruct (na_other _ _ _ _ _ _ Hn j Hj Hne) as [Hsh Hld].
    destruct (na_open _ _ _ _ _ _ Hn j Hj (eq_sym Es)) as [?|Hat]; [done|]. rewrite Es in Hat, Hsp.
    rewrite (Hld Hat) in Hsp. destruct Hsp as [->|[_ ->]]; [|done]. by destruct Hsh as [->| ->].
  - intros Es. assert (Hne : rse_rnat_addr (rse e) <> coll j) by (eapply nats_spill_elsewhere; eauto).
    destruct (na_other _ _ _ _ _ _ Hn j Hj Hne) as [Hsh Hld]. rewrite Hl, Hlat. split; [|done].
    assert (Hnone : spill_known e (coll j) (j mod 63) = None)
      by (unfold spill_known; by destruct (Z.eqb_spec (rse_rnat_addr (rse e)) (coll j))).
    destruct (Ho (coll j) (j mod 63) (mod63_range j)) as [->|[_ ->]]; [congruence| |by left].
    rewrite Hnone. by destruct Hsh as [->| ->]; [left|right].
  - apply Hn. lia.
Qed.

Lemma latch_known_dec e c i :
  latch_at e c = true \/ latch_at e c = false /\ load_known e c i = None.
Proof. destruct (latch_at e c) eqn:E; [by left|right]. by rewrite load_known_latch. Qed.

(** A register is stored: its bit goes to the spill latch. *)
Lemma nats_register m c0 base top nat e p :
  rnat_ok e -> rse_rnat_addr (rse e) = c0 -> coll top = c0 ->
  (base <= top -> nat top = ia64_rse_pgr_nat_get e p) ->
  nats_ok m c0 base top nat e -> nats_ok m c0 base (top + 1) nat (reg_latch e p (top mod 63)).
Proof.
  intros Hok Ha Ht Hp Hn. assert (Hne : rse_rnat_addr (rse e) <> UINT64_MAX)
    by (rewrite Ha, <- Ht; apply coll_not_max).
  destruct (reg_latch_spec e p (top mod 63) Hok Hne (mod63_range top)) as (_ & _ & Ha' & Hls & Hsp).
  set (s := reg_latch e p (top mod 63)) in *.
  assert (Hlat : forall a, latch_at s a = latch_at e a) by done. clearbody s.
  assert (Hcase : forall j, base <= j < top + 1 -> j = top \/ base <= j < top) by lia.
  split; rewrite ?Ha', ?Ha; try (by intros; left); try done; [|intros j Hj Hne'..].
  - intros j Hj Ej. rewrite Hsp, Ha, Ej, Z.eqb_refl by done. cbn [andb].
    destruct (Hcase j Hj) as [->|Hj']; [rewrite Z.eqb_refl, Hp by lia; done|].
    destruct (Z.eqb_spec (j mod 63) (top mod 63)) as [Em|].
    + assert (j = top) by (apply coll_bit_inj; congruence). lia.
    + apply Hn; [done|congruence].
  - destruct (Hcase j Hj) as [->|Hj']; [by destruct Hne'|].
    destruct (Hls (coll j) (j mod 63)) as [-> ->]. rewrite Hlat. apply Hn; [done|congruence].
  - destruct (Hcase j Hj) as [->|Hj']; [by destruct Hne'|]. by apply Hn.
Qed.

(** A collection is stored: memory and the fill latch have it. *)
Lemma nats_collection m m' c0 base top nat e v :
  rnat_ok e -> rse_rnat_addr (rse e) = c0 -> uint 64 c0 -> ia64_rse_collect_word c0 = c0 -> uint 63 v ->
  (forall j, base <= j < top -> coll j <= c0) ->
  (forall j, base <= j < top -> coll j = c0 -> Z.testbit v (j mod 63) = nat j) ->
  (forall j, base <= j < top -> m' (coll j) = if coll j =? c0 then v else m (coll j)) ->
  nats_ok m c0 base top nat e -> nats_ok m' (c0 + 512) base top nat (coll_latch e c0 v).
Proof.
  intros Hok Ha Hu Hcw Hv Hle Hbits Hm Hn.
  destruct (coll_latch_spec e c0 v Hok Hu Hcw Hv) as (_ & _ & Ha' & Hl & _ & Hsc & Hso).
  assert (Hlat : forall a, latch_at (coll_latch e c0 v) a = (c0 =? a)) by done.
  set (s := coll_latch e c0 v) in *. clearbody s.
  split; rewrite ?Ha'; try (intros j _ E; by destruct (coll_not_max j)); intros j Hj.
  - intros _. rewrite Hlat, Hl. destruct (Z.eqb_spec c0 (coll j)) as [->|Hne].
    + split; [left; by apply Hsc|]. intros _. rewrite INT64_MAX_ones. unfold known.
      rewrite Z.ones_spec_low, Hbits by (done || apply mod63_range). done.
    + split; [|done]. destruct (Hso (coll j) (j mod 63)) as [->| ->]; [done|congruence| |by left].
      destruct (na_other _ _ _ _ _ _ Hn j Hj) as [Hsh Hld]; [congruence|].
      destruct (latch_known_dec e (coll j) (j mod 63)) as [E|[_ ->]]; [rewrite (Hld E)|];
        destruct Hsh as [->| ->]; auto.
  - intros E. pose proof (Hle j Hj). lia.
  - intros _. rewrite Hm by done. destruct (Z.eqb_spec (coll j) c0) as [E|Hne]; [by apply Hbits|by apply Hn].
Qed.

(** The fill latch takes a collection, which becomes the open one. *)
Lemma nats_set_load m c0 base top nat e v c d :
  rnat_ok e -> mask_ok v d -> uint 64 c -> ia64_rse_collect_word c = c -> c <= c0 ->
  (forall j, base <= j < top -> coll j <= c) ->
  (forall j, base <= j < top -> coll j = c -> rse_rnat_addr (rse e) <> c ->
     known v d (j mod 63) = Some (nat j)) ->
  nats_ok m c0 base top nat e ->
  nats_ok m c base top nat (set_load_rnat (ia64_rse_load_rnat_stash e c) v c d).
Proof.
  intros Hok Hm Hu Hcw Hc Hle Hkn Hn. destruct (load_stash_step e c Hok) as [Hst Hk].
  pose proof (table_step_rnat_ok _ _ Hok Hst) as Hok1.
  pose proof (fun a i => table_step_spill _ _ a i Hst) as Hsp.
  assert (Ha : rse_rnat_addr (rse (ia64_rse_load_rnat_stash e c)) = rse_rnat_addr (rse e))
    by (by destruct Hst as [-> _ _]).
  set (e1 := ia64_rse_load_rnat_stash e c) in *.
  destruct (set_load_spec e1 v c d (rnat_ok_rest _ Hok1) Hm Hu Hcw) as (_ & _ & _ & Ha2 & _ & Hl & Hs).
  assert (Hlat : forall a, latch_at (set_load_rnat e1 v c d) a = (c =? a)) by done.
  set (s := set_load_rnat e1 v c d) in *. clearbody s.
  split; rewrite ?Ha2, ?Ha.
  - intros j Hj E. destruct (Hs (coll j) (j mod 63)) as [_ ->]. rewrite Hsp. by apply Hn.
  - intros j Hj E. destruct (Hs (coll j) (j mod 63)) as [-> _]. rewrite Hl, Hlat.
    destruct (na_other _ _ _ _ _ _ Hn j Hj E) as [Hsh Hld]. split.
    + destruct (Hk (coll j) (j mod 63) (mod63_range j)) as [->|[_ ->]]; [|by left].
      case_match; [done|]. destruct (latch_known_dec e (coll j) (j mod 63)) as [El|[_ ->]]; [rewrite (Hld El)|];
        destruct Hsh as [->| ->]; auto.
    + destruct (Z.eqb_spec c (coll j)) as [Ec|]; [|done]. intros _. apply Hkn; congruence.
  - intros j Hj E. right. by rewrite Hlat, Z.eqb_refl.
  - intros j Hj E. pose proof (Hle j Hj). apply Hn; [done|lia].
  - intros j Hj E. pose proof (na_closed _ _ _ _ _ _ Hn j Hj E). pose proof (Hle j Hj). lia.
Qed.

(** [BSPSTORE] moves down past registers that are no longer stored. *)
Lemma nats_move m c0 base top nat e b :
  rnat_ok e -> uint 64 b ->
  (forall j, base <= j < top -> coll j = ia64_rse_collect_word b -> j mod 63 <= ia64_rse_collect_bit b) ->
  nats_ok m c0 base top nat e -> nats_ok m c0 base top nat (ia64_rse_rnat_move_bspstore e b).
Proof.
  intros Hok Hu Hbit Hn. destruct (move_bspstore_spec e b Hok Hu) as (_ & _ & _ & Hl & Hss).
  destruct (move_bspstore_latches e b Hok) as [Ha Hlat].
  set (s := ia64_rse_rnat_move_bspstore e b) in *. clearbody s.
  assert (Hcut : forall j, base <= j < top ->
    (coll j =? ia64_rse_collect_word b) && (ia64_rse_collect_bit b <? j mod 63) = false).
  { intros j Hj. destruct (Z.eqb_spec (coll j) (ia64_rse_collect_word b)) as [E|]; [|done].
    pose proof (Hbit j Hj E). cbn [andb]. apply Z.ltb_ge. lia. }
  split; rewrite ?Ha; [| | |apply Hn..]; intros j Hj E.
  - destruct (Hss (coll j) (j mod 63) (mod63_range j)) as [_ ->]. rewrite Hcut by done. by apply Hn.
  - destruct (Hss (coll j) (j mod 63) (mod63_range j)) as [-> _]. rewrite Hcut, Hl, Hlat by done. by apply Hn.
  - rewrite Hlat. by apply (na_open _ _ _ _ _ _ Hn j).
Qed.

(** What a fill composes: the fill latch or memory, the table, the spill latch. *)
Lemma nats_fill m c0 base top nat e j b0 :
  nats_ok m c0 base top nat e -> base <= j < top ->
  b0 = (if latch_at e (coll j) then load_known e (coll j) (j mod 63)
        else if coll j =? c0 then None else Some (Z.testbit (m (coll j)) (j mod 63))) ->
  over (over b0 (shadow_known e (coll j) (j mod 63))) (spill_known e (coll j) (j mod 63)) = Some (nat j).
Proof.
  intros Hn Hj ->. destruct (Z.eq_dec (rse_rnat_addr (rse e)) (coll j)) as [E|E].
  { by rewrite (na_spill _ _ _ _ _ _ Hn j Hj E). }
  destruct (na_other _ _ _ _ _ _ Hn j Hj E) as [Hsh Hld].
  assert (Hnone : spill_known e (coll j) (j mod 63) = None)
    by (unfold spill_known; by destruct (Z.eqb_spec (rse_rnat_addr (rse e)) (coll j))).
  rewrite Hnone. cbn [over]. destruct (latch_at e (coll j)) eqn:El.
  - rewrite Hld by done. by destruct Hsh as [->| ->].
  - destruct (Z.eqb_spec (coll j) c0) as [Ec|Ec].
    + destruct (na_open _ _ _ _ _ _ Hn j Hj Ec); congruence.
    + rewrite (na_mem _ _ _ _ _ _ Hn j Hj Ec). by destruct Hsh as [->| ->].
Qed.

(** ** Memory as the register stack addresses it *)

(** The byte order and the translation of the register stack's accesses. *)
Definition mode_part (e : CPUIA64State) := (rse_big_endian e, ia64_rse_mmu_index e).

Lemma erase_mode s e : rnat_erase s = rnat_erase e -> mode_part s = mode_part e.
Proof.
  intros E. assert (Ep : psr s = psr e) by exact (f_equal psr E). unfold mode_part, rse_big_endian, ar_rsc,
    ia64_rse_mmu_index. by rewrite Ep, (erase_ar s e IA64_AR_RSC).
Qed.

Section words.
Context {W : Type} `{World : RseWorld W} `{Laws : !RseWorldLaws W}.

Local Abbreviation clean := (rse_has_clean_partition (@cpu_class W World)).

Definition smem (mode : bool * Z) (s : rse_sys W) (a : Z) : Z :=
  rse_mem (sys_world s) (fst mode) (snd mode) a.

Lemma bmem_smem (s : rse_sys W) a : bmem s a = smem (mode_part (senv s)) s a.
Proof. done. Qed.

(** [s'] differs from [s] in memory at [a]. *)
Definition wrote (mode : bool * Z) (s s' : rse_sys W) (a v : Z) : Prop :=
  forall a', uint 64 a' -> a' mod 8 = 0 -> smem mode s' a' = if a' =? a then v else smem mode s a'.

Definition same_mem (s s' : rse_sys W) : Prop := forall mode a, smem mode s' a = smem mode s a.

Lemma faulted_mem (s s' : rse_sys W) : faulted rse_mem s s' -> same_mem s s'.
Proof. intros [_ H] [be idx] a. apply H. Qed.

Lemma accessed_mode (s s' : rse_sys W) : accessed s s' -> mode_part (senv s') = mode_part (senv s).
Proof. intros (_ & E1 & E2). unfold mode_part. by rewrite E1, E2. Qed.

(** ** One store, step by step

    The latch is bound, the word is written, the counts follow; a fault leaves
    the bound latch. *)
Lemma store_one_detail (s : rse_sys W)
    (e1 := ia64_rse_rnat_bind (senv s) (ia64_rse_collect_word (ar_bspstore (senv s)))) :
  let b := ar_bspstore (senv s) in
  let c := ia64_rse_collect_word b in
  let ncb := ia64_rse_collect_bit b in
  let p := ia64_rse_wrap_phys (rse_bol (rse e1) - rse_dirty (rse e1)) in
  let mode := mode_part (senv s) in
  uint 64 b -> b mod 8 = 0 -> uint 64 (aget (rse_pgr (rse e1)) p) -> mode_part e1 = mode ->
  ensures (ia64_rse_store_one s)
    (fun n s' => exists e2, kept e1 e2 /\ mode_part e2 = mode /\
       ((ncb = 63 /\ n = 0 /\ exists v, uint 63 v /\
           (forall i, 0 <= i < 63 ->
              Z.testbit (snd (store_collection_value e1 c)) i = true ->
              Z.testbit v i = Z.testbit (fst (store_collection_value e1 c)) i) /\
           senv s' = collection_stored cpu_class e2 b c v /\ wrote mode s s' b v) \/
        (ncb <> 63 /\ n = 1 /\ senv s' = register_stored cpu_class e2 b p ncb /\
         wrote mode s s' b (aget (rse_pgr (rse e1)) p))))
    (fun _ s' => kept e1 (senv s') /\ same_mem s s').
Proof.
  intros b c ncb p mode Hb Hb8 Hu Hmode. unfold ia64_rse_store_one. apply ensures_getenv, ensures_modenv.
  fold b c ncb. set (s1 := s <| sys_cpu; env ::= fun e => ia64_rse_rnat_bind e c |>).
  apply ensures_getenv. change (senv s1) with e1.
  assert (Hm1 : mode_part (senv s1) = mode) by exact Hmode.
  assert (Hwrote : forall s2 v, accessed s1 s2 ->
    (forall a', uint 64 a' -> a' mod 8 = 0 -> bmem s2 a' = if a' =? b then v else bmem s1 a') ->
    mode_part (senv s2) = mode /\ wrote mode s s2 b v).
  { intros s2 v Hacc Hw. pose proof (accessed_mode _ _ Hacc) as Hm2. rewrite Hm1 in Hm2. split; [done|].
    intros a' Ha' Ha8'. specialize (Hw a' Ha' Ha8'). by rewrite !bmem_smem, Hm1, Hm2 in Hw. }
  destruct (Z.eqb_spec ncb 63) as [E63|E63].
  - eapply ensures_bind.
    { eapply ensures_mono; [apply write_collection_spec; [done|done|]|intros v s' H; exact H|].
      - unfold store_collection_value. cbv zeta. case_match; cbn [snd].
        + apply uint_lor; [lia|apply uint63_land|apply uint63_land].
        + apply uint63_land.
      - intros ? s' H. split; [apply H|apply (faulted_mem s1 s' H)]. }
    intros v s2 (Hv & Hbits & Hacc & Hw). destruct (Hwrote s2 v Hacc Hw) as [Hm2 Hw2].
    apply ensures_modenv, ensures_ret. exists (senv s2). split_and!; [apply Hacc|done|].
    left. split_and!; [done|done|]. exists v. split_and!; [done| |done|exact Hw2].
    intros i Hi. by apply Hbits.
  - eapply ensures_bind.
    { eapply ensures_mono; [by apply write_u64_spec|intros v s' H; exact H|].
      intros ? s' H. split; [apply H|apply (faulted_mem s1 s' H)]. }
    intros u s2 (Hacc & Hw). destruct (Hwrote s2 _ Hacc Hw) as [Hm2 Hw2].
    apply ensures_modenv, ensures_ret. exists (senv s2). split_and!; [apply Hacc|done|].
    right. split_and!; [done|done|done|exact Hw2].
Qed.

(** ** The stack of registers

    [sg j] is the value and the NaT bit of register [j] of the stack, counted
    as in [RseMap.bs_addr], for [base] and above.  The registers of the live
    partitions and the frame are in the physical file, those below [BSPSTORE]
    in the backing store. *)
Definition slot (K : Z) (e : CPUIA64State) (j : Z) : Z := (rse_bol (rse e) + (j - K)) mod 96.

Record stack (mode : bool * Z) (K base : Z) (sg : Z -> Z * bool) (s : rse_sys W) : Prop := {
  st_inv : rse_inv clean K (senv s);
  st_base : 0 <= base;
  st_file : forall j, base <= j ->
    K - rse_dirty (rse (senv s)) - rse_clean (rse (senv s)) <= j < K + cfm_sof (senv s) ->
    content (senv s) (slot K (senv s) j) = sg j;
  st_mem : forall j, base <= j < K - rse_dirty (rse (senv s)) -> smem mode s (bs_addr j) = fst (sg j);
  st_nat : nats_ok (smem mode s) (ia64_rse_collect_word (ar_bspstore (senv s))) base
      (K - rse_dirty (rse (senv s))) (fun j => snd (sg j)) (senv s)
}.

(** The frame and its registers. *)
Definition frame_part (e : CPUIA64State) :=
  (rse_bol (rse e), (cfm_sof e, cfm_sol e, cfm_sor e), (cfm_rrb_gr e, cfm_rrb_fr e, cfm_rrb_pr e),
   ar_bsp e).

Record same_frame (e e' : CPUIA64State) : Prop := {
  sf_part : frame_part e' = frame_part e;
  sf_content : forall p, 0 <= p < 96 -> content e' p = content e p;
  sf_dirty : rse_gr_dirty (rse e') = rse_gr_dirty (rse e);
  sf_pfs : ar_pfs e' = ar_pfs e
}.

Lemma same_frame_refl e : same_frame e e.
Proof. by split. Qed.

Lemma same_frame_trans e1 e2 e3 : same_frame e1 e2 -> same_frame e2 e3 -> same_frame e1 e3.
Proof. intros [A1 A2 A3 A4] [B1 B2 B3 B4]. split; [congruence| |congruence..]. intros p Hp. by rewrite B2, A2. Qed.

Lemma kept_same_frame e e' : views_wf e -> kept e e' -> same_frame e e'.
Proof.
  intros Hw Hk. destruct (quiet_fields _ _ (k_rse _ _ Hk)) as (E1 & _).
  split; [|intros; by apply kept_content|by injection E1|by apply kept_ars]. pose proof (k_cfm _ _ Hk) as E2.
  pose proof (k_rrb _ _ Hk) as E3. destruct (kept_ars _ _ Hk) as (_ & Eb & _). unfold frame_part. rewrite Eb. by injection E1 as ? ? ? ->;
    injection E2 as -> -> ->; injection E3 as -> -> ->.
Qed.

Lemma parts_same_frame e e' :
  view_part e' = view_part e -> marker_part e' = marker_part e -> ar_bsp e' = ar_bsp e -> ar_pfs e' = ar_pfs e ->
  same_frame e e'.
Proof.
  intros E1 E2 E3 E4. split; [|intros; by apply view_part_content|by injection E1|done]. injection E1 as _ _ _ _ _ Eb Es Er Eg.
  injection E2 as El Ef Ep. unfold frame_part. by rewrite Eb, Es, Er, Eg, El, Ef, Ep, E3.
Qed.

Lemma erase_same_frame e e' : rnat_erase e' = rnat_erase e -> same_frame e e'.
Proof.
  intros E. destruct (erase_parts e' e E) as (E1 & E2 & E3). apply parts_same_frame; [done|done|by injection E3|].
  pose proof (f_equal (fun x => aget (ar x) IA64_AR_PFS) E) as Ep. cbn in Ep. by rewrite !aget_aset_ne in Ep.
Qed.

Lemma same_frame_slot K e e' j : same_frame e e' -> slot K e' j = slot K e j.
Proof. intros [E _ _ _]. injection E as E _ _ _ _ _ _ _. unfold slot. by rewrite E. Qed.

Lemma slot_range K e j : 0 <= slot K e j < 96.
Proof. apply Z.mod_pos_bound. lia. Qed.

(** A step that keeps the frame and the partitions. *)
Lemma stack_same mode K base sg (s s' : rse_sys W) :
  stack mode K base sg s -> rse_inv clean K (senv s') -> frame_part (senv s') = frame_part (senv s) ->
  (forall p, 0 <= p < 96 -> content (senv s') p = content (senv s) p) ->
  count_part (senv s') = count_part (senv s) ->
  (forall a, smem mode s' a = smem mode s a) ->
  (nats_ok (smem mode s) (ia64_rse_collect_word (ar_bspstore (senv s))) base
     (K - rse_dirty (rse (senv s))) (fun j => snd (sg j)) (senv s')) ->
  stack mode K base sg s'.
Proof.
  intros [] Hi Hf Hcont Hc Hm Hn. pose proof Hc as [= E1 _ E3 _ _ _ E7]. injection Hf as Eb E8 _ _ _ _ _ _.
  split; try done; rewrite ?E1, ?E3, ?E7, ?E8.
  - intros j Hb Hj. unfold slot. rewrite Eb. fold (slot K (senv s) j). rewrite Hcont by apply slot_range. auto.
  - intros j Hj. rewrite Hm. auto.
  - apply (nats_sub (smem mode s) _ _ base _ (K - rse_dirty (rse (senv s))) _ (fun j => snd (sg j)));
      auto; lia.
Qed.

Lemma kept_count e e' : kept e e' -> count_part e' = count_part e.
Proof.
  intros Hk. destruct (quiet_fields _ _ (k_rse _ _ Hk)) as (_ & E1 & _).
  destruct (kept_ars _ _ Hk) as (_ & Eb & Es & _). unfold count_part. rewrite Eb, Es. by injection E1 as -> -> -> -> ->.
Qed.

Lemma stack_kept mode K base sg (s s' : rse_sys W) :
  stack mode K base sg s -> kept (senv s) (senv s') -> same_mem s s' -> stack mode K base sg s'.
Proof.
  intros Hs Hk Hm. apply (stack_same mode K base sg s); [done| | | | | |].
  - apply (kept_inv Hk), Hs.
  - apply kept_same_frame, Hk. apply Hs.
  - apply kept_same_frame, Hk. apply Hs.
  - by apply kept_count.
  - intros a. apply Hm.
  - eapply nats_part; [by apply kept_rnat_part|by apply Hs].
Qed.

(** Binding the spill latch. *)
Lemma stack_bind mode K base sg (s : rse_sys W) e1 :
  stack mode K base sg s -> e1 = ia64_rse_rnat_bind (senv s) (ia64_rse_collect_word (ar_bspstore (senv s))) ->
  rse_inv clean K e1 /\ rnat_erase e1 = rnat_erase (senv s) /\
  rse_rnat_addr (rse e1) = ia64_rse_collect_word (ar_bspstore (senv s)) /\
  (nats_ok (smem mode s) (ia64_rse_collect_word (ar_bspstore (senv s))) base
     (K - rse_dirty (rse (senv s))) (fun j => snd (sg j)) e1).
Proof.
  intros Hs ->. pose proof (st_inv _ _ _ _ _ Hs) as Hi. pose proof (ri_part _ _ _ Hi) as P. unfold part_of in P.
  destruct (part_bspstore_u64 P) as (Hu & _ & _).
  set (c := ia64_rse_collect_word (ar_bspstore (senv s))).
  assert (Hcu : uint 64 c) by (by apply uint_collect_word).
  assert (Hcw : ia64_rse_collect_word c = c) by (by apply collect_word_idem).
  destruct (bind_spec (senv s) c (ri_rnat _ _ _ Hi) Hcu Hcw) as (Hok & Ha & He & _).
  split_and!; [by apply (inv_rnat_step clean K (senv s))|done|done|].
  apply nats_bind; [apply Hi|done|done|by apply Hs].
Qed.

(** A register outside the frame is in the physical file only. *)
Lemma content_outside e p :
  views_wf e -> 0 <= p < 96 -> cfm_sof e <= (p - rse_bol (rse e)) mod 96 ->
  content e p = (aget (rse_pgr (rse e)) p, ia64_rse_pgr_nat_get e p).
Proof.
  intros Hw Hp Hoff. unfold content, ia64_rse_pgr_nat_get. rewrite truth_bm_get.
  destruct (wf_sor _ (vw_frame _ Hw)). rewrite phys_to_virt_spec by (apply Hw || done).
  unfold rotate_down. destruct (Z.ltb_spec ((p - rse_bol (rse e)) mod 96) (8 * cfm_sor e)); [lia|].
  unfold frame_dirty_bit. destruct (Z.ltb_spec ((p - rse_bol (rse e)) mod 96) (cfm_sof e)); [lia|].
  by rewrite andb_false_r.
Qed.

Lemma slot_outside K e j :
  0 < K - j -> K - j <= 96 - cfm_sof e -> cfm_sof e <= (slot K e j - rse_bol (rse e)) mod 96.
Proof.
  intros H1 H2. unfold slot. rewrite Zminus_mod_idemp_l.
  replace (rse_bol (rse e) + (j - K) - rse_bol (rse e)) with (96 - (K - j) + -1 * 96) by lia.
  destruct (Z.le_gt_cases 0 (cfm_sof e)); rewrite Z.mod_add by lia.
  - rewrite Z.mod_small; lia.
  - pose proof (Z.mod_pos_bound (96 - (K - j)) 96). lia.
Qed.

Lemma register_word_aligned j : bs_addr j mod 8 = 0.
Proof.
  unfold bs_addr, wrap. rewrite Z.mod_mod_divide by (by exists (2 ^ 61)).
  rewrite Z.mul_comm. apply Z.mod_mul. lia.
Qed.

Section place.
Context {cl : bool} {K : Z} {e : CPUIA64State} (Hi : rse_inv cl K e).
Let d := rse_dirty (rse e).
Let dn := rse_dirty_nat (rse e).

(** The collection of the next word to be stored. *)
Lemma inv_open : ia64_rse_collect_word (ar_bspstore e) = open_coll (K - d) (store_flag K d dn).
Proof.
  pose proof (ri_part _ _ _ Hi) as P. unfold part_of in P. fold d dn in P.
  destruct (part_bspstore_u64 P) as (Hu & _ & _). destruct (part_words P) as [Ew _]. rewrite Ew in *.
  apply collect_word_at; [apply P| |done]. pose proof (part_store_range P). lia.
Qed.

Lemma inv_stored_coll j : j < K - d -> coll j <= ia64_rse_collect_word (ar_bspstore e).
Proof. intros Hj. rewrite inv_open. apply coll_below; [apply (ri_part _ _ _ Hi)|done]. Qed.

Lemma inv_counts : cfm_sof e + d + rse_clean (rse e) + rse_invalid (rse e) = 96 /\
  0 <= cfm_sof e /\ - cfm_sof e <= d /\ 0 <= rse_clean (rse e) /\ 0 <= rse_invalid (rse e) /\
  0 <= K - d - rse_clean (rse e) /\ 0 <= K.
Proof. pose proof (ri_part _ _ _ Hi) as []. unfold d. lia. Qed.

Lemma coll_aligned j : 0 <= j < K + cfm_sof e -> uint 64 (coll j) /\ coll j mod 8 = 0.
Proof.
  intros Hj. pose proof (po_high _ _ _ _ _ _ _ _ _ _ (ri_part _ _ _ Hi)) as Hh. split.
  - assert (j / 63 <= (K + cfm_sof e) / 63) by (apply Z.div_le_mono; lia).
    assert (0 <= j / 63) by (apply Z.div_pos; lia).
    pose proof (Z.div_mod (K + cfm_sof e) 63 ltac:(lia)). pose proof (mod63_range (K + cfm_sof e)).
    unfold coll, uint. change (2 ^ 64) with 18446744073709551616.
    change (2 ^ 61) with 2305843009213693952 in *. lia.
  - unfold coll. rewrite Z.mul_comm. apply Z.mod_mul. lia.
Qed.

(** The words of registers and of collections. *)
Lemma register_word j : 0 <= j <= K + cfm_sof e -> bs_addr j = 8 * (j + j / 63) /\ uint 64 (bs_addr j).
Proof.
  intros Hj. pose proof (word_at_range (ri_part _ _ _ Hi) j 0 (or_introl eq_refl) Hj) as Hr.
  unfold word_at in Hr. unfold bs_addr. rewrite wrap_small; unfold uint in *; lia.
Qed.

Lemma register_not_coll j j' :
  0 <= j <= K + cfm_sof e -> bs_addr j <> coll j'.
Proof.
  intros Hj E. destruct (register_word j Hj) as [Ej _]. rewrite Ej in E. unfold coll in E.
  pose proof (Z.div_mod j 63 ltac:(lia)). pose proof (mod63_range j). lia.
Qed.

Lemma register_word_inj j j' :
  0 <= j <= K + cfm_sof e -> 0 <= j' <= K + cfm_sof e -> bs_addr j = bs_addr j' -> j = j'.
Proof.
  intros Hj Hj' E. destruct (register_word j Hj) as [Ej _]. destruct (register_word j' Hj') as [Ej' _].
  rewrite Ej, Ej' in E. pose proof (Z.div_mod j 63 ltac:(lia)). pose proof (mod63_range j).
  pose proof (Z.div_mod j' 63 ltac:(lia)). pose proof (mod63_range j'). lia.
Qed.

End place.

(** The collection stays open after the store of a register. *)
Lemma open_coll_succ top f :
  boundary (top + 1) f -> f = (if (top + 1) mod 63 =? 0 then 1 else 0) ->
  open_coll (top + 1) f = coll top.
Proof.
  intros _ ->. unfold open_coll, coll. rewrite div63_step. case_match; lia.
Qed.

Lemma mode_ar e i x : i <> IA64_AR_RSC -> mode_part (e <| ar @ i := x |>) = mode_part e.
Proof.
  intros Hi. unfold mode_part, rse_big_endian, ar_rsc, ia64_rse_mmu_index. cbn [ar psr upd].
  by rewrite aget_aset_ne.
Qed.

Lemma counts_mode e d dn c cn v : mode_part (set_counts e d dn c cn v) = mode_part e.
Proof. done. Qed.

(** The collections have changed, and the counts and [BSPSTORE] follow. *)
Lemma recount cl K e e1 b d dn c cn v :
  rse_inv cl K e -> rnat_ok e1 -> rnat_erase e1 = rnat_erase e ->
  part_ok cl K (cfm_sof e) d dn c cn v (ar_bsp e) b ->
  let s := set_counts (e1 <| ar @ IA64_AR_BSPSTORE := b |>) d dn c cn v in
  rse_inv cl K s /\ same_frame e s /\ mode_part s = mode_part e /\
  count_part s = (d, dn, c, cn, v, ar_bsp e, b) /\ rnat_part s = rnat_part e1.
Proof.
  intros Hi Hok He P. cbv zeta. destruct (erase_parts _ _ He) as (Ev & Em & Ec).
  pose proof (erase_mode _ _ He) as Emo. injection Ec as _ _ _ _ _ Ebsp _.
  destruct (set_pointer_parts e1 IA64_AR_BSPSTORE b (or_intror eq_refl) (rn_ar _ Hok))
    as (Ev2 & Em2 & Er2 & Eb2 & Ebs2 & _ & _).
  pose proof (mode_ar e1 IA64_AR_BSPSTORE b ltac:(done)) as Emo2.
  assert (Epfs : ar_pfs (e1 <| ar @ IA64_AR_BSPSTORE := b |>) = ar_pfs e1) by (by apply aget_aset_ne).
  set (e2 := e1 <| ar @ IA64_AR_BSPSTORE := b |>) in *. clearbody e2.
  change (ar_bsp e2 = ar_bsp e1) in Eb2. change (ar_bspstore e2 = b) in Ebs2.
  destruct (set_counts_parts e2 d dn c cn v) as (Ev3 & Em3 & Er3 & Ec3 & _).
  pose proof (counts_mode e2 d dn c cn v) as Emo3.
  change (ar_pfs e2) with (ar_pfs (set_counts e2 d dn c cn v)) in Epfs.
  set (s := set_counts e2 d dn c cn v) in *. clearbody s.
  assert (Hview : view_part s = view_part e) by congruence.
  assert (Hmark : marker_part s = marker_part e) by congruence.
  rewrite Eb2, Ebs2, Ebsp in Ec3.
  split_and!; try congruence.
  - apply (inv_step cl K K e); try done; [apply (rnat_part_ok e1); [congruence|done]|].
    injection Ec3 as C1 C2 C3 C4 C5 C6 C7. unfold part_of. rewrite C1, C2, C3, C4, C5, C6, C7.
    by replace (cfm_sof s) with (cfm_sof e) by (injection Hview; congruence).
  - apply parts_same_frame; [done|done|by injection Ec3|]. rewrite Epfs. apply (sf_pfs _ _ (erase_same_frame _ _ He)).
Qed.

(** The counts after the store of a register. *)
Lemma register_stored_step K e p :
  let b := ar_bspstore e in
  let d := rse_dirty (rse e) in
  let dn := rse_dirty_nat (rse e) in
  rse_inv clean K e -> ia64_rse_collect_bit b <> 63 -> 0 <= d -> 0 < d + dn ->
  rse_rnat_addr (rse e) = ia64_rse_collect_word b ->
  let s := register_stored cpu_class e b p (ia64_rse_collect_bit b) in
  rse_inv clean K s /\ same_frame e s /\ mode_part s = mode_part e /\
  (rse_dirty (rse s) = d - 1 /\ rse_dirty_nat (rse s) = dn /\ 0 < d /\
   rse_clean (rse s) = if clean then rse_clean (rse e) + 1 else rse_clean (rse e)) /\
  b = bs_addr (K - d) /\ coll (K - d) = ia64_rse_collect_word b /\
  ia64_rse_collect_word (ar_bspstore s) = ia64_rse_collect_word b /\
  rnat_part s = rnat_part (reg_latch e p ((K - d) mod 63)).
Proof.
  intros b d dn Hi Hne Hd Hpos Ha s. pose proof (ri_part _ _ _ Hi) as P. unfold part_of in P. fold d dn b in P.
  destruct (part_store_kind P) as [[? _]|(Hbit & Hf & Hb)]; [done|].
  destruct (part_bspstore_u64 P) as (_ & _ & Hu8).
  pose proof (part_store_register P Hf Hpos Hd) as [Hd0 P'].
  pose proof (inv_open Hi) as Hop. fold b d dn in Hop. rewrite Hf in Hop.
  assert (Hcol : coll (K - d) = ia64_rse_collect_word b) by (rewrite Hop; unfold coll, open_coll; lia).
  assert (Hn : rse_rnat_addr (rse e) <> UINT64_MAX) by (rewrite Ha, <- Hcol; apply coll_not_max).
  unfold s. rewrite register_stored_eq, (wrap_small 64 (b + 8)) by done. rewrite Hbit. fold d dn.
  destruct (reg_latch_spec e p ((K - d) mod 63) (ri_rnat _ _ _ Hi) Hn (mod63_range _)) as (Hok & He & _ & _ & _).
  destruct (recount clean K e _ _ _ _ _ _ _ Hi Hok He P') as (Hi3 & Hsf & Hmo & Hc & Hr).
  match type of Hi3 with rse_inv _ _ ?t => set (e3 := t) in *; clearbody e3 end.
  injection Hc as C1 C2 C3 C4 C5 C6 C7. pose proof (inv_open Hi3) as Hop3. rewrite C1, C2 in Hop3.
  split_and!; try done.
  rewrite Hop3, <- Hcol. replace (K - (d - 1)) with (K - d + 1) by lia. apply open_coll_succ.
  - replace (K - d + 1) with (K - (d - 1)) by lia. apply P'.
  - unfold store_flag in *. replace (K - (d - 1)) with (K - d + 1) by lia.
    rewrite div63_step. destruct (_ =? 0); lia.
Qed.

(** The counts after the store of a collection. *)
Lemma collection_stored_step K e v :
  let b := ar_bspstore e in
  let d := rse_dirty (rse e) in
  let dn := rse_dirty_nat (rse e) in
  rse_inv clean K e -> ia64_rse_collect_bit b = 63 -> 0 <= d -> uint 63 v ->
  let c := ia64_rse_collect_word b in
  let s := collection_stored cpu_class e b c v in
  rse_inv clean K s /\ same_frame e s /\ mode_part s = mode_part e /\
  (rse_dirty (rse s) = d /\ rse_dirty_nat (rse s) = dn - 1 /\ rse_clean (rse s) = rse_clean (rse e)) /\
  b = c /\ ia64_rse_collect_word (ar_bspstore s) = c + 512 /\ rnat_part s = rnat_part (coll_latch e c v).
Proof.
  intros b d dn Hi Hbit Hd Hv c s. pose proof (ri_part _ _ _ Hi) as P. unfold part_of in P. fold d dn b in P.
  destruct (part_store_kind P) as [[_ Hf]|(Hbit' & _ & _)]; [|pose proof (mod63_range (K - d)); lia].
  destruct (part_bspstore_u64 P) as (Hu & _ & Hu8). pose proof (part_words P) as [Ew _].
  pose proof (part_store_collection P Hf Hd) as P'.
  pose proof (inv_open Hi) as Hop. fold b d dn c in Hop. rewrite Hf in Hop.
  assert (Hbc : b = c).
  { rewrite Hop, Ew, Hf. unfold word_at, open_coll. destruct (po_store _ _ _ _ _ _ _ _ _ _ P) as [?|(_ & Hm & _)]; [lia|].
    pose proof (Z.div_mod (K - d) 63 ltac:(lia)). lia. }
  assert (Hcu : uint 64 c) by (by rewrite <- Hbc).
  assert (Hcw : ia64_rse_collect_word c = c) by (by apply collect_word_idem).
  destruct (coll_latch_spec e c v (ri_rnat _ _ _ Hi) Hcu Hcw Hv) as (Hok & He & _).
  unfold s. rewrite collection_stored_eq, (wrap_small 64 (b + 8)) by done.
  set (e1 := coll_latch e c v) in *. clearbody e1.
  destruct (erase_parts _ _ He) as (_ & _ & Ec). injection Ec as E1 E2 E3 E4 E5 _ _. rewrite E1, E2, E3, E4, E5.
  destruct (recount clean K e _ _ _ _ _ _ _ Hi Hok He P') as (Hi3 & Hsf & Hmo & Hc & Hr).
  fold d dn. match type of Hi3 with rse_inv _ _ ?t => set (e3 := t) in *; clearbody e3 end.
  injection Hc as C1 C2 C3 C4 C5 C6 C7. pose proof (inv_open Hi3) as Hop3. rewrite C1, C2 in Hop3.
  split_and!; try done. rewrite Hop3, Hop. unfold open_coll, store_flag in *. lia.
Qed.

(** A completed collection has the bits of the spill latch. *)
Lemma store_value_spill e c i b :
  0 <= i < 63 -> rse_rnat_addr (rse e) = c -> spill_known e c i = Some b ->
  Z.testbit (snd (store_collection_value e c)) i = true /\
  Z.testbit (fst (store_collection_value e c)) i = b.
Proof.
  intros Hi <-. unfold spill_known, known. rewrite Z.eqb_refl.
  destruct (Z.testbit (rse_rnat_defined (rse e)) i) eqn:Ed; [|done]. intros [= <-].
  unfold store_collection_value. cbv zeta. set (sd := rse_rnat_defined (rse e) .& INT64_MAX).
  assert (Hsd : Z.testbit sd i = true) by (unfold sd; by rewrite land_INT64_MAX).
  destruct (Z.ltb_spec i 64); [|lia].
  case_match; cbn [fst snd]; rewrite ?Z.lor_spec, ?Z.land_spec, Hsd, ?andb_true_r; [|done].
  split; [done|]. rewrite wnot_spec, Hsd by lia. cbn [negb]. by rewrite !andb_false_r.
Qed.

Lemma inv_pgr_u64 cl K e p : rse_inv cl K e -> uint 64 (aget (rse_pgr (rse e)) p).
Proof. intros Hi. apply Forall_aget; [apply Hi|uint_const]. Qed.

(** The processor part of a state where the stack has not moved. *)
Record still (mode : bool * Z) (K base : Z) (sg : Z -> Z * bool) (s : rse_sys W) (e : CPUIA64State)
  : Prop := {
  sl_stack : stack mode K base sg s;
  sl_mode : mode_part e = mode;
  sl_inv : rse_inv clean K e;
  sl_frame : same_frame (senv s) e;
  sl_count : count_part e = count_part (senv s);
  sl_nats : nats_ok (smem mode s) (ia64_rse_collect_word (ar_bspstore (senv s))) base
    (K - rse_dirty (rse (senv s))) (fun j => snd (sg j)) e
}.

(** After the store of a word: [n] is 1 for a register. *)
Record stored (mode : bool * Z) (K base : Z) (sg : Z -> Z * bool) (s : rse_sys W) (n : Z) (s' : rse_sys W)
  : Prop := {
  so_stack : stack mode K base sg s';
  so_mode : mode_part (senv s') = mode;
  so_frame : same_frame (senv s) (senv s');
  so_kind : n = 0 \/ n = 1;
  so_dirty : rse_dirty (rse (senv s')) = rse_dirty (rse (senv s)) - n;
  so_pos : 0 <= rse_dirty (rse (senv s)) - n;
  so_nat : rse_dirty_nat (rse (senv s')) = rse_dirty_nat (rse (senv s)) - (1 - n)
}.

Lemma stored_register mode K base sg (s s' : rse_sys W) e2 p :
  let e := senv s in
  let b := ar_bspstore e in
  still mode K base sg s e2 -> rse_rnat_addr (rse e2) = ia64_rse_collect_word b ->
  0 <= rse_dirty (rse e) -> 0 < rse_dirty (rse e) + rse_dirty_nat (rse e) ->
  ia64_rse_collect_bit b <> 63 -> p = slot K e (K - rse_dirty (rse e)) ->
  senv s' = register_stored cpu_class e2 b p (ia64_rse_collect_bit b) ->
  wrote mode s s' b (aget (rse_pgr (rse e2)) p) -> stored mode K base sg s 1 s'.
Proof.
  intros e b [Hs Hm2 Hi2 Hf2 Hc2 Hn2] Ha2 Hd Hpos Hbit -> Es' Hw. fold e b in Hf2, Hc2, Hn2.
  pose proof Hc2 as [= C1 C2 C3 _ _ _ C7]. fold b in C7.
  set (d := rse_dirty (rse e)) in *. set (j0 := K - d) in *.
  destruct (register_stored_step K e2 (slot K e j0)) as
    (Hi3 & Hf3 & Hmo3 & (D1 & D2 & Hd0 & D3) & Hb & Hcol & Hcw & Hr); rewrite ?C7, ?C1, ?C2; try done.
  rewrite C7, C1 in *. rewrite C2 in D2. rewrite C3 in D3. fold d j0 in Hb, Hcol, Hr.
  rewrite <- Es' in *. set (e3 := senv s') in *.
  pose proof (same_frame_trans _ _ _ Hf2 Hf3) as Hf. injection (sf_part _ _ Hf) as _ Esof _ _ _ _ _ _.
  destruct (inv_counts (st_inv _ _ _ _ _ Hs)) as (Hsum & Hsof & _ & Hc & Hv & Hlow & HK). fold e d in Hsum, Hsof, Hc, Hv, Hlow.
  assert (Hcontent : content e2 (slot K e j0) =
    (aget (rse_pgr (rse e2)) (slot K e j0), ia64_rse_pgr_nat_get e2 (slot K e j0))).
  { rewrite <- (same_frame_slot K _ _ j0 Hf2). injection (sf_part _ _ Hf2) as _ Es2 _ _ _ _ _ _.
    apply content_outside; [apply Hi2|apply slot_range|]. apply slot_outside; rewrite ?Es2; unfold j0; lia. }
  rewrite (sf_content _ _ Hf2) in Hcontent by apply slot_range.
  assert (Hj0 : base <= j0 -> sg j0 = (aget (rse_pgr (rse e2)) (slot K e j0), ia64_rse_pgr_nat_get e2 (slot K e j0))).
  { intros Hb0. rewrite <- Hcontent. symmetry. apply Hs; [done|]. fold e d. unfold j0. lia. }
  assert (Hreg : forall j, base <= j -> j < K -> 0 <= j <= K + cfm_sof e).
  { pose proof (st_base _ _ _ _ _ Hs). lia. }
  split; fold e d e3; [|by rewrite Hmo3|done|by right|done|lia|rewrite D2; lia].
  split; fold e3; rewrite ?D1, ?D3, ?Hcw; try apply Hs; try done.
  - rewrite Esof. intros j Hbj Hj. rewrite (same_frame_slot K _ _ j Hf), (sf_content _ _ Hf) by apply slot_range.
    apply Hs; [done|]. fold e d. destruct clean; lia.
  - intros j Hj. destruct (register_word (st_inv _ _ _ _ _ Hs) j (Hreg j ltac:(lia) ltac:(lia))) as [_ Hu].
    rewrite Hw by (done || apply register_word_aligned). rewrite Hb. destruct (Z.eqb_spec (bs_addr j) (bs_addr j0)) as [E|E].
    + apply (register_word_inj (st_inv _ _ _ _ _ Hs)) in E as ->; [|apply Hreg; lia..].
      rewrite Hj0 by lia. done.
    + apply (st_mem _ _ _ _ _ Hs). fold e d. assert (j <> j0) by congruence. unfold j0 in *. lia.
  - replace (K - (d - 1)) with (j0 + 1) by (unfold j0; lia). eapply nats_part; [exact Hr|].
    apply nats_register; [apply Hi2|done|done|intros Hb0; by rewrite Hj0|].
    apply (nats_sub (smem mode s) _ _ base _ j0 _ (fun j => snd (sg j))); [lia|lia|done| |by apply Hn2].
    intros j Hj _. destruct (coll_aligned (st_inv _ _ _ _ _ Hs) j) as [Hu Hal]; [fold e; pose proof (st_base _ _ _ _ _ Hs); unfold j0 in *; lia|].
    rewrite Hw by done. destruct (Z.eqb_spec (coll j) b) as [E|]; [|done].
    rewrite Hb in E. destruct (register_not_coll (st_inv _ _ _ _ _ Hs) j0 j); [unfold j0 in *; fold e; lia|done].
Qed.

Lemma stored_collection mode K base sg (s s' : rse_sys W) e2 v :
  let e := senv s in
  let b := ar_bspstore e in
  let c := ia64_rse_collect_word b in
  still mode K base sg s e2 -> rse_rnat_addr (rse e2) = c -> 0 <= rse_dirty (rse e) -> ia64_rse_collect_bit b = 63 -> uint 63 v ->
  (forall j, base <= j < K - rse_dirty (rse e) -> coll j = c ->
     Z.testbit v (j mod 63) = snd (sg j)) ->
  senv s' = collection_stored cpu_class e2 b c v -> wrote mode s s' b v ->
  stored mode K base sg s 0 s'.
Proof.
  intros e b c [Hs Hm2 Hi2 Hf2 Hc2 Hn2] Ha2 Hd Hbit Hv Hbits Es' Hw. fold e b c in Hf2, Hc2, Hn2.
  pose proof Hc2 as [= C1 C2 C3 _ _ _ C7]. fold b in C7. set (d := rse_dirty (rse e)) in *.
  destruct (collection_stored_step K e2 v) as
    (Hi3 & Hf3 & Hmo3 & (D1 & D2 & D3) & Hb & Hcw & Hr); rewrite ?C7, ?C1; try done.
  rewrite C7 in *. rewrite C1 in D1. rewrite C2 in D2. rewrite C3 in D3. fold c in Hi3, Hf3, Hmo3, D1, D2, D3, Hb, Hcw, Hr.
  rewrite <- Es' in *. set (e3 := senv s') in *.
  pose proof (same_frame_trans _ _ _ Hf2 Hf3) as Hf. injection (sf_part _ _ Hf) as _ Esof _ _ _ _ _ _.
  pose proof (st_inv _ _ _ _ _ Hs) as Hi. pose proof (st_base _ _ _ _ _ Hs) as Hb0.
  assert (Hreg : forall j, base <= j < K - d -> 0 <= j < K + cfm_sof e).
  { destruct (inv_counts Hi) as (_ & Hsof & Hdl & _). fold e d in Hsof, Hdl. lia. }
  assert (Hu : uint 64 b) by apply (part_bspstore_u64 (ri_part _ _ _ Hi)).
  split; fold e d e3; [|by rewrite Hmo3|done|by left|lia|lia|rewrite D2; lia].
  split; fold e3; rewrite ?D1, ?D3, ?Esof, ?Hcw; try done.
  - intros j Hbj Hj. rewrite (same_frame_slot K _ _ j Hf), (sf_content _ _ Hf) by apply slot_range.
    by apply Hs.
  - intros j Hj. destruct (register_word Hi j) as [_ Huj]; [specialize (Hreg j Hj); fold e; lia|].
    rewrite Hw by (done || apply register_word_aligned). destruct (Z.eqb_spec (bs_addr j) b) as [E|E].
    + rewrite <- E, collect_bit_bs_addr in Hbit. pose proof (mod63_range j). lia.
    + by apply (st_mem _ _ _ _ _ Hs).
  - eapply nats_part; [exact Hr|].
    apply (nats_collection (smem mode s)); [apply Hi2|done| | |done| | | |by apply Hn2].
    + by apply uint_collect_word.
    + by apply collect_word_idem.
    + intros j Hj. apply (inv_stored_coll Hi). fold e d. lia.
    + by apply Hbits.
    + intros j Hj. destruct (coll_aligned Hi j (Hreg j Hj)) as [Huj Hal]. rewrite Hw by done. by rewrite <- Hb.
Qed.

(** A store keeps the stack, whether it succeeds or faults; it moves one word
    out of the dirty partition. *)
Lemma store_one_spec mode K base sg (s : rse_sys W) :
  stack mode K base sg s -> mode_part (senv s) = mode -> 0 <= rse_dirty (rse (senv s)) ->
  0 < rse_dirty (rse (senv s)) + rse_dirty_nat (rse (senv s)) ->
  ensures (ia64_rse_store_one s)
    (fun n s' => stored mode K base sg s n s')
    (fun _ s' => stack mode K base sg s' /\ same_frame (senv s) (senv s') /\
       count_part (senv s') = count_part (senv s)).
Proof.
  intros Hs Hmode Hd Hpos. set (e := senv s) in *. pose proof (st_inv _ _ _ _ _ Hs) as Hi. fold e in Hi.
  destruct (stack_bind mode K base sg s _ Hs eq_refl) as (Hi1 & He & Ha1 & Hn1). fold e in Hi1, He, Ha1, Hn1.
  pose proof (store_one_detail s) as Hdet. cbv zeta in Hdet. fold e in Hdet.
  set (e1 := ia64_rse_rnat_bind e _) in *. clearbody e1.
  pose proof (erase_same_frame _ _ He) as Hf1. pose proof (erase_mode _ _ He) as Hm1.
  destruct (erase_parts _ _ He) as (_ & _ & Ec1).
  pose proof (part_bspstore_u64 (ri_part _ _ _ Hi)) as (Hu & _ & _).
  assert (Hafter : forall e2, kept e1 e2 -> same_frame e e2 /\ count_part e2 = count_part e /\
    rse_inv clean K e2 /\ rnat_part e2 = rnat_part e1 /\ rse_pgr (rse e2) = rse_pgr (rse e1)).
  { intros e2 Hk. split_and!.
    - eapply same_frame_trans; [done|]. apply kept_same_frame; [apply Hi1|done].
    - by rewrite (kept_count _ _ Hk).
    - by apply (kept_inv Hk).
    - by apply kept_rnat_part.
    - destruct (quiet_fields _ _ (k_rse _ _ Hk)) as (E & _). by injection E. }
  eapply ensures_mono; [apply Hdet; [done|apply (part_bspstore_aligned (ri_part _ _ _ Hi))|
    eapply inv_pgr_u64, Hi1|by rewrite Hm1]|..].
  - intros n s' (e2 & Hk & Hm2 & Hcase). destruct (Hafter e2 Hk) as (Hf & Hc & Hi2 & Hr & Hp).
    assert (Hsto : still mode K base sg s e2).
    { split; try done; [by rewrite Hm2|]. eapply nats_part; [exact Hr|done]. }
    assert (Ha2 : rse_rnat_addr (rse e2) = rse_rnat_addr (rse e1)) by (by injection Hr). rewrite Ha1 in Ha2.
    destruct Hcase as [(Hbit & -> & v & Hv & Hbits & Es' & Hw)|(Hbit & -> & Es' & Hw)].
    + rewrite Hmode in Hw. eapply stored_collection; try done. intros j Hj Ej.
      pose proof (na_spill _ _ _ _ _ _ Hn1 j Hj ltac:(by rewrite Ej)) as Hsp. rewrite Ej in Hsp.
      destruct (store_value_spill e1 _ _ _ (mod63_range j) Ha1 Hsp) as [Hdef Hval].
      by rewrite Hbits.
    + rewrite Hmode, <- Hp in Hw. injection (sf_part _ _ Hf1) as Ebol _ _ _ _ _ _ _. injection Ec1 as C1 _ _ _ _ _ _.
      apply (stored_register mode K base sg s s' e2 (ia64_rse_wrap_phys (rse_bol (rse e1) - rse_dirty (rse e1))));
        try done. rewrite wrap_phys_spec, Ebol, C1. unfold slot. fold e. f_equal. lia.
  - intros ? s' [Hk Hm]. destruct (Hafter _ Hk) as (Hf & Hc & Hi2 & Hr & _). split_and!; [|done|done].
    apply (stack_same mode K base sg s); try done; try apply Hf.
    eapply nats_part; [exact Hr|by apply Hn1].
Qed.

End words.
