(* ===== verification/RseLoads.v ===== *)
(** * The register stack: loads

    The loads that complete a frame: each brings back one word of the backing
    store, and the register it brings back is the one that was stored, with
    its NaT bit. *)
From stdpp Require Import list.
From S2P Require Import Prelude Arch Env Alat Registers Interrupt RseMap RseRnat RseOps RsePart RseSteps.
Local Open Scope Z_scope.

Section loads.
Context {W : Type} `{World : RseWorld W} `{Laws : !RseWorldLaws W}.

Local Abbreviation clean := (rse_has_clean_partition (@cpu_class W World)).

(** A fault in a load leaves the stack as it is. *)
Abbreviation unmoved s := (fun (_ : cpu_exit) (s' : rse_sys W) => kept (senv s) (senv s') /\ same_mem s s').

Lemma still_refl mode K base sg (s : rse_sys W) :
  stack mode K base sg s -> mode_part (senv s) = mode -> still mode K base sg s (senv s).
Proof. intros Hs Hm. split; try done; first [apply Hs|apply same_frame_refl]. Qed.

Lemma still_kept mode K base sg (s : rse_sys W) e e' :
  still mode K base sg s e -> kept e e' -> mode_part e' = mode -> still mode K base sg s e'.
Proof.
  intros [Hs _ Hi Hf Hc Hn] Hk Hm. split; try done.
  - by apply (kept_inv Hk).
  - eapply same_frame_trans; [done|]. apply kept_same_frame; [apply Hi|done].
  - by rewrite (kept_count _ _ Hk).
  - by eapply nats_part; [apply kept_rnat_part|].
Qed.

Lemma still_erase mode K base sg (s : rse_sys W) e e' :
  still mode K base sg s e -> rnat_erase e' = rnat_erase e -> rnat_ok e' ->
  nats_ok (smem mode s) (ia64_rse_collect_word (ar_bspstore (senv s))) base
    (K - rse_dirty (rse (senv s))) (fun j => snd (sg j)) e' ->
  still mode K base sg s e'.
Proof.
  intros [Hs Hm Hi Hf Hc _] He Hok Hn. destruct (erase_parts _ _ He) as (_ & _ & Ec). split; try done.
  - by rewrite (erase_mode _ _ He).
  - by apply (inv_rnat_step clean K e).
  - eapply same_frame_trans; [done|]. by apply erase_same_frame.
  - by rewrite Ec.
Qed.

(** What the fill starts from: the fill latch, or the collection in memory. *)
Lemma fill_base_spec mode K base sg (s : rse_sys W) c :
  let e := senv s in
  let c0 := ia64_rse_collect_word (ar_bspstore e) in
  still mode K base sg s e -> (c <? ar_bspstore e) = negb (c =? c0) ->
  ensures
    ((if rse_load_rnat_valid (rse e) && (rse_load_rnat_addr (rse e) =? c) then
        mret (rse_load_rnat (rse e) .& (rse_load_rnat_defined (rse e) .& INT64_MAX),
              rse_load_rnat_defined (rse e) .& INT64_MAX)
      else if c <? ar_bspstore e then
        let! word := ia64_rse_read_u64 c in mret (word .& INT64_MAX, INT64_MAX)
      else mret (0, 0)) s)
    (fun vd s' => still mode K base sg s (senv s') /\ same_mem s s' /\ mask_ok (fst vd) (snd vd) /\
       latch_at (senv s') c = latch_at e c /\
       (forall i, load_known (senv s') c i = load_known e c i) /\
       forall i, 0 <= i < 63 -> known (fst vd) (snd vd) i =
         if latch_at e c then load_known e c i
         else if c =? c0 then None else Some (Z.testbit (smem mode s c) i))
    (unmoved s).
Proof.
  intros e c0 Hst Hc. pose proof (load_part_spec e c (ri_rnat _ _ _ (sl_inv _ _ _ _ _ _ Hst))) as Hl.
  fold (latch_at e c). fold (latch_at e c) in Hl. destruct (latch_at e c) eqn:El.
  { destruct Hl as [Hm Hl]. apply ensures_ret. by split_and!. }
  rewrite Hc. destruct (c =? c0) eqn:E0; cbn [negb].
  { apply ensures_ret. split_and!; try done. intros. apply mask_ok_0_known. }
  eapply ensures_bind.
  { eapply ensures_mono; [apply read_u64_spec|intros v s' H; exact H|].
    intros ? s' H. split; [apply H|by apply faulted_mem]. }
  intros v s' (Hv & Hacc & Hm). apply ensures_ret. cbn [fst snd].
  assert (Hmo : mode_part (senv s') = mode).
  { rewrite (accessed_mode _ _ Hacc). apply Hst. }
  split_and!.
  - eapply still_kept; [done|apply Hacc|done].
  - intros [be idx] a. apply Hm.
  - apply mask_ok_land. uint_const.
  - rewrite <- El. apply rnat_part_latch, kept_rnat_part, Hacc.
  - intros i. apply (rnat_part_known e). apply kept_rnat_part, Hacc.
  - intros i Hi. rewrite known_land_self by lia. rewrite INT64_MAX_ones. unfold known.
    rewrite Z.ones_spec_low by lia. rewrite Hv, bmem_smem. fold e. by rewrite (sl_mode _ _ _ _ _ _ Hst).
Qed.

(** The lookup only moves the table's cursor. *)
Lemma find_step e c :
  table_ok e ->
  let s := snd (ia64_rse_rnat_shadow_find e c) in
  table_step e s /\ forall a i, shadow_known s a i = shadow_known e a i.
Proof.
  intros Hok. unfold ia64_rse_rnat_shadow_find. cbn [snd].
  assert (0 <= ia64_rse_rnat_shadow_lookup e c + 1 <= 96).
  { destruct (lookup_spec e c (proj1 Hok)) as [[-> _]|[Hr _]]; [lia|].
    pose proof (sh_count _ (proj1 Hok)). lia. }
  split; [by apply set_last_step|]. intros. apply set_last_known; [apply Hok|done].
Qed.

Lemma nats_table m c0 base top nat e s :
  table_step e s -> (forall a i, shadow_known s a i = shadow_known e a i) ->
  nats_ok m c0 base top nat e -> nats_ok m c0 base top nat s.
Proof.
  intros Hst Hk Hn. assert (Ha : rse_rnat_addr (rse s) = rse_rnat_addr (rse e)) by (by destruct Hst as [-> _ _]).
  split; rewrite ?Ha; intros j Hj Hc; [| | |by apply Hn..].
  - rewrite (table_step_spill _ _ _ _ Hst). by apply Hn.
  - rewrite (table_step_load _ _ _ _ Hst), (table_step_latch _ _ _ Hst), Hk. by apply Hn.
  - rewrite (table_step_latch _ _ _ Hst). by apply (na_open _ _ _ _ _ _ Hn j).
Qed.

(** The fill latch takes the composed collection. *)
Lemma fill_spec mode K base sg (s : rse_sys W) a :
  let e := senv s in
  let c0 := ia64_rse_collect_word (ar_bspstore e) in
  let c := ia64_rse_collect_word a in
  still mode K base sg s e -> (c <? ar_bspstore e) = negb (c =? c0) ->
  ensures (ia64_rse_fill_collection a s)
    (fun v s' => same_mem s s' /\ exists e1 dm,
       still mode K base sg s e1 /\ mask_ok v dm /\
       senv s' = set_load_rnat (ia64_rse_load_rnat_stash e1 c) v c dm /\
       forall j, base <= j < K - rse_dirty (rse e) -> coll j = c -> known v dm (j mod 63) = Some (snd (sg j)))
    (unmoved s).
Proof.
  intros e c0 c Hst Hc. unfold ia64_rse_fill_collection. apply ensures_getenv. fold e c.
  eapply ensures_bind; [by apply fill_base_spec|]. fold e c0.
  intros vd s1 (Hst1 & Hm1 & Hmk & Hlat & Hlk & Hb). apply ensures_modenv, ensures_getenv.
  set (s2 := s1 <| sys_cpu; env ::= fun env => snd (ia64_rse_rnat_shadow_find env c) |>).
  set (e1 := senv s1) in *. pose proof (ri_rnat _ _ _ (sl_inv _ _ _ _ _ _ Hst1)) as Hok1.
  destruct (find_step e1 c (rn_table _ Hok1)) as [Hstep Hsk].
  change (snd (ia64_rse_rnat_shadow_find e1 c)) with (senv s2) in Hstep, Hsk.
  pose proof (table_step_rnat_ok _ _ Hok1 Hstep) as Hok2.
  assert (Hst2 : still mode K base sg s (senv s2)).
  { eapply still_erase; [done|by apply table_step_erase|done|]. apply (nats_table _ _ _ _ _ e1); [done|done|apply Hst1]. }
  destruct vd as [bv bd]. cbn [fst snd] in Hmk, Hb |- *.
  pose proof (shadow_overlay_spec (senv s2) c bv bd Hok2 Hmk) as H2.
  destruct (ia64_rse_rnat_shadow_overlay (senv s2) c bv bd) as [v2 d2]. destruct H2 as [Hmk2 H2].
  pose proof (spill_overlay_spec (senv s2) c v2 d2 Hok2 Hmk2) as H3.
  destruct (spill_overlay (senv s2) c v2 d2) as [v3 d3]. destruct H3 as [Hmk3 H3].
  rewrite (uint63_land_id d3) by apply Hmk3. rewrite (mask_ok_land_id v3 d3) by done.
  apply ensures_modenv, ensures_modenv, ensures_ret. split.
  { intros mo x. change (smem mo s1 x = smem mo s x). apply Hm1. }
  exists (senv s2), d3. split_and!; [done|done|done|]. intros j Hj Ej.
  rewrite H3, H2, Hb by apply mod63_range. rewrite Hsk. rewrite <- (Hsk c). rewrite <- Ej.
  apply (nats_fill (smem mode s) c0 base (K - rse_dirty (rse e)) (fun j => snd (sg j)) (senv s2) j); [apply Hst2|done|].
  rewrite (table_step_latch _ _ _ Hstep), (table_step_load _ _ _ _ Hstep). rewrite Ej, Hlat, Hlk. done.
Qed.

(** The invariant but for the partitions. *)
Record shape (e : CPUIA64State) : Prop := {
  sp_views : views_wf e;
  sp_coherent : coherent e;
  sp_rnat : rnat_ok e;
  sp_sol : 0 <= cfm_sol e <= cfm_sof e;
  sp_rrb : 0 <= cfm_rrb_fr e < 96 /\ 0 <= cfm_rrb_pr e < 48;
  sp_pgr : Forall (uint 64) (rse_pgr (rse e));
  sp_gr : forall r, 32 <= r < 128 -> uint 64 (aget (gr e) r)
}.

Lemma inv_shape cl K e : rse_inv cl K e <-> shape e /\ part_of cl K e.
Proof. split; [intros []; by split|]. intros [[] ?]. by split. Qed.

Lemma shape_parts e s :
  shape e -> view_part s = view_part e -> marker_part s = marker_part e -> rnat_ok s -> shape s.
Proof.
  intros [] E Em Hr. injection Em as E1 E2 E3. injection E as Eg En E4 E5 E6 E7 E8 E9 E10.
  assert (E : view_part s = view_part e) by (unfold view_part; congruence).
  split; rewrite ?E1, ?E2, ?E3, ?E4, ?E8, ?Eg; try done.
  - by apply (view_part_wf E).
  - by apply (view_part_coherent E).
Qed.

(** A register of the frame has been read. *)
Lemma register_loaded_spec e p x b :
  shape e -> 0 <= p < 96 -> ia64_rse_phys_to_virt e p < cfm_sof e -> uint 64 x ->
  let s := register_loaded e p x b in
  shape s /\ frame_part s = frame_part e /\ rnat_part s = rnat_part e /\ mode_part s = mode_part e /\ ar s = ar e /\
  count_part s = (rse_dirty (rse e), rse_dirty_nat (rse e), rse_clean (rse e) + 1, rse_clean_nat (rse e),
                  rse_invalid (rse e) - 1, ar_bsp e, ar_bspstore e) /\
  content s p = (x, b) /\ forall p', 0 <= p' < 96 -> p' <> p -> content s p' = content e p'.
Proof.
  intros [Hw Hc Hok Hsol Hrrb Hpgr Hgr] Hp Hv Hx. set (v := ia64_rse_phys_to_virt e p) in *.
  pose proof (vw_frame _ Hw) as Hfr. pose proof (phys_to_virt_range e p Hfr Hp) as Hvr. fold v in Hvr.
  set (m := if b then bm_set (rse_pgr_nat (rse e)) p else bm_clear (rse_pgr_nat (rse e)) p).
  assert (Hm : bmap m) by (unfold m; destruct b; [apply bmap_set; [apply Hw|lia]|apply bmap_clear, Hw]).
  assert (Hml : alen (rse_pgr_nat (rse e)) = 2) by (destruct (vw_pnat _ Hw) as [E _]; by rewrite E).
  assert (Hmb : forall j, 0 <= j -> bm_get m j = if p =? j then b else bm_get (rse_pgr_nat (rse e)) j).
  { intros j Hj. unfold m. destruct b; [rewrite bm_get_set by lia|rewrite bm_get_clear by lia]; by destruct (p =? j). }
  set (e1 := e <| rse; rse_pgr @ p := x |> <| rse; rse_pgr_nat := m |>
               <| rse; rse_clean ::= fun n => n + 1 |> <| rse; rse_invalid ::= fun n => n - 1 |>
               <| gr @ 32 + v := x |>).
  destruct (gr_nat_set_spec e1 (32 + v) b) as (n & En & Hnl & Hnu & Hnb); [apply Hw|apply Hw|lia|].
  assert (Es : register_loaded e p x b = e1 <| nat_ := n |>).
  { rewrite <- En. unfold register_loaded. fold v. cbv zeta.
    assert (Eset : ia64_rse_pgr_nat_set (e <| rse; rse_pgr @ p := x |>) p b =
      e <| rse; rse_pgr @ p := x |> <| rse; rse_pgr_nat := m |>)
      by (unfold ia64_rse_pgr_nat_set, m; by destruct b).
    rewrite Eset. destruct (Z.ltb_spec v (cfm_sof e)) as [_|]; [|lia].
    change (IA64_STACKED_GR_BASE) with 32.
    match goal with |- (if ?t <? ?u then _ else _) = _ => change (t <? u) with (v <? cfm_sof e) end.
    destruct (Z.ltb_spec v (cfm_sof e)) as [_|]; [|lia]. fold e1.
    f_equal. unfold ia64_rse_pgr_nat_get. rewrite truth_bm_get.
    change (bm_get m p = b). rewrite Hmb, Z.eqb_refl by lia. done. }
  cbv zeta. rewrite Es. clear Es En. set (s := e1 <| nat_ := n |>).
  assert (Hg : forall r, aget (gr s) r = if 32 + v =? r then x else aget (gr e) r).
  { intros r. apply aget_aset. rewrite (vw_gr _ Hw). lia. }
  assert (Hpg : forall q, aget (rse_pgr (rse s)) q = if p =? q then x else aget (rse_pgr (rse e)) q).
  { intros q. apply aget_aset. rewrite (vw_pgr _ Hw). lia. }
  assert (Hnat : forall j, 0 <= j -> bm_get (nat_ s) j = if 32 + v =? j then b else bm_get (nat_ e) j) by exact Hnb.
  assert (Hpn : forall j, 0 <= j -> bm_get (rse_pgr_nat (rse s)) j =
    if p =? j then b else bm_get (rse_pgr_nat (rse e)) j) by exact Hmb.
  assert (Hptv : forall q, ia64_rse_phys_to_virt s q = ia64_rse_phys_to_virt e q) by done.
  assert (Hvtp : forall q, ia64_rse_virt_to_phys s q = ia64_rse_virt_to_phys e q) by done.
  assert (Hbit : forall q, frame_dirty_bit s q = frame_dirty_bit e q) by done.
  assert (Hws : views_wf s).
  { split; [destruct Hfr; by split| |by split| |exact Hm|apply Hw].
    - change (length (aset (gr e) (32 + v) x) = 128%nat). rewrite aset_length. apply Hw.
    - change (length (aset (rse_pgr (rse e)) p x) = 96%nat). rewrite aset_length. apply Hw. }
  assert (Hinj : forall q, 0 <= q < 96 -> ia64_rse_phys_to_virt e q = v -> q = p).
  { intros q Hq E. rewrite <- (virt_to_phys_to_virt e q Hfr Hq), E. by apply virt_to_phys_to_virt. }
  split_and!; try done.
  - split; try done.
    + intros u Hu Hd. rewrite Hbit in Hd. change (cfm_sof s) with (cfm_sof e) in Hu. destruct (wf_sof _ Hfr).
      pose proof (Hc u Hu Hd) as E. injection E as E1 E2. unfold view. rewrite Hvtp, Hg, Hnat, Hpg, Hpn
        by (lia || (pose proof (virt_to_phys_range e u Hfr); lia)).
      destruct (Z.eqb_spec (32 + v) (32 + u)) as [Ev|Ev].
      * assert (u = v) as -> by lia. unfold v. rewrite (virt_to_phys_to_virt e p Hfr Hp), Z.eqb_refl. done.
      * destruct (Z.eqb_spec p (ia64_rse_virt_to_phys e u)) as [Ep|]; [|by rewrite E1, E2].
        destruct Ev. f_equal. unfold v. rewrite Ep. apply phys_to_virt_to_phys; [done|lia].
    + destruct Hok. split; try done. by apply (table_ok_ext e).
    + apply Forall_aset; [done|done].
    + intros r Hr. rewrite Hg. destruct (_ =? r); [done|by apply Hgr].
  - unfold content. rewrite Hptv. fold v. rewrite Hg, Hnat, Hpg, Hpn, !Z.eqb_refl by lia. by case_match.
  - intros q Hq Hne. unfold content. rewrite Hptv, Hbit. set (u := ia64_rse_phys_to_virt e q).
    pose proof (phys_to_virt_range e q Hfr Hq) as Hu. fold u in Hu.
    rewrite Hg, Hnat, Hpg, Hpn by lia.
    destruct (Z.eqb_spec (32 + v) (32 + u)) as [Ev|_]; [|by destruct (Z.eqb_spec p q)].
    destruct Hne. apply Hinj; [done|]. unfold u in Ev. lia.
Qed.

(** What a move of [BSPSTORE] leaves alone. *)
Lemma moved_parts s e b :
  rnat_erase s = (rnat_erase e) <| ar @ IA64_AR_BSPSTORE := b |> -> ar_bspstore s = b ->
  view_part s = view_part e /\ marker_part s = marker_part e /\ mode_part s = mode_part e /\
  count_part s = (rse_dirty (rse e), rse_dirty_nat (rse e), rse_clean (rse e), rse_clean_nat (rse e),
                  rse_invalid (rse e), ar_bsp e, b) /\ ar_pfs s = ar_pfs e.
Proof.
  intros He Hb.
  assert (Har : forall k, k <> IA64_AR_RNAT -> k <> IA64_AR_BSPSTORE -> aget (ar s) k = aget (ar e) k).
  { intros k H1 H2. pose proof (f_equal (fun x => aget (ar x) k) He) as E. cbn in E.
    by rewrite !aget_aset_ne in E by done. }
  assert (Er : rse_erase (rse s) = rse_erase (rse e)) by exact (f_equal rse He).
  split_and!.
  - exact (f_equal view_part He).
  - exact (f_equal marker_part He).
  - assert (Ep : psr s = psr e) by exact (f_equal psr He).
    unfold mode_part, rse_big_endian, ar_rsc, ia64_rse_mmu_index. by rewrite Ep, Har.
  - unfold count_part. rewrite Hb. unfold ar_bsp. rewrite (Har IA64_AR_BSP) by done.
    by injection Er as _ _ _ _ -> -> -> -> -> _ _ _ _ _ _ _.
  - by apply Har.
Qed.

Lemma parts_frame s e :
  view_part s = view_part e -> marker_part s = marker_part e -> ar_bsp s = ar_bsp e ->
  frame_part s = frame_part e.
Proof.
  intros [= _ _ _ _ _ Eb Esof Esor Erg] [= El Ef Ep] E. unfold frame_part.
  by rewrite Eb, Esof, Esor, Erg, El, Ef, Ep, E.
Qed.

(** [BSPSTORE] moves down and the counts follow. *)
Lemma move_step cl K e d dn c cn v b :
  shape e -> part_ok cl K (cfm_sof e) d dn c cn v (ar_bsp e) b ->
  let s := ia64_rse_rnat_move_bspstore (set_counts e d dn c cn v) b in
  rse_inv cl K s /\ view_part s = view_part e /\ frame_part s = frame_part e /\ ar_pfs s = ar_pfs e /\
  mode_part s = mode_part e /\ count_part s = (d, dn, c, cn, v, ar_bsp e, b) /\
  forall m c0 base top nat,
    (forall j, base <= j < top -> coll j = ia64_rse_collect_word b -> j mod 63 <= ia64_rse_collect_bit b) ->
    nats_ok m c0 base top nat e -> nats_ok m c0 base top nat s.
Proof.
  intros Hsh P. cbv zeta. destruct (set_counts_parts e d dn c cn v) as (Ev & Em & Er & Ec & Es).
  pose proof (counts_mode e d dn c cn v) as Emo. pose proof (eq_refl : ar_pfs (set_counts e d dn c cn v) = ar_pfs e) as Ep.
  generalize dependent (set_counts e d dn c cn v). intros e1 Ev Em Er [= C1 C2 C3 C4 C5 C6 C7] Es Emo Ep.
  assert (Hok : rnat_ok e1) by (apply (rnat_part_ok e); [done|apply Hsh]).
  destruct (part_bspstore_u64 P) as (Hu & _ & _).
  destruct (move_bspstore_spec e1 b Hok Hu) as (Hok' & Hb & He & _).
  pose proof (fun m c0 base top nat => nats_move m c0 base top nat e1 b Hok Hu) as Hn.
  generalize dependent (ia64_rse_rnat_move_bspstore e1 b). intros s Hok' Hb He Hn.
  destruct (moved_parts s e1 b He Hb) as (Ev' & Em' & Emo' & Ec' & Ep').
  rewrite C1, C2, C3, C4, C5, C6 in Ec'. rewrite Ev in Ev'. rewrite Em in Em'. rewrite Emo in Emo'.
  split_and!; [|done| |congruence|done|done|].
  - apply inv_shape. split; [by apply (shape_parts e)|]. injection Ec' as D1 D2 D3 D4 D5 D6 D7.
    unfold part_of. rewrite D1, D2, D3, D4, D5, D6, D7. injection Ev' as _ _ _ _ _ _ -> _ _. done.
  - apply parts_frame; [done|done|]. by injection Ec'.
  - intros m c0 base top nat Hbit Hna. apply Hn; [done|]. by eapply nats_part.
Qed.

(** The word that is loaded, and where its collection is. *)
Lemma load_place K e :
  let d := rse_dirty (rse e) in
  let dn := rse_dirty_nat (rse e) in
  let b := ar_bspstore e in
  let c0 := ia64_rse_collect_word b in
  rse_inv clean K e -> d < 0 ->
  u64 (b - 8) = b - 8 /\
  ((ia64_rse_collect_bit (b - 8) = 63 /\ ia64_rse_collect_word (b - 8) = b - 8 /\ c0 = b - 8 + 512 /\
    uint 64 (b - 8) /\ (forall j, j < K - d -> coll j <= b - 8) /\
    part_ok clean K (cfm_sof e) d (dn + 1) 0 0 (rse_invalid (rse e)) (ar_bsp e) (b - 8)) \/
   (ia64_rse_collect_bit (b - 8) = (K - d - 1) mod 63 /\ ia64_rse_collect_word (b - 8) = c0 /\
    coll (K - d - 1) = c0 /\ b - 8 = bs_addr (K - d - 1) /\ b <= c0 /\
    part_ok clean K (cfm_sof e) (d + 1) dn 0 0 (rse_invalid (rse e) - 1) (ar_bsp e) (b - 8))).
Proof.
  intros d dn b c0 Hi Hd. pose proof (ri_part _ _ _ Hi) as P. unfold part_of in P. fold d dn b in P.
  destruct (po_incomplete _ _ _ _ _ _ _ _ _ _ P Hd) as [Hc Hcn].
  destruct (inv_counts Hi) as (Hsum & Hsof & Hdl & _ & Hv & _ & HK). fold d in Hsum, Hdl.
  pose proof (inv_open Hi) as Hop. fold d dn b c0 in Hop.
  destruct (part_bspstore_u64 P) as (Hub & _ & _). destruct (part_words P) as [Ew _].
  destruct (part_below P Hc Hcn ltac:(lia)) as [(Hf & Hm & Hge & Hbit)|(Hor & Hbit & Ea & Hf)].
  - assert (Hdm : K - d = 63 * ((K - d) / 63)) by (pose proof (Z.div_mod (K - d) 63 ltac:(lia)); lia).
    assert (Eb : b - 8 = open_coll (K - d) 1) by (rewrite Ew, Hf; unfold word_at, open_coll; lia).
    assert (Hbd : boundary (K - d) 1) by (by right).
    assert (Hub8 : uint 64 (b - 8)) by (unfold uint in *; unfold open_coll in Eb; lia).
    assert (Hw : 8 * word_at (K - d) 1 = b - 8) by (rewrite Eb; unfold word_at, open_coll; lia).
    split; [by apply wrap_small|]. left. split_and!; try done.
    + rewrite <- Hw, collect_word_at by (done || lia || by rewrite Hw). by rewrite Hw.
    + rewrite Hop, Eb, Hf. unfold open_coll. lia.
    + intros j Hj. rewrite Eb. by apply coll_below.
    + apply (part_fill_collection P); done.
  - destruct (register_word Hi (K - d - 1)) as [Er Hur]; [lia|].
    assert (Hcw : ia64_rse_collect_word (b - 8) = coll (K - d - 1)).
    { rewrite Ea, Er. replace (8 * (K - d - 1 + (K - d - 1) / 63)) with (8 * word_at (K - d - 1) 0)
        by (unfold word_at; lia).
      rewrite collect_word_at; [|by left|lia|unfold word_at; rewrite Z.sub_0_r, <- Er; done].
      unfold open_coll, coll. lia. }
    assert (Hco : coll (K - d - 1) = c0).
    { rewrite Hop. unfold coll, open_coll. pose proof (div63_step (K - d - 1)) as Hs.
      replace (K - d - 1 + 1) with (K - d) in Hs by lia. fold dn in Hor.
      destruct (po_store _ _ _ _ _ _ _ _ _ _ P) as [Hf0|(Hf1 & Hm1 & _)].
      - destruct Hor as [?|Hor]; [lia|]. rewrite Hf0. destruct (Z.eqb_spec ((K - d) mod 63) 0); [done|lia].
      - rewrite Hf1. destruct (Z.eqb_spec ((K - d) mod 63) 0); [lia|done]. }
    split; [apply wrap_small; by rewrite Ea|]. right. split_and!; try done; [congruence| |].
    + rewrite <- Hco. unfold coll. pose proof (Z.div_mod (K - d - 1) 63 ltac:(lia)).
      pose proof (mod63_range (K - d - 1)). lia.
    + pose proof (po_sof _ _ _ _ _ _ _ _ _ _ P). apply (part_fill_register P); try done; lia.
Qed.

(** The counts that [ia64_rse_complete_frame_loads] keeps after a load. *)
Definition load_turn (n : Z) (e : CPUIA64State) : CPUIA64State :=
  let e := if negb (n =? 0)
           then e <| rse; rse_clean ::= fun n => n - 1 |> <| rse; rse_dirty ::= fun n => n + 1 |>
           else e <| rse; rse_clean_nat ::= fun n => n - 1 |> <| rse; rse_dirty_nat ::= fun n => n + 1 |> in
  ia64_rse_rnat_move_bspstore e (u64 (ar_bspstore e - 8)).

(** A word has been brought back: [n] is 1 for a register. *)
Record restored (mode : bool * Z) (K base : Z) (sg : Z -> Z * bool) (s : rse_sys W) (n : Z) (s' : rse_sys W)
  : Prop := {
  rt_stack : stack mode K base sg s';
  rt_mode : mode_part (senv s') = mode;
  rt_frame : frame_part (senv s') = frame_part (senv s);
  rt_kind : n = 0 \/ n = 1;
  rt_dirty : rse_dirty (rse (senv s')) = rse_dirty (rse (senv s)) + n;
  rt_nat : rse_dirty_nat (rse (senv s')) = rse_dirty_nat (rse (senv s)) + (1 - n);
  rt_store : ar_bspstore (senv s') = ar_bspstore (senv s) - 8;
  rt_pfs : ar_pfs (senv s') = ar_pfs (senv s)
}.

(** The fill latch is filled: nothing else changes. *)
Lemma set_load_ok e v c d :
  rnat_ok e -> mask_ok v d -> uint 64 c -> ia64_rse_collect_word c = c ->
  let s := set_load_rnat (ia64_rse_load_rnat_stash e c) v c d in
  rnat_ok s /\ rnat_erase s = rnat_erase e.
Proof.
  intros Hok Hm Hu Hc. destruct (load_stash_step e c Hok) as [Hst _].
  pose proof (table_step_rnat_ok _ _ Hok Hst) as Hok1. pose proof (table_step_erase _ _ Hst) as He. cbv zeta.
  generalize dependent (ia64_rse_load_rnat_stash e c). intros e1 Hst Hok1 He.
  destruct (set_load_spec e1 v c d (rnat_ok_rest _ Hok1) Hm Hu Hc) as (_ & He2 & _).
  split; [|by rewrite He2]. destruct Hok1. split; try done. by apply (table_ok_ext e1).
Qed.

(** The collection word below the partition. *)
Lemma restored_collection mode K base sg (s s' : rse_sys W) e1 w :
  let e := senv s in
  let b := ar_bspstore e in
  still mode K base sg s e1 -> rse_dirty (rse e) < 0 -> ia64_rse_collect_bit (b - 8) = 63 ->
  w = smem mode s (b - 8) -> same_mem s s' ->
  senv s' = ia64_rse_rnat_move_bspstore
    (set_counts (set_load_rnat (ia64_rse_load_rnat_stash e1 (b - 8)) (w .& INT64_MAX) (b - 8) INT64_MAX)
       (rse_dirty (rse e)) (rse_dirty_nat (rse e) + 1) 0 0 (rse_invalid (rse e))) (b - 8) ->
  restored mode K base sg s 0 s'.
Proof.
  intros e b Hst Hd Hbit -> Hm Es'. pose proof Hst as [Hs Hm1 Hi1 Hf1 Hc1 Hn1]. fold e b in Hf1, Hc1, Hn1.
  pose proof (st_inv _ _ _ _ _ Hs) as Hi. fold e in Hi.
  destruct (load_place K e Hi Hd) as [_ [(_ & Hcw & Hc0 & Hu & Hle & P)|(Hbit' & _)]];
    [|fold b in Hbit'; pose proof (mod63_range (K - rse_dirty (rse e) - 1)); lia].
  fold b in Hcw, Hc0, Hu, Hle, P. set (c := b - 8) in *. rewrite Hc0 in Hn1.
  assert (Hmk : mask_ok (smem mode s c .& INT64_MAX) INT64_MAX) by (apply mask_ok_land; uint_const).
  assert (Hn2 : nats_ok (smem mode s) c base (K - rse_dirty (rse e)) (fun j => snd (sg j))
    (set_load_rnat (ia64_rse_load_rnat_stash e1 c) (smem mode s c .& INT64_MAX) c INT64_MAX)).
  { apply (nats_set_load _ (c + 512)); try done; [apply Hi1|lia| |].
    - intros j Hj. apply Hle. lia.
    - intros j Hj Ej _. rewrite known_land_self by (pose proof (mod63_range j); lia).
      rewrite INT64_MAX_ones. unfold known. rewrite Z.ones_spec_low by apply mod63_range.
      rewrite <- Ej. f_equal. apply (na_mem _ _ _ _ _ _ Hn1 j Hj). lia. }
  destruct (set_load_ok e1 (smem mode s c .& INT64_MAX) c INT64_MAX (ri_rnat _ _ _ Hi1) Hmk Hu Hcw) as [Hok2 He2].
  generalize dependent (set_load_rnat (ia64_rse_load_rnat_stash e1 c) (smem mode s c .& INT64_MAX) c INT64_MAX).
  intros e2 Es' Hn2 Hok2 He2.
  destruct (erase_parts _ _ He2) as (Ev2 & Em2 & Ec2). pose proof (erase_mode _ _ He2) as Emo2.
  pose proof (proj1 (proj1 (inv_shape _ _ _) Hi1)) as Hsh1. pose proof (shape_parts e1 e2 Hsh1 Ev2 Em2 Hok2) as Hsh2.
  pose proof (same_frame_trans _ _ _ Hf1 (erase_same_frame _ _ He2)) as Hf2.
  injection (sf_part _ _ Hf2) as _ Esof _ _ _ _ _ Ebsp. rewrite <- Esof, <- Ebsp in P.
  destruct (move_step clean K e2 _ _ _ _ _ _ Hsh2 P) as (Hi3 & Ev3 & Ef3 & Ep3 & Emo3 & Ec3 & Hn3).
  rewrite <- Es' in Hi3, Ev3, Ef3, Ep3, Emo3, Ec3, Hn3. injection Ec3 as D1 D2 D3 D4 D5 D6 D7.
  assert (Hf : frame_part (senv s') = frame_part e) by (rewrite Ef3; apply Hf2).
  assert (Hcont : forall p, 0 <= p < 96 -> content (senv s') p = content e p).
  { intros p Hp. rewrite (view_part_content Ev3). by apply (sf_content _ _ Hf2). }
  pose proof Hf as [= Ebol' Esof' _ _ _ _ _ _]. destruct (inv_counts Hi) as (_ & _ & _ & Hcl & _).
  split; fold e; [|congruence|done|by left|lia|lia|by rewrite D7|rewrite Ep3; apply Hf2].
  split; rewrite ?D1, ?D3, ?Esof'; [done|apply Hs| | |].
  - intros j Hb Hj. unfold slot. rewrite Ebol'. fold (slot K e j). rewrite Hcont by apply slot_range.
    apply Hs; [done|]. fold e. lia.
  - intros j Hj. rewrite Hm. by apply (st_mem _ _ _ _ _ Hs).
  - rewrite D7, Hcw. apply (nats_sub (smem mode s) _ _ base _ (K - rse_dirty (rse e)) _ (fun j => snd (sg j)));
      [lia|lia|done|intros; apply Hm|].
    apply Hn3; [|done]. intros j Hj _. fold c. rewrite Hbit. pose proof (mod63_range j). lia.
Qed.

Lemma slot_inj K e j j' : 0 <= j - j' < 96 -> slot K e j = slot K e j' -> j = j'.
Proof.
  intros Hj E. unfold slot in E.
  assert (Hm : ((rse_bol (rse e) + (j - K)) - (rse_bol (rse e) + (j' - K))) mod 96 = 0).
  { rewrite Zminus_mod, E, Z.sub_diag. done. }
  replace (rse_bol (rse e) + (j - K) - (rse_bol (rse e) + (j' - K))) with (j - j') in Hm by lia.
  rewrite Z.mod_small in Hm by lia. lia.
Qed.

(** The register below the partition. *)
Lemma restored_register mode K base sg (s s' : rse_sys W) e1 x v dm :
  let e := senv s in
  let b := ar_bspstore e in
  let c := ia64_rse_collect_word (b - 8) in
  let j1 := K - rse_dirty (rse e) - 1 in
  still mode K base sg s e1 -> rse_dirty (rse e) < 0 -> ia64_rse_collect_bit (b - 8) <> 63 ->
  x = smem mode s (b - 8) -> uint 64 x -> same_mem s s' -> mask_ok v dm ->
  (forall j, base <= j < K - rse_dirty (rse e) -> coll j = c -> known v dm (j mod 63) = Some (snd (sg j))) ->
  let e2 := set_load_rnat (ia64_rse_load_rnat_stash e1 c) v c dm in
  let e3 := register_loaded e2 (slot K e j1) x (Z.testbit v (j1 mod 63)) in
  senv s' = ia64_rse_rnat_move_bspstore
    (set_counts e3 (rse_dirty (rse e) + 1) (rse_dirty_nat (rse e)) 0 0 (rse_invalid (rse e) - 1)) (b - 8) ->
  restored mode K base sg s 1 s'.
Proof.
  intros e b c j1 Hst Hd Hbit -> Hx Hm Hmk Hkn e2 e3 Es'. pose proof Hst as [Hs Hm1 Hi1 Hf1 Hc1 Hn1].
  fold e b in Hf1, Hc1, Hn1. pose proof (st_inv _ _ _ _ _ Hs) as Hi. fold e in Hi.
  destruct (load_place K e Hi Hd) as [_ [(Hbit' & _)|(Hb1 & Hcw & Hco & Ea & Hbc & P)]]; [done|].
  fold b j1 in Hb1, Hcw, Hco, Ea, Hbc, P. fold c in Hcw. set (x := smem mode s (b - 8)) in *.
  destruct (part_bspstore_u64 (ri_part _ _ _ Hi)) as (Hu & _ & _). fold b in Hu.
  assert (Hcu : uint 64 c) by (rewrite Hcw; by apply uint_collect_word).
  assert (Hcc : ia64_rse_collect_word c = c) by (rewrite Hcw; by apply collect_word_idem).
  rewrite <- Hcw in Hn1, Hco.
  assert (Hn2 : nats_ok (smem mode s) c base (K - rse_dirty (rse e)) (fun j => snd (sg j)) e2).
  { apply (nats_set_load _ c); [apply Hi1|done|done|done|lia| |intros; by apply Hkn|done]. intros j Hj. rewrite Hcw. apply (inv_stored_coll Hi). lia. }
  destruct (set_load_ok e1 v c dm (ri_rnat _ _ _ Hi1) Hmk Hcu Hcc) as [Hok2 He2]. fold e2 in Hok2, He2. clearbody e2.
  destruct (erase_parts _ _ He2) as (Ev2 & Em2 & Ec2). pose proof (erase_mode _ _ He2) as Emo2.
  pose proof (shape_parts e1 e2 (proj1 (proj1 (inv_shape _ _ _) Hi1)) Ev2 Em2 Hok2) as Hsh2.
  pose proof (same_frame_trans _ _ _ Hf1 (erase_same_frame _ _ He2)) as Hf2.
  injection (sf_part _ _ Hf2) as Ebol Esof _ _ _ _ _ Ebsp.
  destruct (inv_counts Hi) as (Hsum & Hsof & Hdl & Hcl & _).
  assert (Hptv : ia64_rse_phys_to_virt e2 (slot K e j1) < cfm_sof e2).
  { pose proof (vw_frame _ (sp_views _ Hsh2)) as Hfr. rewrite phys_to_virt_spec by (done || apply slot_range).
    unfold slot. rewrite Zminus_mod_idemp_l, Ebol.
    replace (rse_bol (rse e) + (j1 - K) - rse_bol (rse e)) with (j1 - K) by lia.
    pose proof (wf_sof _ Hfr). rewrite Z.mod_small by (unfold j1; lia).
    apply rotate_down_range; [pose proof (wf_sor _ Hfr); lia|unfold j1; lia]. }
  destruct (register_loaded_spec e2 (slot K e j1) x (Z.testbit v (j1 mod 63)) Hsh2 (slot_range K e j1) Hptv Hx)
    as (Hsh3 & Ef3 & Er3 & Emo3 & Ea3 & _ & Hnew & Hold). fold e3 in Hsh3, Ef3, Er3, Emo3, Ea3, Hnew, Hold. clearbody e3.
  assert (Efr : frame_part e3 = frame_part e) by (rewrite Ef3; apply Hf2).
  pose proof Efr as [= Ebol3 Esof3 _ _ _ _ _ Ebsp3]. rewrite <- Esof3, <- Ebsp3 in P.
  destruct (move_step clean K e3 _ _ _ _ _ _ Hsh3 P) as (Hi4 & Ev4 & Ef4 & Ep4 & Emo4 & Ec4 & Hn4).
  rewrite <- Es' in Hi4, Ev4, Ef4, Ep4, Emo4, Ec4, Hn4. injection Ec4 as D1 D2 D3 D4 D5 D6 D7.
  assert (Ef : frame_part (senv s') = frame_part e) by congruence.
  pose proof Ef as [= Ebol4 Esof4 _ _ _ _ _ _].
  assert (Ep : ar_pfs (senv s') = ar_pfs e) by (rewrite Ep4; unfold ar_pfs; rewrite Ea3; apply (sf_pfs _ _ Hf2)).
  split; fold e; [|congruence|done|by right|done|lia|by rewrite D7|done].
  split; rewrite ?D1, ?D3, ?Esof4; [done|apply Hs| | |].
  - intros j Hb Hj. rewrite (view_part_content Ev4).
    assert (Eslot : slot K (senv s') j = slot K e j) by (unfold slot; by rewrite Ebol4). rewrite Eslot.
    destruct (Z.eq_dec j j1) as [->|Hne].
    + rewrite Hnew. assert (Hj1 : base <= j1 < K - rse_dirty (rse e)) by (unfold j1 in *; lia).
      pose proof (st_mem _ _ _ _ _ Hs j1 Hj1) as Hval. fold e in Hval. rewrite <- Ea in Hval.
      pose proof (Hkn j1 Hj1 Hco) as Hk. unfold known in Hk. destruct (Z.testbit dm (j1 mod 63)); [|done].
      injection Hk as Hk. unfold x. rewrite Hval, Hk. by destruct (sg j1).
    + rewrite Hold; [|apply slot_range|].
      * rewrite (sf_content _ _ Hf2) by apply slot_range. apply Hs; [done|]. fold e. unfold j1 in *. lia.
      * intros E. apply Hne, (slot_inj K e); [unfold j1 in *; pose proof (po_sof _ _ _ _ _ _ _ _ _ _ P); lia|done].
  - intros j Hj. rewrite Hm. apply (st_mem _ _ _ _ _ Hs). fold e. lia.
  - rewrite D7. fold c. apply (nats_sub (smem mode s) _ _ base _ (K - rse_dirty (rse e)) _ (fun j => snd (sg j)));
      [lia|lia|done|intros; apply Hm|].
    apply Hn4; [|by apply (nats_part _ _ _ _ _ e2)]. intros j Hj Ej. fold c in Ej. rewrite Hb1.
    rewrite <- Hco in Ej. unfold coll in Ej. pose proof (Z.div_mod j 63 ltac:(lia)).
    pose proof (Z.div_mod j1 63 ltac:(lia)). unfold j1 in *. lia.
Qed.

Lemma load_turn_collection e :
  load_turn 0 (e <| rse; rse_clean_nat ::= fun n => n + 1 |>) =
  ia64_rse_rnat_move_bspstore
    (set_counts e (rse_dirty (rse e)) (rse_dirty_nat (rse e) + 1) (rse_clean (rse e))
       (rse_clean_nat (rse e) + 1 - 1) (rse_invalid (rse e))) (u64 (ar_bspstore e - 8)).
Proof. done. Qed.

Lemma load_turn_register e :
  load_turn 1 e =
  ia64_rse_rnat_move_bspstore
    (set_counts e (rse_dirty (rse e) + 1) (rse_dirty_nat (rse e)) (rse_clean (rse e) - 1)
       (rse_clean_nat (rse e)) (rse_invalid (rse e))) (u64 (ar_bspstore e - 8)).
Proof. done. Qed.

Lemma restored_from mode K base sg (s s1 s' : rse_sys W) n :
  views_wf (senv s) -> kept (senv s) (senv s1) ->
  restored mode K base sg s1 n s' -> restored mode K base sg s n s'.
Proof.
  intros Hw Hk [? ? Hf ? Hd Hn Hb Hp]. pose proof (sf_pfs _ _ (kept_same_frame _ _ Hw Hk)) as Ep. pose proof (sf_part _ _ (kept_same_frame _ _ Hw Hk)) as Ef.
  pose proof (kept_count _ _ Hk) as [= C1 C2 _ _ _ _ C7]. rewrite C1 in Hd. rewrite C2 in Hn. rewrite C7 in Hb.
  split; try done; congruence.
Qed.

(** The state after a read that has succeeded. *)
Lemma load_read mode K base sg (s : rse_sys W) a :
  stack mode K base sg s -> mode_part (senv s) = mode ->
  ensures (ia64_rse_read_u64 a s)
    (fun v s1 => v = smem mode s1 a /\ uint 64 v /\ stack mode K base sg s1 /\ mode_part (senv s1) = mode /\
       kept (senv s) (senv s1) /\ same_mem s s1)
    (unmoved s).
Proof.
  intros Hs Hmode. eapply ensures_mono; [apply read_u64_spec|..].
  - intros v s1 (-> & Hacc & Hm). assert (Hsm : same_mem s s1) by (intros [be idx] x; apply Hm). split_and!.
    + rewrite bmem_smem, Hmode. symmetry. apply Hsm.
    + apply mem_u64.
    + eapply stack_kept; [done|apply Hacc|done].
    + by rewrite (accessed_mode _ _ Hacc).
    + apply Hacc.
    + done.
  - intros ? s1 H. split; [apply H|by apply faulted_mem].
Qed.

Lemma turn_collection mode K base sg (s s' : rse_sys W) :
  let e := senv s in
  let b := ar_bspstore e in
  let w := smem mode s (b - 8) in
  stack mode K base sg s -> mode_part e = mode -> rse_dirty (rse e) < 0 ->
  ia64_rse_collect_bit (b - 8) = 63 -> sys_world s' = sys_world s ->
  let e2 := set_load_rnat (ia64_rse_load_rnat_stash e (b - 8)) (w .& INT64_MAX) (b - 8) INT64_MAX in
  senv s' = load_turn 0 (e2 <| rse; rse_clean_nat ::= fun n => n + 1 |>) ->
  restored mode K base sg s 0 s'.
Proof.
  intros e b w Hs Hmode Hd Hbit Ew e2 Es'. pose proof (st_inv _ _ _ _ _ Hs) as Hi.
  destruct (po_incomplete _ _ _ _ _ _ _ _ _ _ (ri_part _ _ _ Hi) Hd) as [Hcl Hcn]. fold e in Hcl, Hcn.
  destruct (load_place K e Hi Hd) as [Eb [(_ & Hcw & _ & Hu & _)|(Hbit' & _)]]; fold b in Eb;
    [fold b in Hcw, Hu|fold b in Hbit'; pose proof (mod63_range (K - rse_dirty (rse e) - 1)); lia].
  apply (restored_collection mode K base sg s s' e w); [by apply still_refl|done|done|done| |].
  { intros mo x. unfold smem. by rewrite Ew. }
  fold e b e2. rewrite Es', load_turn_collection.
  destruct (set_load_ok e (w .& INT64_MAX) (b - 8) INT64_MAX) as [_ He2];
    [apply Hi|apply mask_ok_land; uint_const|done|done|]. fold e2 in He2. clearbody e2.
  destruct (erase_parts _ _ He2) as (_ & _ & Ec2). injection Ec2 as -> -> -> -> -> _ ->.
  fold b. by rewrite Eb, Hcl, Hcn.
Qed.

Lemma register_loaded_counts e p x b :
  count_part (register_loaded e p x b) =
    (rse_dirty (rse e), rse_dirty_nat (rse e), rse_clean (rse e) + 1, rse_clean_nat (rse e),
     rse_invalid (rse e) - 1, ar_bsp e, ar_bspstore e).
Proof.
  unfold register_loaded, ia64_rse_pgr_nat_set, ia64_gr_nat_set. cbv zeta.
  destruct b; (case_match; [|done]); case_match; try done; by case_match.
Qed.

Lemma turn_register mode K base sg (s s' : rse_sys W) e1 v dm :
  let e := senv s in
  let b := ar_bspstore e in
  let c := ia64_rse_collect_word (b - 8) in
  let x := smem mode s (b - 8) in
  let p := ia64_rse_wrap_phys (rse_bol (rse e) - (rse_clean (rse e) + rse_dirty (rse e) + 1)) in
  stack mode K base sg s -> still mode K base sg s e1 -> rse_dirty (rse e) < 0 ->
  ia64_rse_collect_bit (b - 8) <> 63 -> uint 64 x -> same_mem s s' -> mask_ok v dm ->
  (forall j, base <= j < K - rse_dirty (rse e) -> coll j = c -> known v dm (j mod 63) = Some (snd (sg j))) ->
  let e2 := set_load_rnat (ia64_rse_load_rnat_stash e1 c) v c dm in
  senv s' = load_turn 1 (register_loaded e2 p x (truth ((v >>> ia64_rse_collect_bit (b - 8)) .& 1))) ->
  restored mode K base sg s 1 s'.
Proof.
  intros e b c x p Hs Hst Hd Hbit Hx Hm Hmk Hkn e2 Es'. pose proof (st_inv _ _ _ _ _ Hs) as Hi.
  destruct (po_incomplete _ _ _ _ _ _ _ _ _ _ (ri_part _ _ _ Hi) Hd) as [Hcl Hcn]. fold e in Hcl, Hcn.
  destruct (load_place K e Hi Hd) as [Eb [(Hbit' & _)|(Hb1 & Hcw & _)]]; fold b in Eb; [done|]. fold b in Hb1. fold b c in Hcw.
  set (j1 := K - rse_dirty (rse e) - 1) in *.
  assert (Ep : p = slot K e j1) by (unfold p; rewrite wrap_phys_spec, Hcl; unfold slot, j1; f_equal; lia).
  rewrite truth_shiftr_1, Hb1, Ep in Es' by (rewrite Hb1; pose proof (mod63_range j1); lia).
  apply (restored_register mode K base sg s s' e1 x v dm); [done..|]. fold e b c e2 j1.
  rewrite Es', load_turn_register.
  destruct (part_bspstore_u64 (ri_part _ _ _ Hi)) as (Hu & _ & _). fold e b in Hu.
  destruct (set_load_ok e1 v c dm) as [_ He2]; [apply Hst|done| | |].
  { rewrite Hcw. by apply uint_collect_word. }
  { rewrite Hcw. by apply collect_word_idem. }
  fold e2 in He2. clearbody e2. destruct (erase_parts _ _ He2) as (_ & _ & Ec2).
  rewrite (sl_count _ _ _ _ _ _ Hst) in Ec2. fold e in Ec2.
  pose proof (register_loaded_counts e2 (slot K e j1) x (Z.testbit v (j1 mod 63))) as Ec3.
  set (e3 := register_loaded e2 (slot K e j1) x (Z.testbit v (j1 mod 63))) in *. clearbody e3.
  injection Ec2 as C1 C2 C3 C4 C5 C6 C7. rewrite C1, C2, C3, C4, C5, C6, C7 in Ec3.
  injection Ec3 as -> -> -> -> -> _ ->. fold b. rewrite Eb, Hcl, Hcn. done.
Qed.

(** A load brings back the word below the dirty partition, or faults and
    leaves the stack as it is. *)
Lemma load_one_spec mode K base sg (s : rse_sys W) :
  let b := ar_bspstore (senv s) in
  stack mode K base sg s -> mode_part (senv s) = mode -> rse_dirty (rse (senv s)) < 0 ->
  ensures (ia64_rse_load_one (u64 (b - 8)) s)
    (fun n s1 => forall s', sys_world s' = sys_world s1 -> senv s' = load_turn n (senv s1) ->
       restored mode K base sg s n s')
    (unmoved s).
Proof.
  intros b Hs Hmode Hd. pose proof (st_inv _ _ _ _ _ Hs) as Hi.
  destruct (load_place K _ Hi Hd) as [Eb _]. fold b in Eb. rewrite Eb. unfold ia64_rse_load_one.
  assert (Hread : forall a, _) by (intros a; exact (load_read mode K base sg s a Hs Hmode)).
  destruct (Z.eqb_spec (ia64_rse_collect_bit (b - 8)) 63) as [Hbit|Hbit].
  - eapply ensures_bind; [apply Hread|]. intros w s1 (Hw & _ & Hs1 & Hmode1 & Hk & Hm1).
    do 3 apply ensures_modenv. apply ensures_ret. intros s' Ew Es'. apply (restored_from _ _ _ _ s s1); [apply Hi|done|].
    pose proof (kept_count _ _ Hk) as [= C1 _ _ _ _ _ C7]. fold b in C7. rewrite <- C7 in *. clear b C7.
    rewrite <- C1 in Hd.
    destruct (load_place K _ (st_inv _ _ _ _ _ Hs1) Hd) as [_ [(_ & Hcw & _)|(Hbit' & _)]];
      [|pose proof (mod63_range (K - rse_dirty (rse (senv s1)) - 1)); lia].
    apply (turn_collection mode K base sg s1 s'); [done|done|done|done|exact Ew|].
    rewrite <- Hw. rewrite Hcw in Es'. exact Es'.
  - eapply ensures_bind; [apply Hread|]. intros x s1 (Hx & Hxu & Hs1 & Hmode1 & Hk & Hm1). apply ensures_getenv.
    pose proof (kept_count _ _ Hk) as [= C1 _ _ _ _ _ C7]. fold b in C7. rewrite <- C7 in *. clear b C7.
    rewrite <- C1 in Hd.
    destruct (load_place K _ (st_inv _ _ _ _ _ Hs1) Hd) as [_ [(? & _)|(_ & Hcw & _ & _ & Hbc & _)]]; [done|].
    eapply ensures_bind.
    { eapply ensures_mono; [apply (fill_spec mode K base sg s1)|intros v s' H; exact H|].
      - by apply still_refl.
      - rewrite Hcw. rewrite Z.eqb_refl. cbn [negb]. apply Z.ltb_ge. lia.
      - intros ? s' [Hk' Hm']. split; [by eapply kept_trans|]. intros mo a. by rewrite Hm', Hm1. }
    intros v s2 (Hm2 & e1 & dm & Hst1 & Hmk & Es2 & Hkn). apply ensures_modenv, ensures_ret. intros s' Ew Es'.
    apply (restored_from _ _ _ _ s s1); [apply Hi|done|].
    apply (turn_register mode K base sg s1 s' e1 v dm); [done|done|done|done|by rewrite <- Hx| |done|done|].
    + intros mo a. unfold smem. rewrite Ew. apply Hm2.
    + rewrite <- Es2, <- Hx. exact Es'.
Qed.

(** ** The loops *)

(** The fields that the stack is made of. *)
Definition stack_fields (e : CPUIA64State) :=
  (view_part e, marker_part e, rnat_part e, count_part e).

Lemma stack_fields_inv cl K e s : stack_fields s = stack_fields e -> rse_inv cl K e -> rse_inv cl K s.
Proof.
  intros E Hi. assert (E1 : view_part s = view_part e) by exact (f_equal (fun x => x.1.1.1) E).
  assert (E2 : marker_part s = marker_part e) by exact (f_equal (fun x => x.1.1.2) E).
  assert (E3 : rnat_part s = rnat_part e) by exact (f_equal (fun x => x.1.2) E).
  assert (E4 : count_part s = count_part e) by exact (f_equal snd E).
  apply (inv_step cl K K e); try done; [by apply (rnat_part_ok e), Hi|].
  apply (count_part_of cl K s e); [done| |apply Hi]. by injection E1.
Qed.

Lemma stack_env mode K base sg (s s' : rse_sys W) :
  stack mode K base sg s -> stack_fields (senv s') = stack_fields (senv s) -> same_mem s s' ->
  stack mode K base sg s' /\ frame_part (senv s') = frame_part (senv s).
Proof.
  intros Hs E Hm. assert (E1 : view_part (senv s') = view_part (senv s)) by exact (f_equal (fun x => x.1.1.1) E).
  assert (E2 : marker_part (senv s') = marker_part (senv s)) by exact (f_equal (fun x => x.1.1.2) E).
  assert (E3 : rnat_part (senv s') = rnat_part (senv s)) by exact (f_equal (fun x => x.1.2) E).
  assert (E4 : count_part (senv s') = count_part (senv s)) by exact (f_equal snd E).
  assert (Hf : frame_part (senv s') = frame_part (senv s)) by (apply parts_frame; [done|done|by injection E4]).
  split; [|done]. apply (stack_same mode K base sg s); try done.
  - apply (stack_fields_inv clean K (senv s)); [done|apply Hs].
  - intros. by apply view_part_content.
  - by apply (nats_part _ _ _ _ _ (senv s)), Hs.
Qed.

Abbreviation held mode K base sg s s' :=
  (stack mode K base sg s' /\ frame_part (senv s') = frame_part (senv s) /\ ar_pfs (senv s') = ar_pfs (senv s)).

Lemma unmoved_held mode K base sg (s s' : rse_sys W) x :
  stack mode K base sg s -> unmoved s x s' -> held mode K base sg s s'.
Proof.
  intros Hs [Hk Hm]. split; [by eapply stack_kept|]. split; (apply kept_same_frame; [apply Hs|done]).
Qed.

Lemma window_held mode K base sg (s : rse_sys W) :
  stack mode K base sg s ->
  ensures (ia64_rse_interrupt_window s) (fun _ s' => s' = s) (fun _ s' => held mode K base sg s s').
Proof.
  intros Hs. eapply ensures_mono; [apply interrupt_window_spec|done|]. intros x s' H.
  apply (unmoved_held mode K base sg s s' x Hs). split; [apply H|by apply faulted_mem].
Qed.

Lemma incomplete_dirty K e : rse_inv clean K e -> frame_incomplete e = (rse_dirty (rse e) <? 0).
Proof.
  intros Hi. unfold frame_incomplete. destruct (Z.ltb_spec (rse_dirty (rse e)) 0) as [|Hd]; [done|].
  pose proof (part_complete (ri_part _ _ _ Hi) Hd). cbn [orb]. apply Z.ltb_ge. lia.
Qed.

Lemma frame_loads_loop_spec mode K base sg fuel : forall (s : rse_sys W),
  stack mode K base sg s -> mode_part (senv s) = mode ->
  (rse_dirty (rse (senv s)) < 0 ->
   - (rse_dirty (rse (senv s)) + rse_dirty_nat (rse (senv s))) <= Z.of_nat fuel) ->
  ensures (frame_loads_loop fuel (u64 (ar_bspstore (senv s) - 8)) s)
    (fun _ s' => held mode K base sg s s' /\ mode_part (senv s') = mode /\
       if rse_dirty (rse (senv s)) <? 0 then rse_dirty (rse (senv s')) = 0 /\ rse_dirty_nat (rse (senv s')) = 0
       else s' = s)
    (fun _ s' => held mode K base sg s s').
Proof.
  induction fuel as [|fuel IH]; intros s Hs Hmode Hfuel.
  { apply ensures_ret. destruct (Z.ltb_spec (rse_dirty (rse (senv s))) 0) as [Hd|Hd]; [|done].
    destruct (part_missing (ri_part _ _ _ (st_inv _ _ _ _ _ Hs)) Hd). lia. }
  cbn [frame_loads_loop]. apply ensures_getenv. rewrite (incomplete_dirty K) by apply Hs.
  destruct (Z.ltb_spec (rse_dirty (rse (senv s))) 0) as [Hd|Hd]; [|by apply ensures_ret].
  destruct (part_missing (ri_part _ _ _ (st_inv _ _ _ _ _ Hs)) Hd) as [Hdn Hmiss].
  eapply ensures_bind.
  { eapply ensures_mono; [by apply (load_one_spec mode K base sg)|intros n s1 H; exact H|].
    intros x s'. by apply unmoved_held. }
  intros n s1 Hturn. apply ensures_modenv, ensures_modenv.
  match goal with |- ensures (_ ?t) _ _ => set (s2 := t) end.
  destruct (Hturn s2) as [Hs2 Hm2 Hf2 Hkind Hd2 Hn2 Hb2 Hp2]; [reflexivity|reflexivity|]. clearbody s2.
  eapply ensures_bind.
  { eapply ensures_mono; [by apply (window_held mode K base sg)|intros u s' H; exact H|].
    intros x s' (? & Hf' & Hp'). split_and!; [done|congruence|congruence]. }
  intros u s3 ->. destruct (load_place K _ (st_inv _ _ _ _ _ Hs) Hd) as [-> _]. rewrite <- Hb2.
  eapply ensures_mono; [apply IH; [done|done|lia]|..].
  - intros _ s' ((Hs' & Hf' & Hp') & Hm' & Hend). split; [split_and!; [done|congruence|congruence]|]. split; [done|].
    destruct (Z.ltb_spec (rse_dirty (rse (senv s2))) 0) as [|Hd2']; [done|]. subst s'.
    pose proof (part_complete (ri_part _ _ _ (st_inv _ _ _ _ _ Hs2)) Hd2'). lia.
  - intros x s' (Hs' & Hf' & Hp'). split_and!; [done|congruence|congruence].
Qed.

(** The frame is complete afterwards; a fault or an interrupt leaves it
    incomplete, with the registers that have been loaded. *)
Lemma complete_frame_loads_spec mode K base sg (s : rse_sys W) :
  stack mode K base sg s -> mode_part (senv s) = mode ->
  ensures (ia64_rse_complete_frame_loads s)
    (fun _ s' => held mode K base sg s s' /\ mode_part (senv s') = mode /\
       0 <= rse_dirty (rse (senv s')) /\
       (if rse_dirty (rse (senv s)) <? 0
        then rse_dirty (rse (senv s')) = 0 /\ rse_dirty_nat (rse (senv s')) = 0 else s' = s))
    (fun _ s' => held mode K base sg s s').
Proof.
  intros Hs Hmode. unfold ia64_rse_complete_frame_loads. apply ensures_getenv.
  rewrite (incomplete_dirty K) by apply Hs.
  destruct (Z.ltb_spec (rse_dirty (rse (senv s))) 0) as [Hd|Hd]; cbn [negb]; [|by apply ensures_ret].
  apply ensures_modenv. set (s1 := s <| sys_cpu; env ::= fun env => env <| rse; rse_cfle := true |> |>).
  destruct (stack_env mode K base sg s s1 Hs) as [Hs1 Hf1]; [reflexivity|done|].
  assert (Hb : rse_bspload (senv s) = u64 (ar_bspstore (senv s1) - 8)).
  { destruct (po_incomplete _ _ _ _ _ _ _ _ _ _ (ri_part _ _ _ (st_inv _ _ _ _ _ Hs)) Hd) as [Hcl Hcn].
    pose proof (po_bspstore _ _ _ _ _ _ _ _ _ _ (ri_part _ _ _ (st_inv _ _ _ _ _ Hs))) as Hbs.
    change (ar_bspstore (senv s1)) with (ar_bspstore (senv s)). unfold rse_bspload.
    rewrite Hcl, Hcn, Hbs. f_equal. lia. }
  eapply ensures_bind.
  { eapply ensures_mono; [by apply (window_held mode K base sg)|intros u s' H; exact H|].
    intros x s' (? & Hf' & Hp'). split_and!; [done|by rewrite Hf'|by rewrite Hp']. }
  intros u s2 ->. rewrite Hb. eapply ensures_bind.
  { eapply ensures_mono; [apply (frame_loads_loop_spec mode K base sg (missing_words (senv s)) s1); [done|done|]|
      intros v s' H; exact H|].
    - intros _. change (- (rse_dirty (rse (senv s)) + rse_dirty_nat (rse (senv s))) <=
        Z.of_nat (missing_words (senv s))). unfold missing_words. lia.
    - intros x s' (? & Hf' & Hp'). split_and!; [done|by rewrite Hf'|by rewrite Hp']. }
  intros v s3 ((Hs3 & Hf3 & Hp3) & Hm3 & Hend). change (rse_dirty (rse (senv s1))) with (rse_dirty (rse (senv s))) in Hend.
  destruct (Z.ltb_spec (rse_dirty (rse (senv s))) 0); [|lia]. apply ensures_bind_ret, ensures_modenv, ensures_ret.
  match goal with |- context [held _ _ _ _ _ ?t] => set (s4 := t) end.
  destruct (stack_env mode K base sg s3 s4 Hs3) as [Hs4 Hf4]; [reflexivity|done|].
  destruct Hend as [Hd3 Hn3]. split_and!; [done| |exact Hp3|exact Hm3| |exact Hd3|exact Hn3].
  - by rewrite Hf4, Hf3.
  - change (rse_dirty (rse (senv s4))) with (rse_dirty (rse (senv s3))). lia.
Qed.

End loads.
