(* ===== verification/RseFrames.v ===== *)
(** * The register stack: frames

    The instructions that move the frame.  A call, a return, an [alloc], a
    [cover] or a [flushrs] keeps the stack of registers: the frame moves over
    it, and what is below the frame stays as it was, whether the instruction
    completes or is left by a fault. *)
From stdpp Require Import list.
From S2P Require Import Prelude Arch Env Alat Registers Interrupt RseMap RseRnat RseOps RsePart RseSteps RseLoads.
Local Open Scope Z_scope.

Section frames.
Context {W : Type} `{World : RseWorld W} `{Laws : !RseWorldLaws W}.

Local Abbreviation clean := (rse_has_clean_partition (@cpu_class W World)).

(** ** Mandatory stores *)

Lemma window_same mode K base sg (s : rse_sys W) :
  stack mode K base sg s ->
  ensures (ia64_rse_interrupt_window s) (fun _ s' => s' = s)
    (fun _ s' => stack mode K base sg s' /\ same_frame (senv s) (senv s') /\
       count_part (senv s') = count_part (senv s)).
Proof.
  intros Hs. eapply ensures_mono; [apply interrupt_window_spec|done|]. intros x s' H. split_and!.
  - eapply stack_kept; [done|apply H|by apply faulted_mem].
  - apply kept_same_frame; [apply Hs|apply H].
  - apply kept_count, H.
Qed.

Lemma flush_loop_spec mode K base sg fuel : forall (s : rse_sys W),
  stack mode K base sg s -> mode_part (senv s) = mode -> 0 <= rse_dirty (rse (senv s)) ->
  rse_dirty (rse (senv s)) + rse_dirty_nat (rse (senv s)) <= Z.of_nat fuel ->
  ensures (flush_loop fuel s)
    (fun _ s' => stack mode K base sg s' /\ mode_part (senv s') = mode /\ same_frame (senv s) (senv s') /\
       rse_dirty (rse (senv s')) = 0 /\ rse_dirty_nat (rse (senv s')) = 0)
    (fun _ s' => stack mode K base sg s' /\ same_frame (senv s) (senv s') /\ 0 <= rse_dirty (rse (senv s'))).
Proof.
  induction fuel as [|fuel IH]; intros s Hs Hmode Hd Hfuel;
    pose proof (part_complete (ri_part _ _ _ (st_inv _ _ _ _ _ Hs)) Hd) as Hdn.
  { apply ensures_ret. split_and!; [done|done|apply same_frame_refl|lia|lia]. }
  cbn [flush_loop]. apply ensures_getenv.
  destruct (Z.ltb_spec 0 (rse_dirty (rse (senv s)) + rse_dirty_nat (rse (senv s)))) as [Hpos|Hpos];
    [|apply ensures_ret; split_and!; [done|done|apply same_frame_refl|lia|lia]].
  eapply ensures_bind.
  { eapply ensures_mono; [by apply (store_one_spec mode K base sg)|intros n s' H; exact H|].
    intros ? s' (? & ? & [= E _ _ _ _ _ _]). split_and!; [done|done|lia]. }
  intros n s1 [Hs1 Hm1 Hf1 Hkind Hd1 Hpos1 Hn1]. eapply ensures_bind.
  { eapply ensures_mono; [by apply (window_same mode K base sg)|intros u s' H; exact H|].
    intros ? s' (? & ? & [= E _ _ _ _ _ _]). split_and!; [done|by eapply same_frame_trans|lia]. }
  intros u s2 ->. eapply ensures_mono; [apply IH; [done|done|lia|lia]|..].
  - intros ? s' (? & ? & ? & ? & ?). split_and!; [done|done|by eapply same_frame_trans|done|done].
  - intros ? s' (? & ? & ?). split_and!; [done|by eapply same_frame_trans|done].
Qed.

Lemma new_frame_loop_spec mode K base sg fuel : forall (s : rse_sys W) g,
  stack mode K base sg s -> mode_part (senv s) = mode -> g <= rse_dirty (rse (senv s)) ->
  0 <= rse_dirty (rse (senv s)) ->
  rse_dirty (rse (senv s)) + rse_dirty_nat (rse (senv s)) <= Z.of_nat fuel ->
  ensures (new_frame_loop fuel g s)
    (fun _ s' => stack mode K base sg s' /\ mode_part (senv s') = mode /\ same_frame (senv s) (senv s') /\
       rse_dirty (rse (senv s')) = rse_dirty (rse (senv s)) - Z.max g 0)
    (fun _ s' => stack mode K base sg s' /\ same_frame (senv s) (senv s') /\ 0 <= rse_dirty (rse (senv s'))).
Proof.
  induction fuel as [|fuel IH]; intros s g Hs Hmode Hg Hd Hfuel;
    pose proof (part_complete (ri_part _ _ _ (st_inv _ _ _ _ _ Hs)) Hd) as Hdn.
  { apply ensures_ret. split_and!; [done|done|apply same_frame_refl|lia]. }
  cbn [new_frame_loop]. destruct (Z.ltb_spec 0 g) as [Hpos|Hpos];
    [|apply ensures_ret; split_and!; [done|done|apply same_frame_refl|lia]].
  eapply ensures_bind.
  { eapply ensures_mono; [apply (store_one_spec mode K base sg); [done|done|done|lia]|intros n s' H; exact H|].
    intros ? s' (? & ? & [= E _ _ _ _ _ _]). split_and!; [done|done|lia]. }
  intros n s1 [Hs1 Hm1 Hf1 Hkind Hd1 Hpos1 Hn1]. eapply ensures_bind.
  { eapply ensures_mono; [by apply (window_same mode K base sg)|intros u s' H; exact H|].
    intros ? s' (? & ? & [= E _ _ _ _ _ _]). split_and!; [done|by eapply same_frame_trans|lia]. }
  intros u s2 ->. eapply ensures_mono; [apply IH; [done|done|lia|lia|lia]|..].
  - intros ? s' (? & ? & ? & ?). split_and!; [done|done|by eapply same_frame_trans|lia].
  - intros ? s' (? & ? & ?). split_and!; [done|by eapply same_frame_trans|done].
Qed.

(** ** Moving the frame *)

(** Everything the stack depends on, but for the bases of the predicates and
    of the floating-point registers. *)
Definition core (e : CPUIA64State) :=
  (gr e, nat_ e, rse e, (cfm_sof e, cfm_sol e, cfm_sor e, cfm_rrb_gr e), ar e, psr e).

Lemma core_fields e s :
  core s = core e ->
  view_part s = view_part e /\ rnat_part s = rnat_part e /\ count_part s = count_part e /\
  mode_part s = mode_part e /\ cfm_sol s = cfm_sol e.
Proof.
  intros [= E1 E2 E3 E4 E5 E6 E7 E8 E9].
  unfold view_part, rnat_part, count_part, mode_part, rse_big_endian, ia64_rse_mmu_index, ar_rsc, ar_bsp,
    ar_bspstore, ar_rnat. by rewrite E1, E2, E3, E4, E5, E6, E7, E8, E9.
Qed.

Lemma set_cfm_rrb_fr_core e r :
  core (ia64_set_cfm_rrb_fr e r) = core e /\
  cfm_rrb_fr (ia64_set_cfm_rrb_fr e r) =
    (if IA64_ROTATING_FR_COUNT <=? r then ia64_normalize_rrb_fr r else r) /\
  cfm_rrb_pr (ia64_set_cfm_rrb_fr e r) = cfm_rrb_pr e.
Proof.
  unfold ia64_set_cfm_rrb_fr. cbv zeta. set (n := if _ <=? r then _ else r).
  destruct (Z.eqb_spec n (cfm_rrb_fr e)) as [->|]; [done|]. by case_match.
Qed.

Lemma set_cfm_rrb_pr_core e r :
  core (ia64_set_cfm_rrb_pr e r) = core e /\
  cfm_rrb_fr (ia64_set_cfm_rrb_pr e r) = cfm_rrb_fr e /\
  cfm_rrb_pr (ia64_set_cfm_rrb_pr e r) = if 48 <=? r then r mod 48 else r.
Proof.
  unfold ia64_set_cfm_rrb_pr, ia64_set_cfm_rrb_pr_slow. cbv zeta. change IA64_PR_ROTATING_COUNT with 48.
  set (old := if 48 <=? cfm_rrb_pr e then _ else _). set (new := if 48 <=? r then _ else r).
  destruct (Z.eqb_spec r (cfm_rrb_pr e)) as [E|E]; cbn [andb].
  - destruct (Z.ltb_spec r 48); [|by repeat case_match]. split_and!; [done|done|].
    unfold new. destruct (Z.leb_spec 48 r); [lia|done].
  - by repeat case_match.
Qed.

Lemma reset_rotations_spec e :
  let s := ia64_rse_reset_rotations e in
  core s = core (e <| cfm_rrb_gr := 0 |>) /\ cfm_rrb_fr s = 0 /\ cfm_rrb_pr s = 0.
Proof.
  unfold ia64_rse_reset_rotations. cbv zeta. set (e1 := e <| cfm_rrb_gr := 0 |>). clearbody e1.
  set (e2 := if negb (cfm_rrb_fr e1 =? 0) then ia64_set_cfm_rrb_fr e1 0 else e1).
  assert (H2 : core e2 = core e1 /\ cfm_rrb_fr e2 = 0).
  { unfold e2. destruct (Z.eqb_spec (cfm_rrb_fr e1) 0) as [E|E]; [done|].
    destruct (set_cfm_rrb_fr_core e1 0) as (? & ? & _). done. }
  clearbody e2. destruct H2 as [Hc2 Hf2]. destruct (Z.eqb_spec (cfm_rrb_pr e2) 0) as [E|E]; [done|].
  cbn [negb]. destruct (set_cfm_rrb_pr_core e2 0) as (H3 & H4 & H5). split_and!; [congruence|congruence|done].
Qed.

(** A file with no writes pending. *)
Lemma content_clean e p :
  rse_gr_dirty (rse e) = [0; 0] -> 0 <= p < 96 -> frame_wf e ->
  content e p = (aget (rse_pgr (rse e)) p, bm_get (rse_pgr_nat (rse e)) p).
Proof.
  intros Hd Hp Hw. unfold content, frame_dirty_bit. rewrite Hd. rewrite bm_get_pair, !Z.testbit_0_l.
  - by destruct (ia64_rse_phys_to_virt e p <? 64).
  - pose proof (phys_to_virt_range e p Hw Hp). lia.
Qed.

(** The state between the copies out of and into the frame: the file is
    complete, and the rest of the stack is as in [e]. *)
Record filed (e s : CPUIA64State) : Prop := {
  fd_dirty : rse_gr_dirty (rse s) = [0; 0];
  fd_len : length (rse_pgr (rse s)) = 96%nat;
  fd_bmap : bmap (rse_pgr_nat (rse s));
  fd_file : forall p, 0 <= p < 96 ->
    (aget (rse_pgr (rse s)) p, bm_get (rse_pgr_nat (rse s)) p) = content e p;
  fd_pgr : Forall (uint 64) (rse_pgr (rse s));
  fd_rest : s = e <| rse; rse_gr_dirty := [0; 0] |> <| rse; rse_pgr := rse_pgr (rse s) |>
                  <| rse; rse_pgr_nat := rse_pgr_nat (rse s) |>
}.

Lemma sync_out_filed cl K e :
  rse_inv cl K e ->
  let s := ia64_rse_sync_frame_out e in
  filed e s /\ views_wf s /\ coherent s.
Proof.
  intros [Hw Hc _ _ _ _ Hpg Hgr]. pose proof (sync_frame_out_spec e Hw) as Hs.
  destruct (sync_out_content e Hw) as (Hw' & _ & Hfile & _ & Hc').
  set (s := ia64_rse_sync_frame_out e) in *. clearbody s. split_and!; [|done|by apply Hc'].
  destruct Hs as [Hfr Hl Hb Hp Hn]. split; try done; [by rewrite Hfr|].
  apply Forall_lookup. intros i x Hx.
  assert (Hi : (i < 96)%nat) by (rewrite <- Hl; by eapply lookup_lt_Some).
  assert (Ex : x = aget (rse_pgr (rse s)) (Z.of_nat i)).
  { unfold aget. destruct (Z.leb_spec 0 (Z.of_nat i)); [|lia]. rewrite Nat2Z.id. by rewrite Hx. }
  rewrite Ex, Hp by lia. case_match.
  - apply Hgr. pose proof (phys_to_virt_range e (Z.of_nat i) (vw_frame _ Hw)). lia.
  - apply Forall_aget; [done|uint_const].
Qed.

(** What a move of the frame does to the rest of the state. *)
Definition outer (e : CPUIA64State) := (rnat_part e, count_part e, mode_part e).

Lemma outer_inv e s :
  outer s = outer e ->
  rnat_part s = rnat_part e /\ count_part s = count_part e /\ mode_part s = mode_part e.
Proof.
  intros E. split_and!; [exact (f_equal (fun x => x.1.1) E)|exact (f_equal (fun x => x.1.2) E)|exact (f_equal snd E)].
Qed.

Lemma filed_outer e s : filed e s -> outer s = outer e /\ length (ar s) = length (ar e).
Proof. intros [_ _ _ _ _ ->]. done. Qed.

(** A frame over a complete file: the registers are where they were. *)
Lemma filed_shape e s0 s :
  filed e s0 -> rse_gr_dirty (rse s) = [0; 0] ->
  rse_pgr (rse s) = rse_pgr (rse s0) -> rse_pgr_nat (rse s) = rse_pgr_nat (rse s0) ->
  frame_wf s -> length (gr s) = 128%nat -> bmap (nat_ s) -> coherent s -> rnat_ok s ->
  0 <= cfm_sol s <= cfm_sof s -> 0 <= cfm_rrb_fr s < 96 /\ 0 <= cfm_rrb_pr s < 48 ->
  (forall r, 32 <= r < 128 -> uint 64 (aget (gr s) r)) ->
  shape s /\ forall p, 0 <= p < 96 -> content s p = content e p.
Proof.
  intros [_ Hl Hb Hf Hp _] Hd E1 E2 Hfr Hg Hn Hc Hok Hsol Hrrb Hgr. split.
  - split; try done; [|by rewrite E1]. split; rewrite ?E1, ?E2, ?Hd; try done. apply bmap_pair; uint_const.
  - intros p Hpr. rewrite content_clean by done. rewrite E1, E2. by apply Hf.
Qed.

(** The copy into a frame over a complete file. *)
Lemma filed_sync_in e s0 s :
  filed e s0 -> rse_gr_dirty (rse s) = [0; 0] ->
  rse_pgr (rse s) = rse_pgr (rse s0) -> rse_pgr_nat (rse s) = rse_pgr_nat (rse s0) ->
  frame_wf s -> length (gr s) = 128%nat -> bmap (nat_ s) -> rnat_ok s ->
  0 <= cfm_sol s <= cfm_sof s -> 0 <= cfm_rrb_fr s < 96 /\ 0 <= cfm_rrb_pr s < 48 ->
  (forall r, 32 <= r < 128 -> uint 64 (aget (gr s) r)) ->
  let s' := ia64_rse_sync_frame_in s in
  shape s' /\ (forall p, 0 <= p < 96 -> content s' p = content e p) /\
  outer s' = outer s /\ frame_part s' = frame_part s /\ ar s' = ar s.
Proof.
  intros Hfd Hd E1 E2 Hfr Hg Hn Hok Hsol Hrrb Hgr. pose proof Hfd as [_ Hl Hb Hf Hp _].
  assert (Hw : views_wf s).
  { split; rewrite ?E1, ?E2, ?Hd; try done. apply bmap_pair; uint_const. }
  assert (Hnd : forall v, 0 <= v < 96 -> frame_dirty_bit s v = false).
  { intros v Hv. unfold frame_dirty_bit. rewrite Hd, bm_get_pair, !Z.testbit_0_l by lia. by destruct (v <? 64). }
  destruct (sync_in_content s Hw Hnd) as (Hw' & Hc' & Hcont).
  destruct (sync_frame_in_spec s Hw) as [Hfr' Hl' Hb' Hgr' _ Hout _]. cbv zeta.
  set (s' := ia64_rse_sync_frame_in s) in *. clearbody s'.
  assert (Eo : outer s' = outer s) by (by rewrite Hfr').
  assert (Ef : frame_part s' = frame_part s) by (by rewrite Hfr').
  assert (Ear : ar s' = ar s) by (by rewrite Hfr').
  assert (Epg : rse_pgr (rse s') = rse_pgr (rse s)) by (by rewrite Hfr').
  pose proof Ef as [= _ Esof Esol _ _ Erf Erp _].
  split_and!; try done.
  - split; rewrite ?Epg, ?E1, ?Esof, ?Esol, ?Erf, ?Erp; try done.
    + apply (rnat_part_ok s); [|done]. exact (f_equal (fun x => x.1.1) Eo).
    + intros r Hr. destruct (Z.lt_ge_cases r (32 + cfm_sof s)).
      * replace r with (32 + (r - 32)) by lia. rewrite Hgr' by lia. rewrite E1. apply Forall_aget; [done|uint_const].
      * rewrite Hout by lia. by apply Hgr.
  - intros p Hpr. rewrite Hcont by done. rewrite content_clean by done. rewrite E1, E2. by apply Hf.
Qed.

(** The part of the frame that a call leaves behind. *)
Lemma preserve_frame_spec cl K e n :
  part_of cl K e -> 0 <= n <= cfm_sof e -> length (ar e) = 128%nat -> 0 <= rse_bol (rse e) < 96 ->
  let s := ia64_rse_preserve_frame e n in
  let nats := ia64_rse_nat_words_grow (ar_bsp e) n in
  rse_bol (rse s) = (rse_bol (rse e) + n) mod 96 /\
  count_part s = (rse_dirty (rse e) + n, rse_dirty_nat (rse e) + nats, rse_clean (rse e), rse_clean_nat (rse e),
                  rse_invalid (rse e), u64 (ar_bsp e + (n + nats) * 8), ar_bspstore e) /\
  rnat_part s = rnat_part e /\ mode_part s = mode_part e /\
  exists r a, s = e <| rse := r |> <| ar := a |> /\ length a = 128%nat /\
    rse_pgr r = rse_pgr (rse e) /\ rse_pgr_nat r = rse_pgr_nat (rse e) /\ rse_gr_dirty r = rse_gr_dirty (rse e).
Proof.
  intros P Hn Hl Hbol. unfold ia64_rse_preserve_frame. destruct (Z.eqb_spec n 0) as [->|Hne].
  - assert (Hg : ia64_rse_nat_words_grow (ar_bsp e) 0 = 0).
    { rewrite (bsp_bs_addr P), grow_bs_addr by lia. rewrite Z.add_0_r. lia. }
    cbv zeta. rewrite Hg. destruct (part_bspstore_u64 P) as (_ & Hu & _).
    replace (ar_bsp e + (0 + 0) * 8) with (ar_bsp e) by lia. rewrite !Z.add_0_r, wrap_small, Z.mod_small by done.
    split_and!; try done. exists (rse e), (ar e). by destruct e.
  - cbv zeta. set (x := u64 _). split_and!; try done.
    + by rewrite <- wrap_phys_spec.
    + unfold count_part, ar_bsp, ar_bspstore. cbn [ar rse upd].
      rewrite aget_aset_eq by (by rewrite Hl). by rewrite aget_aset_ne.
    + unfold rnat_part, ar_rnat. cbn [ar rse upd]. by rewrite aset_length, aget_aset_ne.
    + unfold mode_part, rse_big_endian, ar_rsc, ia64_rse_mmu_index. cbn [ar psr upd]. by rewrite aget_aset_ne.
    + exists ((rse e) <| rse_bol := ia64_rse_wrap_phys (rse_bol (rse e) + n) |> <| rse_dirty ::= fun m => m + n |>
                <| rse_dirty_nat ::= fun m => m + ia64_rse_nat_words_grow (ar_bsp e) n |>),
        (aset (ar e) IA64_AR_BSP x).
      split_and!; [reflexivity|by rewrite aset_length|done|done|done].
Qed.

(** ** br.call *)

(** The output registers become the first registers of the new frame. *)
Lemma call_outputs_spec e sol outputs :
  length (gr e) = 128%nat -> bmap (nat_ e) -> 0 <= sol -> 0 <= outputs -> sol + outputs <= 96 ->
  (forall r, 32 <= r < 128 -> uint 64 (aget (gr e) r)) ->
  let s := if negb (outputs =? 0) && negb (sol =? 0) then call_outputs sol outputs e else e in
  exists g n, s = e <| gr := g |> <| nat_ := n |> /\ length g = 128%nat /\ bmap n /\
    (forall r, 32 <= r < 128 -> uint 64 (aget g r)) /\
    forall v, 0 <= v < outputs -> (aget g (32 + v), bm_get n (32 + v)) = view e (sol + v).
Proof.
  intros Hl Hb Hsol Hout Hsum Hu. cbv zeta. unfold call_outputs. change IA64_STACKED_GR_BASE with 32.
  destruct (Z.eqb_spec outputs 0) as [->|Ho]; cbn [negb andb].
  { exists (gr e), (nat_ e). split_and!; try done; [by destruct e|lia]. }
  destruct (Z.eqb_spec sol 0) as [->|Hs]; cbn [negb andb].
  { exists (gr e), (nat_ e). split_and!; try done. by destruct e. }
  set (g := memcpy (gr e) 32 (gr e) (32 + sol) outputs).
  assert (Hg : forall r, 0 <= r < 128 -> aget g r =
    if (32 <=? r) && (r <? 32 + outputs) then aget (gr e) (32 + sol + (r - 32)) else aget (gr e) r).
  { intros r Hr. unfold g. apply aget_memcpy. lia. }
  assert (Hgu : forall r, 32 <= r < 128 -> uint 64 (aget g r)).
  { intros r Hr. rewrite Hg by lia. destruct (Z.leb_spec 32 r), (Z.ltb_spec r (32 + outputs)); cbn [andb];
      apply Hu; lia. }
  assert (Hgl : length g = 128%nat) by (unfold g; by rewrite memcpy_length).
  assert (Hgv : forall v, 0 <= v < outputs -> aget g (32 + v) = aget (gr e) (32 + (sol + v))).
  { intros v Hv. rewrite Hg by lia. destruct (Z.leb_spec 32 (32 + v)), (Z.ltb_spec (32 + v) (32 + outputs)); try lia.
    cbn [andb]. f_equal. lia. }
  change (nat_ (e <| gr := g |>)) with (nat_ e).
  destruct (truth ((aget (nat_ e) 0 >>> 32) .| aget (nat_ e) 1)) eqn:Et.
  - destruct (copy_bit_range_spec (nat_ e) 32 (nat_ e) (32 + sol) outputs) as [Hnb Hn]; try done; try lia.
    exists g, (ia64_copy_bit_range (nat_ e) 32 (nat_ e) (32 + sol) outputs). split_and!; try done.
    intros v Hv. unfold view. rewrite Hgv, Hn by lia.
    destruct (Z.leb_spec 32 (32 + v)), (Z.ltb_spec (32 + v) (32 + outputs)); try lia. cbn [andb]. do 2 f_equal. lia.
  - destruct (nat_files_clear_spec (nat_ e) [0; 0]) as [Hz _]; [done|apply bmap_pair; uint_const| |].
    { unfold truth in Et. apply negb_false_iff in Et. cbn [aget]. change (aget [0; 0] 0) with 0.
      change (aget [0; 0] 1) with 0. by rewrite !Z.lor_0_r. }
    exists g, (nat_ e). split_and!; try done.
    intros v Hv. unfold view. rewrite Hgv by done. by rewrite !Hz by lia.
Qed.

Lemma rotate_up_0 count v : 0 <= v -> rotate_up count 0 v = v.
Proof.
  intros Hv. unfold rotate_up. destruct (Z.ltb_spec v count); [|done]. rewrite Z.add_0_r. apply Z.mod_small. lia.
Qed.

(** The registers of the file seen through a frame that starts [n] further on. *)
Lemma shifted_vtp e s n v :
  frame_wf e -> frame_wf s -> cfm_rrb_gr e = 0 -> cfm_sor s = 0 -> rse_bol (rse s) = (rse_bol (rse e) + n) mod 96 ->
  0 <= n -> 0 <= v -> n + v < 96 -> ia64_rse_virt_to_phys s v = ia64_rse_virt_to_phys e (n + v).
Proof.
  intros He Hs Hr Hsor Hb Hn Hv Hle. rewrite !virt_to_phys_spec by (done || lia).
  rewrite Hr, Hsor, rotate_up_0 by lia. unfold rotate_up. destruct (Z.ltb_spec v (8 * 0)); [lia|].
  rewrite Hb, Zplus_mod_idemp_l. f_equal. lia.
Qed.

Lemma invalidate_alat_core e :
  let s := ia64_rse_invalidate_stacked_alat e in
  core s = core e /\ cfm_rrb_fr s = cfm_rrb_fr e /\ cfm_rrb_pr s = cfm_rrb_pr e.
Proof. unfold ia64_rse_invalidate_stacked_alat. cbv zeta. by case_match. Qed.

(** ** The frame over the stack *)

(** The frame moves from [K] to [K']: the registers of the file are where they
    were, and at most registers above the old frame come into view. *)
Lemma reframe mode K K' base sg sg' (s s' : rse_sys W) :
  let e := senv s in
  let e' := senv s' in
  stack mode K base sg s -> rse_inv clean K' e' -> same_mem s s' ->
  (forall j, slot K' e' j = slot K e j) -> (forall p, 0 <= p < 96 -> content e' p = content e p) ->
  K - rse_dirty (rse e) - rse_clean (rse e) <= K' - rse_dirty (rse e') - rse_clean (rse e') ->
  K' - rse_dirty (rse e') <= K - rse_dirty (rse e) ->
  nats_ok (smem mode s) (ia64_rse_collect_word (ar_bspstore e')) base (K' - rse_dirty (rse e'))
    (fun j => snd (sg j)) e' ->
  (forall j, j < K + cfm_sof e -> sg' j = sg j) ->
  (forall j, K + cfm_sof e <= j < K' + cfm_sof e' -> sg' j = content e' (slot K' e' j)) ->
  stack mode K' base sg' s'.
Proof.
  intros e e' Hs Hi Hm Hslot Hcont Hlow Htop Hn Hsg Hnew.
  destruct (inv_counts (st_inv _ _ _ _ _ Hs)) as (_ & _ & Hdl & _). fold e in Hdl.
  split; fold e'; [done|apply Hs| | |].
  - intros j Hb Hj. destruct (Z.lt_ge_cases j (K + cfm_sof e)); [|symmetry; apply Hnew; lia].
    rewrite Hslot, Hcont, Hsg by (done || apply slot_range). apply Hs; [done|]. fold e. lia.
  - intros j Hj. rewrite Hm, Hsg by lia. apply (st_mem _ _ _ _ _ Hs). fold e. lia.
  - eapply nats_sub; [..|exact Hn]; try lia.
    + intros j Hj. cbv beta. by rewrite Hsg by lia.
    + intros. apply Hm.
Qed.

(** A frame of [m] registers with no locals and no rotation. *)
Lemma plain_frame_spec e g n m :
  let s := ia64_rse_reset_rotations (e <| gr := g |> <| nat_ := n |>
             <| cfm_sof := m |> <| cfm_sol := 0 |> <| cfm_sor := 0 |>) in
  gr s = g /\ nat_ s = n /\ rse s = rse e /\ outer s = outer e /\ ar s = ar e /\ psr s = psr e /\
  frame_part s = (rse_bol (rse e), (m, 0, 0), (0, 0, 0), ar_bsp e).
Proof.
  set (x := e <| gr := g |> <| nat_ := n |> <| cfm_sof := m |> <| cfm_sol := 0 |> <| cfm_sor := 0 |>).
  destruct (reset_rotations_spec x) as (Hcore & Hrf & Hrp). cbv zeta.
  set (s := ia64_rse_reset_rotations x) in *. clearbody s.
  destruct (core_fields _ _ Hcore) as (_ & E2 & E3 & E4 & _).
  injection Hcore as -> -> Er Es El Eo Eg Ea Ep. split_and!; try done.
  - unfold outer. rewrite E2, E3, E4. done.
  - unfold frame_part, ar_bsp. by rewrite Er, Es, El, Eo, Eg, Hrf, Hrp, Ea.
Qed.

Lemma plain_frame_wf e b m a :
  frame_part e = (b, (m, 0, 0), (0, 0, 0), a) -> 0 <= m <= 96 -> 0 <= b < 96 ->
  frame_wf e /\ 0 <= cfm_sol e <= cfm_sof e /\ 0 <= cfm_rrb_fr e < 96 /\ 0 <= cfm_rrb_pr e < 48.
Proof.
  intros [= Eb Es El Eo Eg Ef Ep _] Hm Hb. rewrite El, Es, Ef, Ep. split_and!; try lia.
  split; rewrite ?Eb, ?Es, ?Eo, ?Eg; try done. lia.
Qed.

(** The state in which the frame has been copied out and its first [n]
    registers are left behind. *)
Record cut (cl : bool) (K : Z) (e : CPUIA64State) (n : Z) (e0 s : CPUIA64State) : Prop := {
  cu_filed : filed e e0;
  cu_views : views_wf e0;
  cu_coherent : coherent e0;
  cu_bol : rse_bol (rse s) = (rse_bol (rse e) + n) mod 96;
  cu_rnat : rnat_part s = rnat_part e;
  cu_count : count_part s =
    (rse_dirty (rse e) + n, rse_dirty_nat (rse e) + ia64_rse_nat_words_grow (ar_bsp e) n, rse_clean (rse e),
     rse_clean_nat (rse e), rse_invalid (rse e), u64 (ar_bsp e + (n + ia64_rse_nat_words_grow (ar_bsp e) n) * 8),
     ar_bspstore e);
  cu_mode : mode_part s = mode_part e;
  cu_ar : length (ar s) = 128%nat;
  cu_file : rse_pgr (rse s) = rse_pgr (rse e0) /\ rse_pgr_nat (rse s) = rse_pgr_nat (rse e0) /\
            rse_gr_dirty (rse s) = [0; 0];
  cu_gr : gr s = gr e0 /\ nat_ s = nat_ e0;
  cu_gr_e : gr e0 = gr e /\ cfm_sof e0 = cfm_sof e /\ cfm_rrb_gr e0 = cfm_rrb_gr e /\ rse_bol (rse e0) = rse_bol (rse e)
}.

Lemma preserve_cut cl K e n :
  rse_inv cl K e -> 0 <= n <= cfm_sof e ->
  cut cl K e n (ia64_rse_sync_frame_out e) (ia64_rse_preserve_frame (ia64_rse_sync_frame_out e) n).
Proof.
  intros Hi Hn. destruct (sync_out_filed cl K e Hi) as (Hfd & Hw0 & Hc0). pose proof Hfd as [Hd0 _ _ _ _ Hr0].
  destruct (filed_outer _ _ Hfd) as [Ho0 Hl0].
  set (e0 := ia64_rse_sync_frame_out e) in *. clearbody e0.
  assert (Hcfm : gr e0 = gr e /\ cfm_sof e0 = cfm_sof e /\ cfm_rrb_gr e0 = cfm_rrb_gr e /\
    rse_bol (rse e0) = rse_bol (rse e)) by (by rewrite Hr0).
  destruct (outer_inv _ _ Ho0) as (Er0 & Ec0 & Em0). pose proof Ec0 as [= C1 C2 C3 C4 C5 C6 C7].
  destruct Hcfm as (Eg & Es & Erg & Eb).
  assert (P0 : part_of cl K e0) by (apply (count_part_of cl K e0 e); [done|done|apply Hi]).
  assert (Har0 : length (ar e0) = 128%nat) by (rewrite Hl0; apply (ri_rnat _ _ _ Hi)).
  destruct (preserve_frame_spec cl K e0 n P0) as (Hbol1 & Hc1 & Hrn1 & Hm1 & r & a & E1 & Hla & Hpg1 & Hpn1 & Hgd1);
    [by rewrite Es|done|apply Hw0|].
  rewrite Eb in Hbol1. rewrite C1, C2, C3, C4, C5, C6, C7 in Hc1. rewrite Er0 in Hrn1. rewrite Em0 in Hm1.
  set (s := ia64_rse_preserve_frame e0 n) in *. clearbody s.
  split; try done.
  - by rewrite E1.
  - rewrite E1. split_and!; [done|done|]. by rewrite <- Hd0.
  - by rewrite E1.
Qed.

(** The outputs have been moved into the callee's frame. *)
Lemma call_frame_moved cl K e e0 e1 s :
  let n := cfm_sol e in
  let m := cfm_sof e - n in
  rse_inv cl K e -> cut cl K e n e0 e1 -> cfm_rrb_gr e = 0 ->
  frame_part s = (rse_bol (rse e1), (m, 0, 0), (0, 0, 0), ar_bsp e1) -> rse s = rse e1 -> rnat_part s = rnat_part e1 ->
  length (gr s) = 128%nat -> bmap (nat_ s) -> (forall r, 32 <= r < 128 -> uint 64 (aget (gr s) r)) ->
  (forall v, 0 <= v < m -> view s v = view e1 (n + v)) ->
  shape s /\ forall p, 0 <= p < 96 -> content s p = content e p.
Proof.
  intros n m Hi Hcut Hrg Hf Hrs Hrn Hgl Hnb Hgu Hv. pose proof (ri_sol _ _ _ Hi) as Hsol. fold n in Hsol.
  pose proof (wf_sof _ (vw_frame _ (ri_views _ _ _ Hi))) as Hsof.
  destruct Hcut as [Hfd Hw0 Hc0 Hbol Hrn1 _ _ Har (Hpg & Hpn & Hgd) (Eg & En) (Eg0 & Es0 & Erg0 & Eb0)].
  destruct (plain_frame_wf s _ _ _ Hf) as (Hfw & Hsl & Hrr);
    [unfold m; lia|rewrite Hbol; apply Z.mod_pos_bound; lia|].
  apply (filed_shape e e0 s); rewrite ?Hrs; try done.
  - intros v Hvr _. injection Hf as E4b E4s _ E4o _ _ _ _. rewrite E4s in Hvr.
    rewrite (shifted_vtp e0 s n v (vw_frame _ Hw0) Hfw ltac:(by rewrite Erg0) E4o ltac:(by rewrite E4b, Hbol, Eb0)
      ltac:(lia) ltac:(lia) ltac:(unfold m in *; lia)).
    rewrite Hv, Hrs, Hpg, Hpn by done. rewrite <- Hc0; [unfold view; by rewrite Eg, En|unfold m in *; lia|].
    unfold frame_dirty_bit. rewrite (fd_dirty _ _ Hfd), bm_get_pair, !Z.testbit_0_l by (unfold m in *; lia).
    by destruct (_ <? 64).
  - apply (rnat_part_ok e); [congruence|apply Hi].
Qed.

(** The callee's frame. *)
Lemma call_frame_spec cl K e :
  rse_inv cl K e ->
  let n := cfm_sol e in
  let e1 := ia64_rse_preserve_frame (ia64_rse_sync_frame_out e) n in
  let s := call_frame e in
  shape s /\ (forall p, 0 <= p < 96 -> content s p = content e p) /\ outer s = outer e1 /\
  frame_part s = (rse_bol (rse e1), (cfm_sof e - n, 0, 0), (0, 0, 0), ar_bsp e1) /\ length (ar s) = 128%nat.
Proof.
  intros Hi n e1. pose proof (ri_sol _ _ _ Hi) as Hsol. fold n in Hsol.
  pose proof (wf_sof _ (vw_frame _ (ri_views _ _ _ Hi))) as Hsof.
  unfold call_frame. cbv zeta. fold n. fold e1.
  assert (Hout : (if n <? cfm_sof e then cfm_sof e - n else 0) = cfm_sof e - n)
    by (destruct (Z.ltb_spec n (cfm_sof e)); lia).
  rewrite Hout. clear Hout.
  pose proof (preserve_cut cl K e n Hi Hsol) as Hcut. fold e1 in Hcut.
  generalize dependent e1. generalize (ia64_rse_sync_frame_out e). intros e0 e1 Hcut.
  pose proof Hcut as [Hfd Hw0 Hc0 Hbol Hrn _ _ Har (Hpg & Hpn & Hgd) (Eg & En) (Eg0 & _)].
  assert (Hgr1 : forall r, 32 <= r < 128 -> uint 64 (aget (gr e1) r)) by (rewrite Eg, Eg0; apply Hi).
  assert (Hl1 : length (gr e1) = 128%nat) by (rewrite Eg; apply Hw0).
  assert (Hn1 : bmap (nat_ e1)) by (rewrite En; apply Hw0).
  destruct (Z.eqb_spec (cfm_rrb_gr e) 0) as [Hrg|Hrg]; cbn [negb andb].
  - destruct (call_outputs_spec e1 n (cfm_sof e - n)) as (g & nt & -> & Hgl & Hnb & Hgu & Hv); [done|done|lia..|done|].
    destruct (plain_frame_spec e1 g nt (cfm_sof e - n)) as (E1 & E2 & E3 & E4 & E5 & _ & E6).
    generalize dependent (ia64_rse_reset_rotations (e1 <| gr := g |> <| nat_ := nt |> <| cfm_sof := cfm_sof e - n |>
      <| cfm_sol := 0 |> <| cfm_sor := 0 |>)). intros s E1 E2 E3 E4 E5 E6.
    destruct (call_frame_moved cl K e e0 e1 s) as [Hsh Hcont]; rewrite ?E1, ?E2; try done.
    + by apply outer_inv.
    + intros v Hvr. unfold view at 1. rewrite E1, E2. by apply Hv.
    + split_and!; try done. by rewrite E5.
  - destruct (plain_frame_spec e1 (gr e1) (nat_ e1) (cfm_sof e - n)) as (E1 & E2 & E3 & E4 & E5 & _ & E6).
    assert (Ee : e1 <| gr := gr e1 |> <| nat_ := nat_ e1 |> = e1) by (by destruct e1).
    rewrite Ee in E1, E2, E3, E4, E5, E6. clear Ee.
    generalize dependent (ia64_rse_reset_rotations (e1 <| cfm_sof := cfm_sof e - n |> <| cfm_sol := 0 |>
      <| cfm_sor := 0 |>)). intros s E1 E2 E3 E4 E5 E6.
    destruct (plain_frame_wf s _ _ _ E6) as (Hfw & Hsl & Hrr); [lia|rewrite Hbol; apply Z.mod_pos_bound; lia|].
    destruct (filed_sync_in e e0 s) as (Hsh & Hcont & Eo & Ef & Ea); rewrite ?E1, ?E2, ?E3; try done.
    + apply (rnat_part_ok e); [|apply Hi]. rewrite <- Hrn. by apply outer_inv.
    + split_and!; try done; [by rewrite Eo|by rewrite Ef|by rewrite Ea, E5].
Qed.

Lemma mode_psr_ri p : truth ((p .& ~64 IA64_PSR_RI_MASK) .& IA64_PSR_RT) = truth (p .& IA64_PSR_RT).
Proof.
  change IA64_PSR_RT with (2 ^ 27). rewrite !truth_land_pow2 by lia.
  rewrite Z.land_spec, wnot_spec by lia. change (Z.testbit IA64_PSR_RI_MASK 27) with false.
  by rewrite andb_true_r.
Qed.

Lemma call_tail_spec b_reg next target e :
  let x := call_frame e in
  let s := ia64_rse_br_call b_reg next target e in
  length (ar x) = 128%nat ->
  stack_fields s = stack_fields x /\ mode_part s = mode_part x /\ frame_part s = frame_part x /\
  ar_pfs s = ia64_rse_current_pfs e.
Proof.
  intros x s Hl. unfold s, ia64_rse_br_call. fold x. destruct (invalidate_alat_core x) as (Hc & Hf & Hp).
  cbv zeta in Hc, Hf, Hp. cbv zeta. generalize dependent (ia64_rse_invalidate_stacked_alat x). intros y Hc Hf Hp.
  destruct (core_fields _ _ Hc) as (E1 & E2 & E3 & E4 & E5).
  injection Hc as _ _ _ _ _ _ _ Ea Eps.
  assert (Hy : forall i, i <> IA64_AR_PFS -> forall v, aget (aset (ar y) IA64_AR_PFS v) i = aget (ar y) i)
    by (intros; by apply aget_aset_ne).
  set (pfs := ia64_rse_current_pfs e). clearbody pfs.
  assert (Ec : count_part (y <| ar @ IA64_AR_PFS := pfs |>) = count_part y).
  { unfold count_part, ar_bsp, ar_bspstore. cbn [ar rse upd]. by rewrite !Hy. }
  assert (Er : rnat_part (y <| ar @ IA64_AR_PFS := pfs |>) = rnat_part y).
  { unfold rnat_part, ar_rnat. cbn [ar rse upd]. by rewrite aset_length, Hy. }
  assert (Em : marker_part y = marker_part x) by (unfold marker_part; by rewrite E5, Hf, Hp).
  split_and!.
  - unfold stack_fields. rewrite <- E1, <- Em, <- E2, <- E3, <- Ec, <- Er. done.
  - rewrite <- E4. unfold mode_part, rse_big_endian, ar_rsc, ia64_rse_mmu_index. cbn [ar psr upd].
    change (psr (ia64_system_reset_dahr _)) with (psr y). rewrite mode_psr_ri.
    change (ar (ia64_system_reset_dahr _)) with (aset (ar y) IA64_AR_PFS pfs). by rewrite Hy.
  - transitivity (frame_part (y <| ar @ IA64_AR_PFS := pfs |>)); [done|].
    apply parts_frame; [done|done|]. change (aget (aset (ar y) IA64_AR_PFS pfs) IA64_AR_BSP = ar_bsp x). rewrite Hy by done.
    exact (f_equal (fun q => q.1.2) E3).
  - change (aget (aset (ar y) IA64_AR_PFS pfs) IA64_AR_PFS = pfs). apply aget_aset_eq. by rewrite Ea, Hl.
Qed.

(** The first [n] registers of the frame are left below it. *)
Record left_below (mode : bool * Z) (K base : Z) (sg : Z -> Z * bool) (s : rse_sys W) (n : Z) (s' : rse_sys W)
  : Prop := {
  lb_stack : stack mode (K + n) base sg s';
  lb_mode : mode_part (senv s') = mode_part (senv s);
  lb_content : forall p, 0 <= p < 96 -> content (senv s') p = content (senv s) p;
  lb_dirty : rse_dirty (rse (senv s')) = rse_dirty (rse (senv s)) + n;
  lb_frame : frame_part (senv s') = ((rse_bol (rse (senv s)) + n) mod 96, (cfm_sof (senv s) - n, 0, 0), (0, 0, 0),
    u64 (ar_bsp (senv s) + (n + ia64_rse_nat_words_grow (ar_bsp (senv s)) n) * 8))
}.

Lemma preserve_stack mode K base sg (s s' : rse_sys W) n e0 e1 x :
  let e := senv s in
  stack mode K base sg s -> 0 <= n <= cfm_sof e -> cut clean K e n e0 e1 ->
  shape x -> (forall p, 0 <= p < 96 -> content x p = content e p) -> outer x = outer e1 ->
  frame_part x = (rse_bol (rse e1), (cfm_sof e - n, 0, 0), (0, 0, 0), ar_bsp e1) ->
  stack_fields (senv s') = stack_fields x -> mode_part (senv s') = mode_part x ->
  frame_part (senv s') = frame_part x -> same_mem s s' ->
  left_below mode K base sg s n s'.
Proof.
  intros e Hs Hn Hcut Hsh Hcont Ho Hf Et Emt Eft Hm. pose proof (st_inv _ _ _ _ _ Hs) as Hi. fold e in Hi.
  destruct Hcut as [_ _ _ Hbol Hrn Hc Hmo _ _ _ _].
  destruct (outer_inv _ _ Ho) as (Er & Ec & Em). rewrite Hrn in Er. rewrite Hc in Ec. rewrite Hmo in Em.
  pose proof Ec as [= C1 C2 C3 C4 C5 C6 C7]. pose proof Hc as [= _ _ _ _ _ Eb1 _].
  rewrite Hf, Hbol, Eb1 in Eft. pose proof Eft as [= Eb Esof _ _ _ _ _ _].
  destruct (part_preserve (ri_part _ _ _ Hi) n Hn) as [_ P].
  assert (Hix : rse_inv clean (K + n) x).
  { apply inv_shape. split; [done|]. unfold part_of. rewrite C1, C2, C3, C4, C5, C6, C7.
    injection Hf as _ -> _ _ _ _ _ _. exact P. }
  pose proof (stack_fields_inv clean (K + n) x _ Et Hix) as Hi'.
  assert (Et1 : view_part (senv s') = view_part x) by exact (f_equal (fun x => x.1.1.1) Et).
  assert (Et3 : rnat_part (senv s') = rnat_part x) by exact (f_equal (fun x => x.1.2) Et).
  assert (Et4 : count_part (senv s') = count_part x) by exact (f_equal snd Et).
  rewrite Ec in Et4. pose proof Et4 as [= D1 D2 D3 D4 D5 D6 D7].
  assert (Hcont' : forall p, 0 <= p < 96 -> content (senv s') p = content e p).
  { intros p Hp. rewrite (view_part_content Et1). by apply Hcont. }
  split; fold e; [|congruence|done|done|done].
  apply (reframe mode K (K + n) base sg sg s s'); try done; fold e; rewrite ?D1, ?D3, ?D7; try lia.
  - intros j. unfold slot. fold e. rewrite Eb, Zplus_mod_idemp_l. f_equal. lia.
  - replace (K + n - (rse_dirty (rse e) + n)) with (K - rse_dirty (rse e)) by lia.
    apply (nats_part _ _ _ _ _ e); [congruence|]. apply Hs.
Qed.

(** A call leaves the local registers of the caller below the frame. *)
Lemma br_call_spec mode K base sg (s s' : rse_sys W) b_reg next target :
  stack mode K base sg s -> senv s' = ia64_rse_br_call b_reg next target (senv s) -> same_mem s s' ->
  left_below mode K base sg s (cfm_sol (senv s)) s' /\ ar_pfs (senv s') = ia64_rse_current_pfs (senv s).
Proof.
  intros Hs Es' Hm. pose proof (st_inv _ _ _ _ _ Hs) as Hi. pose proof (ri_sol _ _ _ Hi) as Hsol.
  destruct (call_frame_spec clean K (senv s) Hi) as (Hsh & Hcont & Ho & Hf & Hl).
  pose proof (preserve_cut clean K (senv s) _ Hi Hsol) as Hcut.
  destruct (call_tail_spec b_reg next target (senv s) Hl) as (Et & Emt & Eft & Epfs).
  rewrite <- Es' in Et, Emt, Eft, Epfs. split; [|done]. by eapply preserve_stack.
Qed.

(** ** cover *)

(** An empty frame over a complete file. *)
Lemma cover_frame_spec cl K e :
  rse_inv cl K e ->
  let n := cfm_sof e in
  let e1 := ia64_rse_preserve_frame (ia64_rse_sync_frame_out e) n in
  let s := ia64_rse_reset_rotations (e1 <| cfm_sof := 0 |> <| cfm_sol := 0 |> <| cfm_sor := 0 |>) in
  shape s /\ (forall p, 0 <= p < 96 -> content s p = content e p) /\ outer s = outer e1 /\
  frame_part s = (rse_bol (rse e1), (0, 0, 0), (0, 0, 0), ar_bsp e1) /\ cut cl K e n (ia64_rse_sync_frame_out e) e1.
Proof.
  intros Hi n e1. pose proof (wf_sof _ (vw_frame _ (ri_views _ _ _ Hi))) as Hsof. fold n in Hsof.
  pose proof (preserve_cut cl K e n Hi ltac:(lia)) as Hcut. fold e1 in Hcut. cbv zeta.
  generalize dependent e1. generalize (ia64_rse_sync_frame_out e). intros e0 e1 Hcut.
  pose proof Hcut as [Hfd Hw0 Hc0 Hbol Hrn _ _ Har (Hpg & Hpn & Hgd) (Eg & En) (Eg0 & _)].
  destruct (plain_frame_spec e1 (gr e1) (nat_ e1) 0) as (E1 & E2 & E3 & E4 & E5 & _ & E6).
  assert (Ee : e1 <| gr := gr e1 |> <| nat_ := nat_ e1 |> = e1) by (by destruct e1).
  rewrite Ee in E1, E2, E3, E4, E5, E6. clear Ee.
  generalize dependent (ia64_rse_reset_rotations (e1 <| cfm_sof := 0 |> <| cfm_sol := 0 |> <| cfm_sor := 0 |>)).
  intros s E1 E2 E3 E4 E5 E6.
  destruct (plain_frame_wf s _ _ _ E6) as (Hfw & Hsl & Hrr); [lia|rewrite Hbol; apply Z.mod_pos_bound; lia|].
  destruct (filed_shape e e0 s) as [Hsh Hcont]; rewrite ?E1, ?E2, ?E3; try done.
  - rewrite Eg. apply Hw0.
  - rewrite En. apply Hw0.
  - intros v Hv. injection E6 as _ Es _ _ _ _ _ _. lia.
  - apply (rnat_part_ok e); [|apply Hi]. rewrite <- Hrn. by apply outer_inv.
  - rewrite Eg, Eg0. apply Hi.
Qed.

Lemma cover_frame_eq e :
  cfm_sof (ia64_rse_sync_frame_out e) = cfm_sof e ->
  cover_frame e = ia64_rse_invalidate_stacked_alat (ia64_rse_reset_rotations
    ((ia64_rse_preserve_frame (ia64_rse_sync_frame_out e) (cfm_sof e))
       <| cfm_sof := 0 |> <| cfm_sol := 0 |> <| cfm_sor := 0 |>)).
Proof. unfold cover_frame. generalize (ia64_rse_sync_frame_out e). by intros e0 <-. Qed.

Lemma cover_frame_stack mode K base sg (s s' : rse_sys W) :
  stack mode K base sg s -> senv s' = cover_frame (senv s) -> same_mem s s' ->
  left_below mode K base sg s (cfm_sof (senv s)) s'.
Proof.
  intros Hs Es' Hm. pose proof (st_inv _ _ _ _ _ Hs) as Hi.
  pose proof (wf_sof _ (vw_frame _ (ri_views _ _ _ Hi))) as Hsof.
  destruct (cover_frame_spec clean K (senv s) Hi) as (Hsh & Hcont & Ho & Hf & Hcut).
  rewrite cover_frame_eq in Es' by apply Hcut.
  generalize dependent (ia64_rse_reset_rotations ((ia64_rse_preserve_frame (ia64_rse_sync_frame_out (senv s))
    (cfm_sof (senv s))) <| cfm_sof := 0 |> <| cfm_sol := 0 |> <| cfm_sor := 0 |>)). intros x Es' Hsh Hcont Ho Hf.
  destruct (invalidate_alat_core x) as (Hcore & Hrf & Hrp). cbv zeta in Hcore, Hrf, Hrp. rewrite <- Es' in Hcore, Hrf, Hrp.
  destruct (core_fields _ _ Hcore) as (Ev & Er & Ec & Em & El).
  assert (Emk : marker_part (senv s') = marker_part x) by (unfold marker_part; by rewrite El, Hrf, Hrp).
  apply (preserve_stack mode K base sg s s' (cfm_sof (senv s)) _ _ x Hs ltac:(lia) Hcut Hsh Hcont Ho); [|..|exact Hm].
  - by rewrite Z.sub_diag.
  - unfold stack_fields. by rewrite Ev, Er, Ec, Emk.
  - done.
  - apply parts_frame; [done|done|]. exact (f_equal (fun q => q.1.2) Ec).
Qed.

Lemma left_below_env mode K base sg (s s1 s' : rse_sys W) n :
  stack_fields (senv s1) = stack_fields (senv s) -> mode_part (senv s1) = mode_part (senv s) ->
  frame_part (senv s1) = frame_part (senv s) ->
  left_below mode K base sg s1 n s' -> left_below mode K base sg s n s'.
Proof.
  intros Ef Em Efp [L1 L2 L3 L4 L5]. injection Efp as F1 F2 _ _ _ _ _ F3.
  assert (Ev : view_part (senv s1) = view_part (senv s)) by exact (f_equal (fun q => q.1.1.1) Ef).
  assert (Ec : count_part (senv s1) = count_part (senv s)) by exact (f_equal snd Ef). injection Ec as Ed _ _ _ _ _ _.
  rewrite F1, F2, F3 in L5. rewrite Ed in L4. split; [done|congruence| |done|done].
  intros p Hp. rewrite <- (view_part_content Ev). by apply L3.
Qed.

Lemma cover_eq e :
  exists e1, ia64_rse_cover e = cover_frame e1 /\ stack_fields e1 = stack_fields e /\
    mode_part e1 = mode_part e /\ frame_part e1 = frame_part e.
Proof. unfold ia64_rse_cover. destruct (negb (truth (psr e .& IA64_PSR_IC))); by eexists. Qed.

(** [cover] leaves the whole frame below. *)
Lemma cover_spec mode K base sg (s s' : rse_sys W) :
  stack mode K base sg s -> senv s' = ia64_rse_cover (senv s) -> same_mem s s' ->
  left_below mode K base sg s (cfm_sof (senv s)) s'.
Proof.
  intros Hs Es' Hm. destruct (cover_eq (senv s)) as (e1 & E & Ef1 & Em1 & Efp1). rewrite E in Es'. clear E.
  assert (exists s1 : rse_sys W, senv s1 = e1 /\ same_mem s s1) as (s1 & <- & Hm1)
    by (by exists (s <| sys_cpu; env := e1 |>)).
  destruct (stack_env mode K base sg s s1 Hs Ef1 Hm1) as [Hs1 _].
  assert (Esof : cfm_sof (senv s) = cfm_sof (senv s1)) by (by injection Efp1). rewrite Esof.
  apply (left_below_env mode K base sg s s1 s' _ Ef1 Em1 Efp1). apply cover_frame_stack; [done|done|].
  intros mo a. by rewrite Hm, Hm1.
Qed.
End frames.
