(* ===== verification/RseReturns.v ===== *)
(** * The register stack: returns

    [br.ret] and [rfi] move the frame down over the stack of registers: what
    is still in the physical file comes into view, and what has been stored
    is loaded, or left to be loaded by a later attempt when an access faults.
    Calls, allocations and returns together implement an unbounded stack of
    frames. *)
From stdpp Require Import list.
From S2P Require Import Prelude Arch Env Alat Registers Interrupt RseMap RseRnat RseOps RsePart RseSteps RseLoads RseFrames.
Local Open Scope Z_scope.

Section returns.
Context {W : Type} `{World : RseWorld W} `{Laws : !RseWorldLaws W}.

Local Abbreviation clean := (rse_has_clean_partition (@cpu_class W World)).

(** ** Returns *)

(** The fields of a frame marker. *)
Definition marker_sof (m : Z) : Z := m .& IA64_CFM_SOF_MASK.
Definition marker_sol (m : Z) : Z := (m .& IA64_CFM_SOL_MASK) >>> IA64_CFM_SOL_SHIFT.
Definition marker_sor (m : Z) : Z := (m .& IA64_CFM_SOR_MASK) >>> IA64_CFM_SOR_SHIFT.
Definition marker_rrb_gr (m : Z) : Z := (m .& IA64_CFM_RRB_GR_MASK) >>> IA64_CFM_RRB_GR_SHIFT.
Definition marker_rrb_fr (m : Z) : Z := (m .& IA64_CFM_RRB_FR_MASK) >>> IA64_CFM_RRB_FR_SHIFT.
Definition marker_rrb_pr (m : Z) : Z := (m .& IA64_CFM_RRB_PR_MASK) >>> IA64_CFM_RRB_PR_SHIFT.

Record marker_ok (m : Z) : Prop := {
  mk_sof : marker_sof m <= 96;
  mk_sol : marker_sol m <= marker_sof m;
  mk_sor : 8 * marker_sor m <= marker_sof m;
  mk_rrb : if marker_sor m =? 0 then marker_rrb_gr m = 0 else marker_rrb_gr m < 8 * marker_sor m
}.

Lemma field_nonneg m mask sh : 0 <= mask -> 0 <= sh -> 0 <= (m .& mask) >>> sh.
Proof. intros. apply Z.shiftr_nonneg, Z.land_nonneg. by right. Qed.

Lemma marker_nonneg m :
  0 <= marker_sof m /\ 0 <= marker_sol m /\ 0 <= marker_sor m /\ 0 <= marker_rrb_gr m /\
  0 <= marker_rrb_fr m /\ 0 <= marker_rrb_pr m.
Proof.
  split_and!; try (by apply field_nonneg). apply Z.land_nonneg. by right.
Qed.

(** The frame of a marker, [n] registers down. *)
Definition marker_frame (m b bsp : Z) :=
  (b, (marker_sof m, marker_sol m, marker_sor m),
   (marker_rrb_gr m, marker_rrb_fr m mod 96, marker_rrb_pr m mod 48), bsp).

Lemma return_cfm_spec e m n :
  0 <= cfm_rrb_fr e < 96 -> 0 <= cfm_rrb_pr e < 48 ->
  let s := return_cfm e m n in
  gr s = gr e /\ nat_ s = nat_ e /\ ar s = ar e /\ psr s = psr e /\
  rse s = (rse e) <| rse_bol := (rse_bol (rse e) - n) mod 96 |> /\
  frame_part s = marker_frame m ((rse_bol (rse e) - n) mod 96) (ar_bsp e).
Proof.
  intros Hf Hp. unfold return_cfm.
  fold (marker_sof m) (marker_sol m) (marker_sor m) (marker_rrb_gr m) (marker_rrb_fr m) (marker_rrb_pr m). cbv zeta.
  change (IA64_PR_COUNT - IA64_PR_ROTATING_BASE) with 48. change IA64_ROTATING_FR_COUNT with 96.
  set (e1 := e <| cfm_sof := marker_sof m |> <| cfm_sol := marker_sol m |> <| cfm_sor := marker_sor m |>
               <| cfm_rrb_gr := marker_rrb_gr m |>).
  destruct (marker_nonneg m) as (_ & _ & _ & _ & Hnf & Hnp).
  assert (Hf1 : cfm_rrb_fr e1 = cfm_rrb_fr e) by done. assert (Hp1 : cfm_rrb_pr e1 = cfm_rrb_pr e) by done.
  set (e2 := if _ || _ then ia64_set_cfm_rrb_fr e1 (marker_rrb_fr m) else e1).
  assert (H2 : core e2 = core e1 /\ cfm_rrb_fr e2 = marker_rrb_fr m mod 96 /\ cfm_rrb_pr e2 = cfm_rrb_pr e1).
  { unfold e2. destruct (set_cfm_rrb_fr_core e1 (marker_rrb_fr m)) as (H1 & H2 & H3).
    change IA64_ROTATING_FR_COUNT with 96 in H2. unfold ia64_normalize_rrb_fr in H2.
    change IA64_ROTATING_FR_COUNT with 96 in H2.
    destruct (Z.eqb_spec (marker_rrb_fr m) (cfm_rrb_fr e1)) as [E|E], (Z.leb_spec 96 (marker_rrb_fr m)); cbn [negb orb];
      split_and!; try done; rewrite ?H2; (done || (rewrite Z.mod_small by lia; congruence)). }
  clearbody e2. destruct H2 as (Hc2 & Hf2 & Hp2).
  set (e3 := if _ || _ then ia64_set_cfm_rrb_pr e2 (marker_rrb_pr m) else e2).
  assert (H3 : core e3 = core e1 /\ cfm_rrb_fr e3 = marker_rrb_fr m mod 96 /\ cfm_rrb_pr e3 = marker_rrb_pr m mod 48).
  { unfold e3. destruct (set_cfm_rrb_pr_core e2 (marker_rrb_pr m)) as (H1 & H2 & H3).
    destruct (Z.eqb_spec (marker_rrb_pr m) (cfm_rrb_pr e2)) as [E|E], (Z.leb_spec 48 (marker_rrb_pr m)); cbn [negb orb];
      split_and!; rewrite ?H1, ?H2, ?H3; try done; rewrite Z.mod_small by lia; congruence. }
  clearbody e3. destruct H3 as (Hc3 & Hf3 & Hp3). injection Hc3 as E1 E2 E3 E4 E5 E6 E7 E8 E9.
  rewrite wrap_phys_spec. split_and!; try done.
  - change (rse (e3 <| rse; rse_bol := (rse_bol (rse e3) - n) mod 96 |>)) with
      ((rse e3) <| rse_bol := (rse_bol (rse e3) - n) mod 96 |>). by rewrite E3.
  - unfold frame_part, marker_frame, ar_bsp. cbn [rse rse_bol cfm_sof cfm_sol cfm_sor cfm_rrb_gr cfm_rrb_fr cfm_rrb_pr ar upd].
    by rewrite E3, E4, E5, E6, E7, E8, Hf3, Hp3.
Qed.

(** The counts of the frame that is returned to; there is no clean partition. *)
Section restore.
Context {cl : bool} {K sof : Z} {e : CPUIA64State}.
Let d := rse_dirty (rse e).
Let dn := rse_dirty_nat (rse e).
Let v := rse_invalid (rse e).
Context (P : part_ok cl K sof d dn 0 0 v (ar_bsp e) (ar_bspstore e)).
Context (Hclean : rse_clean (rse e) = 0 /\ rse_clean_nat (rse e) = 0) (Hok : rnat_ok e).
Context (n sof' : Z) (Hn : 0 <= n <= K) (Hsof : n <= sof' <= 96) (Hd : 0 <= d).
Context (Htop : top_ok (K - n + sof')) (Hgrowth : sof' - n - sof <= v).
Let nats := ia64_rse_nat_words_shrink (ar_bsp e) n.
Let bsp' := u64 (ar_bsp e - (n + nats) * 8).

Lemma part_restore :
  u64 (bsp' - (d - n + (dn - nats)) * 8) = ar_bspstore e /\
  part_ok cl (K - n) sof' (d - n) (dn - nats) 0 0 (v - (sof' - n - sof)) bsp' (ar_bspstore e).
Proof.
  assert (Eb : u64 (bsp' - (d - n + (dn - nats)) * 8) = ar_bspstore e).
  { pose proof (restore_bsp P n sof' Hn Hsof) as E0. fold nats bsp' in E0. rewrite E0. pose proof (restore_nats P n sof' Hn Hsof) as E. fold nats in E. destruct (part_bspstore_u64 P) as (Hu & _ & _). rewrite <- (wrap_small 64 (ar_bspstore e)) by done.
    f_equal. rewrite (po_bspstore _ _ _ _ _ _ _ _ _ _ P), (po_bsp _ _ _ _ _ _ _ _ _ _ P). lia. }
  split; [done|]. destruct (Z.le_gt_cases n d) as [Hle|Hgt].
  - apply (part_restore_dirty P n sof'); done.
  - destruct (part_restore_missing P n sof' Hn Hsof Hd Htop Hgrowth ltac:(lia)) as [_ Pm].
    fold nats bsp' in Pm. replace (- (n - d - 0)) with (d - n) in Pm by lia.
    replace (- (nats - dn - 0)) with (dn - nats) in Pm by lia. by rewrite Eb in Pm.
Qed.

Lemma restore_frame_spec :
  let s := ia64_rse_restore_frame e n (sof' - n - sof) sof in
  count_part s = (d - n, dn - nats, 0, 0, v - (sof' - n - sof), bsp', ar_bspstore e) /\
  view_part s = view_part e /\ marker_part s = marker_part e /\ mode_part s = mode_part e /\ ar_pfs s = ar_pfs e /\
  rnat_ok s /\ forall m c0 base top nat,
    (forall j, base <= j < top -> coll j = ia64_rse_collect_word (ar_bspstore e) ->
       j mod 63 <= ia64_rse_collect_bit (ar_bspstore e)) ->
    nats_ok m c0 base top nat e -> nats_ok m c0 base top nat s.
Proof.
  destruct part_restore as [Eb _]. destruct Hclean as [Hc Hcn].
  unfold ia64_rse_restore_frame. cbv zeta. fold nats. fold bsp'.
  destruct (set_pointer_parts e IA64_AR_BSP bsp' (or_introl eq_refl) (rn_ar _ Hok)) as (Ev & Em & Er & E1 & E2 & Ers & _).
  pose proof (mode_ar e IA64_AR_BSP bsp' ltac:(done)) as Emo.
  assert (Ep : ar_pfs (e <| ar @ IA64_AR_BSP := bsp' |>) = ar_pfs e) by (by apply aget_aset_ne). change (IA64_AR_BSP =? IA64_AR_BSP) with true in E1.
  change (IA64_AR_BSP =? IA64_AR_BSPSTORE) with false in E2. cbv iota in E1, E2.
  generalize dependent (e <| ar @ IA64_AR_BSP := bsp' |>). intros e1 Ev Em Er E1 E2 Ers Emo Ep.
  rewrite Ers. fold v. rewrite Hc. destruct (Z.ltb_spec (v + 0) (sof' - n - sof)); [lia|].
  destruct (Z.ltb_spec v (sof' - n - sof)); [lia|].
  set (e2 := e1 <| rse; rse_invalid ::= fun x => x - (sof' - n - sof) |>).
  change (rse_dirty (rse e2)) with (rse_dirty (rse e1)). change (rse_clean (rse e2)) with (rse_clean (rse e1)).
  rewrite Ers. fold d. rewrite Hc.
  assert (Hn1 : forall m c0 base top nat, nats_ok m c0 base top nat e -> nats_ok m c0 base top nat e2)
    by (intros; by apply (nats_part _ _ _ _ _ e)).
  destruct (Z.leb_spec (n - d) 0).
  - split_and!; [|exact Ev|exact Em|exact Emo|exact Ep|by apply (rnat_part_ok e)|].
    + unfold count_part. transitivity (rse_dirty (rse e1) - n, rse_dirty_nat (rse e1) - nats, rse_clean (rse e1),
        rse_clean_nat (rse e1), rse_invalid (rse e1) - (sof' - n - sof), ar_bsp e1, ar_bspstore e1); [done|].
      by rewrite Ers, Hc, Hcn, E1, E2.
    + intros. apply (nats_part _ _ _ _ _ e); [|done]. exact Er.
  - destruct (Z.leb_spec (n - d) 0); [lia|].
    match goal with |- context [ia64_rse_rnat_move_bspstore ?x _] => set (e3 := x) end.
    set (b := u64 (ar_bsp e3 - (rse_dirty (rse e3) + rse_dirty_nat (rse e3)) * 8)).
    assert (Hb : b = ar_bspstore e).
    { rewrite <- Eb. transitivity (u64 (ar_bsp e1 - (- (n - d - 0) +
        - (nats - rse_dirty_nat (rse e1) - rse_clean_nat (rse e1))) * 8)); [reflexivity|].
      rewrite Ers, Hcn, E1. fold dn. do 2 f_equal. lia. }
    assert (Hc3 : count_part e3 = (d - n, dn - nats, 0, 0, v - (sof' - n - sof), bsp', ar_bspstore e)).
    { transitivity (- (n - d - 0), - (nats - rse_dirty_nat (rse e1) - rse_clean_nat (rse e1)), 0, 0,
        rse_invalid (rse e1) - (sof' - n - sof), ar_bsp e1, ar_bspstore e1); [done|].
      rewrite Ers, Hcn, E1, E2. fold dn v. repeat f_equal; lia. }
    assert (Hr3 : rnat_part e3 = rnat_part e) by exact Er. pose proof (rnat_part_ok _ _ Hr3 Hok) as Hok3.
    assert (Hv3 : view_part e3 = view_part e) by exact Ev. assert (Hm3 : marker_part e3 = marker_part e) by exact Em.
    assert (Hmo3 : mode_part e3 = mode_part e) by exact Emo. assert (Hp3 : ar_pfs e3 = ar_pfs e) by exact Ep. clearbody e3 b. subst b. clear Hn1 e2.
    destruct (part_bspstore_u64 P) as (Hu & _ & _).
    destruct (move_bspstore_spec e3 (ar_bspstore e) Hok3 Hu) as (Hok4 & Hb4 & He4 & _).
    pose proof (fun m c0 base top nat => nats_move m c0 base top nat e3 (ar_bspstore e) Hok3 Hu) as Hn4.
    generalize dependent (ia64_rse_rnat_move_bspstore e3 (ar_bspstore e)). intros s Hok4 Hb4 He4 Hn4.
    destruct (moved_parts _ _ _ He4 Hb4) as (Ev4 & Em4 & Emo4 & Ec4 & Ep4).
    injection Hc3 as C1 C2 C3 C4 C5 C6 _. rewrite C1, C2, C3, C4, C5, C6 in Ec4.
    split_and!; [exact Ec4|congruence|congruence|congruence|congruence|done|].
    intros m c0 base top nat Hbit Hna. apply Hn4; [done|]. by apply (nats_part _ _ _ _ _ e).
Qed.
End restore.

(** The registers that are stored have their bits below that of [BSPSTORE]. *)
Lemma stored_bit_below cl K e j :
  rse_inv cl K e -> j < K - rse_dirty (rse e) -> coll j = ia64_rse_collect_word (ar_bspstore e) ->
  j mod 63 <= ia64_rse_collect_bit (ar_bspstore e).
Proof.
  intros Hi Hj Hc. pose proof (mod63_range j).
  destruct (part_store_kind (ri_part _ _ _ Hi)) as [[-> _]|(-> & Hf & _)]; [lia|].
  rewrite (inv_open Hi), Hf in Hc. unfold coll, open_coll in Hc.
  pose proof (Z.div_mod j 63 ltac:(lia)). pose proof (Z.div_mod (K - rse_dirty (rse e)) 63 ltac:(lia)). lia.
Qed.

Lemma marker_frame_wf e m b bsp :
  frame_part e = marker_frame m b bsp -> marker_ok m -> 0 <= b < 96 ->
  frame_wf e /\ 0 <= cfm_sol e <= cfm_sof e /\ 0 <= cfm_rrb_fr e < 96 /\ 0 <= cfm_rrb_pr e < 48.
Proof.
  intros [= Eb Es El Eo Eg Ef Ep _] [H1 H2 H3 H4] Hb. destruct (marker_nonneg m) as (? & ? & ? & ? & ? & ?).
  rewrite El, Es, Ef, Ep. split_and!; try lia; try (apply Z.mod_pos_bound; lia).
  split; rewrite ?Eb, ?Es, ?Eo, ?Eg; try done.
Qed.

Section return_env.
Context (cl : bool) (K : Z) (e : CPUIA64State) (m n : Z) (Hi : rse_inv cl K e).
Context (Hclean : rse_clean (rse e) = 0 /\ rse_clean_nat (rse e) = 0) (Hm : marker_ok m) (Hd : 0 <= rse_dirty (rse e)).
Context (Hn : 0 <= n <= K) (Hsof : n <= marker_sof m) (Htop : top_ok (K - n + marker_sof m)).
Context (Hgrowth : marker_sof m - n - cfm_sof e <= rse_invalid (rse e)).
Let nats := ia64_rse_nat_words_shrink (ar_bsp e) n.
Let counts := (rse_dirty (rse e) - n, rse_dirty_nat (rse e) - nats, 0, 0,
  rse_invalid (rse e) - (marker_sof m - n - cfm_sof e), u64 (ar_bsp e - (n + nats) * 8), ar_bspstore e).

Lemma return_moved :
  let e0 := ia64_rse_sync_frame_out e in
  let s := ia64_rse_restore_frame (return_cfm e0 m n) n (marker_sof m - n - cfm_sof e) (cfm_sof e) in
  count_part s = counts /\ mode_part s = mode_part e /\ ar_pfs s = ar_pfs e /\ rnat_ok s /\ filed e e0 /\
  (rse_gr_dirty (rse s) = [0; 0] /\ rse_pgr (rse s) = rse_pgr (rse e0) /\ rse_pgr_nat (rse s) = rse_pgr_nat (rse e0) /\
   gr s = gr e /\ nat_ s = nat_ e) /\
  frame_part s = marker_frame m ((rse_bol (rse e) - n) mod 96) (u64 (ar_bsp e - (n + nats) * 8)) /\
  forall mem c0 base top nat,
    (forall j, base <= j < top -> coll j = ia64_rse_collect_word (ar_bspstore e) ->
       j mod 63 <= ia64_rse_collect_bit (ar_bspstore e)) ->
    nats_ok mem c0 base top nat e -> nats_ok mem c0 base top nat s.
Proof.
  cbv zeta. destruct (sync_out_filed cl K e Hi) as (Hfd & Hw0 & Hc0). pose proof Hfd as [Hd0 _ _ _ _ Hr0].
  destruct (filed_outer _ _ Hfd) as [Ho0 Hl0]. destruct (outer_inv _ _ Ho0) as (Er0 & Ec0 & Em0).
  generalize dependent (ia64_rse_sync_frame_out e). intros e0 Hfd Hw0 Hc0 Hd0 Hr0 Ho0 Hl0 Er0 Ec0 Em0.
  assert (Hsame : ar_pfs e0 = ar_pfs e /\ gr e0 = gr e /\ nat_ e0 = nat_ e /\ rse_bol (rse e0) = rse_bol (rse e) /\
    cfm_rrb_fr e0 = cfm_rrb_fr e /\ cfm_rrb_pr e0 = cfm_rrb_pr e) by (by rewrite Hr0).
  destruct Hsame as (Epf0 & Eg0 & En0 & Eb0 & Ef0 & Ep0). pose proof (ri_rrb _ _ _ Hi) as Hrrb.
  destruct (return_cfm_spec e0 m n) as (Eg & En & Ea & Eps & Ers & Ef); [rewrite Ef0; apply Hrrb|rewrite Ep0; apply Hrrb|].
  generalize dependent (return_cfm e0 m n). intros e1 Eg En Ea Eps Ers Ef.
  assert (Ec1 : count_part e1 = count_part e0) by (unfold count_part, ar_bsp, ar_bspstore; by rewrite Ers, Ea).
  assert (Er1 : rnat_part e1 = rnat_part e0) by (unfold rnat_part, ar_rnat; by rewrite Ers, Ea).
  assert (Em1 : mode_part e1 = mode_part e0)
    by (unfold mode_part, rse_big_endian, ia64_rse_mmu_index, ar_rsc; by rewrite Ea, Eps).
  rewrite Ec0 in Ec1. rewrite Er0 in Er1. rewrite Em0 in Em1. rewrite Eb0 in Ef.
  pose proof Ec1 as [= C1 C2 C3 C4 C5 C6 C7]. destruct Hclean as [Hc Hcn].
  pose proof (ri_part _ _ _ Hi) as P. unfold part_of in P. rewrite Hc, Hcn, <- C1, <- C2, <- C5, <- C6, <- C7 in P.
  pose proof (rnat_part_ok _ _ Er1 (ri_rnat _ _ _ Hi)) as Hok1.
  destruct (restore_frame_spec P ltac:(split; congruence) Hok1 n (marker_sof m) Hn ltac:(split; [done|apply Hm])
    ltac:(by rewrite C1) Htop ltac:(by rewrite C5)) as (Ec & Ev & Emk & Emo & Epf & Hok & Hna).
  rewrite C1, C2, C5, C6, C7 in Ec. rewrite C7 in Hna.
  generalize dependent (ia64_rse_restore_frame e1 n (marker_sof m - n - cfm_sof e) (cfm_sof e)).
  assert (Epf1 : ar_pfs e1 = ar_pfs e0) by (unfold ar_pfs; by rewrite Ea).
  intros s Ec Ev Emk Emo Epf Hok Hna. pose proof Ev as [= V1 V2 V3 V4 V5 V6 V7 V8 V9].
  split_and!; try done; try congruence.
  - rewrite V5, Ers. exact Hd0.
  - by rewrite V3, Ers.
  - by rewrite V4, Ers.
  - injection Ef as F1 F2 F3 F4 F5 F6 F7 _. injection Emk as M1 M2 M3.
    unfold frame_part, marker_frame.
    assert (Eb : ar_bsp s = u64 (ar_bsp e - (n + nats) * 8)) by exact (f_equal (fun q => q.1.2) Ec).
    by rewrite V6, V7, V8, V9, M1, M2, M3, F1, F2, F3, F4, F5, F6, F7, Eb.
  - intros mem c0 base top nat Hb Hna0. apply Hna; [done|]. by apply (nats_part _ _ _ _ _ e).
Qed.

Lemma return_env_spec :
  let s := return_frame m n e in
  rse_inv cl (K - n) s /\ (forall p, 0 <= p < 96 -> content s p = content e p) /\
  frame_part s = marker_frame m ((rse_bol (rse e) - n) mod 96) (u64 (ar_bsp e - (n + nats) * 8)) /\
  count_part s = counts /\ mode_part s = mode_part e /\ ar_pfs s = ar_pfs e /\
  forall mem c0 base top nat,
    (forall j, base <= j < top -> coll j = ia64_rse_collect_word (ar_bspstore e) ->
       j mod 63 <= ia64_rse_collect_bit (ar_bspstore e)) ->
    nats_ok mem c0 base top nat e -> nats_ok mem c0 base top nat s.
Proof.
  unfold return_frame. cbv zeta. fold (marker_sof m). destruct return_moved as (Ec & Emo & Epf & Hok & Hfd & (Hg & Hp & Hpn & Egr & En) & Ef & Hna).
  generalize dependent (ia64_rse_restore_frame (return_cfm (ia64_rse_sync_frame_out e) m n) n
    (marker_sof m - n - cfm_sof e) (cfm_sof e)).
  generalize dependent (ia64_rse_sync_frame_out e). intros e0 Hfd s1 Ec Emo Epf Hok Hg Hp Hpn Egr En Ef Hna.
  destruct (marker_frame_wf s1 m _ _ Ef Hm) as (Hw & Hsol & Hrrb); [apply Z.mod_pos_bound; lia|].
  pose proof (ri_views _ _ _ Hi) as Hwe.
  destruct (filed_sync_in e e0 s1) as (Hsh & Hcont & Ho & Ef2 & Ear); try done.
  { rewrite Egr. apply Hwe. } { rewrite En. apply Hwe. } { rewrite Egr. apply Hi. }
  generalize dependent (ia64_rse_sync_frame_in s1). intros s2 Hsh Hcont Ho Ef2 Ear.
  destruct (outer_inv _ _ Ho) as (Er2 & Ec2 & Em2). rewrite Ec in Ec2. rewrite Ef in Ef2. cbv zeta.
  destruct (invalidate_alat_core s2) as (Hcore & Hrf & Hrp). cbv zeta in Hcore, Hrf, Hrp.
  generalize dependent (ia64_rse_invalidate_stacked_alat s2). intros s Hcore Hrf Hrp.
  destruct (core_fields _ _ Hcore) as (Ev & Er & Ec3 & Em & El).
  assert (Emk : marker_part s = marker_part s2) by (unfold marker_part; by rewrite El, Hrf, Hrp).
  rewrite Ec2 in Ec3. pose proof Ec3 as [= C1 C2 C3 C4 C5 C6 C7].
  assert (Efs : frame_part s = frame_part s2).
  { apply parts_frame; [done|done|]. rewrite C6. by injection Ec2. }
  assert (Eps : ar_pfs s = ar_pfs e) by (rewrite <- Epf; unfold ar_pfs; injection Hcore as _ _ _ _ _ _ _ Ea _; by rewrite Ea, Ear).
  split_and!; try done; try congruence.
  - apply inv_shape. split; [apply (shape_parts s2); try done; apply (rnat_part_ok s2); [done|apply Hsh]|].
    unfold part_of. rewrite C1, C2, C3, C4, C5, C6, C7.
    destruct Hclean as [Hc Hcn]. pose proof (ri_part _ _ _ Hi) as P. unfold part_of in P. rewrite Hc, Hcn in P.
    injection Efs as _ -> _ _ _ _ _ _. injection Ef2 as _ -> _ _ _ _ _ _.
    apply (part_restore P n (marker_sof m)); [done|split; [done|apply Hm]|done|done|done].
  - intros p Hpr. rewrite (view_part_content Ev). by apply Hcont.
  - intros mem c0 base top nat Hb Hna0. apply (nats_part _ _ _ _ _ s1); [congruence|]. by apply Hna.
Qed.
End return_env.

Lemma return_reframe mode K base sg (s s1 : rse_sys W) m n :
  let e := senv s in
  clean = false -> stack mode K base sg s -> marker_ok m -> 0 <= rse_dirty (rse e) ->
  0 <= n <= K -> n <= marker_sof m -> top_ok (K - n + marker_sof m) ->
  marker_sof m - n - cfm_sof e <= rse_invalid (rse e) -> senv s1 = return_frame m n e -> same_mem s s1 ->
  exists sg', (forall j, j < K + cfm_sof e -> sg' j = sg j) /\
    stack mode (K - n) base sg' s1 /\ mode_part (senv s1) = mode_part e /\ ar_pfs (senv s1) = ar_pfs e /\
    frame_part (senv s1) = marker_frame m ((rse_bol (rse e) - n) mod 96)
      (u64 (ar_bsp e - (n + ia64_rse_nat_words_shrink (ar_bsp e) n) * 8)) /\
    rse_dirty (rse (senv s1)) = rse_dirty (rse e) - n.
Proof.
  intros e Hcl Hs Hm Hd Hn Hsof Htop Hgr Es1 Hmem. pose proof (st_inv _ _ _ _ _ Hs) as Hi. fold e in Hi.
  pose proof (po_noclean _ _ _ _ _ _ _ _ _ _ (ri_part _ _ _ Hi) Hcl) as Hclean.
  destruct (return_env_spec clean K e m n Hi Hclean Hm Hd Hn Hsof Htop Hgr) as (Hi' & Hcont & Hf & Hc & Hmo & Hpf & Hna).
  rewrite <- Es1 in Hi', Hcont, Hf, Hc, Hmo, Hpf, Hna. clear Es1.
  exists (fun j => if j <? K + cfm_sof e then sg j else content (senv s1) (slot (K - n) (senv s1) j)).
  set (sg' := fun j => _). assert (Hsg : forall j, j < K + cfm_sof e -> sg' j = sg j).
  { intros j Hj. unfold sg'. destruct (Z.ltb_spec j (K + cfm_sof e)); [done|lia]. }
  pose proof Hc as [= C1 C2 C3 C4 C5 C6 C7]. pose proof Hf as [= F1 F2 F3 F4 F5 F6 F7 F8].
  split_and!; [done| |done|done|done|done].
  apply (reframe mode K (K - n) base sg sg' s s1); try done; fold e; rewrite ?C1, ?C3, ?C7, ?(proj1 Hclean); try lia.
  - intros j. unfold slot. fold e. rewrite F1, Zplus_mod_idemp_l. f_equal. lia.
  - replace (K - n - (rse_dirty (rse e) - n)) with (K - rse_dirty (rse e)) by lia.
    apply Hna; [|apply Hs]. intros j Hj. apply (stored_bit_below clean K e); [done|lia].
  - intros j Hj. unfold sg'. destruct (Z.ltb_spec j (K + cfm_sof e)); [lia|done].
Qed.

(** A return brings the frame below back: the registers of the stack are the
    same up to the top of the old frame. *)
Lemma return_to_frame_spec mode K base sg (s : rse_sys W) m n :
  let e := senv s in
  clean = false -> stack mode K base sg s -> mode_part e = mode -> marker_ok m -> 0 <= rse_dirty (rse e) ->
  0 <= n <= K -> n <= marker_sof m -> top_ok (K - n + marker_sof m) ->
  marker_sof m - n - cfm_sof e <= rse_invalid (rse e) ->
  let fr := marker_frame m ((rse_bol (rse e) - n) mod 96)
    (u64 (ar_bsp e - (n + ia64_rse_nat_words_shrink (ar_bsp e) n) * 8)) in
  exists sg', (forall j, j < K + cfm_sof e -> sg' j = sg j) /\
  ensures (ia64_rse_return_to_frame m n s)
    (fun _ s' => stack mode (K - n) base sg' s' /\ mode_part (senv s') = mode /\ frame_part (senv s') = fr /\
       rse_dirty (rse (senv s')) = Z.max (rse_dirty (rse e) - n) 0 /\ ar_pfs (senv s') = ar_pfs e)
    (fun _ s' => stack mode (K - n) base sg' s' /\ frame_part (senv s') = fr).
Proof.
  intros e Hcl Hs Hmode Hm Hd Hn Hsof Htop Hgr fr.
  destruct (return_reframe mode K base sg s (s <| sys_cpu; env ::= return_frame m n |>) m n)
    as (sg' & Hsg & Hs1 & Hm1 & Hp1 & Hf1 & Hd1); try done. fold e in Hsg, Hm1, Hp1, Hf1, Hd1. fold fr in Hf1.
  exists sg'. split; [done|]. unfold ia64_rse_return_to_frame. apply ensures_modenv.
  generalize dependent (s <| sys_cpu; env ::= return_frame m n |>). intros s1 Hs1 Hm1 Hp1 Hf1 Hd1.
  eapply ensures_mono; [apply (complete_frame_loads_spec mode (K - n) base sg' s1); [done|congruence]|..].
  - intros _ s' ((Hs' & Hf' & Hp') & Hm' & Hd' & Hend). split_and!; [done|done|congruence| |congruence].
    rewrite Hd1 in Hend. destruct (Z.ltb_spec (rse_dirty (rse e) - n) 0); [lia|]. subst s'. lia.
  - intros _ s' (Hs' & Hf' & Hp'). split; [done|congruence].
Qed.

(** The frame marker that a call saves in [AR.PFS] is that of the caller. *)
Lemma saved_fields sof sol sor rg rf rp hi :
  uint 7 sof -> uint 7 sol -> uint 4 sor -> uint 7 rg -> uint 7 rf -> uint 6 rp ->
  let p := ((((((sof .| (sol <<< 7)) .| (sor <<< 14)) .| (rg <<< 18)) .| (rf <<< 25)) .| (rp <<< 32)) .| (hi <<< 52)) in
  let m := p .& IA64_PFS_PFM_MASK in
  marker_sol p = sol /\ marker_sof m = sof /\ marker_sol m = sol /\ marker_sor m = sor /\
  marker_rrb_gr m = rg /\ marker_rrb_fr m = rf /\ marker_rrb_pr m = rp.
Proof.
  intros H1 H2 H3 H4 H5 H6 p m. unfold m, p. clear m p.
  unfold marker_sof, marker_sol, marker_sor, marker_rrb_gr, marker_rrb_fr, marker_rrb_pr.
  change IA64_PFS_PFM_MASK with (Z.ones 38). change IA64_CFM_SOF_MASK with (Z.ones 7).
  change IA64_CFM_SOL_MASK with (Z.ones 7 <<< 7). change IA64_CFM_SOR_MASK with (Z.ones 4 <<< 14).
  change IA64_CFM_RRB_GR_MASK with (Z.ones 7 <<< 18). change IA64_CFM_RRB_FR_MASK with (Z.ones 7 <<< 25).
  change IA64_CFM_RRB_PR_MASK with (Z.ones 6 <<< 32).
  change IA64_CFM_SOL_SHIFT with 7. change IA64_CFM_SOR_SHIFT with 14. change IA64_CFM_RRB_GR_SHIFT with 18.
  change IA64_CFM_RRB_FR_SHIFT with 25. change IA64_CFM_RRB_PR_SHIFT with 32.
  split_and!; zbits; cbn [orb]; f_equal; lia.
Qed.

Lemma current_pfs_marker cl K e :
  rse_inv cl K e ->
  let p := ia64_rse_current_pfs e in
  let m := p .& IA64_PFS_PFM_MASK in
  marker_sol p = cfm_sol e /\ marker_sof m = cfm_sof e /\ marker_ok m /\
  forall b bsp, marker_frame m b bsp =
    (b, (cfm_sof e, cfm_sol e, cfm_sor e), (cfm_rrb_gr e, cfm_rrb_fr e, cfm_rrb_pr e), bsp).
Proof.
  intros Hi. pose proof (vw_frame _ (ri_views _ _ _ Hi)) as [Hsof Hsor Hrg _].
  pose proof (ri_sol _ _ _ Hi) as Hsol. destruct (ri_rrb _ _ _ Hi) as [Hf Hp].
  assert (Hrg' : cfm_rrb_gr e < 128) by (destruct (cfm_sor e =? 0); lia).
  destruct (saved_fields (cfm_sof e) (cfm_sol e) (cfm_sor e) (cfm_rrb_gr e) (cfm_rrb_fr e) (cfm_rrb_pr e)
    ((ar_ec e .& 0x3f) .| (ia64_psr_cpl (psr e) <<< 10))) as (E0 & E1 & E2 & E3 & E4 & E5 & E6); try (unfold uint; lia).
  assert (Ep : ia64_rse_current_pfs e = ((((((cfm_sof e .| (cfm_sol e <<< 7)) .| (cfm_sor e <<< 14)) .|
    (cfm_rrb_gr e <<< 18)) .| (cfm_rrb_fr e <<< 25)) .| (cfm_rrb_pr e <<< 32)) .|
    (((ar_ec e .& 0x3f) .| (ia64_psr_cpl (psr e) <<< 10)) <<< 52))).
  { rewrite Z.shiftl_lor, Z.shiftl_shiftl, Z.lor_assoc by lia. done. }
  rewrite <- Ep in E0, E1, E2, E3, E4, E5, E6. cbv zeta. split_and!; [done|done| |].
  - split; rewrite ?E1, ?E2, ?E3, ?E4; try lia. destruct (cfm_sor e =? 0); lia.
  - intros b bsp. unfold marker_frame. rewrite E1, E2, E3, E4, E5, E6. by rewrite !Z.mod_small.
Qed.

(** ** Steps that leave the stack alone *)

Definition calm (s s' : rse_sys W) : Prop :=
  frame_part (senv s') = frame_part (senv s) /\ count_part (senv s') = count_part (senv s) /\
  ar_pfs (senv s') = ar_pfs (senv s) /\ forall mode K base sg, stack mode K base sg s -> stack mode K base sg s'.

Lemma calm_refl s : calm s s.
Proof. by split_and!. Qed.

Lemma calm_trans s1 s2 s3 : calm s1 s2 -> calm s2 s3 -> calm s1 s3.
Proof. intros (A1 & A2 & A3 & A4) (B1 & B2 & B3 & B4). split_and!; [congruence..|auto]. Qed.

Lemma calm_env (s s' : rse_sys W) :
  stack_fields (senv s') = stack_fields (senv s) -> ar_pfs (senv s') = ar_pfs (senv s) -> same_mem s s' -> calm s s'.
Proof.
  intros E Ep Hm. assert (Ec : count_part (senv s') = count_part (senv s)) by exact (f_equal snd E).
  split_and!; [|done|done|].
  - apply parts_frame; [exact (f_equal (fun x => x.1.1.1) E)|exact (f_equal (fun x => x.1.1.2) E)|by injection Ec].
  - intros mode K base sg Hs. by apply (stack_env mode K base sg s).
Qed.

Lemma calm_kept (s s' : rse_sys W) : kept (senv s) (senv s') -> same_mem s s' -> calm s s'.
Proof.
  intros Hk Hm. split_and!; [|by apply kept_count|by apply kept_ars|].
  - destruct (quiet_fields _ _ (k_rse _ _ Hk)) as (E1 & _). injection E1 as _ _ _ E1.
    pose proof (k_cfm _ _ Hk) as E2. pose proof (k_rrb _ _ Hk) as E3. destruct (kept_ars _ _ Hk) as (_ & Eb & _).
    unfold frame_part. by rewrite E1, E2, E3, Eb.
  - intros mode K base sg Hs. by eapply stack_kept.
Qed.

Lemma kept_bank e r x b y z :
  0 < r < 32 ->
  kept e ((ia64_gr_nat_set (e <| gr @ r := x |>) r b) <| banked_gr := y |> <| banked_nat := z |>).
Proof.
  intros Hr. set (e1 := e <| gr @ r := x |>).
  assert (Hbm : bmap (nat_ e) -> bmap (nat_ (ia64_gr_nat_set e1 r b))).
  { intros [Hl Hu]. by destruct (gr_nat_set_spec e1 r b Hl Hu ltac:(lia)) as (n & -> & Hn & Hnu & _). }
  unfold ia64_gr_nat_set in *. destruct (Z.eqb_spec r 0); [lia|]. destruct b; split; try done; unfold e1; cbn [gr nat_ upd].
  - apply aset_length.
  - intros r' Hr'. apply aget_aset_ne. lia.
  - intros r' Hr'. apply bm_get_set_ne; lia.
  - apply aset_length.
  - intros r' Hr'. apply aget_aset_ne. lia.
  - intros r' Hr'. apply bm_get_clear_ne; lia.
Qed.

Lemma swap_banked_kept e : kept e (ia64_swap_banked_gr e).
Proof.
  unfold ia64_swap_banked_gr. apply (for_range_ind (fun _ s => kept e s) 0 16); [lia|apply kept_refl|].
  intros i s Hi Hk. cbv zeta. eapply kept_trans; [exact Hk|].
  destruct (ia64_gr_nat_get s (16 + i)); apply (kept_bank s (16 + i)); lia.
Qed.

(** A change of [PSR] may switch the banks. *)
Lemma set_psr_kept cpu v :
  kept (Interrupt.env cpu) (Interrupt.env (ia64_set_psr cpu v)) /\ psr (Interrupt.env (ia64_set_psr cpu v)) = v.
Proof.
  unfold ia64_set_psr. cbv zeta. set (c1 := if truth (_ .& IA64_PSR_IC) then _ else cpu).
  assert (H1 : kept (Interrupt.env cpu) (Interrupt.env c1)) by (unfold c1; case_match; [by split|apply kept_refl]).
  clearbody c1. set (c2 := if _ || _ then _ else _).
  assert (H2 : kept (Interrupt.env cpu) (Interrupt.env c2)).
  { unfold c2. eapply kept_trans; [exact H1|]. case_match; [by split|]. case_match; [by split|apply kept_refl]. }
  clearbody c2. clear c1 H1. set (c3 := if truth (_ .& IA64_PSR_BN) then _ else c2).
  assert (H3 : kept (Interrupt.env cpu) (Interrupt.env c3)).
  { unfold c3. eapply kept_trans; [exact H2|]. case_match; [|apply kept_refl].
    apply (swap_banked_kept (Interrupt.env c2)). }
  clearbody c3. clear c2 H2.
  assert (H4 : kept (Interrupt.env cpu) ((Interrupt.env c3) <| psr := v |>)) by (eapply kept_trans; [exact H3|apply kept_psr]).
  case_match; [rewrite env_update|]; done.
Qed.

Abbreviation steady s s' := (calm s s' /\ mode_part (senv s') = mode_part (senv s)).

Lemma calm_bmap mode K base sg s s' : stack mode K base sg s -> calm s s' -> bmap (nat_ (senv s')).
Proof. intros Hs (_ & _ & _ & Hc). apply (ri_views _ _ _ (st_inv _ _ _ _ _ (Hc _ _ _ _ Hs))). Qed.

Lemma ensures_when (b : bool) (m : RM W unit) s P Q :
  (if b then ensures (m s) P Q else P tt s) -> ensures (mwhen b m s) P Q.
Proof. by destruct b. Qed.

Lemma mode_eq e e' : ar_rsc e' = ar_rsc e -> Z.testbit (psr e') 27 = Z.testbit (psr e) 27 -> mode_part e' = mode_part e.
Proof.
  intros Ha E. unfold mode_part, rse_big_endian, ia64_rse_mmu_index. rewrite Ha.
  change IA64_PSR_RT with (2 ^ 27). by rewrite !truth_land_pow2, E by lia.
Qed.

Lemma set_psr_steady (s : rse_sys W) v :
  Z.testbit v 27 = Z.testbit (psr (senv s)) 27 ->
  steady s (s <| sys_cpu ::= fun cpu => ia64_set_psr cpu v |>).
Proof.
  intros Hv. destruct (set_psr_kept (sys_cpu s) v) as [Hk Hp]. split.
  - apply calm_kept; [exact Hk|done].
  - apply mode_eq; [exact (proj1 (kept_ars _ _ Hk))|]. rewrite <- Hv. f_equal. exact Hp.
Qed.

Lemma clear_suppression_steady s :
  ensures (ia64_system_clear_psr_fault_suppression s) (fun _ s' => steady s s') (fun _ _ => False).
Proof.
  unfold ia64_system_clear_psr_fault_suppression. apply ensures_getenv. cbv zeta.
  set (old := _ .& IA64_PSR_FAULT_SUPPRESS_MASK). eapply ensures_bind.
  { apply ensures_when. instantiate (1 := fun _ s' => steady s s'). case_match; [|by split; [apply calm_refl|]].
    apply set_psr_steady. rewrite Z.land_spec, wnot_spec, !Z.land_spec by lia. unfold old.
    rewrite Z.land_spec. change (Z.testbit IA64_PSR_FAULT_SUPPRESS_MASK 27) with false.
    by rewrite !andb_false_r, andb_true_r. }
  intros [] s1 [Hc1 Hm1]. eapply ensures_bind.
  { apply ensures_when. instantiate (1 := fun _ s' => steady s s'). case_match; [|by split].
    cbn [ensures mmod]. destruct (flush_law s1) as [E Hmem]. rewrite E. split; [|done].
    eapply calm_trans; [exact Hc1|]. apply calm_kept; [rewrite E; apply kept_refl|]. intros [] a. apply Hmem. }
  intros [] s2 [Hc2 Hm2]. cbn [ensures modenv mmod]. split; [|exact Hm2].
  eapply calm_trans; [exact Hc2|]. by apply calm_env.
Qed.

Lemma native_traps_calm target source slots conditions isr p s :
  ensures (ia64_check_native_traps target source slots conditions isr p s) (fun _ s' => s' = s) (fun _ s' => calm s s').
Proof.
  unfold ia64_check_native_traps. cbv zeta. set (un := if truth (p .& IA64_PSR_IT) then _ else _).
  match goal with |- context [?c =? 0] => set (code := c) end. destruct (code =? 0); [done|].
  clearbody un code. eapply ensures_bind.
  { apply ensures_when. instantiate (1 := fun _ s' => calm s s'). case_match; [by apply calm_env|apply calm_refl]. }
  intros [] s1 Hc1. apply ensures_modenv. unfold ia64_raise_exception. apply ensures_modenv. cbn [ensures mraise].
  eapply calm_trans; [exact Hc1|]. by apply calm_env.
Qed.

Lemma complete_trap_steady s :
  ensures (ia64_rse_complete_pending_trap s) (fun _ s' => steady s s') (fun _ s' => calm s s').
Proof.
  unfold ia64_rse_complete_pending_trap. apply ensures_getenv.
  destruct (negb (rse_completion_pending (rse (senv s)))); [split; [apply calm_refl|done]|]. cbv zeta.
  apply ensures_modenv. match goal with |- ensures (_ ?t) _ _ => set (s1 := t) end.
  assert (H1 : steady s s1) by (split; [by apply calm_env|done]).
  clearbody s1. destruct H1 as [Hc1 Hm1]. eapply ensures_bind.
  { eapply ensures_mono; [apply clear_suppression_steady|intros u s' H; exact H|done]. }
  intros [] s2 [Hc2 Hm2]. apply ensures_getenv. eapply ensures_mono; [apply native_traps_calm|..].
  - intros [] s' ->. split; [by eapply calm_trans|congruence].
  - intros ? s' Hc3. eapply calm_trans; [|exact Hc3]. by eapply calm_trans.
Qed.

Lemma ar_other_fields e i x :
  i <> IA64_AR_BSP -> i <> IA64_AR_BSPSTORE -> i <> IA64_AR_RNAT -> stack_fields (e <| ar @ i := x |>) = stack_fields e.
Proof.
  intros H1 H2 H3. unfold stack_fields.
  assert (Er : rnat_part (e <| ar @ i := x |>) = rnat_part e).
  { unfold rnat_part, ar_rnat. cbn [ar rse upd]. by rewrite aset_length, aget_aset_ne. }
  assert (Ec : count_part (e <| ar @ i := x |>) = count_part e).
  { unfold count_part, ar_bsp, ar_bspstore. cbn [ar rse upd]. by rewrite !aget_aset_ne. }
  by rewrite Er, Ec.
Qed.

(** What a return to the frame of the marker [m] requires and gives. *)
Record return_pre (K m n : Z) (e : CPUIA64State) : Prop := {
  rp_clean : clean = false;
  rp_marker : marker_ok m;
  rp_dirty : 0 <= rse_dirty (rse e);
  rp_n : 0 <= n <= K;
  rp_sof : n <= marker_sof m;
  rp_top : top_ok (K - n + marker_sof m);
  rp_growth : marker_sof m - n - cfm_sof e <= rse_invalid (rse e)
}.

Definition return_to (m n : Z) (e : CPUIA64State) :=
  marker_frame m ((rse_bol (rse e) - n) mod 96)
    (u64 (ar_bsp e - (n + ia64_rse_nat_words_shrink (ar_bsp e) n) * 8)).

Definition returns (mode : bool * Z) (K base : Z) (sg : Z -> Z * bool) (m n : Z) (e : CPUIA64State)
    (o : outcome cpu_exit (rse_sys W) unit) : Prop :=
  exists sg', (forall j, j < K + cfm_sof e -> sg' j = sg j) /\
  ensures o
    (fun _ s' => stack mode (K - n) base sg' s' /\ mode_part (senv s') = mode /\
       frame_part (senv s') = return_to m n e /\ rse_dirty (rse (senv s')) = Z.max (rse_dirty (rse e) - n) 0 /\
       ar_pfs (senv s') = ar_pfs e)
    (fun _ s' => stack mode (K - n) base sg' s' /\ frame_part (senv s') = return_to m n e).

Lemma calm_pre K m n s s' : calm s s' -> return_pre K m n (senv s) -> return_pre K m n (senv s').
Proof.
  intros ([= _ E1 _ _ _ _ _ _] & [= E2 _ _ _ E3 _ _] & _) []. split; rewrite ?E1, ?E2, ?E3; done.
Qed.

Lemma calm_returns mode K base sg m n s s' o :
  calm s s' -> returns mode K base sg m n (senv s') o -> returns mode K base sg m n (senv s) o.
Proof.
  intros ([= E1 E2 _ _ _ _ _ E3] & [= E4 _ _ _ _ _ _] & E5 & _). unfold returns, return_to. by rewrite E1, E2, E3, E4, E5.
Qed.

Lemma to_frame_returns mode K base sg (s : rse_sys W) m n :
  stack mode K base sg s -> mode_part (senv s) = mode -> return_pre K m n (senv s) ->
  returns mode K base sg m n (senv s) (ia64_rse_return_to_frame m n s).
Proof. intros Hs Hm []. by apply (return_to_frame_spec mode K base sg s m n). Qed.

(** The end of a return: the pending trap. *)
Lemma returns_trap mode K base sg m n e (o : RM W unit) (s : rse_sys W) :
  returns mode K base sg m n e (o s) -> returns mode K base sg m n e ((o ;;; ia64_rse_complete_pending_trap) s).
Proof.
  intros (sg' & Hsg & Ho). exists sg'. split; [done|]. eapply ensures_bind; [exact Ho|].
  intros [] s1 (Hs1 & Hm1 & Hf1 & Hd1 & Hp1).
  eapply ensures_mono; [apply complete_trap_steady|..].
  - intros [] s2 [(Hf & Hc & Hp & Hst) Hm]. injection Hc as E _ _ _ _ _ _. split_and!; [by apply Hst|congruence..].
  - intros ? s2 (Hf & Hc & Hp & Hst). split; [by apply Hst|congruence].
Qed.

Lemma returns_after mode K base sg m n s s' (o : RM W unit) :
  steady s s' -> stack mode K base sg s -> mode_part (senv s) = mode -> return_pre K m n (senv s) ->
  (forall s'' : rse_sys W, stack mode K base sg s'' -> mode_part (senv s'') = mode ->
     return_pre K m n (senv s'') -> returns mode K base sg m n (senv s'') (o s'')) ->
  returns mode K base sg m n (senv s) (o s').
Proof.
  intros [Hc Hm] Hs Hmode Hp Ho. apply (calm_returns _ _ _ _ _ _ s s'); [done|]. apply Ho.
  - by apply Hc.
  - congruence.
  - by apply (calm_pre K m n s).
Qed.

Section returns_steps.
Context (mode : bool * Z) (K base : Z) (sg : Z -> Z * bool) (m n : Z) (e : CPUIA64State).

Lemma returns_getenv (k : CPUIA64State -> RM W unit) s :
  returns mode K base sg m n e (k (senv s) s) -> returns mode K base sg m n e (mbind getenv k s).
Proof. done. Qed.

Lemma returns_modenv f (k : unit -> RM W unit) s :
  returns mode K base sg m n e (k tt (s <| sys_cpu; env ::= f |>)) -> returns mode K base sg m n e (mbind (modenv f) k s).
Proof. done. Qed.

Lemma returns_when (b : bool) f (k : unit -> RM W unit) s :
  returns mode K base sg m n e (k tt (if b then s <| sys_cpu ::= f |> else s)) ->
  returns mode K base sg m n e (mbind (mwhen b (modcpu f)) k s).
Proof. by destruct b. Qed.

Lemma returns_assoc (a : RM W unit) (k l : unit -> RM W unit) s :
  returns mode K base sg m n e (mbind a (fun x => mbind (k x) l) s) -> returns mode K base sg m n e (mbind (mbind a k) l s).
Proof. unfold mbind. by destruct (a s). Qed.
End returns_steps.

Lemma cpl_mode p ppl :
  0 <= ppl < 4 -> Z.testbit ((p .& ~64 IA64_PSR_CPL_MASK) .| (ppl <<< IA64_PSR_CPL_SHIFT)) 27 = Z.testbit p 27.
Proof.
  intros Hp. rewrite Z.lor_spec, Z.land_spec, wnot_spec by lia. change (Z.testbit IA64_PSR_CPL_MASK 27) with false.
  change IA64_PSR_CPL_SHIFT with 32. rewrite Z.shiftl_spec_low by lia. by rewrite andb_true_r, orb_false_r.
Qed.

Lemma ppl_range pfs : 0 <= u8 ((pfs .& IA64_PFS_PPL_MASK) >>> IA64_PFS_PPL_SHIFT) < 4.
Proof.
  set (x := _ >>> _). assert (Hx : 0 <= x < 4).
  { unfold x. change IA64_PFS_PPL_MASK with (Z.ones 2 <<< 62). change IA64_PFS_PPL_SHIFT with 62.
    rewrite Z.shiftr_land, Z.shiftr_shiftl_l, Z.sub_diag, Z.shiftl_0_r by lia. rewrite Z.land_ones by lia.
    apply Z.mod_pos_bound. lia. }
  rewrite wrap_small; [done|]. unfold uint. lia.
Qed.

Lemma ri_mode p : Z.testbit (p .& ~64 IA64_PSR_RI_MASK) 27 = Z.testbit p 27.
Proof.
  rewrite Z.land_spec, wnot_spec by lia. change (Z.testbit IA64_PSR_RI_MASK 27) with false. by rewrite andb_true_r.
Qed.

Lemma steady_modenv f (s : rse_sys W) :
  (forall e, stack_fields (f e) = stack_fields e /\ ar_pfs (f e) = ar_pfs e /\ mode_part (f e) = mode_part e) ->
  steady s (s <| sys_cpu; env ::= f |>).
Proof. intros Hf. destruct (Hf (senv s)) as (? & ? & ?). split; [by apply calm_env|done]. Qed.

Lemma steady_trans s1 s2 s3 : steady s1 s2 -> steady s2 s3 -> steady s1 s3.
Proof. intros [A1 A2] [B1 B2]. split; [by eapply calm_trans|congruence]. Qed.

(** [br.ret]. *)
Lemma br_ret_spec mode K base sg (s : rse_sys W) b_reg ip slot :
  let pfs := ar_pfs (senv s) in
  let m := pfs .& IA64_PFS_PFM_MASK in
  let n := marker_sol pfs in
  stack mode K base sg s -> mode_part (senv s) = mode -> return_pre K m n (senv s) ->
  returns mode K base sg m n (senv s) (ia64_rse_br_ret b_reg ip slot s).
Proof.
  intros pfs m n Hs Hmode Hp. unfold ia64_rse_br_ret. apply returns_getenv. cbv zeta. fold pfs.
  set (ppl := u8 _). pose proof (ppl_range pfs : 0 <= ppl < 4) as Hppl. clearbody ppl.
  apply returns_modenv. match goal with |- returns _ _ _ _ _ _ _ (_ ?t) => set (s1 := t) end.
  assert (H1 : steady s s1) by (split; [by apply calm_env|apply mode_eq; [done|apply ri_mode]]).
  clearbody s1. apply returns_when. set (s2 := if _ <? ppl then _ else s1).
  assert (H2 : steady s s2).
  { unfold s2. case_match; [|done]. destruct H1 as [Hc1 Hm1].
    destruct (set_psr_steady s1 ((psr (senv s1) .& ~64 IA64_PSR_CPL_MASK) .| (ppl <<< IA64_PSR_CPL_SHIFT)))
      as [Hc2 Hm2]; [by apply cpl_mode|].
    split; [eapply calm_trans; [exact Hc1|exact Hc2]|]. rewrite <- Hm1. exact Hm2. }
  clearbody s2. clear s1 H1. apply returns_modenv, returns_modenv.
  match goal with |- returns _ _ _ _ _ _ _ (_ ?t) => set (s3 := t) end.
  assert (H3 : steady s s3).
  { unfold s3. eapply steady_trans; [eapply steady_trans; [exact H2|]|]; apply steady_modenv.
    - done.
    - intros e. by case_match. }
  clearbody s3. clear s2 H2. unfold ia64_rse_pop_return_frame. apply returns_assoc, returns_modenv.
  match goal with |- returns _ _ _ _ _ _ _ (_ ?t) => set (s4 := t) end.
  assert (H4 : steady s s4).
  { eapply steady_trans; [exact H3|]. apply steady_modenv. intros e.
    split_and!; [by apply ar_other_fields|by apply aget_aset_ne|by apply mode_ar]. }
  clearbody s4. clear s3 H3. fold m n.
  apply (returns_after mode K base sg m n s s4 (ia64_rse_return_to_frame m n ;;; ia64_rse_complete_pending_trap)); try done.
  intros s'' Hs'' Hm'' Hp''. by apply returns_trap, to_frame_returns.
Qed.
End returns.
