(* ===== verification/RseAlloc.v ===== *)
(** * The register stack: allocation

    Writes of general registers and [alloc].  An allocation makes room by
    storing dirty registers, resizes the frame and brings the registers that
    join it into view; when a store faults or an interrupt is taken the frame
    is the old one and the stack is unchanged. *)
From stdpp Require Import list.
From S2P Require Import Prelude Arch Env Alat Registers Interrupt RseMap RseRnat RseOps RsePart RseSteps RseLoads RseFrames RseReturns.
Local Open Scope Z_scope.

(** ** Writing a register *)

Lemma mark_dirty_spec e r :
  bmap (rse_gr_dirty (rse e)) -> 0 <= r < 128 ->
  exists dm, ia64_rse_mark_gr_dirty e r = e <| rse; rse_gr_dirty := dm |> /\ bmap dm /\
    forall v, 0 <= v < 96 -> bm_get dm v = bm_get (rse_gr_dirty (rse e)) v || (r =? 32 + v).
Proof.
  intros Hb Hr. unfold ia64_rse_mark_gr_dirty. change IA64_STACKED_GR_BASE with 32. change IA64_GR_COUNT with 128.
  destruct (Z.leb_spec 32 r); cbn [andb].
  - destruct (Z.ltb_spec r 128); [|lia]. exists (bm_set (rse_gr_dirty (rse e)) (r - 32)).
    split_and!; [done|by apply bmap_set; [|lia]|]. intros v Hv. rewrite bm_get_set, orb_comm; [|rewrite (proj1 Hb); lia|lia].
    f_equal. apply bool_ext. rewrite !Z.eqb_eq. lia.
  - exists (rse_gr_dirty (rse e)). split_and!; [by destruct e as [???????????????????????[]???]|done|].
    intros v Hv. destruct (Z.eqb_spec r (32 + v)); [lia|]. by rewrite orb_false_r.
Qed.

Lemma write_gr_eq r x b e :
  bmap (nat_ e) -> bmap (rse_gr_dirty (rse e)) -> length (gr e) = 128%nat -> 0 < r < 128 ->
  exists n dm, write_gr r x b e = e <| gr @ r := x |> <| nat_ := n |> <| rse; rse_gr_dirty := dm |> /\
    bmap n /\ bmap dm /\
    (forall j, 0 <= j < 128 -> bm_get n j = if r =? j then b else bm_get (nat_ e) j) /\
    forall v, 0 <= v < 96 -> bm_get dm v = bm_get (rse_gr_dirty (rse e)) v || (r =? 32 + v).
Proof.
  intros [Hl Hu] Hd Hg Hr. unfold write_gr. set (e1 := e <| gr @ r := x |>).
  destruct (gr_nat_set_spec e1 r b Hl Hu ltac:(lia)) as (n & -> & Hn & Hnu & Hget). set (e2 := e1 <| nat_ := n |>).
  destruct (mark_dirty_spec e2 r Hd ltac:(lia)) as (dm & -> & Hdm & Hdget). exists n, dm.
  split_and!; try done. intros j Hj. apply Hget. lia.
Qed.

(** Register [r] of the frame takes the value; every other stacked register
    keeps its own. *)
Lemma written_content r x (b : bool) e n dm :
  views_wf e -> 0 < r < 128 ->
  (forall j, 0 <= j < 128 -> bm_get n j = if r =? j then b else bm_get (nat_ e) j) ->
  (forall v, 0 <= v < 96 -> bm_get dm v = bm_get (rse_gr_dirty (rse e)) v || (r =? 32 + v)) ->
  let s := e <| gr @ r := x |> <| nat_ := n |> <| rse; rse_gr_dirty := dm |> in
  forall p, 0 <= p < 96 ->
    content s p = if (32 <=? r) && (r <? 32 + cfm_sof e) && (p =? ia64_rse_virt_to_phys e (r - 32)) then (x, b)
                  else content e p.
Proof.
  intros Hw Hr Hn Hd s p Hp. pose proof (vw_frame _ Hw) as Hf. unfold content.
  change (ia64_rse_phys_to_virt s p) with (ia64_rse_phys_to_virt e p).
  pose proof (phys_to_virt_range e p Hf Hp) as Hv. pose proof (virt_to_phys_to_virt e p Hf Hp) as Hvp.
  set (v := ia64_rse_phys_to_virt e p) in *. clearbody v. unfold frame_dirty_bit.
  change (rse_gr_dirty (rse s)) with dm. change (cfm_sof s) with (cfm_sof e). rewrite Hd by done.
  change (gr s) with (aset (gr e) r x). change (nat_ s) with n. rewrite Hn by lia.
  change (rse_pgr (rse s)) with (rse_pgr (rse e)). change (rse_pgr_nat (rse s)) with (rse_pgr_nat (rse e)).
  rewrite aget_aset by (rewrite (vw_gr _ Hw); lia). destruct (Z.eqb_spec r (32 + v)) as [E|E].
  - rewrite orb_true_r. cbn [andb]. replace (r - 32) with v by lia. rewrite Hvp, Z.eqb_refl, andb_true_r.
    destruct (Z.leb_spec 32 r); [|lia]. cbn [andb]. destruct (Z.ltb_spec v (cfm_sof e)), (Z.ltb_spec r (32 + cfm_sof e));
      try lia; [done|]. by rewrite andb_false_r.
  - rewrite orb_false_r. destruct (Z.leb_spec 32 r), (Z.ltb_spec r (32 + cfm_sof e)); cbn [andb]; try done.
    destruct (Z.eqb_spec p (ia64_rse_virt_to_phys e (r - 32))) as [Ep|]; [|done]. exfalso. apply E.
    rewrite <- Hvp in Ep. pose proof (wf_sof _ Hf). apply virt_to_phys_inj in Ep; (done || lia).
Qed.

Lemma write_gr_spec r x b e :
  shape e -> uint 64 x -> 0 < r < 128 ->
  let s := write_gr r x b e in
  shape s /\ frame_part s = frame_part e /\ outer s = outer e /\ ar s = ar e /\
  forall p, 0 <= p < 96 ->
    content s p = if (32 <=? r) && (r <? 32 + cfm_sof e) && (p =? ia64_rse_virt_to_phys e (r - 32)) then (x, b)
                  else content e p.
Proof.
  intros Hsh Hx Hr. cbv zeta. pose proof (sp_views _ Hsh) as Hw.
  destruct (write_gr_eq r x b e (vw_nat _ Hw) (vw_dirty _ Hw) (vw_gr _ Hw) Hr) as (n & dm & -> & Hn & Hdm & Hget & Hdget).
  pose proof (written_content r x b e n dm Hw Hr Hget Hdget) as Hc. cbv zeta in Hc. split_and!; [|done|done|done|done].
  set (s := e <| gr @ r := x |> <| nat_ := n |> <| rse; rse_gr_dirty := dm |>). destruct Hsh as [_ Hco Hok Hsol Hrrb Hpg Hgr].
  split; try done.
  - destruct Hw as [[] ? ? ? ? ?]. split; try done; try by split. change (length (aset (gr e) r x) = 128%nat).
    by rewrite aset_length.
  - intros v Hv. change (cfm_sof s) with (cfm_sof e) in Hv. pose proof (wf_sof _ (vw_frame _ Hw)).
    unfold frame_dirty_bit. change (rse_gr_dirty (rse s)) with dm. change (cfm_sof s) with (cfm_sof e).
    rewrite Hdget by lia. intros Hnd. apply andb_false_iff in Hnd as [[Hd0 Er]%orb_false_iff|Hlt%Z.ltb_ge]; [|lia].
    apply Z.eqb_neq in Er. unfold view. change (gr s) with (aset (gr e) r x). change (nat_ s) with n.
    rewrite aget_aset_ne, Hget by lia. destruct (Z.eqb_spec r (32 + v)); [done|].
    apply (Hco v Hv). unfold frame_dirty_bit. by rewrite Hd0.
  - by apply (rnat_part_ok e).
  - intros r' Hr'. change (gr s) with (aset (gr e) r x). rewrite aget_aset by (rewrite (vw_gr _ Hw); lia).
    case_match; [done|by apply Hgr].
Qed.

Section alloc.
Context {W : Type} `{World : RseWorld W} `{Laws : !RseWorldLaws W}.

Local Abbreviation clean := (rse_has_clean_partition (@cpu_class W World)).

(** The copy out of the frame changes nothing of the stack. *)
Lemma filed_frame e s :
  filed e s ->
  frame_part s = frame_part e /\ ar s = ar e /\ marker_part s = marker_part e /\ gr s = gr e /\ nat_ s = nat_ e /\
  (cfm_sof s, cfm_sor s, cfm_rrb_gr s, rse_bol (rse s)) = (cfm_sof e, cfm_sor e, cfm_rrb_gr e, rse_bol (rse e)).
Proof. intros [_ _ _ _ _ ->]. done. Qed.

Lemma sync_out_inv cl K e :
  rse_inv cl K e ->
  let s := ia64_rse_sync_frame_out e in
  rse_inv cl K s /\ frame_part s = frame_part e /\ (forall p, 0 <= p < 96 -> content s p = content e p) /\
  count_part s = count_part e /\ rnat_part s = rnat_part e /\
  mode_part s = mode_part e /\ rse_gr_dirty (rse s) = [0; 0] /\ ar s = ar e.
Proof.
  intros Hi. destruct (sync_out_filed cl K e Hi) as (Hfd & Hw & Hc). cbv zeta.
  generalize dependent (ia64_rse_sync_frame_out e). intros s Hfd Hw Hc.
  destruct (filed_outer _ _ Hfd) as [Ho Hl]. destruct (outer_inv _ _ Ho) as (Er & Ec & Em).
  destruct (filed_frame _ _ Hfd) as (Ef & Ea & Emk & Eg & En & Ecfm). pose proof Hfd as [Hd _ _ Hfile Hp _].
  pose proof Emk as [= El Erf Erp]. pose proof Ecfm as [= Es Eo Erg Eb].
  split_and!; try done.
  - apply inv_shape. split; [|apply (count_part_of cl K s e); [done|done|apply Hi]].
    split; rewrite ?Eg, ?El, ?Es, ?Erf, ?Erp; try done; try apply Hi. apply (rnat_part_ok e); [done|apply Hi].
  - intros p Hpr. rewrite content_clean by (done || apply Hw). by apply Hfile.
Qed.

Lemma sync_out_steady mode K base sg (s s0 : rse_sys W) :
  stack mode K base sg s -> senv s0 = ia64_rse_sync_frame_out (senv s) -> same_mem s s0 ->
  stack mode K base sg s0 /\ frame_part (senv s0) = frame_part (senv s) /\
  (forall p, 0 <= p < 96 -> content (senv s0) p = content (senv s) p) /\ count_part (senv s0) = count_part (senv s) /\
  mode_part (senv s0) = mode_part (senv s) /\ rse_gr_dirty (rse (senv s0)) = [0; 0] /\ ar (senv s0) = ar (senv s).
Proof.
  intros Hs E Hm. destruct (sync_out_inv clean K (senv s) (st_inv _ _ _ _ _ Hs)) as (Hi & Hf & Hcont & Hc & Hr & Hmo & Hd & Ha).
  rewrite <- E in Hi, Hf, Hcont, Hc, Hr, Hmo, Hd, Ha. split_and!; try done.
  apply (stack_same mode K base sg s); try done. apply (nats_part _ _ _ _ _ (senv s)); [done|apply Hs].
Qed.

(** Room for the new frame: the state before the last change of the counts is
    one of the stack, and that change only redistributes the registers. *)
Record roomy (mode : bool * Z) (K base : Z) (sg : Z -> Z * bool) (s : rse_sys W) (sof' : Z) (s' : rse_sys W) : Prop := {
  rm_part : part_ok clean K sof' (rse_dirty (rse (senv s'))) (rse_dirty_nat (rse (senv s')))
    (rse_clean (rse (senv s'))) (rse_clean_nat (rse (senv s'))) (rse_invalid (rse (senv s')))
    (ar_bsp (senv s')) (ar_bspstore (senv s'));
  rm_before : exists s1, stack mode K base sg s1 /\ same_frame (senv s) (senv s1) /\
    mode_part (senv s1) = mode /\ same_mem s1 s' /\ view_part (senv s') = view_part (senv s1) /\
    marker_part (senv s') = marker_part (senv s1) /\ rnat_part (senv s') = rnat_part (senv s1) /\
    rse_dirty (rse (senv s')) = rse_dirty (rse (senv s1)) /\ rse_clean (rse (senv s')) <= rse_clean (rse (senv s1)) /\
    ar_bspstore (senv s') = ar_bspstore (senv s1);
  rm_mode : mode_part (senv s') = mode;
  rm_dirty : 0 <= rse_dirty (rse (senv s')) <= rse_dirty (rse (senv s));
  rm_pfs : ar_pfs (senv s') = ar_pfs (senv s)
}.

Lemma new_frame_spec mode K base sg (s : rse_sys W) g :
  let e := senv s in
  stack mode K base sg s -> mode_part e = mode -> 0 <= rse_dirty (rse e) -> 0 <= cfm_sof e + g <= 96 ->
  top_ok (K + (cfm_sof e + g)) ->
  ensures (ia64_rse_new_frame g s) (fun _ s' => roomy mode K base sg s (cfm_sof e + g) s')
    (fun _ s' => stack mode K base sg s' /\ same_frame e (senv s') /\ 0 <= rse_dirty (rse (senv s'))).
Proof.
  intros e Hs Hmode Hd Hsof Htop. pose proof (st_inv _ _ _ _ _ Hs) as Hi. fold e in Hi.
  pose proof (ri_part _ _ _ Hi) as P. unfold part_of in P. destruct (inv_counts Hi) as (Hsum & _ & _ & Hc & Hv & _).
  unfold ia64_rse_new_frame. apply ensures_getenv. cbv zeta. fold e.
  destruct (Z.leb_spec g (rse_invalid (rse e))) as [Hg|Hg].
  { cbn [ensures modenv mmod]. split; [apply (part_use_invalid P); done| |done|split; [done|apply Z.le_refl]|done].
    exists s. split_and!; try done; apply same_frame_refl || apply Z.le_refl. }
  destruct (Z.leb_spec (g - rse_invalid (rse e)) (rse_clean (rse e))) as [Hg2|Hg2].
  { cbn [ensures modenv mmod]. set (c' := rse_clean (rse e) - (g - rse_invalid (rse e))).
    assert (Es : cfm_sof e + g = 96 - rse_dirty (rse e) - c') by (unfold c'; lia). rewrite Es in Htop |- *.
    split; [apply (part_reuse_clean P c'); (done || unfold c'; lia)| |done|split; [done|apply Z.le_refl]|done].
    exists s. split_and!; try done; try apply same_frame_refl. change (c' <= rse_clean (rse e)). unfold c'. lia. }
  eapply ensures_bind.
  { apply (new_frame_loop_spec mode K base sg); [done|done|fold e; lia|done|]. fold e. unfold dirty_words.
    pose proof (part_complete P Hd). lia. }
  fold e. intros [] s1 (Hs1 & Hm1 & Hf1 & Hd1). cbn [ensures modenv mmod].
  pose proof (ri_part _ _ _ (st_inv _ _ _ _ _ Hs1)) as P1. unfold part_of in P1.
  destruct (inv_counts (st_inv _ _ _ _ _ Hs1)) as (_ & _ & _ & Hc1 & _).
  assert (Es : cfm_sof e + g = 96 - rse_dirty (rse (senv s1))) by lia. rewrite Es in Htop |- *.
  split; [apply (part_take_rest P1); [lia|done]| |done| |exact (sf_pfs _ _ Hf1)].
  - exists s1. split_and!; try done.
  - change (0 <= rse_dirty (rse (senv s1)) <= rse_dirty (rse e)). lia.
Qed.

(** The frame marker changes under a file with no writes pending. *)
Lemma resized_vtp e x v :
  frame_wf e -> frame_wf x -> cfm_sor x = cfm_sor e \/ cfm_rrb_gr e = 0 -> cfm_rrb_gr x = cfm_rrb_gr e ->
  rse_bol (rse x) = rse_bol (rse e) -> 0 <= v < 96 -> ia64_rse_virt_to_phys x v = ia64_rse_virt_to_phys e v.
Proof.
  intros He Hx Hs Hr Hb Hv. rewrite !virt_to_phys_spec, Hb, Hr by done.
  destruct Hs as [-> | ->]; [done|]. by rewrite !rotate_up_0 by lia.
Qed.

Lemma in_range_spec x first :
  views_wf x -> 0 <= first < cfm_sof x ->
  exists g n, ia64_rse_sync_frame_in_range x first (cfm_sof x - first) = x <| gr := g |> <| nat_ := n |> /\
    fetched x first (cfm_sof x) g n.
Proof.
  intros Hw Hf. pose proof (vw_frame _ Hw) as Hfr. unfold ia64_rse_sync_frame_in_range. cbv zeta.
  replace (first + (cfm_sof x - first)) with (cfm_sof x) by lia. rewrite Z.min_id.
  destruct (truth _ && _) eqn:Hbig.
  { exfalso. rewrite rotating_count_wf in Hbig by done. unfold truth in Hbig.
    destruct (wf_rrb _ Hfr) as [_ Hr]. destruct (Z.eqb_spec (cfm_sor x) 0) as [E|E].
    - by rewrite E in Hbig.
    - apply andb_true_iff in Hbig as [_ Hbig%Z.leb_le]. lia. }
  destruct (sync_in_spans_spec (Z.to_nat (cfm_sof x)) x first first (cfm_sof x) (gr x) (nat_ x))
    as (g & n & He & Hfe); [done|by apply fetched_nil|lia|lia|lia|].
  replace (x <| gr := gr x |> <| nat_ := nat_ x |>) with x in He by (by destruct x).
  rewrite He. rewrite Z.max_r in Hfe by lia. by exists g, n.
Qed.

Lemma fields_valid sof sol sor :
  uint 7 sof -> uint 7 sol -> uint 4 sor -> ia64_cfm_frame_fields_valid sof sol sor = true ->
  sof <= 96 /\ sol <= sof /\ 8 * sor <= sof.
Proof.
  intros Hf Hl Hr. unfold ia64_cfm_frame_fields_valid. rewrite !andb_true_iff, !Z.leb_le.
  rewrite Z.shiftl_mul_pow2 by lia. rewrite wrap_small by (unfold uint in *; lia).
  change IA64_STACKED_GR_COUNT with 96. unfold uint in *. lia.
Qed.

Section resize.
Context (e : CPUIA64State) (sof sol sor : Z) (Hsh : shape e) (Hd : rse_gr_dirty (rse e) = [0; 0]).
Context (Hsof : 0 <= sof <= 96) (Hsol : 0 <= sol <= sof) (Hsor : 0 <= sor /\ 8 * sor <= sof).
Context (Hr : sor = cfm_sor e \/ cfm_rrb_gr e = 0).
Let x := e <| cfm_sof := sof |> <| cfm_sol := sol |> <| cfm_sor := sor |>.

Lemma resized_wf : views_wf x.
Proof.
  pose proof (sp_views _ Hsh) as Hw. destruct (vw_frame _ Hw) as [_ _ [Hr0 Hr1] Hb].
  split; try apply Hw. split; try done. split; [done|]. change (cfm_sor x) with sor.
  change (cfm_rrb_gr x) with (cfm_rrb_gr e). destruct Hr as [->|E]; [done|]. rewrite E. destruct (Z.eqb_spec sor 0); lia.
Qed.

Lemma alloc_fetched :
  exists g n, alloc_frame sof sol sor (cfm_sof e) e = x <| gr := g |> <| nat_ := n |> /\
    fetched x (Z.min (cfm_sof e) sof) sof g n.
Proof.
  pose proof (wf_sof _ (vw_frame _ (sp_views _ Hsh))) as Hold. unfold alloc_frame. cbv zeta. fold x.
  destruct (Z.ltb_spec (cfm_sof e) sof) as [Hlt|Hge].
  - rewrite Z.min_l by lia. pose proof (in_range_spec x (cfm_sof e) resized_wf) as H. change (cfm_sof x) with sof in H.
    destruct (H ltac:(lia)) as (g & n & -> & Hf). by exists g, n.
  - rewrite Z.min_r by lia. exists (gr x), (nat_ x). split; [by destruct e|]. apply fetched_nil, resized_wf.
Qed.

Lemma alloc_frame_spec :
  let s := alloc_frame sof sol sor (cfm_sof e) e in
  shape s /\ (forall p, 0 <= p < 96 -> content s p = content e p) /\ outer s = outer e /\ ar s = ar e /\
  frame_part s = (rse_bol (rse e), (sof, sol, sor), (cfm_rrb_gr e, cfm_rrb_fr e, cfm_rrb_pr e), ar_bsp e).
Proof.
  cbv zeta. destruct alloc_fetched as (g & n & -> & [Hl Hb Hg Hn]). pose proof resized_wf as Hw.
  set (s := x <| gr := g |> <| nat_ := n |>). pose proof (sp_views _ Hsh) as Hwe. pose proof (vw_frame _ Hwe) as Hfe.
  assert (Hws : views_wf s) by (destruct Hw as [[] ? ? ? ? ?]; split; try done; by split).
  assert (Hvtp : forall v, 0 <= v < 96 -> ia64_rse_virt_to_phys x v = ia64_rse_virt_to_phys e v).
  { intros v Hv. apply resized_vtp; try done. apply (vw_frame _ Hw). }
  split_and!; [|intros p Hp|done|done|done].
  - destruct Hsh as [_ Hco Hok _ Hrrb Hpg Hgr]. split; try done.
    + intros v Hv _. change (cfm_sof s) with sof in Hv. unfold view. change (gr s) with g. change (nat_ s) with n.
      rewrite Hg, Hn by lia. change (ia64_rse_virt_to_phys s v) with (ia64_rse_virt_to_phys x v).
      replace (32 + v - 32) with v by lia.
      destruct (Z.leb_spec (32 + Z.min (cfm_sof e) sof) (32 + v)), (Z.ltb_spec (32 + v) (32 + sof)); try lia; [done|].
      cbn [andb]. rewrite Hvtp by lia. apply (Hco v); [lia|]. unfold frame_dirty_bit.
      rewrite Hd, bm_get_pair, !Z.testbit_0_l by lia. by destruct (v <? 64).
    + by apply (rnat_part_ok e).
    + intros r Hrr. change (gr s) with g. rewrite Hg by lia. case_match; [|by apply Hgr].
      apply Forall_aget; [done|uint_const].
  - rewrite !content_clean; try done. apply Hws.
Qed.
End resize.

Lemma alloc_reframe mode K base sg (s s2 s3 : rse_sys W) sof sol sor :
  roomy mode K base sg s sof s2 -> rse_gr_dirty (rse (senv s)) = [0; 0] ->
  0 <= sof <= 96 -> 0 <= sol <= sof -> 0 <= sor /\ 8 * sor <= sof -> sor = cfm_sor (senv s) \/ cfm_rrb_gr (senv s) = 0 ->
  senv s3 = alloc_frame sof sol sor (cfm_sof (senv s)) (senv s2) -> same_mem s2 s3 ->
  exists sg', (forall j, j < K + cfm_sof (senv s) -> sg' j = sg j) /\ stack mode K base sg' s3 /\
    mode_part (senv s3) = mode /\ count_part (senv s3) = count_part (senv s2) /\ ar_pfs (senv s3) = ar_pfs (senv s) /\
    frame_part (senv s3) = (rse_bol (rse (senv s)), (sof, sol, sor),
      (cfm_rrb_gr (senv s), cfm_rrb_fr (senv s), cfm_rrb_pr (senv s)), ar_bsp (senv s)).
Proof.
  intros [P (s1 & Hs1 & Hf1 & Hm1 & Hmem & Ev & Emk & Er & Ed & Ec & Eb) Hm2 _ Hp2] Hgd Hsof Hsol Hsor Hr E3 Hmem3.
  injection (sf_part _ _ Hf1) as F1 F2 F3 F4 F5 F6 F7 F8. pose proof (st_inv _ _ _ _ _ Hs1) as Hi1.
  pose proof Ev as [= V1 V2 V3 V4 V5 V6 V7 V8 V9]. pose proof Emk as [= M1 M2 M3].
  assert (Hsh2 : shape (senv s2)).
  { apply (shape_parts (senv s1)); try done; [apply (inv_shape clean K), Hi1|]. apply (rnat_part_ok (senv s1)); [done|apply Hi1]. }
  rewrite <- F2, <- V7 in E3.
  destruct (alloc_frame_spec (senv s2) sof sol sor Hsh2) as (Hsh3 & Hcont & Ho & Ha3 & Hf3); try done.
  { rewrite V5, (sf_dirty _ _ Hf1). done. } { rewrite V8, V9, F4, F5. done. }
  rewrite <- E3 in Hsh3, Hcont, Ho, Ha3, Hf3. destruct (outer_inv _ _ Ho) as (Er3 & Ec3 & Em3). clear E3.
  pose proof Ec3 as [= C1 C2 C3 C4 C5 C6 C7]. rewrite V6, V9, M2, M3, F1, F5, F6, F7 in Hf3.
  assert (Hb2 : ar_bsp (senv s2) = ar_bsp (senv s)) by (rewrite <- F8; rewrite (po_bsp _ _ _ _ _ _ _ _ _ _ P);
    symmetry; apply (po_bsp _ _ _ _ _ _ _ _ _ _ (ri_part _ _ _ Hi1))).
  rewrite Hb2 in Hf3. pose proof Hf3 as [= G1 G2 _ _ _ _ _ _].
  assert (Hi3 : rse_inv clean K (senv s3)).
  { apply inv_shape. split; [done|]. unfold part_of. rewrite G2, C1, C2, C3, C4, C5, C6, C7. exact P. }
  exists (fun j => if j <? K + cfm_sof (senv s) then sg j else content (senv s3) (slot K (senv s3) j)).
  set (sg' := fun j => _). assert (Hsg : forall j, j < K + cfm_sof (senv s) -> sg' j = sg j).
  { intros j Hj. unfold sg'. destruct (Z.ltb_spec j (K + cfm_sof (senv s))); [done|lia]. }
  split_and!; [done| |congruence|done|rewrite <- Hp2; unfold ar_pfs; congruence|done].
  apply (reframe mode K K base sg sg' s1 s3); try done; rewrite ?F2; try done.
  - intros mo a. by rewrite Hmem3, Hmem.
  - intros j. unfold slot. by rewrite G1, F1.
  - intros p Hp. rewrite Hcont by done. apply (view_part_content Ev).
  - lia.
  - lia.
  - rewrite C1, C7, Ed, Eb. apply (nats_part _ _ _ _ _ (senv s1)); [congruence|apply Hs1].
  - intros j Hj. unfold sg'. destruct (Z.ltb_spec j (K + cfm_sof (senv s))); [lia|done].
Qed.

(** A register of the frame is written. *)
Definition register_at (K : Z) (e : CPUIA64State) (r : Z) : Z :=
  K + rotate_up (8 * cfm_sor e) (cfm_rrb_gr e) (r - 32).

Definition written (K : Z) (e : CPUIA64State) (r x : Z) (b : bool) (sg : Z -> Z * bool) (j : Z) : Z * bool :=
  if (32 <=? r) && (r <? 32 + cfm_sof e) && (j =? register_at K e r) then (x, b) else sg j.

Lemma register_slot K e r :
  frame_wf e -> 32 <= r < 32 + cfm_sof e ->
  K <= register_at K e r < K + cfm_sof e /\ slot K e (register_at K e r) = ia64_rse_virt_to_phys e (r - 32).
Proof.
  intros Hf Hr. unfold register_at. pose proof (wf_sor _ Hf). pose proof (wf_sof _ Hf).
  pose proof (rotate_up_range (8 * cfm_sor e) (cfm_rrb_gr e) (r - 32) (cfm_sof e) ltac:(lia) ltac:(lia)).
  split; [lia|]. rewrite virt_to_phys_spec by (done || lia). unfold slot. f_equal. lia.
Qed.

Lemma write_stack mode K base sg (s s' : rse_sys W) r x b :
  stack mode K base sg s -> 0 <= rse_dirty (rse (senv s)) -> 0 < r < 128 -> uint 64 x ->
  senv s' = write_gr r x b (senv s) -> same_mem s s' ->
  stack mode K base (written K (senv s) r x b sg) s' /\ frame_part (senv s') = frame_part (senv s) /\
  outer (senv s') = outer (senv s) /\ ar (senv s') = ar (senv s).
Proof.
  intros Hs Hd Hr Hx E Hm. pose proof (st_inv _ _ _ _ _ Hs) as Hi. pose proof (vw_frame _ (ri_views _ _ _ Hi)) as Hf.
  destruct (write_gr_spec r x b (senv s)) as (Hsh & Ef & Ho & Ha & Hc); [by apply (inv_shape clean K)|done|done|].
  rewrite <- E in Hsh, Ef, Ho, Ha, Hc. clear E. destruct (outer_inv _ _ Ho) as (Er & Ec & Em).
  split; [|done]. pose proof Ec as [= C1 C2 C3 C4 C5 C6 C7]. pose proof Ef as [= F1 F2 _ _ _ _ _ _].
  destruct (inv_counts Hi) as (Hsum & Hsof & Hdl & Hcl & Hv & _).
  assert (Hin : (32 <=? r) && (r <? 32 + cfm_sof (senv s)) = true ->
    K <= register_at K (senv s) r < K + cfm_sof (senv s) /\
    slot K (senv s) (register_at K (senv s) r) = ia64_rse_virt_to_phys (senv s) (r - 32)).
  { intros [H1%Z.leb_le H2%Z.ltb_lt]%andb_true_iff. by apply register_slot. }
  assert (Hold : forall j, j < K -> written K (senv s) r x b sg j = sg j).
  { intros j Hj. unfold written. destruct ((32 <=? r) && _) eqn:E; [|done]. destruct (Hin eq_refl) as [? _].
    cbn [andb]. destruct (Z.eqb_spec j (register_at K (senv s) r)); [lia|done]. }
  split; rewrite ?C1, ?C3, ?C7, ?F2; [|apply Hs| | |].
  - apply inv_shape. split; [done|]. apply (count_part_of clean K _ (senv s)); [done|done|apply Hi].
  - intros j Hb Hj. unfold slot. rewrite F1. fold (slot K (senv s) j). rewrite Hc by apply slot_range. unfold written.
    destruct ((32 <=? r) && _) eqn:E; cbn [andb]; [|by apply Hs]. destruct (Hin eq_refl) as [Hreg <-].
    destruct (Z.eqb_spec j (register_at K (senv s) r)) as [->|Hne]; [by rewrite Z.eqb_refl|].
    destruct (Z.eqb_spec (slot K (senv s) j) (slot K (senv s) (register_at K (senv s) r))) as [Es|]; [|by apply Hs].
    exfalso. apply Hne. destruct (Z.le_ge_cases (register_at K (senv s) r) j).
    + apply (slot_inj K (senv s)); [lia|done].
    + symmetry. apply (slot_inj K (senv s)); [lia|done].
  - intros j Hj. rewrite Hm, Hold by lia. by apply (st_mem _ _ _ _ _ Hs).
  - apply (nats_sub (smem mode s) _ _ base _ (K - rse_dirty (rse (senv s))) _ (fun j => snd (sg j))); [lia|lia| | |].
    + intros j Hj. by rewrite Hold by lia.
    + intros. apply Hm.
    + apply (nats_part _ _ _ _ _ (senv s)); [done|apply Hs].
Qed.

Lemma pfm_uint pfm :
  uint 7 (pfm .& 0x7f) /\ uint 7 ((pfm >>> 7) .& 0x7f) /\ uint 4 ((pfm >>> 14) .& 0x0f).
Proof. split_and!; apply uint_land_r; (lia || uint_const). Qed.

Lemma raise_calm {A} (x : IA64Exception) ip imm slot (f : CPUIA64State -> CPUIA64State) (s : rse_sys W)
    (P : A -> rse_sys W -> Prop) :
  stack_fields (f (senv s)) = stack_fields (senv s) -> ar_pfs (f (senv s)) = ar_pfs (senv s) ->
  ensures ((modenv f ;;; ia64_raise_exception x ip imm slot) s) P (fun _ s' => calm s s').
Proof.
  intros Hf Hp. apply ensures_modenv. unfold ia64_raise_exception. apply ensures_modenv. cbn [ensures mraise].
  by apply calm_env.
Qed.

(** What [alloc] gives: a frame of the new size in the same place; its first
    registers are those of the old frame, but for the register that takes
    [AR.PFS].  A fault leaves the old frame. *)
Definition allocates (mode : bool * Z) (K base : Z) (sg : Z -> Z * bool) (r1 pfm : Z) (e : CPUIA64State)
    (o : outcome cpu_exit (rse_sys W) unit) : Prop :=
  ensures o
    (fun _ s' => exists sg', (forall j, j < K + cfm_sof e -> sg' j = sg j) /\
       stack mode K base (written K (senv s') r1 (ar_pfs e) false sg') s' /\ mode_part (senv s') = mode /\
       0 <= rse_dirty (rse (senv s')) <= rse_dirty (rse e) /\ ar_pfs (senv s') = ar_pfs e /\
       frame_part (senv s') = (rse_bol (rse e), (pfm .& 0x7f, (pfm >>> 7) .& 0x7f, (pfm >>> 14) .& 0x0f),
         (cfm_rrb_gr e, cfm_rrb_fr e, cfm_rrb_pr e), ar_bsp e))
    (fun _ s' => stack mode K base sg s' /\ frame_part (senv s') = frame_part e /\ 0 <= rse_dirty (rse (senv s'))).

Lemma alloc_write mode K base sg' (s3 s5 : rse_sys W) r1 :
  stack mode K base sg' s3 -> 0 <= rse_dirty (rse (senv s3)) -> 0 <= r1 < 128 -> uint 64 (ar_pfs (senv s3)) ->
  senv s5 = (if negb (r1 =? 0) then write_gr r1 (ar_pfs (senv s3)) false (senv s3) else senv s3) -> same_mem s3 s5 ->
  stack mode K base (written K (senv s5) r1 (ar_pfs (senv s3)) false sg') s5 /\
  frame_part (senv s5) = frame_part (senv s3) /\ outer (senv s5) = outer (senv s3) /\ ar (senv s5) = ar (senv s3).
Proof.
  intros Hs Hd Hr Hu E Hm. destruct (Z.eqb_spec r1 0) as [->|Hne]; cbn [negb] in E.
  - rewrite E. split; [|done]. change (stack mode K base sg' s5). apply (stack_env mode K base sg' s3); [done|by rewrite E|done].
  - destruct (write_stack mode K base sg' s3 s5 r1 (ar_pfs (senv s3)) false) as (Hs5 & Hf & Ho & Ha); try done; [lia|].
    pose proof Hf as [= _ F2 _ F4 F5 _ _ _]. split; [|done].
    unfold written, register_at. rewrite F2, F4, F5. exact Hs5.
Qed.

Lemma invalidate_alat_fields e :
  let s := ia64_rse_invalidate_stacked_alat e in
  stack_fields s = stack_fields e /\ frame_part s = frame_part e /\ outer s = outer e /\ ar s = ar e.
Proof.
  cbv zeta. destruct (invalidate_alat_core e) as (Hcore & Hrf & Hrp). cbv zeta in Hcore, Hrf, Hrp.
  generalize dependent (ia64_rse_invalidate_stacked_alat e). intros s Hcore Hrf Hrp.
  destruct (core_fields _ _ Hcore) as (Ev & Er & Ec & Em & El).
  assert (Emk : marker_part s = marker_part e) by (unfold marker_part; by rewrite El, Hrf, Hrp). split_and!.
  - unfold stack_fields. by rewrite Ev, Er, Ec, Emk.
  - apply parts_frame; [done|done|]. exact (f_equal (fun q => q.1.2) Ec).
  - unfold outer. by rewrite Er, Ec, Em.
  - by injection Hcore.
Qed.

Lemma alloc_finish mode K base sg' (s3 : rse_sys W) r1 :
  stack mode K base sg' s3 -> 0 <= rse_dirty (rse (senv s3)) -> 0 <= r1 < 128 -> uint 64 (ar_pfs (senv s3)) ->
  ensures ((modenv ia64_rse_invalidate_stacked_alat ;;;
            modenv (fun env => if negb (r1 =? 0) then write_gr r1 (ar_pfs env) false env else env)) s3)
    (fun _ s5 => stack mode K base (written K (senv s5) r1 (ar_pfs (senv s3)) false sg') s5 /\
       frame_part (senv s5) = frame_part (senv s3) /\ outer (senv s5) = outer (senv s3) /\ ar (senv s5) = ar (senv s3))
    (fun _ _ => False).
Proof.
  intros Hs3 Hd Hr1 Hu. apply ensures_modenv. destruct (invalidate_alat_fields (senv s3)) as (Es & Ef & Eo & Ea).
  set (s4 := s3 <| sys_cpu; env ::= ia64_rse_invalidate_stacked_alat |>).
  change (ia64_rse_invalidate_stacked_alat (senv s3)) with (senv s4) in Es, Ef, Eo, Ea.
  destruct (stack_env mode K base sg' s3 s4 Hs3 Es) as [Hs4 _]; [done|]. clearbody s4.
  assert (Ep : ar_pfs (senv s4) = ar_pfs (senv s3)) by (unfold ar_pfs; by rewrite Ea).
  assert (Ed : rse_dirty (rse (senv s4)) = rse_dirty (rse (senv s3))) by exact (f_equal (fun x => x.1.2.1.1.1.1.1.1) Eo).
  cbn [ensures modenv mmod]. match goal with |- stack _ _ _ _ ?t /\ _ => set (s5 := t) end.
  destruct (alloc_write mode K base sg' s4 s5 r1 Hs4) as (Hs5 & Hf5 & Ho5 & Ha5);
    [lia|done|by rewrite Ep|reflexivity|done|]. clearbody s5. rewrite <- Ep. split_and!; [done|congruence..].
Qed.

Lemma alloc_spec mode K base sg (s : rse_sys W) r1 pfm ip slot :
  stack mode K base sg s -> mode_part (senv s) = mode -> 0 <= rse_dirty (rse (senv s)) -> 0 <= r1 < 128 ->
  uint 64 (ar_pfs (senv s)) -> top_ok (K + pfm .& 0x7f) ->
  allocates mode K base sg r1 pfm (senv s) (ia64_rse_alloc r1 pfm ip slot s).
Proof.
  intros Hs Hmode Hd Hr1 Hpfs Htop. destruct (pfm_uint pfm) as (Hf & Hl & Ho). unfold allocates, ia64_rse_alloc.
  apply ensures_getenv. cbv zeta. set (sof := pfm .& 0x7f) in *. set (sol := (pfm >>> 7) .& 0x7f) in *.
  set (sor := (pfm >>> 14) .& 0x0f) in *. clearbody sof sol sor. eapply ensures_bind.
  { apply ensures_when. instantiate (1 := fun _ s' => s' = s /\ ia64_cfm_frame_fields_valid sof sol sor = true).
    destruct (ia64_cfm_frame_fields_valid sof sol sor); cbn [negb]; [done|].
    eapply ensures_mono; [by apply raise_calm|intros ? ? H; exact H|]. intros x s' (E & [= D _ _ _ _ _ _] & _ & Hc). split_and!; [by apply Hc|done|lia]. }
  intros [] ? [-> Hval]. destruct (fields_valid sof sol sor Hf Hl Ho Hval) as (Hsof & Hsol & Hsor). eapply ensures_bind.
  { apply ensures_when. instantiate (1 := fun _ s' => s' = s /\ (sor = cfm_sor (senv s) \/ cfm_rrb_gr (senv s) = 0)).
    destruct (Z.eqb_spec sor (cfm_sor (senv s))) as [E|E]; cbn [negb andb]; [split; [done|by left]|].
    destruct (truth (cfm_rrb_gr (senv s)) || truth (cfm_rrb_fr (senv s)) || truth (cfm_rrb_pr (senv s))) eqn:Er.
    - eapply ensures_mono; [by apply raise_calm|intros ? ? H; exact H|]. intros x s' (E' & [= D _ _ _ _ _ _] & _ & Hc). split_and!; [by apply Hc|done|lia].
    - split; [done|right]. apply orb_false_iff in Er as [[Er _]%orb_false_iff _]. unfold truth in Er.
      by apply negb_false_iff, Z.eqb_eq in Er. }
  intros [] ? [-> Hr]. apply ensures_modenv. match goal with |- ensures (_ ?t) _ _ => set (s0 := t) end.
  destruct (sync_out_steady mode K base sg s s0 Hs) as (Hs0 & Hf0 & Hc0 & Hcn0 & Hm0 & Hd0 & Ha0); [reflexivity|done|].
  clearbody s0. injection Hf0 as F1 F2 F3 F4 F5 F6 F7 F8. injection Hcn0 as C1 _ _ _ _ _ _.
  assert (Hp0 : ar_pfs (senv s0) = ar_pfs (senv s)) by (unfold ar_pfs; by rewrite Ha0).
  unfold uint in Hf, Hl, Ho. eapply ensures_bind.
  { eapply ensures_mono; [apply (new_frame_spec mode K base sg s0); [done|congruence|lia|rewrite F2; lia|]|intros ? ? H; exact H|].
    - rewrite F2. by replace (cfm_sof (senv s) + (sof - cfm_sof (senv s))) with sof by lia.
    - intros x s' (Hs' & Hf' & Hd'). split_and!; [done| |done]. rewrite (sf_part _ _ Hf'). unfold frame_part.
      by rewrite F1, F2, F3, F4, F5, F6, F7, F8. }
  intros [] s2 Hroom. rewrite F2 in Hroom. replace (cfm_sof (senv s) + (sof - cfm_sof (senv s))) with sof in Hroom by lia.
  apply ensures_modenv. match goal with |- ensures (_ ?t) _ _ => set (s3 := t) end.
  destruct (alloc_reframe mode K base sg s0 s2 s3 sof sol sor Hroom Hd0) as (sg' & Hsg & Hs3 & Hm3 & Hc3 & Hp3 & Hf3);
    [lia|lia|lia|by rewrite F4, F5|by rewrite F2|done|]. clearbody s3.
  rewrite F1, F5, F6, F7, F8 in Hf3. rewrite F2 in Hsg. rewrite Hp0 in Hp3.
  pose proof (rm_dirty _ _ _ _ _ _ _ Hroom) as Hdr. injection Hc3 as D1 _ _ _ _ _ _. rewrite C1, <- D1 in Hdr.
  eapply ensures_mono; [apply (alloc_finish mode K base sg' s3 r1); [done|lia|done|by rewrite Hp3]|..|done].
  intros [] s5 (Hs5 & Hf5 & Ho5 & Ha5). exists sg'. rewrite Hp3 in Hs5. destruct (outer_inv _ _ Ho5) as (_ & Ec5 & Em5).
  injection Ec5 as E1 _ _ _ _ _ _. split_and!; [done|done|congruence|lia|lia| |congruence].
  rewrite <- Hp3. unfold ar_pfs. by rewrite Ha5.
Qed.
End alloc.
