(* ===== verification/RseRuns.v ===== *)
(** * The register stack: programs

    A program that writes registers, allocates frames, flushes and calls
    procedures sees an unbounded stack of registers: whatever the procedures
    do, a caller finds its frame and its local registers, values and NaT bits,
    as it left them.  The register stack engine spills and fills behind it.
    A fault or an interrupt in any of the mandatory stores and loads leaves
    the stack below the frame intact. *)
From stdpp Require Import list.
From S2P Require Import Prelude Arch Env Alat Registers Interrupt RseMap RseRnat RseOps RsePart RseSteps RseLoads RseFrames RseReturns RseAlloc.
Local Open Scope Z_scope.

(** ** Programs *)

(** [ICall] calls a procedure and returns from it: the procedure restores
    [AR.PFS] before [br.ret], as the calling convention asks. *)
#[warnings="-register-all"]
Inductive insn : Type :=
  | IWrite (r value : Z) (nat : bool)
  | IAlloc (r1 pfm : Z)
  | IFlush
  | ICall (b_reg next_ip target : Z) (body : list insn).

Section programs.
Context {W : Type} `{World : RseWorld W}.

Fixpoint exec (i : insn) : RM W unit :=
  match i with
  | IWrite r value nat => modenv (write_gr r value nat)
  | IAlloc r1 pfm => ia64_rse_alloc r1 pfm 0 0
  | IFlush => ia64_rse_flush
  | ICall b_reg next_ip target body =>
      modenv (ia64_rse_br_call b_reg next_ip target) ;;;
      let! env := getenv in
      foldr (fun i k => exec i ;;; k) (mret tt) body ;;;
      modenv (fun e => e <| ar @ IA64_AR_PFS := ar_pfs env |>) ;;;
      ia64_rse_br_ret b_reg 0 0
  end.

Definition execs (l : list insn) : RM W unit := foldr (fun i k => exec i ;;; k) (mret tt) l.
End programs.

(** Operands in range, and the depth of the calls. *)
Fixpoint insn_ok (i : insn) : bool :=
  match i with
  | IWrite r value _ => (0 <? r) && (r <? 128) && (0 <=? value) && (value <? 2 ^ 64)
  | IAlloc r1 _ => (0 <=? r1) && (r1 <? 128)
  | IFlush => true
  | ICall _ _ _ body => forallb insn_ok body
  end.

Fixpoint depth (i : insn) : Z :=
  match i with
  | ICall _ _ _ body => 1 + foldr (fun i n => Z.max (depth i) n) 0 body
  | _ => 0
  end.

Definition depths (l : list insn) : Z := foldr (fun i n => Z.max (depth i) n) 0 l.

Lemma insn_ind' (P : insn -> Prop) :
  (forall r v b, P (IWrite r v b)) -> (forall r m, P (IAlloc r m)) -> P IFlush ->
  (forall b n t l, Forall P l -> P (ICall b n t l)) -> forall i, P i.
Proof.
  intros Hw Ha Hf Hc. fix rec 1. intros [r v b|r m| |b n t l]; [done..|]. apply Hc.
  induction l as [|i l IH]; constructor; [apply rec|exact IH].
Qed.

Lemma depth_nonneg i : 0 <= depth i.
Proof.
  destruct i as [| | |b n t l]; try done. cbn [depth]. induction l as [|i l IH]; cbn [foldr]; lia.
Qed.

Lemma top_ok_mono a b : a <= b -> top_ok b -> top_ok a.
Proof. unfold top_ok. intros Hab H. assert (a / 63 <= b / 63) by (apply Z.div_le_mono; lia). lia. Qed.

Lemma current_pfs_uint cl K e : rse_inv cl K e -> uint 64 (ia64_rse_current_pfs e).
Proof.
  intros Hi. pose proof (vw_frame _ (ri_views _ _ _ Hi)) as [Hsof Hsor Hrg _].
  pose proof (ri_sol _ _ _ Hi) as Hsol. destruct (ri_rrb _ _ _ Hi) as [Hf Hp].
  assert (Hrg' : cfm_rrb_gr e < 128) by (destruct (cfm_sor e =? 0); lia).
  assert (Hcpl : uint 2 (ia64_psr_cpl (psr e))).
  { unfold ia64_psr_cpl. change IA64_PSR_CPL_MASK with (Z.ones 2 <<< 32). change IA64_PSR_CPL_SHIFT with 32.
    rewrite Z.shiftr_land, Z.shiftr_shiftl_l, Z.sub_diag, Z.shiftl_0_r by lia.
    rewrite wrap_small; [apply uint_land_r; [lia|uint_const]|].
    apply (uint_mono 2); [lia|]. apply uint_land_r; [lia|uint_const]. }
  assert (Hec : uint 6 (ar_ec e .& 0x3f)) by (apply uint_land_r; [lia|uint_const]).
  unfold ia64_rse_current_pfs, ia64_rse_current_cfm.
  repeat (apply uint_lor; [lia| |]); first
    [unfold uint; lia|apply (uint_shiftl 64 2); done|apply (uint_shiftl 64 6); done|
     apply (uint_shiftl 64 7); (done || unfold uint; lia)].
Qed.

(** ** What an instruction does to the stack

    [e] and [sg] are the processor and the stack before, [e'] and [sg'] after;
    [K] is the position of the frame.  A call has no effect on the frame and
    the local registers of the caller, whatever its body is. *)
Definition effect (i : insn) (K : Z) (e : CPUIA64State) (sg : Z -> Z * bool) (e' : CPUIA64State) (sg' : Z -> Z * bool)
    : Prop :=
  match i with
  | IWrite r value nat =>
      frame_part e' = frame_part e /\ forall j, sg' j = written K e r value nat sg j
  | IAlloc r1 pfm =>
      frame_part e' = (rse_bol (rse e), (pfm .& 0x7f, (pfm >>> 7) .& 0x7f, (pfm >>> 14) .& 0x0f),
        (cfm_rrb_gr e, cfm_rrb_fr e, cfm_rrb_pr e), ar_bsp e) /\
      exists sg1, (forall j, j < K + cfm_sof e -> sg1 j = sg j) /\
        forall j, sg' j = written K e' r1 (ar_pfs e) false sg1 j
  | IFlush => frame_part e' = frame_part e /\ rse_dirty (rse e') = 0 /\ forall j, sg' j = sg j
  | ICall _ _ _ _ => frame_part e' = frame_part e /\ forall j, j < K + cfm_sol e -> sg' j = sg j
  end.

Fixpoint effects (l : list insn) (K : Z) (e : CPUIA64State) (sg : Z -> Z * bool) (e' : CPUIA64State)
    (sg' : Z -> Z * bool) : Prop :=
  match l with
  | [] => e' = e /\ forall j, sg' j = sg j
  | i :: l => exists e1 sg1, effect i K e sg e1 sg1 /\ effects l K e1 sg1 e' sg'
  end.

(** What the frame's registers hold as instructions read them. *)
Definition sees (K : Z) (sg : Z -> Z * bool) (e : CPUIA64State) : Prop :=
  forall v, 0 <= v < cfm_sof e -> view e v = sg (register_at K e (32 + v)).

(** The frame stays in its place, and the registers below it are untouched. *)
Lemma written_below K e r x b sg j : frame_wf e -> j < K -> written K e r x b sg j = sg j.
Proof.
  intros Hf Hj. unfold written. destruct ((32 <=? r) && (r <? 32 + cfm_sof e)) eqn:E; [|done].
  apply andb_true_iff in E as [H1%Z.leb_le H2%Z.ltb_lt]. cbn [andb].
  destruct (Z.eqb_spec j (register_at K e r)) as [->|]; [|done].
  destruct (register_slot K e r Hf ltac:(lia)). lia.
Qed.

Section spec.
Context {W : Type} `{World : RseWorld W} `{Laws : !RseWorldLaws W}.

Local Abbreviation clean := (rse_has_clean_partition (@cpu_class W World)).

(** A processor between two instructions of a program. *)
Record ready (mode : bool * Z) (K base : Z) (sg : Z -> Z * bool) (s : rse_sys W) : Prop := {
  rd_stack : stack mode K base sg s;
  rd_mode : mode_part (senv s) = mode;
  rd_dirty : 0 <= rse_dirty (rse (senv s));
  rd_pfs : uint 64 (ar_pfs (senv s))
}.

Definition place (e : CPUIA64State) := (rse_bol (rse e), ar_bsp e).

(** The stack below the frame at [K] is as [sg] has it: where the processor
    is when an instruction is left by a fault. *)
Definition intact (mode : bool * Z) (K base : Z) (sg : Z -> Z * bool) (s : rse_sys W) : Prop :=
  exists K' sg', K <= K' /\ stack mode K' base sg' s /\ forall j, j < K -> sg' j = sg j.

Definition done_at (mode : bool * Z) (K base : Z) (sg : Z -> Z * bool) (s s' : rse_sys W) (sg' : Z -> Z * bool) : Prop :=
  ready mode K base sg' s' /\ place (senv s') = place (senv s) /\
  rse_dirty (rse (senv s')) <= rse_dirty (rse (senv s)) /\ forall j, j < K -> sg' j = sg j.

Definition exec_ok (i : insn) : Prop :=
  forall mode K base sg (s : rse_sys W),
    clean = false -> insn_ok i = true -> ready mode K base sg s -> top_ok (K + 96 * (1 + depth i)) ->
    ensures (exec i s)
      (fun _ s' => exists sg', done_at mode K base sg s s' sg' /\ effect i K (senv s) sg (senv s') sg')
      (fun _ s' => intact mode K base sg s').

Lemma frame_register K e e' r : frame_part e' = frame_part e -> register_at K e' r = register_at K e r.
Proof. intros [= _ _ _ Eo Eg _ _ _]. unfold register_at. by rewrite Eo, Eg. Qed.

Lemma frame_place e e' : frame_part e' = frame_part e -> place e' = place e.
Proof. intros [= E1 _ _ _ _ _ _ E2]. unfold place. by rewrite E1, E2. Qed.

Lemma write_ok r v b : exec_ok (IWrite r v b).
Proof.
  intros mode K base sg s _ Hok [Hs Hm Hd Hp] _. cbn [insn_ok] in Hok.
  rewrite !andb_true_iff, !Z.ltb_lt, Z.leb_le in Hok. cbn [exec ensures modenv mmod].
  match goal with |- context [done_at _ _ _ _ _ ?t] => set (s' := t) end.
  destruct (write_stack mode K base sg s s' r v b) as (Hs' & Hf & Ho & Ha);
    [done|done|lia|unfold uint; lia|reflexivity|done|]. clearbody s'.
  destruct (outer_inv _ _ Ho) as (_ & Ec & Em). injection Ec as E1 _ _ _ _ _ _.
  exists (written K (senv s) r v b sg). split; [|by split]. split_and!; [|by apply frame_place|lia|].
  - split; [done|congruence|lia|]. unfold ar_pfs. by rewrite Ha.
  - intros j Hj. apply written_below; [|done]. apply (ri_views _ _ _ (st_inv _ _ _ _ _ Hs)).
Qed.

Lemma alloc_ok r1 pfm : exec_ok (IAlloc r1 pfm).
Proof.
  intros mode K base sg s _ Hok [Hs Hm Hd Hp] Htop. cbn [insn_ok] in Hok.
  rewrite andb_true_iff, Z.leb_le, Z.ltb_lt in Hok. cbn [exec depth] in *.
  destruct (Z.le_gt_cases (pfm .& 0x7f) 96) as [Hle|Hgt].
  - eapply ensures_mono; [apply (alloc_spec mode K base sg s r1 pfm 0 0); try done|..].
    + eapply top_ok_mono; [|exact Htop]. lia.
    + intros [] s' (sg1 & Hsg & Hs' & Hm' & Hd' & Hp' & Hf'). exists (written K (senv s') r1 (ar_pfs (senv s)) false sg1).
      split; [|split; [done|by exists sg1]]. split_and!; [split; [done|done|lia|congruence]| |lia|].
      * injection Hf' as F1 _ _ _ _ _ _ F8. unfold place. by rewrite F1, F8.
      * intros j Hj. pose proof (wf_sof _ (vw_frame _ (ri_views _ _ _ (st_inv _ _ _ _ _ Hs)))).
        rewrite written_below; [apply Hsg; lia| |done]. apply (ri_views _ _ _ (st_inv _ _ _ _ _ Hs')).
    + intros ? s' (Hs' & _). exists K, sg. split_and!; [lia|done|done].
  - unfold ia64_rse_alloc. apply ensures_getenv. cbv zeta. eapply ensures_bind.
    { apply ensures_when. assert (Hv : ia64_cfm_frame_fields_valid (pfm .& 0x7f) ((pfm >>> 7) .& 0x7f) ((pfm >>> 14) .& 0x0f) = false).
      { unfold ia64_cfm_frame_fields_valid. change IA64_STACKED_GR_COUNT with 96.
        destruct (Z.leb_spec (pfm .& 0x7f) 96); [lia|done]. }
      rewrite Hv. cbn [negb]. eapply ensures_mono; [by apply (raise_calm (A := unit) _ _ _ _ _ _ (fun _ _ => False))|intros ? ? Hx; exact Hx|].
      intros x s' (_ & _ & _ & Hc). exists K, sg. split_and!; [lia|by apply Hc|done]. }
    intros ? ? [].
Qed.

Lemma flush_ok : exec_ok IFlush.
Proof.
  intros mode K base sg s _ _ [Hs Hm Hd Hp] _. cbn [exec]. unfold ia64_rse_flush. apply ensures_getenv.
  eapply ensures_mono; [apply (flush_loop_spec mode K base sg); try done|..].
  - pose proof (part_complete (ri_part _ _ _ (st_inv _ _ _ _ _ Hs)) Hd). unfold dirty_words. lia.
  - intros [] s' (Hs' & Hm' & Hf & Hd' & Hn'). exists sg. split; [|split_and!; [apply Hf|done|done]].
    split_and!; [split; [done|done|lia|]|apply frame_place, Hf|lia|done]. rewrite (sf_pfs _ _ Hf). done.
  - intros ? s' (Hs' & _). exists K, sg. split_and!; [lia|done|done].
Qed.

Lemma execs_ok l : Forall exec_ok l ->
  forall mode K base sg (s : rse_sys W),
    clean = false -> forallb insn_ok l = true -> ready mode K base sg s -> top_ok (K + 96 * (1 + depths l)) ->
    ensures (execs l s)
      (fun _ s' => exists sg', done_at mode K base sg s s' sg' /\ effects l K (senv s) sg (senv s') sg')
      (fun _ s' => intact mode K base sg s').
Proof.
  induction 1 as [|i l Hi _ IH]; intros mode K base sg s Hcl Hok Hr Htop.
  { exists sg. by split_and!. }
  cbn [forallb] in Hok. apply andb_true_iff in Hok as [Hoki Hokl]. unfold depths in *. cbn [foldr] in Htop.
  unfold execs. cbn [foldr]. fold (execs l). eapply ensures_bind.
  { apply (Hi mode K base sg s); try done. eapply top_ok_mono; [|exact Htop]. lia. }
  intros [] s1 (sg1 & (Hr1 & Hp1 & Hd1 & Hsg1) & He1). eapply ensures_mono; [apply (IH mode K base sg1 s1); try done|..].
  - eapply top_ok_mono; [|exact Htop]. lia.
  - intros [] s' (sg' & (Hr' & Hp' & Hd' & Hsg') & He'). exists sg'. split; [|by exists (senv s1), sg1].
    split_and!; [done|congruence|lia|]. intros j Hj. by rewrite Hsg', Hsg1.
  - intros ? s' (K' & sg' & HK & Hs' & Hsg'). exists K', sg'. split_and!; [done|done|]. intros j Hj. by rewrite Hsg', Hsg1.
Qed.

(** The marker of a frame. *)
Definition marks (m : Z) (e : CPUIA64State) : Prop :=
  marker_sof m = cfm_sof e /\ marker_ok m /\
  forall b bsp, marker_frame m b bsp =
    (b, (cfm_sof e, cfm_sol e, cfm_sor e), (cfm_rrb_gr e, cfm_rrb_fr e, cfm_rrb_pr e), bsp).

(** The conditions of the return hold when the body has kept the frame in its
    place and loaded nothing. *)
Lemma call_return_pre mode K base sg sg2 n m (s s3 : rse_sys W) :
  marks m (senv s) -> 0 <= n <= cfm_sof (senv s) ->
  clean = false -> stack mode K base sg s -> stack mode (K + n) base sg2 s3 ->
  0 <= rse_dirty (rse (senv s3)) <= rse_dirty (rse (senv s)) + n -> top_ok (K + 96) ->
  return_pre (W := W) (K + n) m n (senv s3).
Proof.
  intros (Esof & Hmk & _) Hn Hcl Hs Hs3 Hd Htop. pose proof (st_inv _ _ _ _ _ Hs) as Hi. pose proof (st_inv _ _ _ _ _ Hs3) as Hi3.
  destruct (inv_counts Hi) as (Hsum & _ & _ & Hc & Hv & _ & HK).
  destruct (inv_counts Hi3) as (Hsum3 & _ & _ & _ & Hv3 & _).
  destruct (po_noclean _ _ _ _ _ _ _ _ _ _ (ri_part _ _ _ Hi3) Hcl) as [Hc3 _].
  split; rewrite ?Esof; try done; try lia. eapply top_ok_mono; [|exact Htop].
  pose proof (wf_sof _ (vw_frame _ (ri_views _ _ _ Hi))). lia.
Qed.

Lemma returned_frame mode K base sg sg' n m (s s3 s' : rse_sys W) :
  marks m (senv s) -> stack mode K base sg s -> stack mode K base sg' s' -> rse_bol (rse (senv s3)) = (rse_bol (rse (senv s)) + n) mod 96 ->
  frame_part (senv s') = return_to m n (senv s3) -> frame_part (senv s') = frame_part (senv s).
Proof.
  intros (_ & _ & Hmf) Hs Hs' Hb Hf. pose proof (st_inv _ _ _ _ _ Hs) as Hi. pose proof (st_inv _ _ _ _ _ Hs') as Hi'.
  assert (Ebsp : ar_bsp (senv s') = ar_bsp (senv s)).
  { by rewrite (po_bsp _ _ _ _ _ _ _ _ _ _ (ri_part _ _ _ Hi')), (po_bsp _ _ _ _ _ _ _ _ _ _ (ri_part _ _ _ Hi)). }
  unfold return_to in Hf. rewrite Hmf, Hb in Hf. injection Hf as F1 F2 F3 F4 F5 F6 F7 _.
  unfold frame_part. rewrite F1, F2, F3, F4, F5, F6, F7, Ebsp.
  rewrite Zminus_mod_idemp_l. replace (rse_bol (rse (senv s)) + n - n) with (rse_bol (rse (senv s))) by lia.
  rewrite Z.mod_small; [done|]. apply (wf_bol _ (vw_frame _ (ri_views _ _ _ Hi))).
Qed.

Lemma call_ok b_reg next target l : Forall exec_ok l -> exec_ok (ICall b_reg next target l).
Proof.
  intros Hl mode K base sg s Hcl Hok [Hs Hm Hd Hp] Htop. pose proof (st_inv _ _ _ _ _ Hs) as Hi.
  cbn [depth] in Htop. fold (depths l) in Htop. cbn [exec]. fold (execs (World := World) l).
  set (n := cfm_sol (senv s)). pose proof (ri_sol _ _ _ Hi) as Hsol. fold n in Hsol.
  pose proof (wf_sof _ (vw_frame _ (ri_views _ _ _ Hi))) as Hsof. assert (Hdep : 0 <= depths l).
  { unfold depths. clear. induction l as [|i l IH]; cbn [foldr]; [lia|]. pose proof (depth_nonneg i). lia. }
  apply ensures_modenv. match goal with |- ensures (_ ?t) _ _ => set (s1 := t) end.
  destruct (br_call_spec mode K base sg s s1 b_reg next target Hs) as [Hlb Hp1]; [reflexivity|done|].
  fold n in Hlb. clearbody s1. apply ensures_getenv. rewrite Hp1. set (pfs := ia64_rse_current_pfs (senv s)) in *.
  pose proof (current_pfs_uint _ _ _ Hi) as Hpu. fold pfs in Hpu.
  pose proof Hlb as [Hs1 Hm1 _ Hd1 Hf1]. fold n in Hd1, Hf1. eapply ensures_bind.
  { eapply ensures_mono; [apply (execs_ok l Hl mode (K + n) base sg s1); try done|intros u s2 Hx; exact Hx|].
    - split; [done|congruence|lia|by rewrite Hp1].
    - eapply top_ok_mono; [|exact Htop]. lia.
    - intros ? s' (K' & sg' & HK & Hs' & Hsg'). exists K', sg'. split_and!; [lia|done|]. intros j Hj. apply Hsg'. lia. }
  intros [] s2 (sg2 & ([Hs2 Hm2 Hd2 _] & Hpl2 & Hdl2 & Hsg2) & _). apply ensures_modenv.
  match goal with |- ensures (_ ?t) _ _ => set (s3 := t) end.
  destruct (stack_env mode (K + n) base sg2 s2 s3 Hs2) as [Hs3 Hf3]; [by apply ar_other_fields|done|].
  assert (Hm3 : mode_part (senv s3) = mode) by (rewrite <- Hm2; by apply mode_ar).
  assert (Hp3 : ar_pfs (senv s3) = pfs).
  { apply aget_aset_eq. rewrite (rn_ar _ (ri_rnat _ _ _ (st_inv _ _ _ _ _ Hs2))). done. }
  assert (Hd3 : rse_dirty (rse (senv s3)) = rse_dirty (rse (senv s2))) by done. clearbody s3.
  pose proof (br_ret_spec mode (K + n) base sg2 s3 b_reg 0 0 Hs3 Hm3) as Hret. rewrite Hp3 in Hret.
  destruct (current_pfs_marker _ _ _ Hi) as (Esol & Hmk). fold pfs n in Esol, Hmk. rewrite Esol in Hret.
  destruct Hret as (sg' & Hsg' & Hret).
  { apply (call_return_pre mode K base sg sg2 n _ s s3); try done; [lia..|]. eapply top_ok_mono; [|exact Htop]. lia. }
  replace (K + n - n) with K in Hret by lia.
  pose proof (wf_sof _ (vw_frame _ (ri_views _ _ _ (st_inv _ _ _ _ _ Hs3)))) as Hsof3.
  assert (Hbol : rse_bol (rse (senv s3)) = (rse_bol (rse (senv s)) + n) mod 96).
  { injection Hf3 as -> _ _ _ _ _ _ _. injection Hpl2 as -> _. exact (f_equal (fun q => q.1.1.1) Hf1). }
  assert (Hagree : forall j, j < K + n -> sg' j = sg j) by (intros j Hj; rewrite Hsg', Hsg2 by lia; done).
  eapply ensures_mono; [exact Hret|..].
  - intros [] s' (Hs' & Hm' & Hf' & Hd' & Hp'). pose proof (returned_frame mode K base sg sg' n _ s s3 s' Hmk Hs Hs' Hbol Hf') as Hfr.
    exists sg'. split; [|split; [done|]].
    + split_and!; [split; [done|done|lia|by rewrite Hp', Hp3]|by apply frame_place|lia|]. intros j Hj. apply Hagree. lia.
    + intros j Hj. by apply Hagree.
  - intros ? s' [Hs' _]. exists K, sg'. split_and!; [lia|done|]. intros j Hj. apply Hagree. lia.
Qed.

Lemma exec_spec i : exec_ok i.
Proof. induction i using insn_ind'; auto using write_ok, alloc_ok, flush_ok, call_ok. Qed.

Lemma stack_sees mode K base sg (s : rse_sys W) :
  stack mode K base sg s -> 0 <= rse_dirty (rse (senv s)) -> base <= K -> sees K sg (senv s).
Proof.
  intros Hs Hd Hb v Hv. pose proof (st_inv _ _ _ _ _ Hs) as Hi.
  pose proof (vw_frame _ (ri_views _ _ _ Hi)) as Hf. destruct (register_slot K (senv s) (32 + v) Hf ltac:(lia)) as [Hr Es].
  destruct (inv_counts Hi) as (_ & _ & _ & Hc & _). replace (32 + v - 32) with v in Es by lia.
  rewrite <- (coherent_view (senv s) v (ri_views _ _ _ Hi) (ri_coherent _ _ _ Hi) Hv), <- Es. apply Hs; lia.
Qed.

(** The registers of the physical file, as a stack. *)
Definition held_stack (K : Z) (e : CPUIA64State) (j : Z) : Z * bool := content e (slot K e j).

(** Any state of the register stack engine is a stack: that of the registers
    in the physical file. *)
Lemma inv_stack K (s : rse_sys W) :
  rse_inv clean K (senv s) -> 0 <= rse_dirty (rse (senv s)) ->
  stack (mode_part (senv s)) K (K - rse_dirty (rse (senv s))) (held_stack K (senv s)) s.
Proof.
  intros Hi Hd. destruct (inv_counts Hi) as (_ & _ & _ & Hc & _ & Hlow & _). split; try done; try lia.
  split; intros; lia.
Qed.

Lemma inv_ready K (s : rse_sys W) :
  rse_inv clean K (senv s) -> 0 <= rse_dirty (rse (senv s)) -> uint 64 (ar_pfs (senv s)) ->
  ready (mode_part (senv s)) K (K - rse_dirty (rse (senv s))) (held_stack K (senv s)) s.
Proof. intros Hi Hd Hp. split; try done. by apply inv_stack. Qed.

(** A register of two frames at the same place, which both hold the same. *)
Lemma same_view mode K base sg sg' (s s' : rse_sys W) v :
  stack mode K base sg s -> stack mode K base sg' s' ->
  0 <= rse_dirty (rse (senv s)) -> 0 <= rse_dirty (rse (senv s')) -> base <= K ->
  frame_part (senv s') = frame_part (senv s) -> 0 <= v < cfm_sof (senv s) ->
  sg' (register_at K (senv s) (32 + v)) = sg (register_at K (senv s) (32 + v)) ->
  view (senv s') v = view (senv s) v.
Proof.
  intros Hs Hs' Hd Hd' Hb Hf Hv E. rewrite (stack_sees _ _ _ _ _ Hs Hd Hb v Hv).
  rewrite (stack_sees _ _ _ _ _ Hs' Hd' Hb v), (frame_register K _ _ _ Hf); [done|].
  injection Hf as _ -> _ _ _ _ _ _. done.
Qed.
End spec.

(** ** Processors *)

(** A processor with a frame of 40 registers, 20 of them local, at register 65
    of the stack, ten dirty registers across a collection word below it, and
    a NaT in a local and in a dirty register. *)
Definition framed : CPUIA64State :=
  zero_env <| ar @ IA64_AR_BSP := bs_addr 65 |> <| ar @ IA64_AR_BSPSTORE := bs_addr 55 |>
    <| cfm_sof := 40 |> <| cfm_sol := 20 |> <| rse; rse_dirty := 10 |> <| rse; rse_dirty_nat := 1 |>
    <| rse; rse_invalid := 46 |> <| rse; rse_rnat_addr := UINT64_MAX |>
    <| gr @ 40 := 7 |> <| nat_ @ 0 := 1 <<< 40 |>
    <| rse; rse_pgr ::= fun l => aset (aset l 8 7) 90 9 |>
    <| rse; rse_pgr_nat ::= fun l => aset (aset l 0 (1 <<< 8)) 1 (1 <<< 26) |>.

(** A processor with an empty frame at register [k] of the stack. *)
Definition empty_frame (k : Z) : CPUIA64State :=
  zero_env <| ar @ IA64_AR_BSP := bs_addr k |> <| ar @ IA64_AR_BSPSTORE := bs_addr k |>
    <| rse; rse_invalid := 96 |> <| rse; rse_rnat_addr := UINT64_MAX |>.

Ltac evaluate := vm_compute; first [reflexivity | intuition congruence].

Ltac concrete_inv :=
  split;
  [apply views_wfb_spec; evaluate|apply coherentb_spec; evaluate|split; first [evaluate | by left]|
   apply rnat_check_spec; [apply rnat_typedb_spec|]; evaluate|evaluate|evaluate|apply all_uint; evaluate|
   intros; apply Forall_aget; [apply all_uint; evaluate|uint_const]].

Lemma framed_inv : rse_inv false 65 framed.
Proof. concrete_inv. Qed.

Lemma framed_pfs : uint 64 (ar_pfs framed).
Proof. replace (ar_pfs framed) with 0 by evaluate. uint_const. Qed.

Lemma empty_frame_inv : rse_inv false 183 (empty_frame 183).
Proof. concrete_inv. Qed.
