(* ===== verification/RseContext.v ===== *)
(** * The register stack: saving and restoring the engine

    The snapshot of the register stack that firmware callbacks and the MCA and
    INIT handlers take, and its restoration over whatever the handler left. *)
From stdpp Require Import list.
From S2P Require Import Prelude Arch Env Alat Registers Interrupt RseMap RseRnat RseOps RsePart RseSteps RseLoads RseFrames RseReturns RseAlloc RseRuns.
Local Open Scope Z_scope.

(** ** The snapshot *)

Definition context_of (env : CPUIA64State) : IA64RSEContextState :=
  let r := rse env in
  mkRSEContext (rse_pgr r) (rse_pgr_nat r) (rse_gr_dirty r) (ar_bsp env) (ar_bspstore env) (ar_rnat env)
    (rse_bol r) (rse_dirty r) (rse_dirty_nat r) (rse_clean r) (rse_clean_nat r) (rse_invalid r)
    (rse_rnat_addr r) (rse_rnat_defined r)
    (rse_load_rnat r) (rse_load_rnat_addr r) (rse_load_rnat_defined r) (rse_load_rnat_valid r)
    (rse_writeback_rnat r) (rse_rnat_shadow r) (rse_rnat_shadow_count r)
    (cfm_sof env) (cfm_sol env) (cfm_sor env) (cfm_rrb_gr env) (cfm_rrb_fr env) (cfm_rrb_pr env)
    (rse_cfle r) (rse_completion_pending r) (rse_completion_demoted r) (rse_completion_psr r)
    (rse_completion_source_ip r) (rse_completion_source_slot r).

(** The frame is copied out first; the processor keeps that state. *)
Definition ia64_rse_save_context (env : CPUIA64State) : CPUIA64State * IA64RSEContextState :=
  let env := ia64_rse_sync_frame_out env in (env, context_of env).

Definition restore_file (state : IA64RSEContextState) (env : CPUIA64State) : CPUIA64State :=
  env <| rse; rse_pgr := ctx_pgr state |> <| rse; rse_pgr_nat := ctx_pgr_nat state |>
      <| rse; rse_gr_dirty := ctx_gr_dirty state |>
      <| ar @ IA64_AR_BSP := ctx_bsp state |> <| ar @ IA64_AR_BSPSTORE := ctx_bspstore state |>
      <| ar @ IA64_AR_RNAT := ctx_rnat state |>
      <| rse; rse_bol := ctx_bol state |> <| rse; rse_dirty := ctx_dirty state |>
      <| rse; rse_dirty_nat := ctx_dirty_nat state |> <| rse; rse_clean := ctx_clean state |>
      <| rse; rse_clean_nat := ctx_clean_nat state |> <| rse; rse_invalid := ctx_invalid state |>.

(** The hint of the table's last lookup is not part of the snapshot. *)
Definition restore_rnat (state : IA64RSEContextState) (env : CPUIA64State) : CPUIA64State :=
  env <| rse; rse_rnat_addr := ctx_rnat_addr state |> <| rse; rse_rnat_defined := ctx_rnat_defined state |>
      <| rse; rse_load_rnat := ctx_load_rnat state |> <| rse; rse_load_rnat_addr := ctx_load_rnat_addr state |>
      <| rse; rse_load_rnat_defined := ctx_load_rnat_defined state |>
      <| rse; rse_load_rnat_valid := ctx_load_rnat_valid state |>
      <| rse; rse_writeback_rnat := ctx_writeback_rnat state |>
      <| rse; rse_rnat_shadow := ctx_rnat_shadow state |>
      <| rse; rse_rnat_shadow_count := ctx_rnat_shadow_count state |>.

Definition restore_marker (state : IA64RSEContextState) (env : CPUIA64State) : CPUIA64State :=
  let env := env <| cfm_sof := ctx_cfm_sof state |> <| cfm_sol := ctx_cfm_sol state |>
                 <| cfm_sor := ctx_cfm_sor state |> <| cfm_rrb_gr := ctx_cfm_rrb_gr state |> in
  ia64_set_cfm_rrb_pr (ia64_set_cfm_rrb_fr env (ctx_cfm_rrb_fr state)) (ctx_cfm_rrb_pr state).

Definition restore_completion (state : IA64RSEContextState) (env : CPUIA64State) : CPUIA64State :=
  env <| rse; rse_cfle := ctx_cfle state |> <| rse; rse_access := false |>
      <| rse; rse_completion_pending := ctx_completion_pending state |>
      <| rse; rse_completion_demoted := ctx_completion_demoted state |>
      <| rse; rse_completion_psr := ctx_completion_psr state |>
      <| rse; rse_completion_source_ip := ctx_completion_source_ip state |>
      <| rse; rse_completion_source_slot := ctx_completion_source_slot state |>.

Definition ia64_rse_restore_context (env : CPUIA64State) (state : IA64RSEContextState) : CPUIA64State :=
  ia64_rse_sync_frame_in
    (restore_completion state (restore_marker state (restore_rnat state (restore_file state env)))).

(** ** The round trip *)

Lemma restore_marker_spec st x :
  ctx_cfm_rrb_fr st < 96 -> ctx_cfm_rrb_pr st < 48 ->
  core (restore_marker st x) =
    core (x <| cfm_sof := ctx_cfm_sof st |> <| cfm_sol := ctx_cfm_sol st |> <| cfm_sor := ctx_cfm_sor st |>
            <| cfm_rrb_gr := ctx_cfm_rrb_gr st |>) /\
  marker_part (restore_marker st x) = (ctx_cfm_sol st, ctx_cfm_rrb_fr st, ctx_cfm_rrb_pr st).
Proof.
  intros Hf Hp. unfold restore_marker. cbv zeta.
  match goal with |- context [ia64_set_cfm_rrb_fr ?t _] => set (y := t) end.
  assert (El : cfm_sol y = ctx_cfm_sol st) by done. clearbody y.
  destruct (set_cfm_rrb_fr_core y (ctx_cfm_rrb_fr st)) as (C1 & F1 & _). revert C1 F1.
  generalize (ia64_set_cfm_rrb_fr y (ctx_cfm_rrb_fr st)). intros z C1 F1.
  destruct (set_cfm_rrb_pr_core z (ctx_cfm_rrb_pr st)) as (C2 & F2 & P2). revert C2 F2 P2.
  generalize (ia64_set_cfm_rrb_pr z (ctx_cfm_rrb_pr st)). intros w C2 F2 P2.
  change IA64_ROTATING_FR_COUNT with 96 in F1. destruct (Z.leb_spec 96 (ctx_cfm_rrb_fr st)); [lia|].
  destruct (Z.leb_spec 48 (ctx_cfm_rrb_pr st)); [lia|]. split; [congruence|].
  destruct (core_fields _ _ C2) as (_ & _ & _ & _ & L2). destruct (core_fields _ _ C1) as (_ & _ & _ & _ & L1).
  unfold marker_part. congruence.
Qed.

(** The hint aside, what is restored is what was saved. *)
Definition table_part (e : CPUIA64State) :=
  (length (ar e), ar_rnat e,
   (rse_rnat_addr (rse e), rse_rnat_defined (rse e), rse_writeback_rnat (rse e)),
   (rse_load_rnat (rse e), rse_load_rnat_addr (rse e), rse_load_rnat_defined (rse e),
    rse_load_rnat_valid (rse e)),
   (rse_rnat_shadow (rse e), rse_rnat_shadow_count (rse e))).

Definition file_part (e : CPUIA64State) :=
  (rse_pgr (rse e), rse_pgr_nat (rse e), rse_gr_dirty (rse e)).

Definition completion_part (e : CPUIA64State) :=
  (rse_cfle (rse e), rse_completion_pending (rse e), rse_completion_demoted (rse e), rse_completion_psr (rse e),
   rse_completion_source_ip (rse e), rse_completion_source_slot (rse e)).

Record restored_from (e1 e2 s : CPUIA64State) : Prop := {
  rf_gr : gr s = gr e2 /\ nat_ s = nat_ e2;
  rf_frame : frame_part s = frame_part e1;
  rf_marker : marker_part s = marker_part e1;
  rf_count : count_part s = count_part e1;
  rf_file : file_part s = file_part e1;
  rf_table : table_part s = table_part e1;
  rf_completion : completion_part s = completion_part e1;
  rf_last : rse_rnat_shadow_last (rse s) = rse_rnat_shadow_last (rse e2)
}.

Lemma restore_pointers (l : list Z) a b c :
  length l = 128%nat ->
  let l' := aset (aset (aset l IA64_AR_BSP a) IA64_AR_BSPSTORE b) IA64_AR_RNAT c in
  aget l' IA64_AR_BSP = a /\ aget l' IA64_AR_BSPSTORE = b /\ aget l' IA64_AR_RNAT = c /\ length l' = 128%nat.
Proof.
  intros Hl l'. unfold l', IA64_AR_BSP, IA64_AR_BSPSTORE, IA64_AR_RNAT.
  rewrite !aget_aset, !aset_length by (rewrite ?aset_length; lia). done.
Qed.

Lemma restore_file_spec e1 e2 :
  length (ar e2) = 128%nat ->
  let x := restore_file (context_of e1) e2 in
  gr x = gr e2 /\ nat_ x = nat_ e2 /\ count_part x = count_part e1 /\ file_part x = file_part e1 /\
  rse_bol (rse x) = rse_bol (rse e1) /\ ar_rnat x = ar_rnat e1 /\ length (ar x) = 128%nat /\
  rse_rnat_shadow_last (rse x) = rse_rnat_shadow_last (rse e2).
Proof.
  intros H2 x.
  destruct (restore_pointers (ar e2) (ar_bsp e1) (ar_bspstore e1) (ar_rnat e1) H2) as (P1 & P2 & P3 & P4).
  assert (Ea : ar x = aset (aset (aset (ar e2) IA64_AR_BSP (ar_bsp e1)) IA64_AR_BSPSTORE (ar_bspstore e1)) IA64_AR_RNAT (ar_rnat e1))
    by reflexivity.
  assert (Ec : (rse_dirty (rse x), rse_dirty_nat (rse x), rse_clean (rse x), rse_clean_nat (rse x), rse_invalid (rse x)) =
    (rse_dirty (rse e1), rse_dirty_nat (rse e1), rse_clean (rse e1), rse_clean_nat (rse e1), rse_invalid (rse e1)))
    by reflexivity.
  assert (Eo : gr x = gr e2 /\ nat_ x = nat_ e2 /\ file_part x = file_part e1 /\ rse_bol (rse x) = rse_bol (rse e1) /\
    rse_rnat_shadow_last (rse x) = rse_rnat_shadow_last (rse e2)) by (split_and!; reflexivity).
  clearbody x. rewrite <- Ea in P1, P2, P3, P4. injection Ec as D1 D2 D3 D4 D5. destruct Eo as (O1 & O2 & O3 & O4 & O5).
  split_and!; try done. unfold count_part, ar_bsp at 1, ar_bspstore at 1. by rewrite P1, P2, D1, D2, D3, D4, D5.
Qed.

Lemma restore_rnat_spec e1 x :
  let y := restore_rnat (context_of e1) x in
  file_part y = file_part x /\ rse_bol (rse y) = rse_bol (rse x) /\ gr y = gr x /\ nat_ y = nat_ x /\ ar y = ar x /\
  count_part y = count_part x /\ rse_rnat_shadow_last (rse y) = rse_rnat_shadow_last (rse x) /\
  (ar_rnat x = ar_rnat e1 -> length (ar x) = length (ar e1) -> table_part y = table_part e1).
Proof.
  cbv zeta. split_and!; try reflexivity. intros E1 E2. unfold table_part.
  assert (Ea : ar_rnat (restore_rnat (context_of e1) x) = ar_rnat x) by reflexivity.
  assert (El : length (ar (restore_rnat (context_of e1) x)) = length (ar x)) by reflexivity.
  rewrite Ea, El, E1, E2. reflexivity.
Qed.

Lemma restore_completion_spec e1 y :
  let z := restore_completion (context_of e1) y in
  file_part z = file_part y /\ frame_part z = frame_part y /\ marker_part z = marker_part y /\ gr z = gr y /\ nat_ z = nat_ y /\
  count_part z = count_part y /\ rse_rnat_shadow_last (rse z) = rse_rnat_shadow_last (rse y) /\
  table_part z = table_part y /\ completion_part z = completion_part e1.
Proof. split_and!; reflexivity. Qed.

Lemma restored_marker e1 x y :
  core y = core (x <| cfm_sof := cfm_sof e1 |> <| cfm_sol := cfm_sol e1 |> <| cfm_sor := cfm_sor e1 |>
                   <| cfm_rrb_gr := cfm_rrb_gr e1 |>) ->
  marker_part y = marker_part e1 -> rse_bol (rse x) = rse_bol (rse e1) -> count_part x = count_part e1 ->
  gr y = gr x /\ nat_ y = nat_ x /\ frame_part y = frame_part e1 /\ count_part y = count_part x /\
  file_part y = file_part x /\ table_part y = table_part x /\
  rse_rnat_shadow_last (rse y) = rse_rnat_shadow_last (rse x).
Proof.
  intros Hc Hm Hb Hn.
  assert (C1 : gr y = gr x) by exact (f_equal (fun q => q.1.1.1.1.1) Hc).
  assert (C2 : nat_ y = nat_ x) by exact (f_equal (fun q => q.1.1.1.1.2) Hc).
  assert (C3 : rse y = rse x) by exact (f_equal (fun q => q.1.1.1.2) Hc).
  assert (C4 : (cfm_sof y, cfm_sol y, cfm_sor y, cfm_rrb_gr y) = (cfm_sof e1, cfm_sol e1, cfm_sor e1, cfm_rrb_gr e1))
    by exact (f_equal (fun q => q.1.1.2) Hc).
  assert (C5 : ar y = ar x) by exact (f_equal (fun q => q.1.2) Hc). clear Hc.
  injection C4 as K1 K2 K3 K4. injection Hm as M1 M2 M3. injection Hn as _ _ _ _ _ N _.
  assert (Ey : ar_bsp y = ar_bsp x) by (unfold ar_bsp; by rewrite C5).
  split_and!; try done.
  - unfold frame_part. by rewrite C3, K1, K2, K3, K4, M2, M3, Hb, Ey, N.
  - unfold count_part, ar_bspstore. by rewrite C3, C5, Ey.
  - unfold file_part. by rewrite C3.
  - unfold table_part, ar_rnat. by rewrite C3, C5.
  - by rewrite C3.
Qed.

Lemma restored_fields e1 e2 :
  length (ar e1) = 128%nat -> length (ar e2) = 128%nat -> cfm_rrb_fr e1 < 96 -> cfm_rrb_pr e1 < 48 ->
  restored_from e1 e2 (restore_completion (context_of e1) (restore_marker (context_of e1)
    (restore_rnat (context_of e1) (restore_file (context_of e1) e2)))).
Proof.
  intros H1 H2 Hf Hp. destruct (restore_file_spec e1 e2 H2) as (G1 & G2 & G3 & G4 & G5 & G6 & G7 & G8).
  generalize dependent (restore_file (context_of e1) e2). intros w G1 G2 G3 G4 G5 G6 G7 G8.
  destruct (restore_rnat_spec e1 w) as (R1 & R2 & R3 & R4 & R5 & R6 & R7 & R8).
  generalize dependent (restore_rnat (context_of e1) w). intros x R1 R2 R3 R4 R5 R6 R7 R8.
  destruct (restore_marker_spec (context_of e1) x Hf Hp) as [Hc Hm].
  generalize dependent (restore_marker (context_of e1) x). intros y Hc Hm. change (marker_part y = marker_part e1) in Hm.
  destruct (restored_marker e1 x y Hc Hm) as (M1 & M2 & M3 & M4 & M5 & M6 & M7); [congruence|congruence|].
  destruct (restore_completion_spec e1 y) as (Z1 & Z2 & Z3 & Z4 & Z5 & Z6 & Z7 & Z8 & Z9).
  generalize dependent (restore_completion (context_of e1) y). intros z Z1 Z2 Z3 Z4 Z5 Z6 Z7 Z8 Z9.
  split; try congruence; [split; congruence|]. rewrite Z8, M6. apply R8; congruence.
Qed.

Lemma restored_rnat e1 e2 s :
  restored_from e1 e2 s -> rnat_ok e1 -> rnat_ok e2 ->
  rnat_ok s /\ forall a i, rnat_known s a i = rnat_known e1 a i.
Proof.
  intros [_ _ _ _ _ Ht _ Hl] Ho1 Ho2. injection Ht as T1 T2 T3 T4 T5 T6 T7 T8 T9 T10 T11.
  destruct (rn_table _ Ho1) as [Hs1 He1]. destruct (rn_table _ Ho2) as [Hs2 _].
  assert (Hs : shadow_shape s).
  { destruct Hs1, Hs2. split; rewrite ?T10, ?T11, ?Hl; done. }
  split.
  - destruct Ho1. split; rewrite ?T1, ?T2, ?T3, ?T4, ?T5, ?T6, ?T7, ?T8, ?T9; try done.
    split; [done|]. unfold shadow_entries. by rewrite T10, T11.
  - intros a i. unfold rnat_known, load_known, spill_known. rewrite T2, T3, T4, T6, T7, T8, T9. do 2 f_equal.
    apply (shadow_known_ext e1 s a i id Hs1 Hs); rewrite T10, T11; eauto.
Qed.

Lemma known_part s s' a i : rnat_part s' = rnat_part s -> rnat_known s' a i = rnat_known s a i.
Proof. intros E. destruct (rnat_part_known s s' a i E) as (E1 & E2 & E3). unfold rnat_known. by rewrite E1, E2, E3. Qed.

Lemma context_restored cl K cl2 K2 e e2 :
  rse_inv cl K e -> rse_inv cl2 K2 e2 ->
  let saved := ia64_rse_save_context e in
  let s := ia64_rse_restore_context e2 (snd saved) in
  rse_inv cl K s /\ frame_part s = frame_part e /\ count_part s = count_part e /\
  (forall p, 0 <= p < 96 -> content s p = content e p) /\ (forall a i, rnat_known s a i = rnat_known e a i).
Proof.
  intros Hi Hi2. cbv zeta. unfold ia64_rse_save_context, ia64_rse_restore_context. cbn [snd].
  destruct (sync_out_filed cl K e Hi) as (Hfd & _ & _).
  destruct (sync_out_inv cl K e Hi) as (Hi1 & Hf1 & _ & Hc1 & Hr1 & _ & Hd1 & Ha1).
  generalize dependent (ia64_rse_sync_frame_out e). intros e1 Hfd Hi1 Hf1 Hc1 Hr1 Hd1 Ha1.
  destruct (ri_rrb _ _ _ Hi1) as [Hrf Hrp]. pose proof (ri_rnat _ _ _ Hi1) as Ho1. pose proof (ri_rnat _ _ _ Hi2) as Ho2.
  pose proof (restored_fields e1 e2 (rn_ar _ Ho1) (rn_ar _ Ho2) ltac:(lia) ltac:(lia)) as Hr.
  generalize dependent (restore_completion (context_of e1) (restore_marker (context_of e1)
    (restore_rnat (context_of e1) (restore_file (context_of e1) e2)))). intros s Hr.
  destruct (restored_rnat e1 e2 s Hr Ho1 Ho2) as [Ho Hk]. destruct Hr as [[Eg En] Ef Em Ec Efi _ _ _].
  injection Efi as F1 F2 F3. injection Em as M1 M2 M3. pose proof Ef as [= A1 A2 A3 A4 A5 A6 A7 A8].
  assert (Hfw : frame_wf s).
  { destruct (vw_frame _ (ri_views _ _ _ Hi1)). split; rewrite ?A1, ?A2, ?A4, ?A5; done. }
  destruct (filed_sync_in e e1 s Hfd) as (Hsh & Hcont & Hout & Hfr & Har); try done; try congruence.
  - rewrite Eg. apply (ri_views _ _ _ Hi2).
  - rewrite En. apply (ri_views _ _ _ Hi2).
  - rewrite M1, A2. apply Hi1.
  - by rewrite M2, M3.
  - intros r Hr. rewrite Eg. by apply (ri_gr _ _ _ Hi2).
  - destruct (outer_inv _ _ Hout) as (Er & Ec' & _). generalize dependent (ia64_rse_sync_frame_in s).
    intros s' Hsh Hcont Hout Hfr Har Er Ec'. split_and!; [|congruence|congruence|done|].
    + apply inv_shape. split; [done|]. apply (count_part_of cl K s' e); [congruence| |apply Hi].
      pose proof Hfr as [= _ -> _ _ _ _ _ _]. pose proof Hf1 as [= _ <- _ _ _ _ _ _]. done.
    + intros a i. rewrite <- (known_part e e1 a i Hr1), <- Hk. by apply known_part.
Qed.

(** The registers of the frame are seen as the physical file has them. *)
Lemma frame_views cl K cl' K' e s :
  rse_inv cl K e -> rse_inv cl' K' s -> frame_part s = frame_part e ->
  (forall p, 0 <= p < 96 -> content s p = content e p) -> forall v, 0 <= v < cfm_sof e -> view s v = view e v.
Proof.
  intros Hi Hs Hf Hcont v Hv. pose proof Hf as [= F1 F2 _ F4 F5 _ _ _].
  pose proof (vw_frame _ (ri_views _ _ _ Hi)) as Hw. pose proof (wf_sof _ Hw).
  rewrite <- (coherent_view e v) by (done || apply Hi). rewrite <- (coherent_view s v) by (lia || apply Hs).
  replace (ia64_rse_virt_to_phys s v) with (ia64_rse_virt_to_phys e v).
  - apply Hcont. apply virt_to_phys_range; [done|lia].
  - unfold ia64_rse_virt_to_phys, ia64_rse_rotating_gr_count. by rewrite F1, F2, F4, F5.
Qed.

(** C13. Restoring the snapshot of the register stack engine undoes whatever
    ran in between: from any well-formed state it brings back the frame, the
    partitions and their pointers, every register of the physical file, every
    register of the frame as instructions read it, values and NaT bits, and
    every known bit of every NaT collection; and the engine is consistent. *)
Theorem context_roundtrip cl K cl2 K2 e e2 :
  rse_inv cl K e -> rse_inv cl2 K2 e2 ->
  let s := ia64_rse_restore_context e2 (snd (ia64_rse_save_context e)) in
  rse_inv cl K s /\ frame_part s = frame_part e /\ count_part s = count_part e /\
  (forall p, 0 <= p < 96 -> content s p = content e p) /\
  (forall v, 0 <= v < cfm_sof e -> view s v = view e v) /\
  (forall a i, rnat_known s a i = rnat_known e a i).
Proof.
  intros Hi Hi2. destruct (context_restored cl K cl2 K2 e e2 Hi Hi2) as (Hs & Hf & Hc & Hcont & Hk). cbv zeta in *.
  generalize dependent (ia64_rse_restore_context e2 (snd (ia64_rse_save_context e))). intros s Hs Hf Hc Hcont Hk.
  split_and!; try done. by eapply frame_views.
Qed.

Lemma context_roundtrip_witness :
  let s := ia64_rse_restore_context (empty_frame 183) (snd (ia64_rse_save_context framed)) in
  view s 8 = (7, true).
Proof.
  destruct (context_roundtrip false 65 false 183 framed (empty_frame 183) framed_inv empty_frame_inv) as (_ & _ & _ & _ & H & _).
  cbv zeta. rewrite H by (vm_compute; split; [discriminate|reflexivity]). vm_compute. reflexivity.
Defined.
