(* ===== verification/RseOutside.v ===== *)
(** * What the register stack leaves alone

    The control registers, the banks, the instruction pointer and, but for the
    two bits that a memory reference consumes, [PSR] are outside the register
    stack: no operation of the engine changes them, whatever it stores and
    loads.  Interruption and machine-check handlers rely on it. *)
From stdpp Require Import list.
From S2P Require Import Prelude Arch Env Alat Registers Interrupt RseMap RseRnat RseOps RsePart RseSteps RseLoads RseFrames RseReturns RseAlloc RseRuns RseContext.
Local Open Scope Z_scope.


(** ** The banks under a change of PSR *)

Definition bank (e : CPUIA64State) := (gr e, nat_ e, banked_gr e, banked_nat e).

(** All but the banked registers. *)
Definition unbanked (e : CPUIA64State) : CPUIA64State :=
  e <| gr := [] |> <| nat_ := [] |> <| banked_gr := [] |> <| banked_nat := 0 |>.

Lemma swap_bank e e' : bank e = bank e' -> bank (ia64_swap_banked_gr e) = bank (ia64_swap_banked_gr e').
Proof.
  intros H. unfold ia64_swap_banked_gr. apply (for_range_sim (fun _ s t => bank s = bank t) 0 16); [lia|done|].
  intros i s t Hi [= E1 E2 E3 E4]. cbv zeta. unfold ia64_gr_nat_set, ia64_gr_nat_get. rewrite E2.
  destruct (Z.eqb_spec (16 + i) 0); [lia|]. change (banked_nat (s <| gr @ 16 + i := aget (banked_gr s) i |>)) with (banked_nat s).
  change (banked_nat (t <| gr @ 16 + i := aget (banked_gr t) i |>)) with (banked_nat t). rewrite E4.
  destruct (truth ((banked_nat t >>> i) .& 1)), (truth (_ .& 1)); unfold bank; cbn; by rewrite E1, E2, E3, E4.
Qed.

Lemma swap_unbanked e : unbanked (ia64_swap_banked_gr e) = unbanked e.
Proof.
  unfold ia64_swap_banked_gr. apply (for_range_inv (fun s => unbanked s = unbanked e)); [done|].
  intros i s _ E. cbv zeta. unfold ia64_gr_nat_set. rewrite <- E. destruct (16 + i =? 0); repeat case_match; done.
Qed.

(** What a change of [PSR] does to the processor; the request line follows. *)
Lemma set_psr_env cpu v :
  exists x e, env (ia64_set_psr cpu v) = e <| psr := v |> /\
    unbanked e = unbanked ((env cpu) <| exception_state := x |>) /\
    bank e = bank (if truth ((psr (env cpu) .^ v) .& IA64_PSR_BN) then ia64_swap_banked_gr (env cpu) else env cpu).
Proof.
  unfold ia64_set_psr. cbv zeta. set (c1 := if truth (_ .& IA64_PSR_IC) then _ else cpu).
  assert (H1 : exists x, env c1 = (env cpu) <| exception_state := x |>).
  { unfold c1. case_match; [by eexists|]. exists (exception_state (env cpu)). by destruct (env cpu). }
  clearbody c1. set (c2 := if _ || _ then _ else _).
  assert (H2 : exists x, env c2 = (env cpu) <| exception_state := x |>).
  { destruct H1 as [x H1]. unfold c2. case_match; [|case_match]; [eexists; cbn; by rewrite H1..|by exists x]. }
  clearbody c2. clear c1 H1. destruct H2 as [x H2]. set (b := truth (_ .& IA64_PSR_BN)).
  set (c3 := if b then _ else c2). exists x, (env c3). split.
  { case_match; [by rewrite env_update|done]. }
  unfold c3. destruct b; [|by rewrite H2]. change (env (c2 <| env ::= ia64_swap_banked_gr |>)) with (ia64_swap_banked_gr (env c2)).
  split; [by rewrite swap_unbanked, H2|]. apply swap_bank. by rewrite H2.
Qed.

Lemma bank_bit p v : truth ((p .^ v) .& IA64_PSR_BN) = xorb (Z.testbit p 44) (Z.testbit v 44).
Proof. change IA64_PSR_BN with (2 ^ 44). by rewrite truth_land_pow2, Z.lxor_spec by lia. Qed.

(** ** Outside the register stack

    Of the engine itself, the flag of a pending completion trap belongs here. *)

Definition outside_with (pending : bool) (p : Z) (e : CPUIA64State) : CPUIA64State :=
  e <| gr := [] |> <| nat_ := [] |> <| ar := [] |> <| rse := zero_rse <| rse_completion_pending := pending |> |>
    <| pr := [] |> <| fp := zero_fp |> <| alat_state := zero_alat |> <| dahr := [] |>
    <| cfm_sof := 0 |> <| cfm_sol := 0 |> <| cfm_sor := 0 |>
    <| cfm_rrb_gr := 0 |> <| cfm_rrb_fr := 0 |> <| cfm_rrb_pr := 0 |> <| psr := p |>.

Definition outside (e : CPUIA64State) : CPUIA64State :=
  outside_with (rse_completion_pending (rse e)) (psr e .& ~64 (IA64_PSR_DA .| IA64_PSR_DD)) e.

Lemma outside_psr f e :
  f (psr e) .& ~64 (IA64_PSR_DA .| IA64_PSR_DD) = psr e .& ~64 (IA64_PSR_DA .| IA64_PSR_DD) ->
  outside (e <| psr ::= f |>) = outside e.
Proof. intros Hf. unfold outside. change (psr (e <| psr ::= f |>)) with (f (psr e)). rewrite Hf. reflexivity. Qed.

Lemma outside_gr f e : outside (e <| gr ::= f |>) = outside e. Proof. done. Qed.
Lemma outside_nat f e : outside (e <| nat_ ::= f |>) = outside e. Proof. done. Qed.
Lemma outside_ar f e : outside (e <| ar ::= f |>) = outside e. Proof. done. Qed.
Lemma outside_pr f e : outside (e <| pr ::= f |>) = outside e. Proof. done. Qed.
Lemma outside_fp f e : outside (e <| fp ::= f |>) = outside e. Proof. done. Qed.
Lemma outside_alat f e : outside (e <| alat_state ::= f |>) = outside e. Proof. done. Qed.
Lemma outside_dahr f e : outside (e <| dahr ::= f |>) = outside e. Proof. done. Qed.
Lemma outside_sof f e : outside (e <| cfm_sof ::= f |>) = outside e. Proof. done. Qed.
Lemma outside_sol f e : outside (e <| cfm_sol ::= f |>) = outside e. Proof. done. Qed.
Lemma outside_sor f e : outside (e <| cfm_sor ::= f |>) = outside e. Proof. done. Qed.
Lemma outside_rrb_gr f e : outside (e <| cfm_rrb_gr ::= f |>) = outside e. Proof. done. Qed.
Lemma outside_rrb_fr f e : outside (e <| cfm_rrb_fr ::= f |>) = outside e. Proof. done. Qed.
Lemma outside_rrb_pr f e : outside (e <| cfm_rrb_pr ::= f |>) = outside e. Proof. done. Qed.

Lemma outside_rse f e :
  (forall r, rse_completion_pending (f r) = rse_completion_pending r) -> outside (e <| rse ::= f |>) = outside e.
Proof.
  intros Hf. unfold outside. change (rse (e <| rse ::= f |>)) with (f (rse e)). rewrite Hf. reflexivity.
Qed.

Create Rewrite HintDb outside.
#[export] Hint Rewrite outside_gr outside_nat outside_ar outside_pr outside_fp outside_alat outside_dahr
  outside_sof outside_sol outside_sor outside_rrb_gr outside_rrb_fr outside_rrb_pr : outside.
#[export] Hint Rewrite outside_rse using done : outside.

Ltac outside := cbv zeta; repeat case_match; autorewrite with outside; try done.

Lemma outside_gr_nat_set e r b : outside (ia64_gr_nat_set e r b) = outside e.
Proof. unfold ia64_gr_nat_set. outside. Qed.

Lemma outside_pgr_nat_set e p b : outside (ia64_rse_pgr_nat_set e p b) = outside e.
Proof. unfold ia64_rse_pgr_nat_set. outside. Qed.

#[export] Hint Rewrite outside_gr_nat_set outside_pgr_nat_set : outside.

(** *** Renaming and frame copies *)

Lemma outside_while_bits d (f : CPUIA64State -> Z -> CPUIA64State) e :
  (forall e i, outside (f e i) = outside e) -> outside (while_bits d f e) = outside e.
Proof.
  intros Hf. unfold while_bits. generalize 64%nat. intros n. revert d e. induction n as [|n IH]; intros d e; [done|].
  cbn. case_match; [|done]. by rewrite IH, Hf.
Qed.

Lemma outside_sync_out e : outside (ia64_rse_sync_frame_out e) = outside e.
Proof.
  unfold ia64_rse_sync_frame_out, ia64_rse_sync_frame_out_direct, ia64_rse_sync_frame_out_slow, for_dirty.
  outside; rewrite !outside_while_bits by (intros; outside); by autorewrite with outside.
Qed.

Lemma outside_spans fuel : forall e first end_ sor rrb c,
  outside (sync_in_spans fuel e first end_ sor rrb c) = outside e.
Proof.
  induction fuel as [|fuel IH]; intros; [done|]. cbn [sync_in_spans]. cbv zeta. case_match; [|done].
  match goal with |- context [if ?b then _ else _] => destruct b end; rewrite IH; outside.
Qed.

Lemma outside_sync_in_range e first count : outside (ia64_rse_sync_frame_in_range e first count) = outside e.
Proof.
  unfold ia64_rse_sync_frame_in_range. cbv zeta. case_match; [|apply outside_spans].
  apply (for_range_inv (fun s => outside s = outside e)); [done|]. intros i s _ E. cbv zeta. by autorewrite with outside.
Qed.

Lemma outside_sync_in e : outside (ia64_rse_sync_frame_in e) = outside e.
Proof.
  unfold ia64_rse_sync_frame_in, ia64_rse_sync_frame_in_direct, ia64_rse_sync_frame_in_slow, sync_in_copy.
  outside; by rewrite outside_sync_in_range.
Qed.

Lemma outside_set_rrb_fr e r : outside (ia64_set_cfm_rrb_fr e r) = outside e.
Proof. unfold ia64_set_cfm_rrb_fr. outside. Qed.

Lemma outside_set_rrb_pr e r : outside (ia64_set_cfm_rrb_pr e r) = outside e.
Proof. unfold ia64_set_cfm_rrb_pr, ia64_set_cfm_rrb_pr_slow. outside. Qed.

#[export] Hint Rewrite outside_sync_out outside_sync_in_range outside_sync_in outside_set_rrb_fr outside_set_rrb_pr : outside.

(** *** NaT collections *)

Lemma outside_find e a : outside (snd (ia64_rse_rnat_shadow_find e a)) = outside e.
Proof. done. Qed.

Lemma outside_delete e i : outside (ia64_rse_rnat_shadow_delete e i) = outside e.
Proof. unfold ia64_rse_rnat_shadow_delete. outside. Qed.

Lemma outside_remove e a : outside (ia64_rse_rnat_shadow_remove e a) = outside e.
Proof.
  unfold ia64_rse_rnat_shadow_remove. destruct (ia64_rse_rnat_shadow_find e a) as [i e'] eqn:E.
  assert (Hf : outside e' = outside e) by (rewrite <- (outside_find e a); by rewrite E).
  case_match; [|done]. by rewrite outside_delete.
Qed.

Lemma outside_merge e a v d n : outside (ia64_rse_rnat_shadow_merge e a v d n) = outside e.
Proof.
  unfold ia64_rse_rnat_shadow_merge, ia64_rse_rnat_shadow_find. cbv zeta. repeat case_match; simplify_eq; by autorewrite with outside.
Qed.

Lemma outside_stash e : outside (ia64_rse_rnat_shadow_stash e) = outside e.
Proof. apply outside_merge. Qed.

Lemma outside_load_stash e a : outside (ia64_rse_load_rnat_stash e a) = outside e.
Proof. unfold ia64_rse_load_rnat_stash. case_match; [done|apply outside_merge]. Qed.

Lemma outside_take e a : outside (snd (ia64_rse_rnat_shadow_take e a)) = outside e.
Proof.
  unfold ia64_rse_rnat_shadow_take, ia64_rse_rnat_shadow_find. cbv zeta. case_match; [done|].
  cbn [snd]. by rewrite outside_delete.
Qed.

Lemma outside_clip e a k : outside (ia64_rse_rnat_shadow_clip e a k) = outside e.
Proof.
  unfold ia64_rse_rnat_shadow_clip, ia64_rse_rnat_shadow_find. cbv zeta.
  repeat case_match; rewrite ?outside_delete; by autorewrite with outside.
Qed.

Lemma outside_bind e a : outside (ia64_rse_rnat_bind e a) = outside e.
Proof.
  unfold ia64_rse_rnat_bind. case_match; [done|]. cbv zeta. rewrite <- (outside_stash e).
  generalize (ia64_rse_rnat_shadow_stash e). intros e1. rewrite <- (outside_take e1 a).
  destruct (ia64_rse_rnat_shadow_take e1 a) as [o e2]. cbn [snd].
  destruct (if rse_load_rnat_valid (rse e1) && _ then _ else _) as [v d].
  destruct o as [[]|]; by autorewrite with outside.
Qed.

Lemma outside_move e b : outside (ia64_rse_rnat_move_bspstore e b) = outside e.
Proof. unfold ia64_rse_rnat_move_bspstore. cbv zeta. rewrite outside_ar, outside_clip. outside. Qed.

#[export] Hint Rewrite outside_delete outside_remove outside_stash outside_load_stash outside_bind outside_move : outside.

(** *** Frames *)

Lemma outside_reset_rotations e : outside (ia64_rse_reset_rotations e) = outside e.
Proof. unfold ia64_rse_reset_rotations. outside. Qed.

Lemma outside_invalidate_alat e : outside (ia64_rse_invalidate_stacked_alat e) = outside e.
Proof. unfold ia64_rse_invalidate_stacked_alat. outside. Qed.

Lemma outside_preserve e n : outside (ia64_rse_preserve_frame e n) = outside e.
Proof. unfold ia64_rse_preserve_frame. outside. Qed.

Lemma outside_restore e p g o : outside (ia64_rse_restore_frame e p g o) = outside e.
Proof. unfold ia64_rse_restore_frame, clear_cfm. outside. Qed.

Lemma outside_return_cfm e m n : outside (return_cfm e m n) = outside e.
Proof. unfold return_cfm. outside. Qed.

#[export] Hint Rewrite outside_reset_rotations outside_invalidate_alat outside_preserve outside_restore outside_return_cfm : outside.

Lemma outside_return_frame m n e : outside (return_frame m n e) = outside e.
Proof. unfold return_frame. outside. Qed.

Lemma outside_call_frame e : outside (call_frame e) = outside e.
Proof. unfold call_frame, call_outputs. outside. Qed.

Lemma outside_cover_frame e : outside (cover_frame e) = outside e.
Proof. unfold cover_frame. outside. Qed.

Lemma outside_alloc_frame a b c d e : outside (alloc_frame a b c d e) = outside e.
Proof. unfold alloc_frame. outside. Qed.

Lemma outside_write_gr r v b e : outside (write_gr r v b e) = outside e.
Proof. unfold write_gr, ia64_rse_mark_gr_dirty. outside. Qed.

Lemma outside_register_loaded e p v b : outside (register_loaded e p v b) = outside e.
Proof. unfold register_loaded. outside. Qed.

Lemma outside_register_stored cc e b p n : outside (register_stored cc e b p n) = outside e.
Proof. unfold register_stored, set_spill_bit. outside. Qed.

Lemma outside_collection_stored cc e b a c : outside (collection_stored cc e b a c) = outside e.
Proof. unfold collection_stored, set_load_rnat, ia64_rse_rnat_writeback_clear. outside. Qed.

Lemma outside_set_load_rnat e c a d : outside (set_load_rnat e c a d) = outside e.
Proof. done. Qed.

#[export] Hint Rewrite outside_return_frame outside_alloc_frame outside_write_gr outside_register_loaded
  outside_register_stored outside_collection_stored outside_set_load_rnat : outside.

(** *** Restoring a saved engine *)

(** All of it, without the flag and [PSR]. *)
Abbreviation elsewhere := (outside_with false 0).

Lemma outside_elsewhere e e' : outside e = outside e' -> elsewhere e = elsewhere e'.
Proof. intros H. exact (f_equal elsewhere H). Qed.

Lemma elsewhere_rse f e : elsewhere (e <| rse ::= f |>) = elsewhere e.
Proof. done. Qed.

Lemma restore_elsewhere st e : elsewhere (ia64_rse_restore_context e st) = elsewhere e.
Proof.
  unfold ia64_rse_restore_context. rewrite (outside_elsewhere _ _ (outside_sync_in _)).
  transitivity (elsewhere (restore_marker st (restore_rnat st (restore_file st e)))).
  { unfold restore_completion. by rewrite !elsewhere_rse. }
  apply outside_elsewhere. unfold restore_marker. cbv zeta. autorewrite with outside.
  unfold restore_rnat, restore_file. by autorewrite with outside.
Qed.

(** ** Operations that stay inside *)

Section inside.
Context {W : Type} `{World : RseWorld W} `{Laws : !RseWorldLaws W}.

(** A return has not changed what [f] observes. *)
Definition observed {A B} (f : CPUIA64State -> B) (m : RM W A) : Prop :=
  forall s, ensures (m s) (fun _ s' => f (senv s') = f (senv s)) (fun _ _ => True).

Abbreviation inside := (observed outside).

Lemma observed_ret {A B} (f : CPUIA64State -> B) (a : A) : observed f (mret a).
Proof. by intros s. Qed.

Lemma observed_raise {A B} (f : CPUIA64State -> B) x : observed f (mraise (A := A) x).
Proof. by intros s. Qed.

Lemma observed_getenv {B} (f : CPUIA64State -> B) : observed f getenv.
Proof. by intros s. Qed.

Lemma observed_modenv {B} (f : CPUIA64State -> B) g : (forall e, f (g e) = f e) -> observed f (modenv g).
Proof. intros Hg s. apply Hg. Qed.

Lemma observed_bind {A B C} (f : CPUIA64State -> C) (m : RM W A) (k : A -> RM W B) :
  observed f m -> (forall a, observed f (k a)) -> observed f (mbind m k).
Proof.
  intros Hm Hk s. eapply ensures_bind; [apply Hm|]. intros a s1 E.
  eapply ensures_mono; [apply Hk| |done]. intros b s2 E2. congruence.
Qed.

Lemma observed_when {B} (f : CPUIA64State -> B) b m : observed f m -> observed f (mwhen b m).
Proof. intros Hm. destruct b; [done|apply observed_ret]. Qed.

Lemma observed_window {B} (f : CPUIA64State -> B) : observed f ia64_rse_interrupt_window.
Proof. intros s. unfold ia64_rse_interrupt_window. by case_match. Qed.

(** An exception after some changes. *)
Lemma observed_refused {A B} (f : CPUIA64State -> B) g e ip imm slot :
  observed f (modenv g ;;; ia64_raise_exception (A := A) e ip imm slot).
Proof. by intros s. Qed.

Lemma observed_flush {B} (f : CPUIA64State -> B) : observed f (mmod ia64_flush_suppressed_tlb).
Proof. intros s. cbn [ensures mmod]. by destruct (flush_law s) as [-> _]. Qed.

(** What is outside the register stack includes the control registers and the
    pending trap. *)
Definition controls (e : CPUIA64State) := (cr e, rse_completion_pending (rse e)).

Lemma inside_controls {A} (m : RM W A) : inside m -> observed controls m.
Proof.
  intros Hm s. eapply ensures_mono; [apply Hm| |done]. intros a s' E.
  exact (f_equal controls E).
Qed.

Lemma inside_debug a w : inside (ia64_mmu_check_data_debug a w).
Proof. intros s. eapply ensures_mono; [apply debug_law| |done]. by intros [] s' ->. Qed.

Lemma inside_load a be idx : inside (ia64_exec_load_mmuidx a be idx).
Proof. intros s. eapply ensures_mono; [apply load_law| |done]. by intros v s' (_ & -> & _). Qed.

Lemma inside_probe a be idx : inside (exec_probe_store a be idx).
Proof. intros s. eapply ensures_mono; [apply probe_law| |done]. by intros v s' (_ & -> & _). Qed.

Lemma inside_store a v be idx : inside (ia64_exec_store_mmuidx a v be idx).
Proof. intros s. eapply ensures_mono; [apply store_law| |done]. intros u s' ((t & ->) & _). apply outside_alat. Qed.

Lemma inside_end : inside ia64_rse_complete_memory_reference.
Proof.
  unfold ia64_rse_complete_memory_reference. apply observed_bind; [apply observed_getenv|]. intros env.
  apply observed_bind; [|intros; apply observed_when, observed_flush]. apply observed_modenv. intros e.
  apply outside_psr. by rewrite <- Z.land_assoc, Z.land_diag.
Qed.

(** Sequences of operations that stay inside. *)
Ltac inside_step :=
  lazymatch goal with
  | |- observed _ (mbind _ _) => apply observed_bind; [|intros ?]
  | |- observed _ (mret _) => apply observed_ret
  | |- observed _ (mraise _) => apply observed_raise
  | |- observed _ getenv => apply observed_getenv
  | |- observed _ (mwhen _ (modenv _ ;;; ia64_raise_exception _ _ _ _)) => apply observed_when, observed_refused
  | |- observed _ (mwhen _ _) => apply observed_when
  | |- observed _ (modenv _) => apply observed_modenv; intros ?; by autorewrite with outside
  | |- observed _ (ia64_mmu_check_data_debug _ _) => apply inside_debug
  | |- observed _ (ia64_exec_load_mmuidx _ _ _) => apply inside_load
  | |- observed _ (ia64_exec_store_mmuidx _ _ _ _) => apply inside_store
  | |- observed _ (exec_probe_store _ _ _) => apply inside_probe
  | |- observed _ ia64_rse_interrupt_window => apply observed_window
  | |- observed _ ia64_rse_complete_memory_reference => apply inside_end
  | |- observed _ (match _ with _ => _ end) => case_match
  end.
Ltac inside := repeat inside_step.

Lemma inside_write a v : inside (ia64_rse_write_u64 a v).
Proof. unfold ia64_rse_write_u64, ia64_rse_access_begin, ia64_rse_access_end. inside. Qed.

Lemma inside_read a : inside (ia64_rse_read_u64 a).
Proof. unfold ia64_rse_read_u64, ia64_rse_access_begin, ia64_rse_access_end. inside. Qed.

Lemma inside_write_collection a v d : inside (ia64_rse_write_collection a v d).
Proof.
  unfold ia64_rse_write_collection, ia64_exec_rse_store_collection, ia64_rse_access_begin, ia64_rse_access_end. inside.
Qed.

Lemma inside_store_one : inside ia64_rse_store_one.
Proof.
  unfold ia64_rse_store_one. cbv zeta. inside; first [apply inside_write_collection|apply inside_write|idtac].
Qed.

Lemma inside_fill a : inside (ia64_rse_fill_collection a).
Proof.
  unfold ia64_rse_fill_collection. cbv zeta. inside; first [apply inside_read|apply observed_modenv; intros; apply outside_find|idtac].
Qed.

Lemma inside_load_one a : inside (ia64_rse_load_one a).
Proof. unfold ia64_rse_load_one. cbv zeta. inside; first [apply inside_read|apply inside_fill|idtac]. Qed.

Lemma inside_frame_loads fuel : forall b, inside (frame_loads_loop fuel b).
Proof.
  induction fuel as [|fuel IH]; intros b; cbn [frame_loads_loop]; inside; [apply inside_load_one|apply observed_modenv; intros; by case_match; autorewrite with outside|apply IH].
Qed.

Lemma inside_complete_loads : inside ia64_rse_complete_frame_loads.
Proof. unfold ia64_rse_complete_frame_loads. inside. apply inside_frame_loads. Qed.

Lemma inside_return m n : inside (ia64_rse_return_to_frame m n).
Proof. unfold ia64_rse_return_to_frame. inside. apply inside_complete_loads. Qed.

Lemma inside_flush_loop fuel : inside (flush_loop fuel).
Proof. induction fuel as [|fuel IH]; cbn [flush_loop]; inside; [apply inside_store_one|apply IH]. Qed.

Lemma inside_new_frame_loop fuel : forall g, inside (new_frame_loop fuel g).
Proof. induction fuel as [|fuel IH]; intros g; cbn [new_frame_loop]; inside; [apply inside_store_one|apply IH]. Qed.

Lemma inside_new_frame g : inside (ia64_rse_new_frame g).
Proof. unfold ia64_rse_new_frame. cbv zeta. inside. apply inside_new_frame_loop. Qed.

Lemma inside_alloc r1 pfm ip slot : inside (ia64_rse_alloc r1 pfm ip slot).
Proof.
  unfold ia64_rse_alloc. cbv zeta. inside; first [apply inside_new_frame|apply observed_modenv; intros; by case_match; autorewrite with outside].
Qed.

(** *** Calls and returns *)

Lemma call_controls b next target : observed controls (modenv (ia64_rse_br_call b next target)).
Proof.
  apply observed_modenv. intros e. unfold ia64_rse_br_call. cbv zeta.
  assert (E : controls (ia64_rse_invalidate_stacked_alat (call_frame e)) = controls e).
  { apply (f_equal controls (x := outside (ia64_rse_invalidate_stacked_alat (call_frame e))) (y := outside e)).
    by rewrite outside_invalidate_alat, outside_call_frame. }
  rewrite <- E. done.
Qed.

Lemma set_psr_controls f : observed controls (modcpu (fun cpu => ia64_set_psr cpu (f cpu))).
Proof.
  intros s. destruct (set_psr_env (sys_cpu s) (f (sys_cpu s))) as (x & e & E & Hu & _). cbn [ensures modcpu mmod].
  change (controls (env (ia64_set_psr (sys_cpu s) (f (sys_cpu s)))) = controls (senv s)). rewrite E.
  exact (f_equal controls Hu).
Qed.

Lemma suppression_controls : observed controls ia64_system_clear_psr_fault_suppression.
Proof.
  unfold ia64_system_clear_psr_fault_suppression. cbv zeta.
  repeat first [inside_step|apply set_psr_controls|apply observed_flush].
Qed.

(** A completion trap is no longer pending when it is not taken. *)
Lemma trap_controls s :
  ensures (ia64_rse_complete_pending_trap s) (fun _ s' => controls (senv s') = (cr (senv s), false)) (fun _ _ => True).
Proof.
  unfold ia64_rse_complete_pending_trap. apply ensures_getenv. destruct (rse_completion_pending (rse (senv s))) eqn:Ep; cbn [negb].
  2: { cbn [ensures mret]. unfold controls. by rewrite Ep. }
  cbv zeta. apply ensures_modenv. eapply ensures_bind; [apply suppression_controls|]. intros [] s1 E.
  apply ensures_getenv. eapply ensures_mono; [apply native_traps_calm| |done]. intros [] s' ->. exact E.
Qed.
End inside.

(** ** Outside the processor *)

Section inert.
Context {W : Type} `{World : RseWorld W} `{Laws : !RseWorldLaws W}.

(** The processor and the memory are left alone. *)
Definition inert (f : rse_sys W -> rse_sys W) : Prop :=
  forall s, sys_cpu (f s) = sys_cpu s /\
    forall be idx a, rse_mem (sys_world (f s)) be idx a = rse_mem (sys_world s) be idx a.

Lemma purges_inert : inert complete_pending_purges.
Proof. exact purges_law. Qed.

Lemma translations_inert : inert flush_translations.
Proof. exact translations_law. Qed.

Lemma flush_inert : inert ia64_flush_suppressed_tlb.
Proof. exact flush_law. Qed.

Lemma pk_change_inert old : inert (ia64_flush_on_pk_change old).
Proof.
  intros s. unfold ia64_flush_on_pk_change.
  destruct (truth ((old .^ psr (senv s)) .& IA64_PSR_PK)); [apply translations_inert|done].
Qed.

Lemma serialize_env s :
  sys_cpu (ia64_tlb_serialize s) = (sys_cpu s) <| env ::= fun env =>
    env <| exception_state; psr_ic_inflight := false |> <| exception_state; psr_i_deferred := false |> |> /\
  forall be idx x, rse_mem (sys_world (ia64_tlb_serialize s)) be idx x = rse_mem (sys_world s) be idx x.
Proof.
  unfold ia64_tlb_serialize. split; [by rewrite (proj1 (purges_inert _))|].
  intros. by rewrite (proj2 (purges_inert _)).
Qed.

(** One step of a sequence. *)
Lemma bind_mmod {A} f (k : unit -> RM W A) s : mbind (mmod f) k s = k tt (f s).
Proof. done. Qed.

Lemma bind_modenv {A} f (k : unit -> RM W A) s : mbind (modenv f) k s = k tt (s <| sys_cpu; env ::= f |>).
Proof. done. Qed.

Lemma bind_modcpu {A} f (k : unit -> RM W A) s : mbind (modcpu f) k s = k tt (s <| sys_cpu ::= f |>).
Proof. done. Qed.

Lemma bind_getenv {A} (k : CPUIA64State -> RM W A) s : mbind getenv k s = k (senv s) s.
Proof. done. Qed.

Lemma bind_ret {A B} (a : A) (k : A -> RM W B) s : mbind (mret a) k s = k a s.
Proof. done. Qed.
End inert.
