(* ===== verification/Ras.v ===== *)
(** * Machine checks: the minimal state and the firmware entries

    The part of [arch/ras.c] that runs on the processor.  The minimal state
    area is an image of the static registers, both banks, the predicates and
    the interruption state that is written to physical memory when a machine
    check, an INIT or a PMI enters the firmware, and read back when the
    firmware resumes the interrupted context.  The requests that other threads
    post are in [Interrupt]. *)
From stdpp Require Import list numbers.
From S2P Require Import Prelude Arch Env Alat Registers Interrupt RseMap RseRnat RseOps RsePart RseSteps RseLoads RseFrames RseReturns RseAlloc RseRuns RseContext RseOutside.
Local Open Scope Z_scope.

(** ** Definitions *)

Definition IA64_GR_GLOBAL_POINTER : Z := 1.
Definition IA64_GR_RETURN0 : Z := 8.
Definition IA64_GR_RETURN1 : Z := 9.
Definition IA64_GR_RETURN2 : Z := 10.
Definition IA64_GR_STACK_POINTER : Z := 12.
Definition IA64_BR_RETURN_LINK : Z := 0.
Definition IA64_BR_STATIC0 : Z := 1.
Definition IA64_RAS_GR_SAL_MIN_STATE : Z := 16.
Definition IA64_RAS_GR_PAL_MIN_STATE : Z := 17.
Definition IA64_RAS_GR_PROCESSOR_STATE : Z := 18.
Definition IA64_RAS_GR_PALE_RETURN : Z := 19.
Definition IA64_RAS_GR_SALE_ENTRY_STATE : Z := 20.
Definition IA64_RAS_GR_PMI_VECTOR : Z := 24.
Definition IA64_RAS_GR_PMI_MIN_STATE : Z := 25.
Definition IA64_RAS_GR_PMI_RSC : Z := 26.
Definition IA64_RAS_GR_PMI_B0 : Z := 27.
Definition IA64_RAS_GR_PMI_B1 : Z := 28.
Definition IA64_RAS_GR_PMI_PREDICATES : Z := 29.
Definition IA64_MIN_STATE_QWORDS : Z := 128.
Definition sizeof_min_state : Z := 1024.

(** [static_gr] holds the registers from 1 to 15. *)
Record IA64MinimalStateArea : Type := mkMinState {
  nat_bits : Z;
  static_gr : list Z;
  bank0_gr : list Z;
  bank1_gr : list Z;
  min_pr : Z;
  min_br0 : Z;
  min_rsc : Z;
  min_iip : Z;
  min_ipsr : Z;
  min_ifs : Z;
  min_xip : Z;
  min_xpsr : Z;
  min_xfs : Z;
  min_br1 : Z;
  reserved : list Z
}.

#[export] Instance eta_IA64MinimalStateArea : Eta IA64MinimalStateArea := fun s =>
  mkMinState (nat_bits s) (static_gr s) (bank0_gr s) (bank1_gr s) (min_pr s) (min_br0 s) (min_rsc s) (min_iip s)
    (min_ipsr s) (min_ifs s) (min_xip s) (min_xpsr s) (min_xfs s) (min_br1 s) (reserved s).

Definition zero_min_state : IA64MinimalStateArea :=
  mkMinState 0 (zeros 15) (zeros 16) (zeros 16) 0 0 0 0 0 0 0 0 0 0 (zeros 70).

(** *** The image *)

(** The words of the structure in order. *)
Definition min_state_words (st : IA64MinimalStateArea) : list Z :=
  [nat_bits st] ++ static_gr st ++ bank0_gr st ++ bank1_gr st ++
  [min_pr st; min_br0 st; min_rsc st; min_iip st; min_ipsr st; min_ifs st; min_xip st; min_xpsr st; min_xfs st; min_br1 st] ++
  reserved st.

Definition words_min_state (w : list Z) : IA64MinimalStateArea :=
  mkMinState (aget w 0) (take 15 (drop 1 w)) (take 16 (drop 16 w)) (take 16 (drop 32 w))
    (aget w 48) (aget w 49) (aget w 50) (aget w 51) (aget w 52) (aget w 53) (aget w 54) (aget w 55) (aget w 56) (aget w 57)
    (take 70 (drop 58 w)).

(** The bytes of a little-endian doubleword. *)
Definition le64_bytes (w : Z) : list Z := (fun i => (w >>> (8 * i)) .& 0xff) <$> seqZ 0 8.

Definition le64_word (b : list Z) : Z := foldr (fun byte w => byte .| (w <<< 8)) 0 b.

(** [word[i] = cpu_to_le64(word[i])] for every word, as the bytes that the
    buffer then has, and [word[i] = le64_to_cpu(word[i])]. *)
Definition ia64_min_state_to_le (st : IA64MinimalStateArea) : list Z :=
  concat (le64_bytes <$> min_state_words st).

Definition ia64_min_state_from_le (b : list Z) : IA64MinimalStateArea :=
  words_min_state ((fun i => le64_word (take 8 (drop (Z.to_nat (8 * i)) b))) <$> seqZ 0 IA64_MIN_STATE_QWORDS).

Definition ia64_min_state_address_valid (cc : IA64CPUClass) (address : Z) : bool :=
  let pa := ia64_physical_address address in
  let limit := 1 <<< phys_addr_bits cc in
  negb (address =? 0) && (address .& 0x1ff =? 0) && ia64_pa_is_implemented cc address &&
  (sizeof_min_state <=? limit) && (pa <=? limit - sizeof_min_state).

Definition ia64_min_state_nat_bits (env : CPUIA64State) : Z :=
  let value := for_range 1 15 (fun value i => value .| (Z.b2z (ia64_gr_nat_get env i) <<< i)) 0 in
  for_range 0 16 (fun value i =>
    let '(bank0_nat, bank1_nat) :=
      if truth (psr env .& IA64_PSR_BN)
      then (truth ((banked_nat env >>> i) .& 1), ia64_gr_nat_get env (16 + i))
      else (ia64_gr_nat_get env (16 + i), truth ((banked_nat env >>> i) .& 1)) in
    value .| (Z.b2z bank0_nat <<< (16 + i)) .| (Z.b2z bank1_nat <<< (32 + i))) value.

Definition ia64_min_state_collect_banks (env : CPUIA64State) (state : IA64MinimalStateArea) : IA64MinimalStateArea :=
  for_range 0 16 (fun state i =>
    if truth (psr env .& IA64_PSR_BN)
    then state <| bank0_gr @ i := aget (banked_gr env) i |> <| bank1_gr @ i := aget (gr env) (16 + i) |>
    else state <| bank0_gr @ i := aget (gr env) (16 + i) |> <| bank1_gr @ i := aget (banked_gr env) i |>) state.

(** The image that [ia64_ras_save_min_state] writes. *)
Definition collect_min_state (env : CPUIA64State) : IA64MinimalStateArea :=
  let state := zero_min_state <| nat_bits := ia64_min_state_nat_bits env |> in
  let state := for_range 0 15 (fun state i => state <| static_gr @ i := aget (gr env) (i + 1) |>) state in
  let state := ia64_min_state_collect_banks env state in
  let state := state <| min_pr := ia64_system_read_pr env |> <| min_br0 := aget (br env) IA64_BR_RETURN_LINK |>
    <| min_rsc := ar_rsc env |> <| min_iip := ip env |> <| min_ipsr := psr env |>
    <| min_ifs := IA64_IFS_V .| ia64_rse_current_cfm env |> in
  let state :=
    if truth (psr env .& IA64_PSR_IC)
    then state <| min_xip := min_iip state |> <| min_xpsr := min_ipsr state |> <| min_xfs := min_ifs state |>
    else state <| min_xip := cr_iip env |> <| min_xpsr := cr_ipsr env |> <| min_xfs := cr_ifs env |> in
  state <| min_br1 := aget (br env) IA64_BR_STATIC0 |>.

Definition ia64_ras_context_cfm (state : IA64RSEContextState) : Z :=
  ctx_cfm_sof state .| (ctx_cfm_sol state <<< IA64_CFM_SOL_SHIFT) .| (ctx_cfm_sor state <<< IA64_CFM_SOR_SHIFT) .|
  (ctx_cfm_rrb_gr state <<< IA64_CFM_RRB_GR_SHIFT) .| (ctx_cfm_rrb_fr state <<< IA64_CFM_RRB_FR_SHIFT) .|
  (ctx_cfm_rrb_pr state <<< IA64_CFM_RRB_PR_SHIFT).

(** *** Restoring *)

(** [banked_nat] is a [uint16_t]. *)
Definition set_banked_nat (env : CPUIA64State) (i : Z) (nat : bool) : CPUIA64State :=
  if nat then env <| banked_nat ::= fun b => u16 (b .| u32 (1 <<< i)) |>
  else env <| banked_nat ::= fun b => u16 (b .& ~32 (1 <<< i)) |>.

Definition restore_static (state : IA64MinimalStateArea) (env : CPUIA64State) : CPUIA64State :=
  for_range 0 15 (fun env i =>
    ia64_gr_nat_set (env <| gr @ i + 1 := aget (static_gr state) i |>) (i + 1)
      (truth ((nat_bits state >>> (i + 1)) .& 1))) env.

Definition restore_banks (state : IA64MinimalStateArea) (env : CPUIA64State) : CPUIA64State :=
  for_range 0 16 (fun env i =>
    let bank0_nat := truth ((nat_bits state >>> (16 + i)) .& 1) in
    let bank1_nat := truth ((nat_bits state >>> (32 + i)) .& 1) in
    if truth (min_ipsr state .& IA64_PSR_BN) then
      set_banked_nat (ia64_gr_nat_set (env <| banked_gr @ i := aget (bank0_gr state) i |>
                                           <| gr @ 16 + i := aget (bank1_gr state) i |>) (16 + i) bank1_nat) i bank0_nat
    else
      set_banked_nat (ia64_gr_nat_set (env <| gr @ 16 + i := aget (bank0_gr state) i |>
                                           <| banked_gr @ i := aget (bank1_gr state) i |>) (16 + i) bank0_nat) i bank1_nat)
    env.

(** The branch registers, [RSC], [IP] and, when its collection was off, the
    interruption state. *)
Definition restore_control (state : IA64MinimalStateArea) (new_context : bool) (env : CPUIA64State) : CPUIA64State :=
  let env := ia64_system_write_pr env (min_pr state .| 1) UINT64_MAX in
  let env := env <| br @ IA64_BR_RETURN_LINK := min_br0 state |> in
  let env := if negb new_context then env <| br @ IA64_BR_STATIC0 := min_br1 state |> else env in
  let env := env <| ar @ IA64_AR_RSC := min_rsc state |> <| ip := min_iip state |> in
  let env := if negb (truth (min_ipsr state .& IA64_PSR_IC))
             then env <| cr @ IA64_CR_IIP := min_xip state |> <| cr @ IA64_CR_IPSR := min_xpsr state |>
                      <| cr @ IA64_CR_IFS := min_xfs state |> else env in
  env <| instruction_group_start := true |>.

(** The frame marker that the image names. *)
Definition min_state_cfm (state : IA64MinimalStateArea) : Z := min_ifs state .& IA64_IFS_IFM_MASK.

Definition min_state_ifs_valid (state : IA64MinimalStateArea) : bool :=
  let cfm := min_state_cfm state in
  truth (min_ifs state .& IA64_IFS_V) && (min_ifs state .& ~64 (IA64_IFS_V .| IA64_IFS_IFM_MASK) =? 0) &&
  ia64_cfm_frame_fields_valid (u32 (cfm .& IA64_CFM_SOF_MASK)) (u32 ((cfm .& IA64_CFM_SOL_MASK) >>> IA64_CFM_SOL_SHIFT))
    (u32 ((cfm .& IA64_CFM_SOR_MASK) >>> IA64_CFM_SOR_SHIFT)).

(** [ia64_exec_physical_rw] in its two directions: whether the area was
    written, and the bytes read from it. *)
Class RasWorld (W : Type) : Type := {
  physical_write : Z -> list Z -> rse_sys W -> bool * rse_sys W;
  physical_read : Z -> Z -> rse_sys W -> option (list Z) * rse_sys W
}.

Section ras.
Context {W : Type} `{World : RseWorld W} `{Ras : RasWorld W}.

Local Abbreviation cc := (@cpu_class W World).

Definition ask {A} (f : rse_sys W -> A * rse_sys W) : RM W A := fun s => let (b, s') := f s in Ok b s'.

Definition ia64_ras_save_min_state (address : Z) : RM W bool :=
  if negb (ia64_min_state_address_valid cc address) then mret false
  else
    let! env := getenv in
    ask (physical_write (ia64_physical_address address) (ia64_min_state_to_le (collect_min_state env))).

Definition ia64_ras_restore_min_state (address : Z) (new_context : bool) : RM W bool :=
  if negb (ia64_min_state_address_valid cc address) then mret false
  else
    let! image := ask (physical_read (ia64_physical_address address) sizeof_min_state) in
    match image with
    | None => mret false
    | Some bytes =>
        let state := ia64_min_state_from_le bytes in
        let cfm := min_state_cfm state in
        let! cpu := mget (fun s => sys_cpu s) in
        if negb (min_state_ifs_valid state) then mret false
        else if negb new_context && (negb (mca_rse_valid cpu) || negb (cfm =? ia64_ras_context_cfm (mca_rse cpu)))
        then mret false
        else
          mwhen (negb new_context) (modenv (fun env => ia64_rse_restore_context env (mca_rse cpu))) ;;;
          modenv (restore_static state) ;;;
          let! env := getenv in
          let old_psr := psr env in
          modcpu (fun cpu => ia64_set_psr cpu (min_ipsr state)) ;;;
          modenv (restore_banks state) ;;;
          modenv (restore_control state new_context) ;;;
          mmod (ia64_flush_on_pk_change old_psr) ;;;
          mmod ia64_tlb_serialize ;;;
          mwhen new_context (ia64_rse_return_from_min_state cfm) ;;;
          modcpu (fun cpu => cpu <| mca_rse_valid := false |>) ;;;
          mret true
    end.

(** *** Entering the firmware *)

(** The registers from [first] on are written and their NaT bits cleared. *)
Definition clear_nats (l : list Z) (env : CPUIA64State) : CPUIA64State :=
  foldl (fun env r => ia64_gr_nat_set env r false) env l.

(** The end of the three entries: the handler's first instruction. *)
Definition ras_start (entry : Z) (old_psr : Z) : RM W unit :=
  modenv (fun env => env <| ip := ia64_physical_address entry |> <| instruction_group_start := true |>) ;;;
  modcpu (fun cpu => cpu <| halted := false |>) ;;;
  mmod (ia64_flush_on_pk_change old_psr) ;;;
  mmod ia64_tlb_serialize.

Definition ia64_ras_enter_pmi (vector : Z) : RM W bool :=
  let! env := getenv in
  let save_address := pal_mc_save_addr (pal env) in
  if pal_pmi_entry (pal env) =? 0 then mret false
  else
    let! saved := if negb (save_address =? 0) then ia64_ras_save_min_state save_address else mret true in
    if negb saved then mret false
    else
      modcpu (fun cpu => ia64_set_psr cpu (IA64_PSR_BN .| IA64_PSR_MC)) ;;;
      modenv (fun env' =>
        let env' := env' <| ar @ IA64_AR_RSC := 0 |> <| gr @ IA64_RAS_GR_PMI_VECTOR := vector |>
          <| gr @ IA64_RAS_GR_PMI_MIN_STATE := save_address |> <| gr @ IA64_RAS_GR_PMI_RSC := ar_rsc env |>
          <| gr @ IA64_RAS_GR_PMI_B0 := aget (br env) IA64_BR_RETURN_LINK |>
          <| gr @ IA64_RAS_GR_PMI_B1 := aget (br env) IA64_BR_STATIC0 |>
          <| gr @ IA64_RAS_GR_PMI_PREDICATES := ia64_system_read_pr env |> in
        clear_nats (seqZ IA64_RAS_GR_PMI_VECTOR 6) env') ;;;
      ras_start (pal_pmi_entry (pal env)) (psr env) ;;;
      mret true.

(** The interrupted frame is saved and left below an empty one; the handler
    starts in bank 1 with machine checks masked and the engine in lazy mode. *)
Definition ras_leave (old_psr : Z) : RM W unit :=
  modcpu (fun cpu => let '(e, state) := ia64_rse_save_context (env cpu) in
                     cpu <| env := e |> <| mca_rse := state |> <| mca_rse_valid := true |>) ;;;
  modenv ia64_rse_cover ;;;
  modcpu (fun cpu => ia64_set_psr cpu
    (IA64_PSR_BN .| IA64_PSR_MC .| (old_psr .& (IA64_PSR_MFL .| IA64_PSR_MFH .| IA64_PSR_PK)))) ;;;
  modenv (fun env => env <| ar @ IA64_AR_RSC := ar_rsc env .& ~64 IA64_RSC_MODE |>).

Definition ia64_ras_enter_mca : RM W bool :=
  let! cpu := mget (fun s => sys_cpu s) in
  let e := env cpu in
  let p := pal e in
  let save_address := pal_mc_save_addr p in
  if negb (pal_mca_pending p) || truth (psr e .& IA64_PSR_MC) then mret false
  else if pal_mca_active p then mret false
  else
    let! saved := if boot_info_valid cpu && negb (pal_mca_entry p =? 0)
                  then ia64_ras_save_min_state save_address else mret false in
    if negb saved then
      modcpu (fun cpu => ia64_sapic_update_interrupt (cpu <| env; pal ::= fun p => p <| pal_mca_pending := false |> |>)) ;;;
      mret false
    else
      let record_id := pal_mca_pending_record_id p in
      modenv (fun env => env <| pal ::= fun p =>
        p <| pal_mca_pending := false |> <| pal_mca_active := true |> <| pal_mca_active_record_id := record_id |> |>) ;;;
      ras_leave (psr e) ;;;
      modenv (fun env =>
        let env := env <| gr @ IA64_RAS_GR_SAL_MIN_STATE := u64 (save_address + sizeof_min_state) |>
          <| gr @ IA64_RAS_GR_PAL_MIN_STATE := save_address |>
          <| gr @ IA64_RAS_GR_PROCESSOR_STATE := pal_mc_state_parameter (pal env) |>
          <| gr @ IA64_RAS_GR_PALE_RETURN := 0 |> <| gr @ IA64_RAS_GR_SALE_ENTRY_STATE := 1 |> in
        let env := clear_nats (seqZ IA64_RAS_GR_SAL_MIN_STATE 5) env in
        let env := env <| gr @ IA64_GR_GLOBAL_POINTER := pal_mca_gp (pal env) |>
          <| gr @ IA64_GR_STACK_POINTER := stack_pointer (boot_info cpu) |> <| gr @ IA64_GR_RETURN0 := record_id |>
          <| gr @ IA64_GR_RETURN1 := pal_mc_severity p |> <| gr @ IA64_GR_RETURN2 := save_address |> in
        clear_nats [IA64_GR_GLOBAL_POINTER; IA64_GR_STACK_POINTER; IA64_GR_RETURN0; IA64_GR_RETURN1; IA64_GR_RETURN2] env) ;;;
      ras_start (pal_mca_entry p) (psr e) ;;;
      modcpu ia64_sapic_update_interrupt ;;;
      mret true.

Definition ia64_ras_enter_init : RM W bool :=
  let! cpu := mget (fun s => sys_cpu s) in
  let e := env cpu in
  let p := pal e in
  let save_address := pal_mc_save_addr p in
  let! saved := if sapic_init_pending (interrupt e) && negb (pal_init_active p) && boot_info_valid cpu &&
                   negb (pal_init_entry p =? 0)
                then ia64_ras_save_min_state save_address else mret false in
  if negb saved then mret false
  else
    let reason := sapic_init_reason (interrupt e) in
    modcpu (fun cpu => snd (ia64_sapic_accept_init cpu)) ;;;
    modenv (fun env => env <| pal ::= fun p => p <| pal_init_active := true |> |>) ;;;
    ras_leave (psr e) ;;;
    modenv (fun env =>
      let env := env <| gr @ IA64_GR_GLOBAL_POINTER := pal_init_gp (pal env) |>
        <| gr @ IA64_GR_STACK_POINTER := stack_pointer (boot_info cpu) |> <| gr @ IA64_GR_RETURN0 := reason |>
        <| gr @ IA64_GR_RETURN1 := save_address |> in
      clear_nats [IA64_GR_GLOBAL_POINTER; IA64_GR_STACK_POINTER; IA64_GR_RETURN0; IA64_GR_RETURN1] env) ;;;
    ras_start (pal_init_entry p) (psr e) ;;;
    modcpu ia64_sapic_update_interrupt ;;;
    mret true.
End ras.

(** ** The image *)

Lemma le64_bytes_length w : length (le64_bytes w) = 8%nat.
Proof. done. Qed.

Lemma le_bytes_word w n : forall k,
  0 <= k ->
  foldr (fun byte w => byte .| (w <<< 8)) 0 ((fun i => (w >>> (8 * i)) .& 0xff) <$> seqZ k (Z.of_nat n)) =
  wrap (8 * Z.of_nat n) (w >>> (8 * k)).
Proof.
  induction n as [|n IH]; intros k Hk; [unfold wrap; by rewrite Z.mul_0_r, Z.pow_0_r, Z.mod_1_r|].
  rewrite seqZ_cons by lia. cbn [fmap list_fmap foldr]. replace (Z.pred (Z.of_nat (S n))) with (Z.of_nat n) by lia.
  replace (Z.succ k) with (k + 1) by lia. unfold fmap in IH. rewrite IH by lia. change 0xff with (Z.ones 8).
  zbits. cbn [orb]. f_equal. lia.
Qed.

Lemma le64_roundtrip w : uint 64 w -> le64_word (le64_bytes w) = w.
Proof.
  intros Hw. pose proof (le_bytes_word w 8 0 ltac:(lia)) as E. cbn [Z.mul] in E. rewrite Z.shiftr_0_r in E.
  transitivity (wrap 64 w); [exact E|]. by apply wrap_small.
Qed.

(** The eight bytes of one word of a block. *)
Lemma chunk_concat ws i :
  0 <= i < alen ws -> take 8 (drop (Z.to_nat (8 * i)) (concat (le64_bytes <$> ws))) = le64_bytes (aget ws i).
Proof.
  intros Hi. replace (Z.to_nat (8 * i)) with (8 * Z.to_nat i)%nat by lia.
  assert (Hn : (Z.to_nat i < length ws)%nat) by lia.
  assert (Ea : ws !! Z.to_nat i = Some (aget ws i)).
  { unfold aget. destruct (Z.leb_spec 0 i); [|lia]. destruct (lookup_lt_is_Some_2 ws (Z.to_nat i) Hn) as [x Hx]. by rewrite Hx. }
  clear Hi. revert Hn Ea. generalize (aget ws i) as x. generalize (Z.to_nat i) as n. clear i.
  induction ws as [|w ws IH]; intros n x Hn Ea; [cbn in Hn; lia|]. destruct n as [|n].
  - cbn in Ea. injection Ea as ->. rewrite Nat.mul_0_r, drop_0.
    change (concat (le64_bytes <$> x :: ws)) with (le64_bytes x ++ concat (le64_bytes <$> ws)). by rewrite take_app_length'.
  - change (concat (le64_bytes <$> w :: ws)) with (le64_bytes w ++ concat (le64_bytes <$> ws)). rewrite drop_app_ge by (rewrite le64_bytes_length; lia). rewrite le64_bytes_length.
    replace (8 * S n - 8)%nat with (8 * n)%nat by lia. apply IH; [cbn in Hn; lia|done].
Qed.

Record min_state_wf (st : IA64MinimalStateArea) : Prop := {
  ms_static : length (static_gr st) = 15%nat;
  ms_bank0 : length (bank0_gr st) = 16%nat;
  ms_bank1 : length (bank1_gr st) = 16%nat;
  ms_reserved : length (reserved st) = 70%nat;
  ms_u64 : Forall (uint 64) (min_state_words st)
}.

Lemma concat_bytes_length ws : length (concat (le64_bytes <$> ws)) = (8 * length ws)%nat.
Proof.
  induction ws as [|w ws IH]; [done|]. change (concat (le64_bytes <$> w :: ws)) with (le64_bytes w ++ concat (le64_bytes <$> ws)).
  rewrite length_app, le64_bytes_length, IH. cbn [length]. lia.
Qed.

Lemma words_of_length st : min_state_wf st -> length (min_state_words st) = 128%nat.
Proof. intros [H1 H2 H3 H4 _]. unfold min_state_words. rewrite !length_app. cbn [length]. by rewrite H1, H2, H3, H4. Qed.

Lemma image_length st : min_state_wf st -> alen (ia64_min_state_to_le st) = 1024.
Proof. intros H. unfold ia64_min_state_to_le. by rewrite concat_bytes_length, words_of_length. Qed.

Lemma image_bytes st : Forall (uint 8) (ia64_min_state_to_le st).
Proof.
  unfold ia64_min_state_to_le. induction (min_state_words st) as [|w ws IH]; [constructor|].
  change (concat (le64_bytes <$> w :: ws)) with (le64_bytes w ++ concat (le64_bytes <$> ws)). apply Forall_app. split; [|done].
  unfold le64_bytes. apply Forall_fmap, Forall_true. intros i. cbn. apply uint_land_r; [lia|uint_const].
Qed.

Lemma words_roundtrip st : min_state_wf st -> words_min_state (min_state_words st) = st.
Proof.
  intros [H1 H2 H3 H4 _]. destruct st as [n sg b0 b1 p r0 rs ii ps fs xi xp xf r1 rv].
  cbn [static_gr bank0_gr bank1_gr reserved] in *.
  do 15 (destruct sg as [|? sg]; [discriminate|]). destruct sg; [|discriminate].
  do 16 (destruct b0 as [|? b0]; [discriminate|]). destruct b0; [|discriminate].
  do 16 (destruct b1 as [|? b1]; [discriminate|]). destruct b1; [|discriminate].
  do 70 (destruct rv as [|? rv]; [discriminate|]). destruct rv; [|discriminate].
  reflexivity.
Qed.

(** Reading back what was written gives the same state. *)
Lemma image_roundtrip st : min_state_wf st -> ia64_min_state_from_le (ia64_min_state_to_le st) = st.
Proof.
  intros H. rewrite <- (words_roundtrip st H) at 2. unfold ia64_min_state_from_le. f_equal.
  pose proof (words_of_length st H) as Hl. apply aget_ext.
  - by rewrite length_fmap, length_seqZ, Hl.
  - intros i. rewrite length_fmap, length_seqZ. intros Hi. change (Z.of_nat (Z.to_nat IA64_MIN_STATE_QWORDS)) with 128 in Hi.
    rewrite aget_map by (rewrite length_seqZ; unfold IA64_MIN_STATE_QWORDS; lia).
    assert (Ei : aget (seqZ 0 IA64_MIN_STATE_QWORDS) i = i).
    { unfold aget. destruct (Z.leb_spec 0 i); [|lia]. rewrite lookup_seqZ_lt by (unfold IA64_MIN_STATE_QWORDS; lia). cbn. lia. }
    rewrite Ei. unfold ia64_min_state_to_le. rewrite chunk_concat by lia. apply le64_roundtrip.
    apply Forall_aget; [apply H|uint_const].
Qed.

(** ** What the image holds *)

(** Register [16 + i] of a bank, whether it is the current one or not. *)
Definition bank_reg (e : CPUIA64State) (bank1 : bool) (i : Z) : Z * bool :=
  if Bool.eqb bank1 (truth (psr e .& IA64_PSR_BN))
  then (aget (gr e) (16 + i), ia64_gr_nat_get e (16 + i))
  else (aget (banked_gr e) i, Z.testbit (banked_nat e) i).

Definition static_reg (e : CPUIA64State) (r : Z) : Z * bool := (aget (gr e) r, ia64_gr_nat_get e r).

Lemma nat_bits_spec e j :
  0 <= j ->
  Z.testbit (ia64_min_state_nat_bits e) j =
  ((1 <=? j) && (j <? 16) && ia64_gr_nat_get e j ||
   (16 <=? j) && (j <? 32) && snd (bank_reg e false (j - 16)) ||
   (32 <=? j) && (j <? 48) && snd (bank_reg e true (j - 32))).
Proof.
  intros Hj. unfold ia64_min_state_nat_bits. cbv zeta.
  set (v := for_range 1 15 _ 0).
  assert (Hv : Z.testbit v j = (1 <=? j) && (j <? 16) && ia64_gr_nat_get e j).
  { apply (for_range_ind (fun i v => Z.testbit v j = (1 <=? j) && (j <? i) && ia64_gr_nat_get e j) 1 15); [lia| |].
    - rewrite Z.testbit_0_l. zcmp; done.
    - intros i s Hi E. rewrite Z.lor_spec, E, shiftl_spec', testbit_b2z by lia.
      destruct (Z.eqb_spec j i) as [->|]; [rewrite Z.sub_diag|]; zcmp; btauto. }
  clearbody v.
  transitivity ((1 <=? j) && (j <? 16) && ia64_gr_nat_get e j ||
   (16 <=? j) && (j <? 16 + (0 + 16)) && snd (bank_reg e false (j - 16)) ||
   (32 <=? j) && (j <? 32 + (0 + 16)) && snd (bank_reg e true (j - 32))); [|done].
  match goal with |- Z.testbit (for_range 0 16 ?f v) j = _ =>
    apply (for_range_ind (fun i w => Z.testbit w j = ((1 <=? j) && (j <? 16) && ia64_gr_nat_get e j ||
   (16 <=? j) && (j <? 16 + i) && snd (bank_reg e false (j - 16)) ||
   (32 <=? j) && (j <? 32 + i) && snd (bank_reg e true (j - 32)))) 0 16 f v) end; [lia| |].
  - rewrite Hv. zcmp; btauto.
  - intros i s Hi E. cbv beta.
    assert (Eb : (if truth (psr e .& IA64_PSR_BN)
       then (truth ((banked_nat e >>> i) .& 1), ia64_gr_nat_get e (16 + i))
       else (ia64_gr_nat_get e (16 + i), truth ((banked_nat e >>> i) .& 1))) =
       (snd (bank_reg e false i), snd (bank_reg e true i))).
    { unfold bank_reg. rewrite truth_shiftr_1 by lia. by destruct (truth (psr e .& IA64_PSR_BN)). }
    rewrite Eb. rewrite !Z.lor_spec, E, !shiftl_spec', !testbit_b2z by lia.
    destruct (Z.eqb_spec j (16 + i)) as [->|]; [replace (16 + i - 16) with i by lia; zcmp; btauto|].
    destruct (Z.eqb_spec j (32 + i)) as [->|]; [replace (32 + i - 32) with i by lia; zcmp; btauto|].
    zcmp; btauto.
Qed.

Lemma static_loop e st :
  length (static_gr st) = 15%nat ->
  exists l, for_range 0 15 (fun state i => state <| static_gr @ i := aget (gr e) (i + 1) |>) st = st <| static_gr := l |> /\
    length l = 15%nat /\ forall k, 0 <= k < 15 -> aget l k = aget (gr e) (k + 1).
Proof.
  intros Hl. apply (for_range_ind (fun i s => exists l, s = st <| static_gr := l |> /\ length l = 15%nat /\
    forall k, 0 <= k < i -> aget l k = aget (gr e) (k + 1)) 0 15); [lia| |].
  - exists (static_gr st). split_and!; [by destruct st|done|lia].
  - intros i s Hi (l & -> & Hl' & Hk). exists (aset l i (aget (gr e) (i + 1))). split_and!; [done|by rewrite aset_length|].
    intros k Hk'. rewrite aget_aset by lia. destruct (Z.eqb_spec i k) as [->|]; [done|]. apply Hk. lia.
Qed.

Lemma banks_loop e st :
  length (bank0_gr st) = 16%nat -> length (bank1_gr st) = 16%nat ->
  exists l0 l1, ia64_min_state_collect_banks e st = st <| bank0_gr := l0 |> <| bank1_gr := l1 |> /\
    length l0 = 16%nat /\ length l1 = 16%nat /\
    forall k, 0 <= k < 16 -> aget l0 k = fst (bank_reg e false k) /\ aget l1 k = fst (bank_reg e true k).
Proof.
  intros H0 H1. unfold ia64_min_state_collect_banks.
  apply (for_range_ind (fun i s => exists l0 l1, s = st <| bank0_gr := l0 |> <| bank1_gr := l1 |> /\
    length l0 = 16%nat /\ length l1 = 16%nat /\
    forall k, 0 <= k < i -> aget l0 k = fst (bank_reg e false k) /\ aget l1 k = fst (bank_reg e true k)) 0 16); [lia| |].
  - exists (bank0_gr st), (bank1_gr st). split_and!; [by destruct st|done|done|lia].
  - intros i s Hi (l0 & l1 & -> & Hl0 & Hl1 & Hk).
    exists (aset l0 i (fst (bank_reg e false i))), (aset l1 i (fst (bank_reg e true i))).
    split_and!; [|by rewrite aset_length..|].
    + unfold bank_reg. by destruct (truth (psr e .& IA64_PSR_BN)).
    + intros k Hk'. rewrite !aget_aset by lia. destruct (Z.eqb_spec i k) as [->|]; [done|]. apply Hk. lia.
Qed.

(** The interruption state of the image: the interrupted state again when it
    would be collected. *)
Definition image_of (e : CPUIA64State) (sg b0 b1 : list Z) : IA64MinimalStateArea :=
  let c := truth (psr e .& IA64_PSR_IC) in
  let ifs := IA64_IFS_V .| ia64_rse_current_cfm e in
  mkMinState (ia64_min_state_nat_bits e) sg b0 b1 (ia64_system_read_pr e) (aget (br e) IA64_BR_RETURN_LINK) (ar_rsc e)
    (ip e) (psr e) ifs (if c then ip e else cr_iip e) (if c then psr e else cr_ipsr e) (if c then ifs else cr_ifs e)
    (aget (br e) IA64_BR_STATIC0) (zeros 70).

Lemma collect_image e :
  exists sg b0 b1, collect_min_state e = image_of e sg b0 b1 /\
    length sg = 15%nat /\ length b0 = 16%nat /\ length b1 = 16%nat /\
    (forall k, 0 <= k < 15 -> aget sg k = aget (gr e) (k + 1)) /\
    (forall k, 0 <= k < 16 -> aget b0 k = fst (bank_reg e false k) /\ aget b1 k = fst (bank_reg e true k)).
Proof.
  unfold collect_min_state. cbv zeta.
  destruct (static_loop e (zero_min_state <| nat_bits := ia64_min_state_nat_bits e |>)) as (sg & -> & Hl & Hs); [done|].
  match goal with |- context [ia64_min_state_collect_banks e ?t] => destruct (banks_loop e t) as (b0 & b1 & -> & H0 & H1 & Hb); [done..|] end.
  exists sg, b0, b1. split_and!; try done. unfold image_of. cbv zeta. by destruct (truth (psr e .& IA64_PSR_IC)).
Qed.

(** The processor's registers have their widths. *)
Record regs_wf (e : CPUIA64State) : Prop := {
  rw_banks : banks_wf e;
  rw_gr : Forall (uint 64) (gr e);
  rw_banked : Forall (uint 64) (banked_gr e);
  rw_br : length (br e) = 8%nat /\ Forall (uint 64) (br e);
  rw_cr : length (cr e) = 128%nat /\ Forall (uint 64) (cr e);
  rw_ar : length (ar e) = 128%nat /\ Forall (uint 64) (ar e);
  rw_ip : uint 64 (ip e);
  rw_psr : uint 64 (psr e)
}.

Lemma aget_Forall (P : Z -> Prop) l : (forall i, 0 <= i < alen l -> P (aget l i)) -> Forall P l.
Proof. 
  intros H. apply Forall_lookup_2. intros i x Hx. pose proof (lookup_lt_Some _ _ _ Hx).
  specialize (H (Z.of_nat i) ltac:(lia)). unfold aget in H. destruct (Z.leb_spec 0 (Z.of_nat i)); [|lia].
  by rewrite Nat2Z.id, Hx in H.
Qed.

Lemma current_cfm_range cl K e : rse_inv cl K e -> uint 38 (ia64_rse_current_cfm e).
Proof.
  intros Hi. pose proof (vw_frame _ (ri_views _ _ _ Hi)) as [Hsof Hsor Hrg _].
  pose proof (ri_sol _ _ _ Hi) as Hsol. destruct (ri_rrb _ _ _ Hi) as [Hf Hp].
  assert (Hrg' : cfm_rrb_gr e < 128) by (destruct (cfm_sor e =? 0); lia).
  unfold ia64_rse_current_cfm. repeat (apply uint_lor; [lia| |]).
  all: first [unfold uint; lia|apply (uint_shiftl 38 7); (done || unfold uint; lia)|
     apply (uint_shiftl 38 4); (done || unfold uint; lia)|apply (uint_shiftl 38 6); (done || unfold uint; lia)].
Qed.

Lemma bank_reg_uint e b i : regs_wf e -> uint 64 (fst (bank_reg e b i)).
Proof.
  intros Hw. unfold bank_reg. case_match; apply Forall_aget; try apply Hw; uint_const.
Qed.

Lemma collect_wf cl K e : regs_wf e -> rse_inv cl K e -> min_state_wf (collect_min_state e).
Proof.
  intros Hw Hi. destruct (collect_image e) as (sg & b0 & b1 & -> & Hl & H0 & H1 & Hs & Hb).
  split; try done. unfold min_state_words, image_of. cbn.
  pose proof (current_cfm_range cl K e Hi) as Hc.
  assert (Hifs : uint 64 (IA64_IFS_V .| ia64_rse_current_cfm e)).
  { apply uint_lor; [lia|uint_const|]. by apply (uint_mono 38). }
  assert (Hcr : forall i, uint 64 (aget (cr e) i)) by (intros i; apply Forall_aget; [apply Hw|uint_const]).
  assert (Hbr : forall i, uint 64 (aget (br e) i)) by (intros i; apply Forall_aget; [apply Hw|uint_const]).
  assert (Hpr : uint 64 (ia64_system_read_pr e)).
  { apply bits_uint; [lia|]. intros j Hj. rewrite read_pr_spec by (apply Hi || lia). zcmp. done. }
  assert (Hn : uint 64 (ia64_min_state_nat_bits e)).
  { apply bits_uint; [lia|]. intros j Hj. rewrite nat_bits_spec by lia. zcmp. done. }
  pose proof (rw_ip e Hw) as Hip. pose proof (rw_psr e Hw) as Hpsr.
  assert (Hrsc : uint 64 (ar_rsc e)) by (unfold ar_rsc; apply Forall_aget; [apply Hw|uint_const]).
  constructor; [done|]. rewrite !Forall_app. split_and!.
  - apply aget_Forall. intros k Hk. rewrite Hs by lia. apply Forall_aget; [apply Hw|uint_const].
  - apply aget_Forall. intros k Hk. rewrite (proj1 (Hb k ltac:(lia))). by apply bank_reg_uint.
  - apply aget_Forall. intros k Hk. rewrite (proj2 (Hb k ltac:(lia))). by apply bank_reg_uint.
  - repeat (constructor; [destruct (truth (psr e .& IA64_PSR_IC)); first [done|apply Hbr|apply Hcr]|]).
    constructor.
Qed.

(** ** Restoring the image *)

(** Registers of a file replaced by those of the image. *)
Record put (lo hi : Z) (v : Z -> Z) (n : Z -> bool) (e s : CPUIA64State) : Prop := {
  pt_frame : s = e <| gr := gr s |> <| nat_ := nat_ s |>;
  pt_len : length (gr s) = 128%nat /\ length (nat_ s) = 2%nat /\ Forall (uint 64) (nat_ s);
  pt_gr : forall r, 0 <= r < 128 -> aget (gr s) r = if (lo <=? r) && (r <? hi) then v r else aget (gr e) r;
  pt_nat : forall r, 0 <= r < 128 -> bm_get (nat_ s) r = if (lo <=? r) && (r <? hi) then n r else bm_get (nat_ e) r
}.

Lemma put_start lo v n e : banks_wf e -> put lo lo v n e e.
Proof. intros []. split; [by destruct e|done|..]; intros r Hr; zcmp; done. Qed.

Lemma put_step lo r v n e s :
  0 < r < 128 -> lo <= r -> put lo r v n e s ->
  put lo (r + 1) v n e (ia64_gr_nat_set (s <| gr @ r := v r |>) r (n r)).
Proof.
  intros Hr Hlo [Hf (Hg & Hn & Hu) Pg Pn].
  match goal with |- context [ia64_gr_nat_set ?t r _] =>
    destruct (gr_nat_set_spec t r (n r) Hn Hu Hr) as (m & E & Hm1 & Hm2 & Hm3); rewrite E end. clear E.
  split.
  - rewrite Hf. done.
  - cbn. rewrite aset_length. done.
  - cbn. intros j Hj. rewrite aget_aset by lia. rewrite Pg by done. zcmp; subst; try done; lia.
  - cbn. intros j Hj. rewrite Hm3 by lia. cbn. rewrite Pn by done. zcmp; subst; try done; lia.
Qed.

Lemma restore_static_put st e :
  banks_wf e ->
  put 1 16 (fun r => aget (static_gr st) (r - 1)) (fun r => Z.testbit (nat_bits st) r) e (restore_static st e).
Proof.
  intros Hw. unfold restore_static.
  apply (for_range_ind (fun i s => put 1 (i + 1) (fun r => aget (static_gr st) (r - 1)) (fun r => Z.testbit (nat_bits st) r) e s) 0 15);
    [lia|by apply put_start|].
  intros i s Hi Hp. rewrite truth_shiftr_1 by lia.
  pose proof (put_step 1 (i + 1) _ _ e s ltac:(lia) ltac:(lia) Hp) as H. cbv beta in H.
  replace (i + 1 - 1) with i in H by lia. exact H.
Qed.

(** One register of each bank. *)
Lemma put_pair t bg bn i r x y b c :
  set_banked_nat (ia64_gr_nat_set ((t <| banked_gr := bg |> <| banked_nat := bn |>) <| banked_gr @ i := x |>
     <| gr @ r := y |>) r b) i c =
  (ia64_gr_nat_set (t <| gr @ r := y |>) r b) <| banked_gr := aset bg i x |>
    <| banked_nat := if c then u16 (bn .| u32 (1 <<< i)) else u16 (bn .& ~32 (1 <<< i)) |>.
Proof. unfold set_banked_nat, ia64_gr_nat_set. by destruct (r =? 0), b, c. Qed.

Lemma put_pair' t bg bn i r x y b c :
  set_banked_nat (ia64_gr_nat_set ((t <| banked_gr := bg |> <| banked_nat := bn |>) <| gr @ r := y |>
     <| banked_gr @ i := x |>) r b) i c =
  (ia64_gr_nat_set (t <| gr @ r := y |>) r b) <| banked_gr := aset bg i x |>
    <| banked_nat := if c then u16 (bn .| u32 (1 <<< i)) else u16 (bn .& ~32 (1 <<< i)) |>.
Proof. unfold set_banked_nat, ia64_gr_nat_set. by destruct (r =? 0), b, c. Qed.

Lemma u16_bit b i (x : bool) :
  uint 16 b -> 0 <= i < 16 ->
  let b' := if x then u16 (b .| u32 (1 <<< i)) else u16 (b .& ~32 (1 <<< i)) in
  uint 16 b' /\ forall k, 0 <= k < 16 -> Z.testbit b' k = if i =? k then x else Z.testbit b k.
Proof.
  intros Hb Hi. cbv zeta. split; [destruct x; auto with word|].
  intros k Hk. destruct x; rewrite shiftl_1_pow2 by lia; zbits_step;
    rewrite ?orb_true_r, ?orb_false_r, ?andb_true_r, ?andb_false_r; done.
Qed.

(** The banks of the image, as the [bank_reg] of a processor with its [PSR]. *)
Definition image_bank (st : IA64MinimalStateArea) (bank1 : bool) (i : Z) : Z * bool :=
  (aget (if bank1 then bank1_gr st else bank0_gr st) i, Z.testbit (nat_bits st) ((if bank1 then 32 else 16) + i)).

Record put_banks (st : IA64MinimalStateArea) (hi : Z) (e s : CPUIA64State) : Prop := mkPutBanks {
  pb_file : exists t bg bn, s = t <| banked_gr := bg |> <| banked_nat := bn |> /\
    put 16 (16 + hi) (fun r => fst (image_bank st (truth (min_ipsr st .& IA64_PSR_BN)) (r - 16)))
      (fun r => snd (image_bank st (truth (min_ipsr st .& IA64_PSR_BN)) (r - 16))) e t;
  pb_len : length (banked_gr s) = 16%nat /\ uint 16 (banked_nat s);
  pb_banked k : 0 <= k < 16 ->
    aget (banked_gr s) k = if k <? hi then fst (image_bank st (negb (truth (min_ipsr st .& IA64_PSR_BN))) k)
                           else aget (banked_gr e) k;
  pb_banked_nat k : 0 <= k < 16 ->
    Z.testbit (banked_nat s) k = if k <? hi then snd (image_bank st (negb (truth (min_ipsr st .& IA64_PSR_BN))) k)
                                 else Z.testbit (banked_nat e) k
}.

Lemma restore_banks_put st e : banks_wf e -> put_banks st 16 e (restore_banks st e).
Proof.
  intros Hw. unfold restore_banks. apply (for_range_ind (fun i s => put_banks st i e s) 0 16); [lia| |].
  { pose proof Hw as []. split; try done.
    - exists e, (banked_gr e), (banked_nat e). split; [by destruct e|by apply put_start].
    - intros k Hk. by zcmp.
    - intros k Hk. by zcmp. }
  intros i s Hi [(t & bg & bn & -> & Hp) [Hl Hu] Hb Hbn]. cbv zeta. rewrite !truth_shiftr_1 by lia.
  cbn [banked_gr banked_nat upd] in Hl, Hu, Hb, Hbn.
  set (bit := truth (min_ipsr st .& IA64_PSR_BN)) in *.
  match goal with |- put_banks _ _ _ ?s' => assert (E : s' =
    (ia64_gr_nat_set (t <| gr @ 16 + i := fst (image_bank st bit i) |>) (16 + i) (snd (image_bank st bit i)))
      <| banked_gr := aset bg i (fst (image_bank st (negb bit) i)) |>
      <| banked_nat := if snd (image_bank st (negb bit) i) then u16 (bn .| u32 (1 <<< i)) else u16 (bn .& ~32 (1 <<< i)) |>);
    [|rewrite E; clear E] end.
  { destruct bit; [apply put_pair|apply put_pair']. }
  pose proof (put_step 16 (16 + i) _ _ e t ltac:(lia) ltac:(lia) Hp) as Hp'. cbv beta in Hp'.
  replace (16 + i - 16) with i in Hp' by lia. replace (16 + i + 1) with (16 + (i + 1)) in Hp' by lia.
  destruct (u16_bit bn i (snd (image_bank st (negb bit) i)) Hu ltac:(lia)) as [Hu' Hbit].
  split; fold bit.
  - eexists _, _, _. split; [done|]. exact Hp'.
  - cbn [banked_gr banked_nat upd]. by rewrite aset_length.
  - intros k Hk. cbn [banked_gr upd]. rewrite aget_aset by lia. rewrite Hb by done. zcmp; subst; try done; lia.
  - intros k Hk. cbn [banked_nat upd]. rewrite Hbit, Hbn by done. zcmp; subst; try done; lia.
Qed.

Lemma put_kept lo hi v n e s : 0 < lo -> hi <= 32 -> banks_wf e -> put lo hi v n e s -> kept e s.
Proof.
  intros Hlo Hhi Hw [Hf (Hg & Hn & Hu) Pg Pn]. revert Hf Hg Hn Hu Pg Pn. generalize (gr s) as g, (nat_ s) as m. intros g m -> Hg Hn Hu Pg Pn.
  split; try done; cbn.
  - by rewrite Hg, (bk_gr e Hw).
  - intros r Hr. rewrite Pg by lia. by zcmp.
  - intros r Hr. rewrite Pn by lia. by zcmp.
Qed.

Lemma put_banks_wf lo hi v n e s : banks_wf e -> put lo hi v n e s -> banks_wf s.
Proof.
  intros [] [Hf (Hg & Hn & Hu) _ _]. revert Hf Hg Hn Hu. generalize (gr s) as g, (nat_ s) as m. intros g m -> Hg Hn Hu. by split.
Qed.

(** A change of [PSR] leaves the other registers alone. *)
Lemma set_psr_regs cpu v :
  banks_wf (env cpu) ->
  let e := env cpu in
  let e' := env (ia64_set_psr cpu v) in
  banks_wf e' /\ psr e' = v /\ kept e e' /\
  (br e', ar e', cr e', pr e', cfm_rrb_pr e') = (br e, ar e, cr e, pr e, cfm_rrb_pr e) /\
  forall r, 0 <= r < 16 -> aget (gr e') r = aget (gr e) r /\ bm_get (nat_ e') r = bm_get (nat_ e) r.
Proof.
  intros Hw. cbv zeta. destruct (set_psr_kept cpu v) as [Hk Hp]. destruct (set_psr_env cpu v) as (x & e1 & E & Hu & Hb).
  set (sw := if truth _ then ia64_swap_banked_gr (env cpu) else env cpu) in Hb.
  assert (Hs : banks_wf sw /\ forall r, 0 <= r < 16 ->
    aget (gr sw) r = aget (gr (env cpu)) r /\ bm_get (nat_ sw) r = bm_get (nat_ (env cpu)) r).
  { unfold sw. destruct (truth _); [|done]. destruct (swap_swapped _ Hw) as [_ Hsw Hg Hn _ _]. split; [done|].
    intros r Hr. rewrite Hg, Hn by lia. by zcmp. }
  clearbody sw. destruct Hs as [Hsw Hr]. injection Hb as B1 B2 B3 B4.
  assert (Ho : (br e1, ar e1, cr e1, pr e1, cfm_rrb_pr e1) =
    (br (env cpu), ar (env cpu), cr (env cpu), pr (env cpu), cfm_rrb_pr (env cpu)))
    by exact (f_equal (fun e => (br e, ar e, cr e, pr e, cfm_rrb_pr e)) Hu).
  split_and!; try done; rewrite E.
  - destruct Hsw. split; cbn; congruence.
  - exact Ho.
  - cbn. by rewrite B1, B2.
Qed.

(** What the image is read for. *)
Record loaded (st : IA64MinimalStateArea) (e e3 : CPUIA64State) : Prop := {
  ld_static r : 1 <= r < 16 -> static_reg e3 r = (aget (static_gr st) (r - 1), Z.testbit (nat_bits st) r);
  ld_bank b i : 0 <= i < 16 -> bank_reg e3 b i = image_bank st b i;
  ld_psr : psr e3 = min_ipsr st;
  ld_ip : ip e3 = min_iip st;
  ld_rsc : ar_rsc e3 = min_rsc st;
  ld_br : aget (br e3) IA64_BR_RETURN_LINK = min_br0 st /\ aget (br e3) IA64_BR_STATIC0 = min_br1 st;
  ld_pr : ia64_system_read_pr e3 = min_pr st .| 1;
  ld_cr : if truth (min_ipsr st .& IA64_PSR_IC) then cr e3 = cr e
          else cr_iip e3 = min_xip st /\ cr_ipsr e3 = min_xpsr st /\ cr_ifs e3 = min_xfs st;
  ld_stack : exists e', kept e e' /\ stack_fields e3 = stack_fields e'
}.

(** All the predicates, written and read back. *)
Lemma read_written_pr x v :
  alen (pr x) = 64 -> 0 <= cfm_rrb_pr x -> uint 64 v ->
  ia64_system_read_pr (ia64_system_write_pr x (v .| 1) UINT64_MAX) = v .| 1.
Proof.
  intros Hl Hr Hv. apply Z.bits_inj'. intros i Hi. rewrite read_pr_spec by (done || lia).
  rewrite Z.lor_spec, testbit_1_l. destruct (Z.eqb_spec i 0) as [->|]; [by rewrite orb_true_r|]. cbn [orb]. rewrite orb_false_r.
  destruct (Z.ltb_spec i 64); [|by rewrite (uint_bits 64 v) by (done || lia)].
  rewrite write_pr_phys by (done || lia || uint_const). change UINT64_MAX with (Z.ones 64).
  rewrite ones_spec, Z.lor_spec, testbit_1_l by lia. zcmp. by rewrite orb_false_r.
Qed.

Lemma read_pr_fields e e' : pr e = pr e' -> cfm_rrb_pr e = cfm_rrb_pr e' -> ia64_system_read_pr e = ia64_system_read_pr e'.
Proof. intros E1 E2. unfold ia64_system_read_pr. by rewrite E1, E2. Qed.

Lemma control_spec st x :
  length (br x) = 8%nat -> length (ar x) = 128%nat -> length (cr x) = 128%nat -> alen (pr x) = 64 ->
  0 <= cfm_rrb_pr x -> uint 64 (min_pr st) ->
  let y := restore_control st false x in
  (gr y, nat_ y, banked_gr y, banked_nat y, psr y) = (gr x, nat_ x, banked_gr x, banked_nat x, psr x) /\
  ip y = min_iip st /\ ar_rsc y = min_rsc st /\
  (aget (br y) IA64_BR_RETURN_LINK = min_br0 st /\ aget (br y) IA64_BR_STATIC0 = min_br1 st) /\
  ia64_system_read_pr y = min_pr st .| 1 /\
  (if truth (min_ipsr st .& IA64_PSR_IC) then cr y = cr x
   else cr_iip y = min_xip st /\ cr_ipsr y = min_xpsr st /\ cr_ifs y = min_xfs st) /\
  stack_fields y = stack_fields x.
Proof.
  intros Hbr Har Hcr Hpr Hrrb Hu. cbv zeta.
  assert (Hy : restore_control st false x = (ia64_system_write_pr x (min_pr st .| 1) UINT64_MAX)
    <| br := aset (aset (br x) IA64_BR_RETURN_LINK (min_br0 st)) IA64_BR_STATIC0 (min_br1 st) |>
    <| ar @ IA64_AR_RSC := min_rsc st |> <| ip := min_iip st |>
    <| cr := if truth (min_ipsr st .& IA64_PSR_IC) then cr x
             else aset (aset (aset (cr x) IA64_CR_IIP (min_xip st)) IA64_CR_IPSR (min_xpsr st)) IA64_CR_IFS (min_xfs st) |>
    <| instruction_group_start := true |>).
  { unfold restore_control. cbn [negb]. by destruct (truth (min_ipsr st .& IA64_PSR_IC)). }
  rewrite Hy. clear Hy.
  split_and!; try done.
  - transitivity (aget (aset (ar x) IA64_AR_RSC (min_rsc st)) IA64_AR_RSC); [done|]. apply aget_aset_eq. by rewrite Har.
  - cbn [br upd]. rewrite aget_aset_ne, aget_aset_eq by (by rewrite ?Hbr). done.
  - cbn [br upd]. apply aget_aset_eq. by rewrite aset_length, Hbr.
  - transitivity (ia64_system_read_pr (ia64_system_write_pr x (min_pr st .| 1) UINT64_MAX));
      [apply read_pr_fields; reflexivity|by apply read_written_pr].
  - destruct (truth (min_ipsr st .& IA64_PSR_IC)); [done|]. unfold cr_iip, cr_ipsr, cr_ifs. cbn [cr upd].
    rewrite !aget_aset by (rewrite ?aset_length, Hcr; done). done.
  - etransitivity; [|apply (ar_other_fields x IA64_AR_RSC (min_rsc st)); done]. done.
Qed.

Lemma restore_regs_loaded st cpu :
  banks_wf (env cpu) -> length (br (env cpu)) = 8%nat -> length (ar (env cpu)) = 128%nat -> length (cr (env cpu)) = 128%nat ->
  alen (pr (env cpu)) = 64 -> 0 <= cfm_rrb_pr (env cpu) -> uint 64 (min_pr st) ->
  loaded st (env cpu) (restore_control st false (restore_banks st
    (env (ia64_set_psr (cpu <| env ::= restore_static st |>) (min_ipsr st))))).
Proof.
  intros Hw Hbr Har Hcr Hpr Hrrb Hu. pose proof (restore_static_put st (env cpu) Hw) as H1.
  set (c1 := cpu <| env ::= restore_static st |>). change (restore_static st (env cpu)) with (env c1) in H1.
  assert (Hw1 : banks_wf (env c1)) by by eapply put_banks_wf.
  assert (Hk1 : kept (env cpu) (env c1)) by (eapply put_kept; [| |done|exact H1]; lia).
  destruct (set_psr_regs c1 (min_ipsr st) Hw1) as (Hw2 & Ep2 & Hk2 & Eo2 & Er2).
  set (e2 := env (ia64_set_psr c1 (min_ipsr st))) in *. clearbody e2.
  assert (Eo1 : (br (env c1), ar (env c1), cr (env c1), pr (env c1), cfm_rrb_pr (env c1)) =
    (br (env cpu), ar (env cpu), cr (env cpu), pr (env cpu), cfm_rrb_pr (env cpu))) by (rewrite (pt_frame _ _ _ _ _ _ H1); done).
  rewrite Eo1 in Eo2. clear Eo1. destruct (restore_banks_put st e2 Hw2) as [(t & bg & bn & E3 & H3) _ Hb Hbn].
  assert (Eo3 : (br (restore_banks st e2), ar (restore_banks st e2), cr (restore_banks st e2), pr (restore_banks st e2),
    cfm_rrb_pr (restore_banks st e2)) = (br e2, ar e2, cr e2, pr e2, cfm_rrb_pr e2) /\ psr (restore_banks st e2) = psr e2 /\
    gr (restore_banks st e2) = gr t /\ nat_ (restore_banks st e2) = nat_ t).
  { rewrite E3. split_and!; try done; by rewrite (pt_frame _ _ _ _ _ _ H3). }
  assert (Hk3 : kept (env cpu) (restore_banks st e2)).
  { eapply kept_trans; [exact Hk1|]. eapply kept_trans; [exact Hk2|].
    eapply kept_trans; [eapply put_kept; [| |exact Hw2|exact H3]; lia|]. rewrite E3. by split. }
  set (x := restore_banks st e2) in *. clearbody x. destruct Eo3 as (Eo3 & Ep3 & Eg3 & En3). rewrite Eo2 in Eo3. clear Eo2 E3.
  injection Eo3 as E1 E4 E5 E6 E7.
  destruct (control_spec st x) as (C1 & C2 & C3 & C4 & C5 & C6 & C7); try congruence.
  set (y := restore_control st false x) in *. clearbody y. injection C1 as G1 G2 G3 G4 G5.
  assert (Hreg : forall r, 0 < r < 128 -> (aget (gr y) r, ia64_gr_nat_get y r) = (aget (gr t) r, bm_get (nat_ t) r)).
  { intros r Hr. rewrite gr_nat_get_bm by lia. by rewrite G1, G2, Eg3, En3. }
  assert (Epsr : psr y = min_ipsr st) by congruence.
  split; try done.
  - intros r Hr. unfold static_reg. rewrite Hreg by lia. rewrite (pt_gr _ _ _ _ _ _ H3), (pt_nat _ _ _ _ _ _ H3) by lia. zcmp.
    destruct (Er2 r ltac:(lia)) as [-> ->]. rewrite (pt_gr _ _ _ _ _ _ H1), (pt_nat _ _ _ _ _ _ H1) by lia. by zcmp.
  - intros b i Hi. unfold bank_reg. rewrite Epsr. set (bit := truth (min_ipsr st .& IA64_PSR_BN)) in *.
    destruct (Bool.eqb b bit) eqn:Eb.
    + apply Bool.eqb_prop in Eb. subst b. rewrite Hreg by lia.
      rewrite (pt_gr _ _ _ _ _ _ H3), (pt_nat _ _ _ _ _ _ H3) by lia. zcmp. replace (16 + i - 16) with i by lia.
      by destruct (image_bank st bit i).
    + assert (b = negb bit) as -> by (destruct b, bit; done). rewrite G3, G4, Hb, Hbn by done. zcmp.
      by destruct (image_bank st (negb bit) i).
  - by rewrite <- E5.
  - exists x. split; [exact Hk3|done].
Qed.

(** ** The interrupted frame marker *)

Lemma current_cfm_marker cl K e :
  rse_inv cl K e ->
  let m := ia64_rse_current_cfm e in
  marker_sof m = cfm_sof e /\ marker_sol m = cfm_sol e /\ marker_sor m = cfm_sor e /\
  marker_rrb_gr m = cfm_rrb_gr e /\ marker_rrb_fr m = cfm_rrb_fr e /\ marker_rrb_pr m = cfm_rrb_pr e.
Proof.
  intros Hi. pose proof (current_cfm_range cl K e Hi) as Hu. pose proof (vw_frame _ (ri_views _ _ _ Hi)) as [Hsof Hsor Hrg _].
  pose proof (ri_sol _ _ _ Hi) as Hsol. destruct (ri_rrb _ _ _ Hi) as [Hf Hp].
  assert (Hrg' : cfm_rrb_gr e < 128) by (destruct (cfm_sor e =? 0); lia).
  destruct (saved_fields (cfm_sof e) (cfm_sol e) (cfm_sor e) (cfm_rrb_gr e) (cfm_rrb_fr e) (cfm_rrb_pr e) 0) as (_ & S);
    [unfold uint; lia..|].
  rewrite Z.shiftl_0_l, Z.lor_0_r in S.
  change (cfm_sof e .| (cfm_sol e <<< 7) .| (cfm_sor e <<< 14) .| (cfm_rrb_gr e <<< 18) .| (cfm_rrb_fr e <<< 25) .|
    (cfm_rrb_pr e <<< 32)) with (ia64_rse_current_cfm e) in S.
  change IA64_PFS_PFM_MASK with (2 ^ 38 - 1) in S. rewrite land_mask, wrap_small in S by (done || lia). exact S.
Qed.

Lemma current_ifs cl K e :
  rse_inv cl K e ->
  let ifs := IA64_IFS_V .| ia64_rse_current_cfm e in
  ifs .& IA64_IFS_IFM_MASK = ia64_rse_current_cfm e /\ truth (ifs .& IA64_IFS_V) = true /\
  ifs .& ~64 (IA64_IFS_V .| IA64_IFS_IFM_MASK) = 0.
Proof.
  intros Hi. pose proof (current_cfm_range cl K e Hi) as Hu. cbv zeta. generalize dependent (ia64_rse_current_cfm e).
  intros m Hu. change IA64_IFS_IFM_MASK with (Z.ones 38). change IA64_IFS_V with (2 ^ 63).
  split_and!; [zbits|rewrite truth_land_pow2, Z.lor_spec by lia; by rewrite pow2_spec by lia|zbits].
Qed.

Lemma collect_ifs cl K e :
  rse_inv cl K e ->
  min_state_ifs_valid (collect_min_state e) = true /\ min_state_cfm (collect_min_state e) = ia64_rse_current_cfm e.
Proof.
  intros Hi. destruct (current_ifs cl K e Hi) as (E1 & E2 & E3). destruct (current_cfm_marker cl K e Hi) as (M1 & M2 & M3 & _).
  destruct (collect_image e) as (sg & b0 & b1 & -> & _). unfold min_state_ifs_valid, min_state_cfm, image_of. cbn [min_ifs].
  split; [|done]. rewrite E1, E2, E3. cbn [andb Z.eqb]. fold (marker_sof (ia64_rse_current_cfm e)) (marker_sol (ia64_rse_current_cfm e))
    (marker_sor (ia64_rse_current_cfm e)). rewrite M1, M2, M3.
  pose proof (vw_frame _ (ri_views _ _ _ Hi)) as [Hsof Hsor _ _]. pose proof (ri_sol _ _ _ Hi) as Hsol.
  unfold ia64_cfm_frame_fields_valid. change IA64_STACKED_GR_COUNT with 96. rewrite Z.shiftl_mul_pow2 by lia.
  rewrite !wrap_small by (unfold uint; rewrite ?wrap_small by (unfold uint; lia); lia).
  rewrite !andb_true_iff, !Z.leb_le. lia.
Qed.

(** ** Saving and restoring *)

Lemma loaded_exception st e e3 f : loaded st e e3 -> loaded st e (e3 <| exception_state ::= f |>).
Proof. intros []. split; done. Qed.



(** [phys w a] is the byte of physical memory at [a].  A successful write
    stores the bytes and a successful read returns them; either may fail, and
    neither touches the processor. *)
Class RasLaws (W : Type) `{World : RseWorld W} `{Laws : !RseWorldLaws W} `{Ras : RasWorld W} : Type := {
  phys : W -> Z -> Z;
  write_law a b s :
    sys_cpu (snd (physical_write a b s)) = sys_cpu s /\
    (Forall (uint 8) b -> fst (physical_write a b s) = true -> forall i, 0 <= i < alen b ->
       phys (sys_world (snd (physical_write a b s))) (a + i) = aget b i);
  read_law a n s :
    sys_cpu (snd (physical_read a n s)) = sys_cpu s /\
    forall b, 0 <= n -> fst (physical_read a n s) = Some b -> alen b = n /\ forall i, 0 <= i < n -> aget b i = phys (sys_world s) (a + i);
  phys_purges s a : phys (sys_world (complete_pending_purges s)) a = phys (sys_world s) a;
  phys_translations s a : phys (sys_world (flush_translations s)) a = phys (sys_world s) a
}.

Section roundtrip.
Context {W : Type} `{World : RseWorld W} `{Laws : !RseWorldLaws W} `{Ras : RasWorld W} `{RLaws : !RasLaws W}.

Local Abbreviation cc := (@cpu_class W World).

(** The area at [address] has the image. *)
Definition holds (address : Z) (st : IA64MinimalStateArea) (s : rse_sys W) : Prop :=
  forall i, 0 <= i < sizeof_min_state ->
    phys (sys_world s) (ia64_physical_address address + i) = aget (ia64_min_state_to_le st) i.

Lemma save_spec address cl K s :
  regs_wf (senv s) -> rse_inv cl K (senv s) ->
  ensures (ia64_ras_save_min_state address s)
    (fun ok s' => sys_cpu s' = sys_cpu s /\
       (ok = true -> ia64_min_state_address_valid cc address = true /\ holds address (collect_min_state (senv s)) s'))
    (fun _ _ => False).
Proof.
  intros Hw Hi. unfold ia64_ras_save_min_state. destruct (ia64_min_state_address_valid cc address); cbn [negb]; [|done].
  apply ensures_getenv. unfold ask. match goal with |- context [physical_write ?a ?b s] => destruct (write_law a b s) as [Ec Hb] end.
  destruct (physical_write _ _ s) as [ok s']. cbn [fst snd ensures] in *. split; [done|]. intros ->. split; [done|].
  intros i Hr. apply Hb; [apply image_bytes|done|]. by rewrite (image_length _ (collect_wf cl K _ Hw Hi)).
Qed.

Lemma holds_image address st s b :
  min_state_wf st -> holds address st s ->
  fst (physical_read (ia64_physical_address address) sizeof_min_state s) = Some b -> ia64_min_state_from_le b = st.
Proof.
  intros Hw Hh Hr. destruct (read_law (ia64_physical_address address) sizeof_min_state s) as [_ Hb].
  destruct (Hb b ltac:(done) Hr) as [Hl Hg]. rewrite <- (image_roundtrip st Hw). f_equal. pose proof (image_length st Hw) as Hi. apply aget_ext.
  - apply Nat2Z.inj. rewrite Hl, Hi. done.
  - intros i Hr'. rewrite Hg by lia. apply Hh. by rewrite <- Hl.
Qed.
(** A processor that the image can be restored to. *)
Record restorable (e : CPUIA64State) : Prop := {
  rs_banks : banks_wf e;
  rs_br : length (br e) = 8%nat;
  rs_ar : length (ar e) = 128%nat;
  rs_cr : length (cr e) = 128%nat;
  rs_pr : length (pr e) = 64%nat
}.

Lemma restore_spec address st s b :
  ia64_min_state_address_valid cc address = true -> min_state_wf st -> holds address st s ->
  fst (physical_read (ia64_physical_address address) sizeof_min_state s) = Some b ->
  min_state_ifs_valid st = true -> mca_rse_valid (sys_cpu s) = true ->
  min_state_cfm st = ia64_ras_context_cfm (mca_rse (sys_cpu s)) ->
  let e := ia64_rse_restore_context (senv s) (mca_rse (sys_cpu s)) in
  restorable e -> 0 <= cfm_rrb_pr e ->
  exists s', ia64_ras_restore_min_state address false s = Ok true s' /\ mca_rse_valid (sys_cpu s') = false /\
    loaded st e (senv s').
Proof.
  intros Hv Hw Hh Hr Hifs Hm Hc e [R1 R2 R3 R4 R5] Hrrb. unfold ia64_ras_restore_min_state. rewrite Hv. cbn [negb].
  pose proof (holds_image address st s b Hw Hh Hr) as Hst.
  destruct (read_law (ia64_physical_address address) sizeof_min_state s) as [Ec _].
  unfold mbind at 1. unfold ask at 1. destruct (physical_read _ _ s) as [r s0]. cbn [fst snd] in *. subst r.
  cbv zeta. rewrite Hst, Hifs.
  change (mbind (mget (fun s => sys_cpu s)) ?k s0) with (k (sys_cpu s0) s0). cbv beta. rewrite Ec, Hm, Hc, Z.eqb_refl.
  cbn [negb orb andb mwhen]. rewrite !bind_modenv, bind_getenv. set (s1 := s0 <| sys_cpu; env ::= _ |>).
  assert (E1 : sys_cpu s1 = (sys_cpu s) <| env := e |>) by (unfold s1, e; by rewrite <- Ec).
  clearbody s1. rewrite bind_modcpu, !bind_modenv, !bind_mmod, bind_ret, bind_modcpu.
  assert (Hu : uint 64 (min_pr st)).
  { pose proof (ms_u64 st Hw) as Hf. unfold min_state_words in Hf. rewrite !Forall_app in Hf.
    destruct Hf as (_ & _ & _ & _ & Hf & _). by inversion Hf. }
  pose proof (restore_regs_loaded st (sys_cpu s1)) as Hl. rewrite E1 in Hl.
  specialize (Hl R1 R2 R3 R4 ltac:(change (alen (pr e) = 64); by rewrite R5) Hrrb Hu). rewrite <- E1 in Hl.
  assert (Ee : senv s1 = e) by by rewrite E1. rewrite Ee in Hl. clear Ee.
  match goal with |- context [ia64_flush_on_pk_change ?o ?t] => set (s2 := t);
    destruct (pk_change_inert o s2) as [E3 _]; set (s3 := ia64_flush_on_pk_change o s2) in * end.
  assert (Hl2 : loaded st e (senv s2)) by exact Hl. clearbody s2. clear Hl. clearbody s3.
  destruct (serialize_env s3) as [E4 _]. set (s4 := ia64_tlb_serialize s3) in *. clearbody s4.
  eexists. split; [done|]. split; [done|]. change (loaded st e (senv s4)). rewrite E4, E3.
  apply (loaded_exception st e _ (fun x => x <| psr_i_deferred := false |>)).
  by apply (loaded_exception st e _ (fun x => x <| psr_ic_inflight := false |>)).
Qed.
End roundtrip.

(** ** Restoring keeps the declared sizes *)

Lemma pr_gr_nat_set e r b : pr (ia64_gr_nat_set e r b) = pr e.
Proof. unfold ia64_gr_nat_set. by repeat case_match. Qed.

Lemma pr_rse f e : pr (e <| rse ::= f |>) = pr e.
Proof. done. Qed.

Lemma pr_spans fuel : forall e first end_ sor rrb c, pr (sync_in_spans fuel e first end_ sor rrb c) = pr e.
Proof.
  induction fuel as [|fuel IH]; intros; [done|]. cbn [sync_in_spans]. cbv zeta. case_match; [|done].
  match goal with |- context [if ?b then _ else _] => destruct b end; rewrite IH; by destruct c.
Qed.

Lemma pr_sync_in e : pr (ia64_rse_sync_frame_in e) = pr e.
Proof.
  unfold ia64_rse_sync_frame_in, ia64_rse_sync_frame_in_direct, ia64_rse_sync_frame_in_slow, sync_in_copy,
    ia64_rse_sync_frame_in_range. cbv zeta.
  assert (Hl : forall m n (f : CPUIA64State -> Z -> CPUIA64State) x, (forall s i, pr (f s i) = pr s) -> pr (for_range m n f x) = pr x).
  { intros m n f x Hf. apply (for_range_inv (fun s => pr s = pr x)); [done|]. intros i s _ <-. apply Hf. }
  repeat case_match; rewrite ?pr_rse, ?pr_spans; try done; apply Hl; intros; by rewrite ?pr_gr_nat_set.
Qed.

Lemma set_rrb_pr_length e r : length (pr (ia64_set_cfm_rrb_pr e r)) = length (pr e).
Proof.
  unfold ia64_set_cfm_rrb_pr, ia64_set_cfm_rrb_pr_slow. cbv zeta. repeat case_match; try done; cbn [pr upd];
    unfold rebase_down_one, rebase_up_one; by rewrite ?aset_length, ?memcpy_length.
Qed.

Lemma restore_pr_length st e : length (pr (ia64_rse_restore_context e st)) = length (pr e).
Proof.
  unfold ia64_rse_restore_context. rewrite pr_sync_in.
  change (length (pr (restore_marker st (restore_rnat st (restore_file st e)))) = length (pr e)).
  unfold restore_marker. cbv zeta. rewrite set_rrb_pr_length. unfold ia64_set_cfm_rrb_fr. cbv zeta. by repeat case_match.
Qed.

Lemma restorable_context cl K st e :
  restorable e -> rse_inv cl K (ia64_rse_restore_context e st) -> restorable (ia64_rse_restore_context e st).
Proof.
  intros [Hb Hbr Har Hcr Hpr] Hi. pose proof (restore_elsewhere st e) as E. pose proof (ri_views _ _ _ Hi) as Hv.
  pose proof (restore_pr_length st e) as Ep. generalize dependent (ia64_rse_restore_context e st). intros x Hi E Hv Ep.
  assert (E1 : br x = br e) by exact (f_equal br E). assert (E2 : cr x = cr e) by exact (f_equal cr E).
  assert (E3 : banked_gr x = banked_gr e) by exact (f_equal banked_gr E).
  assert (E4 : banked_nat x = banked_nat e) by exact (f_equal banked_nat E).
  destruct Hb, (vw_nat _ Hv). split; [split; try congruence; try done; apply Hv|congruence|apply Hi|congruence..].
Qed.

(** ** Entering the firmware *)

Section entries.
Context {W : Type} `{World : RseWorld W} `{Laws : !RseWorldLaws W} `{Ras : RasWorld W} `{RLaws : !RasLaws W}.

Local Abbreviation cc := (@cpu_class W World).

(** The saved engine and the physical memory are left alone. *)
Definition carries (s s' : rse_sys W) : Prop :=
  mca_rse (sys_cpu s') = mca_rse (sys_cpu s) /\ mca_rse_valid (sys_cpu s') = mca_rse_valid (sys_cpu s) /\
  forall a, phys (sys_world s') a = phys (sys_world s) a.

Lemma carries_refl s : carries s s.
Proof. done. Qed.

Lemma carries_trans s1 s2 s3 : carries s1 s2 -> carries s2 s3 -> carries s1 s3.
Proof. intros (A1 & A2 & A3) (B1 & B2 & B3). split_and!; [congruence..|]. intros a. by rewrite B3. Qed.

Lemma carries_env f s : carries s (s <| sys_cpu; env ::= f |>).
Proof. done. Qed.

Lemma set_psr_saved cpu v :
  mca_rse (ia64_set_psr cpu v) = mca_rse cpu /\ mca_rse_valid (ia64_set_psr cpu v) = mca_rse_valid cpu.
Proof. unfold ia64_set_psr, ia64_sapic_update_interrupt. cbv zeta. by repeat case_match. Qed.

Lemma carries_psr v s : carries s (s <| sys_cpu ::= fun cpu => ia64_set_psr cpu v |>).
Proof. destruct (set_psr_saved (sys_cpu s) v) as [E1 E2]. by split_and!. Qed.

Lemma carries_update s : carries s (s <| sys_cpu ::= ia64_sapic_update_interrupt |>).
Proof. split_and!; try done; cbn; unfold ia64_sapic_update_interrupt; by case_match. Qed.

Lemma carries_start entry old s :
  ensures (ras_start entry old s) (fun _ s' => carries s s') (fun _ _ => False).
Proof.
  unfold ras_start. rewrite bind_modenv, bind_modcpu, bind_mmod. cbn [ensures mmod].
  match goal with |- carries s (ia64_tlb_serialize (ia64_flush_on_pk_change old ?t)) => set (s1 := t) end.
  assert (H1 : carries s s1) by done. clearbody s1. eapply carries_trans; [exact H1|].
  set (s2 := ia64_flush_on_pk_change old s1).
  assert (H2 : carries s1 s2).
  { destruct (pk_change_inert old s1) as [E _]. unfold s2, carries. rewrite E. split_and!; try done. intros a.
    unfold ia64_flush_on_pk_change. case_match; [apply phys_translations|done]. }
  clearbody s2. eapply carries_trans; [exact H2|]. destruct (serialize_env s2) as [E _]. unfold carries. rewrite E.
  split_and!; try done. intros a. unfold ia64_tlb_serialize. by rewrite phys_purges.
Qed.

(** The interrupted engine is in [mca_rse]. *)
Lemma leave_saves old s :
  ensures (ras_leave old s) (fun _ s' => mca_rse (sys_cpu s') = snd (ia64_rse_save_context (senv s)) /\
    mca_rse_valid (sys_cpu s') = true /\ forall a, phys (sys_world s') a = phys (sys_world s) a) (fun _ _ => False).
Proof.
  unfold ras_leave. rewrite bind_modcpu. match goal with |- context [mbind (modenv ia64_rse_cover) _ ?t] => set (s1 := t) end.
  assert (H1 : mca_rse (sys_cpu s1) = snd (ia64_rse_save_context (senv s)) /\ mca_rse_valid (sys_cpu s1) = true /\
    sys_world s1 = sys_world s) by (unfold s1, ia64_rse_save_context; done).
  clearbody s1. rewrite bind_modenv, bind_modcpu. cbn [ensures modenv mmod].
  match goal with |- mca_rse (sys_cpu ?t) = _ /\ _ => assert (H2 : carries s1 t) end.
  { eapply carries_trans; [apply (carries_env ia64_rse_cover)|]. eapply carries_trans; [apply carries_psr|]. apply carries_env. }
  destruct H1 as (E1 & E2 & E3), H2 as (E4 & E5 & E6). split_and!; [congruence..|]. intros a. by rewrite E6, E3.
Qed.

(** What an entry leaves behind for the return. *)
Record ras_entered (s s1 : rse_sys W) : Prop := {
  ra_address : ia64_min_state_address_valid cc (pal_mc_save_addr (pal (senv s))) = true;
  ra_area : holds (pal_mc_save_addr (pal (senv s))) (collect_min_state (senv s)) s1;
  ra_engine : exists e, stack_fields e = stack_fields (senv s) /\ mca_rse (sys_cpu s1) = snd (ia64_rse_save_context e);
  ra_valid : mca_rse_valid (sys_cpu s1) = true
}.

Lemma holds_carried address st s s' :
  (forall a, phys (sys_world s') a = phys (sys_world s) a) -> holds address st s -> holds address st s'.
Proof. intros E H i Hi. rewrite E. by apply H. Qed.

Lemma leave_entered entry old s s0 f :
  ia64_min_state_address_valid cc (pal_mc_save_addr (pal (senv s))) = true ->
  holds (pal_mc_save_addr (pal (senv s))) (collect_min_state (senv s)) s0 -> stack_fields (senv s0) = stack_fields (senv s) ->
  ensures ((ras_leave old ;;; modenv f ;;; ras_start entry old ;;; modcpu ia64_sapic_update_interrupt ;;; mret true) s0)
    (fun ok s1 => ok = true -> ras_entered s s1) (fun _ _ => False).
Proof.
  intros Hv Hh Hf. eapply ensures_bind; [apply leave_saves|]. intros [] s1 (E1 & E2 & E3). rewrite bind_modenv.
  eapply ensures_bind; [apply carries_start|]. intros [] s2 H2. rewrite bind_modcpu. cbn [ensures mret]. intros _.
  match goal with |- ras_entered s ?t => assert (Hc : carries s1 t) end.
  { eapply carries_trans; [|apply carries_update]. eapply carries_trans; [|exact H2]. apply carries_env. }
  destruct Hc as (C1 & C2 & C3). split; [done| | |congruence].
  - eapply holds_carried; [|exact Hh]. intros a. by rewrite C3, E3.
  - exists (senv s0). split; [done|]. by rewrite C1.
Qed.

Lemma save_when cl K b address s :
  regs_wf (senv s) -> rse_inv cl K (senv s) ->
  ensures ((if b : bool then ia64_ras_save_min_state address else mret false) s)
    (fun ok s' => sys_cpu s' = sys_cpu s /\
       (ok = true -> ia64_min_state_address_valid cc address = true /\ holds address (collect_min_state (senv s)) s'))
    (fun _ _ => False).
Proof. intros Hw Hi. destruct b; [by eapply save_spec|done]. Qed.

Lemma enter_mca_entered cl K s :
  regs_wf (senv s) -> rse_inv cl K (senv s) ->
  ensures (ia64_ras_enter_mca s) (fun ok s1 => ok = true -> ras_entered s s1) (fun _ _ => False).
Proof.
  intros Hw Hi. unfold ia64_ras_enter_mca. change (mbind (mget (fun s => sys_cpu s)) ?k s) with (k (sys_cpu s) s). cbv beta zeta.
  destruct (_ || _); [done|]. destruct (pal_mca_active _); [done|].
  eapply ensures_bind; [by eapply save_when|]. intros [] s0 [E Hs]; [|done]. destruct (Hs eq_refl) as [Hv Hh]. cbn [negb].
  rewrite bind_modenv. apply leave_entered; [done|done|]. change (stack_fields (senv s0) = stack_fields (senv s)). by rewrite E.
Qed.

Lemma accept_init_stack cpu : stack_fields (env (snd (ia64_sapic_accept_init cpu))) = stack_fields (env cpu).
Proof. unfold ia64_sapic_accept_init. case_match; [done|]. cbn [snd]. by rewrite env_update. Qed.

Lemma enter_init_entered cl K s :
  regs_wf (senv s) -> rse_inv cl K (senv s) ->
  ensures (ia64_ras_enter_init s) (fun ok s1 => ok = true -> ras_entered s s1) (fun _ _ => False).
Proof.
  intros Hw Hi. unfold ia64_ras_enter_init. change (mbind (mget (fun s => sys_cpu s)) ?k s) with (k (sys_cpu s) s). cbv beta zeta.
  eapply ensures_bind; [by eapply save_when|]. intros [] s0 [E Hs]; [|done]. destruct (Hs eq_refl) as [Hv Hh]. cbn [negb].
  rewrite bind_modcpu, bind_modenv. apply leave_entered; [done|done|].
  rewrite <- E. apply (accept_init_stack (sys_cpu s0)).
Qed.

(** ** The interrupted context *)

(** The firmware returns to the same context: the static and banked registers,
    the predicates, the control state, the two branch registers of the minimal
    state, the interruption registers when they are not free for reuse, and the
    register stack are as they were. *)
Record same_context (cl : bool) (K : Z) (e e3 : CPUIA64State) : Prop := {
  sc_static r : 1 <= r < 16 -> static_reg e3 r = static_reg e r;
  sc_bank b i : 0 <= i < 16 -> bank_reg e3 b i = bank_reg e b i;
  sc_pr : ia64_system_read_pr e3 = ia64_system_read_pr e;
  sc_control : (psr e3, ip e3, ar_rsc e3) = (psr e, ip e, ar_rsc e);
  sc_br : aget (br e3) IA64_BR_RETURN_LINK = aget (br e) IA64_BR_RETURN_LINK /\
          aget (br e3) IA64_BR_STATIC0 = aget (br e) IA64_BR_STATIC0;
  sc_cr : truth (psr e .& IA64_PSR_IC) = false -> (cr_iip e3, cr_ipsr e3, cr_ifs e3) = (cr_iip e, cr_ipsr e, cr_ifs e);
  sc_inv : rse_inv cl K e3;
  sc_frame : frame_part e3 = frame_part e /\ count_part e3 = count_part e;
  sc_content p : 0 <= p < 96 -> content e3 p = content e p;
  sc_view v : 0 <= v < cfm_sof e -> view e3 v = view e v;
  sc_known a i : rnat_known e3 a i = rnat_known e a i
}.

Lemma saved_cfm cl K e :
  rse_inv cl K e -> ia64_ras_context_cfm (snd (ia64_rse_save_context e)) = ia64_rse_current_cfm e.
Proof.
  intros Hi. destruct (sync_out_inv cl K e Hi) as (_ & Hf & _). unfold ia64_rse_save_context. cbn [snd].
  generalize dependent (ia64_rse_sync_frame_out e). intros e1 Hf. injection Hf as _ F1 F2 F3 F4 F5 F6 _.
  unfold ia64_ras_context_cfm, ia64_rse_current_cfm, context_of. cbn. by rewrite F1, F2, F3, F4, F5, F6.
Qed.

(** The fields of the engine determine what is seen of it. *)
Lemma fields_frame e e' : stack_fields e' = stack_fields e -> frame_part e' = frame_part e /\ count_part e' = count_part e.
Proof.
  intros E. assert (E1 : view_part e' = view_part e) by exact (f_equal (fun x => x.1.1.1) E).
  assert (E2 : marker_part e' = marker_part e) by exact (f_equal (fun x => x.1.1.2) E).
  assert (E4 : count_part e' = count_part e) by exact (f_equal snd E). split; [|done].
  injection E1 as _ _ _ _ _ Eb Es Er Eg. injection E2 as El Ef Ep. injection E4 as _ _ _ _ _ En _.
  unfold frame_part. by rewrite Eb, Es, Er, Eg, El, Ef, Ep, En.
Qed.

Lemma fields_seen e e' : stack_fields e' = stack_fields e ->
  (forall p, content e' p = content e p) /\ (forall v, view e' v = view e v) /\ forall a i, rnat_known e' a i = rnat_known e a i.
Proof.
  intros E. assert (E1 : view_part e' = view_part e) by exact (f_equal (fun x => x.1.1.1) E).
  assert (E3 : rnat_part e' = rnat_part e) by exact (f_equal (fun x => x.1.2) E).
  split_and!; intros; [by apply view_part_content|by apply view_part_view|by apply known_part].
Qed.

(** The static registers of the image are those of the processor. *)
Lemma loaded_regs cl K e x e3 :
  rse_inv cl K e -> regs_wf e -> loaded (collect_min_state e) x e3 ->
  (forall r, 1 <= r < 16 -> static_reg e3 r = static_reg e r) /\
  (forall b i, 0 <= i < 16 -> bank_reg e3 b i = bank_reg e b i) /\
  ia64_system_read_pr e3 = ia64_system_read_pr e /\ (psr e3, ip e3, ar_rsc e3) = (psr e, ip e, ar_rsc e) /\
  (aget (br e3) IA64_BR_RETURN_LINK = aget (br e) IA64_BR_RETURN_LINK /\
   aget (br e3) IA64_BR_STATIC0 = aget (br e) IA64_BR_STATIC0) /\
  (truth (psr e .& IA64_PSR_IC) = false -> (cr_iip e3, cr_ipsr e3, cr_ifs e3) = (cr_iip e, cr_ipsr e, cr_ifs e)).
Proof.
  intros Hi Hw. destruct (collect_image e) as (sg & b0 & b1 & -> & _ & _ & _ & Hs & Hb). intros [L1 L2 L3 L4 L5 L6 L7 L8 _].
  cbn [image_of static_gr nat_bits min_ipsr min_iip min_rsc min_br0 min_br1 min_pr min_xip min_xpsr min_xfs] in *.
  split_and!.
  - intros r Hr. rewrite L1, Hs, nat_bits_spec by lia. unfold static_reg. zcmp. replace (r - 1 + 1) with r by lia.
    by rewrite !orb_false_r.
  - intros b i Hi'. rewrite L2 by done. unfold image_bank. cbn [image_of bank0_gr bank1_gr nat_bits].
    destruct (Hb i Hi') as [H0 H1]. destruct b; rewrite nat_bits_spec by lia; zcmp.
    + replace (32 + i - 32) with i by lia. cbn [orb]. rewrite H1. by destruct (bank_reg e true i).
    + replace (16 + i - 16) with i by lia. rewrite H0, !orb_false_r. by destruct (bank_reg e false i).
  - rewrite L7. apply Z.bits_inj'. intros i Hi'. rewrite Z.lor_spec, testbit_1_l, read_pr_spec by (apply Hi || lia).
    destruct (Z.eqb_spec i 0) as [->|]; [done|]. by rewrite orb_false_r.
  - congruence.
  - apply L6.
  - apply L6.
  - intros Hic. rewrite Hic in L8. destruct L8 as (-> & -> & ->). done.
Qed.

(** What the firmware may do before it returns: anything to the processor and
    the memory, except that it leaves the area and the saved engine alone and
    the register stack consistent. *)
Record firmware_ran (address : Z) (cl : bool) (K : Z) (s1 s2 : rse_sys W) : Prop := {
  fr_area i : 0 <= i < sizeof_min_state ->
    phys (sys_world s2) (ia64_physical_address address + i) = phys (sys_world s1) (ia64_physical_address address + i);
  fr_engine : mca_rse (sys_cpu s2) = mca_rse (sys_cpu s1) /\ mca_rse_valid (sys_cpu s2) = mca_rse_valid (sys_cpu s1);
  fr_inv : rse_inv cl K (senv s2);
  fr_regs : restorable (senv s2);
  fr_read : fst (physical_read (ia64_physical_address address) sizeof_min_state s2) <> None
}.

(** [y] is the processor whose engine has been restored. *)
Lemma loaded_context cl K e y e3 :
  rse_inv cl K e -> regs_wf e -> rse_inv cl K y -> frame_part y = frame_part e -> count_part y = count_part e ->
  (forall p, 0 <= p < 96 -> content y p = content e p) -> (forall a i, rnat_known y a i = rnat_known e a i) ->
  loaded (collect_min_state e) y e3 -> same_context cl K e e3.
Proof.
  intros Hi Hw Rin Rfr Rco Rct Rkn Hl. destruct (loaded_regs cl K _ _ _ Hi Hw Hl) as (S1 & S2 & S3 & S4 & S5 & S6).
  destruct (ld_stack _ _ _ Hl) as (x & Hk & Ex). destruct (fields_frame _ _ Ex) as [Xfr Xco].
  destruct (fields_seen _ _ Ex) as (Xct & Xvw & Xkn). assert (Hx : rse_inv cl K x) by by eapply kept_inv.
  assert (H3 : rse_inv cl K e3) by by eapply stack_fields_inv.
  destruct (kept_same_frame y x (ri_views _ _ _ Rin) Hk) as [Kfr Kct _ _].
  assert (H3ct : forall p, 0 <= p < 96 -> content e3 p = content e p) by (intros p Hp; by rewrite Xct, Kct, Rct).
  assert (H3fr : frame_part e3 = frame_part e) by congruence.
  split; try done.
  - rewrite Xco, (kept_count _ _ Hk). done.
  - by eapply frame_views.
  - intros a i. by rewrite Xkn, (known_part y x a i (kept_rnat_part Hk)).
Qed.

Lemma entered_resumes cl K cl2 K2 s s1 s2 :
  regs_wf (senv s) -> rse_inv cl K (senv s) -> ras_entered s s1 ->
  firmware_ran (pal_mc_save_addr (pal (senv s))) cl2 K2 s1 s2 ->
  exists s3, ia64_ras_restore_min_state (pal_mc_save_addr (pal (senv s))) false s2 = Ok true s3 /\
    mca_rse_valid (sys_cpu s3) = false /\ same_context cl K (senv s) (senv s3).
Proof.
  intros Hw Hi [Hv Hh (e & Ee & Eg) Hval] [Fa [Fe Fv] Fi Fr Fd]. set (address := pal_mc_save_addr (pal (senv s))) in *.
  destruct (fst (physical_read _ _ s2)) as [b|] eqn:Hb; [|done].
  assert (Hie : rse_inv cl K e) by by eapply stack_fields_inv.
  destruct (context_restored cl K cl2 K2 e (senv s2) Hie Fi) as (Rin & Rfr & Rco & Rct & Rkn). rewrite <- Eg, <- Fe in Rin, Rfr, Rco, Rct, Rkn.
  destruct (fields_frame _ _ Ee) as [Efr Eco]. destruct (fields_seen _ _ Ee) as (Ect & Evw & Ekn).
  destruct (collect_ifs cl K (senv s) Hi) as [Hifs Hcfm].
  destruct (restore_spec address (collect_min_state (senv s)) s2 b) as (s3 & E3 & Hmv & Hl); try done.
  - by eapply collect_wf.
  - intros i Hr. rewrite Fa by done. by apply Hh.
  - congruence.
  - rewrite Hcfm, Fe, Eg, (saved_cfm cl K e Hie). injection Efr as _ F1 F2 F3 F4 F5 F6 _.
    unfold ia64_rse_current_cfm. by rewrite F1, F2, F3, F4, F5, F6.
  - by eapply restorable_context.
  - apply Rin.
  - exists s3. split; [done|]. split; [done|]. eapply loaded_context; try done; [congruence..| |].
    + intros p Hp. by rewrite Rct, Ect.
    + intros a i. by rewrite Rkn, Ekn.
Qed.

(** C4. The firmware can resume what a machine check or INIT
    interrupted.  When the processor has entered the firmware's handler, and the
    firmware has run with any registers and any well-formed register stack, but
    has left the saved area and the saved engine context alone, and the area can
    be read, restoring the minimal state succeeds and brings back the static
    registers and both banks with their NaT bits, the predicates, [b0], [b1],
    [AR.RSC], [PSR], [IP], the register stack with its frame, partitions and
    collections, and, for code with [PSR.ic] clear, [IIP], [IPSR] and [IFS].
    The other branch registers and the floating-point registers are left to the
    firmware. *)
Theorem machine_check_resumes cl K cl2 K2 (init : bool) s s1 s2 :
  regs_wf (senv s) -> rse_inv cl K (senv s) ->
  (if init then ia64_ras_enter_init else ia64_ras_enter_mca) s = Ok true s1 ->
  firmware_ran (pal_mc_save_addr (pal (senv s))) cl2 K2 s1 s2 ->
  exists s3, ia64_ras_restore_min_state (pal_mc_save_addr (pal (senv s))) false s2 = Ok true s3 /\
    mca_rse_valid (sys_cpu s3) = false /\ same_context cl K (senv s) (senv s3).
Proof.
  intros Hw Hi He Hf. eapply entered_resumes; try done. destruct init.
  - pose proof (enter_init_entered cl K s Hw Hi) as H. rewrite He in H. by apply H.
  - pose proof (enter_mca_entered cl K s Hw Hi) as H. rewrite He in H. by apply H.
Qed.
End entries.

(** ** A machine with physical memory

    The bytes of the flat machine are words beyond its address space. *)
Definition flat_byte (w : flat) (a : Z) : Z := flat_word w (2 ^ 70 + a).

#[export] Instance flat_ras : RasWorld flat := {|
  physical_write := fun a b s =>
    (true, s <| sys_world; words ::= fun l => imap (fun i x => (2 ^ 70 + a + Z.of_nat i, x)) b ++ l |>);
  physical_read := fun a n s => (Some ((fun i => flat_byte (sys_world s) (a + i)) <$> seqZ 0 n), s)
|}.

Lemma find_written b l : forall base i,
  Forall (uint 8) b -> 0 <= i < alen b ->
  find_word (imap (fun i x => (base + Z.of_nat i, x)) b ++ l) (base + i) = aget b i.
Proof.
  induction b as [|x b IH]; intros base i Hu Hi; [cbn in Hi; lia|]. inversion Hu as [|? ? Hx Hb]; subst.
  rewrite imap_cons. cbn [app find_word]. rewrite Z.add_0_r. destruct (Z.eqb_spec (base + i) base).
  - replace i with 0 by lia. cbn. apply wrap_small. by apply (uint_mono 8).
  - rewrite (imap_ext _ (fun j x => (base + 1 + Z.of_nat j, x))) by (intros; cbn; f_equal; lia).
    replace (base + i) with (base + 1 + (i - 1)) by lia. rewrite IH by (done || cbn in Hi; lia).
    unfold aget. destruct (Z.leb_spec 0 i); [|lia]. destruct (Z.leb_spec 0 (i - 1)); [|lia].
    replace (Z.to_nat i) with (S (Z.to_nat (i - 1))) by lia. done.
Qed.

#[export] Instance flat_ras_laws c : @RasLaws flat (flat_world c) (flat_laws c) flat_ras.
Proof.
  refine {| phys := flat_byte |}; try done.
  - intros a b s. split; [done|]. intros Hb _ i Hi. unfold flat_byte, flat_word. cbn [physical_write flat_ras snd sys_world words upd].
    rewrite Z.add_assoc. by apply find_written.
  - intros a n s. split; [done|]. intros b Hn [= <-]. rewrite length_fmap, length_seqZ. split; [lia|].
    intros i Hi. rewrite aget_map by (rewrite length_seqZ; lia). f_equal. f_equal.
    unfold aget. destruct (Z.leb_spec 0 i); [|lia]. rewrite lookup_seqZ_lt by lia. cbn. lia.
Defined.

(** A framed processor with a machine check pending. *)
Definition checked : rse_sys flat :=
  mkRseSys ((zero_cpu framed true) <| boot_info_valid := true |>
    <| env; pal ::= fun p => p <| pal_mca_pending := true |> <| pal_mca_entry := 0x8000 |> <| pal_mc_save_addr := 0x2000 |> |>)
    (mkFlat [] None).

(** The firmware has used every register and the whole register stack. *)
Definition after_firmware (s : rse_sys flat) : rse_sys flat := s <| sys_cpu; env := empty_frame 183 |>.

#[local] Existing Instance flat_world.

Lemma checked_regs : regs_wf (senv checked).
Proof.
  assert (Hu : forall l, forallb (fun x => (0 <=? x) && (x <? 2 ^ 64)) l = true -> Forall (uint 64) l) by (intros; by apply all_uint).
  split; [split; [reflexivity|reflexivity|apply Hu; vm_compute; reflexivity|reflexivity|uint_const]|..|uint_const|uint_const];
    try (split; [reflexivity|]); apply Hu; vm_compute; reflexivity.
Qed.

Lemma firmware_returns address s : firmware_ran (World := flat_world false) address false 183 s (after_firmware s).
Proof.
  split; [done|done|exact empty_frame_inv| |discriminate].
  split; [split; [reflexivity|reflexivity|apply all_uint; vm_compute; reflexivity|reflexivity|uint_const]|reflexivity..].
Qed.

Lemma machine_check_resumes_witness :
  exists s3, ia64_ras_restore_min_state (World := flat_world false) 0x2000 false
    (after_firmware (final (ia64_ras_enter_mca (World := flat_world false) checked))) = Ok true s3 /\
    view (senv s3) 8 = (7, true).
Proof.
  destruct (machine_check_resumes (World := flat_world false) false 65 false 183 false checked
    (final (ia64_ras_enter_mca (World := flat_world false) checked))
    (after_firmware (final (ia64_ras_enter_mca (World := flat_world false) checked)))) as (s3 & E & _ & Hs).
  - exact checked_regs.
  - concrete_inv.
  - vm_compute. reflexivity.
  - apply firmware_returns.
  - exists s3. split; [exact E|]. rewrite (sc_view _ _ _ _ Hs) by (vm_compute; split; [discriminate|reflexivity]).
    vm_compute. reflexivity.
Defined.
