(* ===== verification/Exception.v ===== *)
(** * Interruptions

    The model of [arch/exception.c]: raising and delivering exceptions and
    external interrupts.  Delivery collects the interrupted state in the
    interruption control registers, reports the cause, switches to the state of
    the handler and enters the interruption vector table; [rfi] of [RseOps]
    undoes it.

    The theorems give the state of the handler exactly, show that delivery and
    [rfi] are the identity on the interrupted program, and that the delivery
    meets the interface of the register stack's interrupt windows.  The IA-32
    engine and the firmware assists are the interface [DeliveryWorld].  Logging,
    trace points and the checks of debug builds are left out. *)
From stdpp Require Import list.
From S2P Require Import Prelude Arch Env Alat Registers Interrupt RseMap RseRnat RseOps RsePart RseSteps RseLoads RseFrames RseReturns RseAlloc RseRuns RseContext RseOutside Ras.
Local Open Scope Z_scope.

(** ** Constants of cpu.h *)

Definition IA64_ISR_X : Z := 1 <<< 32.
Definition IA64_ISR_W : Z := 1 <<< 33.
Definition IA64_ISR_R : Z := 1 <<< 34.
Definition IA64_ISR_NA : Z := 1 <<< 35.
Definition IA64_ISR_SP : Z := 1 <<< 36.
Definition IA64_ISR_RS : Z := 1 <<< 37.
Definition IA64_ISR_IR : Z := 1 <<< 38.
Definition IA64_ISR_NI : Z := 1 <<< 39.
Definition IA64_ISR_EI_SHIFT : Z := 41.
Definition IA64_ISR_ED : Z := 1 <<< 43.
Definition IA64_ISR_CODE_REG_NAT : Z := 0x10.
Definition IA64_GENEX_UNIMPL_DATA_ADDR : Z := 3 <<< 4.
Definition IA64_DCR_PP : Z := 1 <<< 0.
Definition IA64_DCR_BE : Z := 1 <<< 1.
Definition IA64_PTA_VE : Z := 1 <<< 0.
Definition IA64_RR_VE : Z := 1 <<< 0.
Definition IA64_RR_RID_SHIFT : Z := 8.
Definition IA64_RR_RID_MASK : Z := 0xffffff <<< 8.
Definition IA64_ITIR_PS_SHIFT : Z := 2.
Definition IA64_ITIR_PS_MASK : Z := 0x3f.
Definition IA64_REGION_SHIFT : Z := 61.
Definition IA64_REGION_MASK : Z := 7.
Definition IA64_REGION7_PHYS_MASK : Z := (1 <<< IA64_REGION_SHIFT) - 1.
Definition IA64_FIRMWARE_IVT_BASE : Z := 0x10000.
Definition IA64_FW_COMPAT_LOADER_DIRECT_ALIAS : Z := 1 <<< 0.
Definition IA64_FW_LOADER_DIRECT_ALIAS_OFFSET : Z := 0x80000000.
Definition FW_BOOT_NONSTANDARD_DIRECT_RR : Z :=
  (1 <<< IA64_RR_RID_SHIFT) .| (13 <<< IA64_ITIR_PS_SHIFT) .| IA64_RR_VE.
Definition FW_BOOT_NONSTANDARD_DIRECT_RR_MASK : Z :=
  IA64_RR_RID_MASK .| (IA64_ITIR_PS_MASK <<< IA64_ITIR_PS_SHIFT) .| IA64_RR_VE.

Definition cr_isr (env : CPUIA64State) : Z := aget (cr env) IA64_CR_ISR.
Definition cr_ifa (env : CPUIA64State) : Z := aget (cr env) IA64_CR_IFA.
Definition cr_pta (env : CPUIA64State) : Z := aget (cr env) IA64_CR_PTA.

(** ** Tables *)

Definition ia64_ivt_vectors (excp : IA64Exception) : Z :=
  match excp with
  | IA64_EXCP_NONE => 0
  | IA64_EXCP_BREAK => 0x2c00
  | IA64_EXCP_ILLEGAL => 0x5400
  | IA64_EXCP_RESERVED_TEMPLATE => 0x5400
  | IA64_EXCP_VHPT_FAULT => 0x0000
  | IA64_EXCP_ITLB_FAULT => 0x0400
  | IA64_EXCP_DTLB_FAULT => 0x0800
  | IA64_EXCP_ALT_ITLB => 0x0c00
  | IA64_EXCP_ALT_DTLB => 0x1000
  | IA64_EXCP_DATA_NESTED_TLB => 0x1400
  | IA64_EXCP_DATA_ACCESS => 0x5300
  | IA64_EXCP_GENERAL => 0x5400
  | IA64_EXCP_NAT_CONSUMPTION => 0x5600
  | IA64_EXCP_EXTINT => 0x3000
  | IA64_EXCP_UNALIGNED => 0x5a00
  | IA64_EXCP_PAGE_NOT_PRESENT => 0x5000
  | IA64_EXCP_INST_ACCESS => 0x5200
  | IA64_EXCP_DATA_DIRTY => 0x2000
  | IA64_EXCP_INST_ACCESS_BIT => 0x2400
  | IA64_EXCP_DATA_ACCESS_BIT => 0x2800
  | IA64_EXCP_INST_KEY_MISS => 0x1800
  | IA64_EXCP_DATA_KEY_MISS => 0x1c00
  | IA64_EXCP_KEY_PERMISSION => 0x5100
  | IA64_EXCP_UNIMPL_DATA_ADDR => 0x5400
  | IA64_EXCP_UNIMPL_INST_ADDR => 0x5e00
  | IA64_EXCP_PRIVILEGED_OP => 0x5400
  | IA64_EXCP_PRIVILEGED_REG => 0x5400
  | IA64_EXCP_RESERVED_REG_FIELD => 0x5400
  | IA64_EXCP_FP_FAULT => 0x5c00
  | IA64_EXCP_FP_TRAP => 0x5d00
  | IA64_EXCP_DISABLED_ISA_TRANSITION => 0x5400
  | IA64_EXCP_DISABLED_FP => 0x5500
  | IA64_EXCP_UNSUPPORTED_DATA_REFERENCE => 0x5b00
  | IA64_EXCP_VIRTUALIZATION => 0x6100
  | IA64_EXCP_IA32_EXCEPTION => 0x6900
  | IA64_EXCP_IA32_INTERCEPT => 0x6a00
  | IA64_EXCP_IA32_INTERRUPT => 0x6b00
  | IA64_EXCP_TAKEN_BRANCH => 0x5f00
  | IA64_EXCP_SINGLE_STEP => 0x6000
  | IA64_EXCP_DEBUG => 0x5900
  | IA64_EXCP_LOWER_PRIVILEGE => 0x5e00
  end.

Definition ia64_exception_writes_ifa (excp : IA64Exception) : bool :=
  match excp with
  | IA64_EXCP_VHPT_FAULT | IA64_EXCP_ITLB_FAULT | IA64_EXCP_DTLB_FAULT | IA64_EXCP_ALT_ITLB
  | IA64_EXCP_ALT_DTLB | IA64_EXCP_DATA_ACCESS | IA64_EXCP_INST_ACCESS | IA64_EXCP_INST_KEY_MISS
  | IA64_EXCP_DATA_KEY_MISS | IA64_EXCP_KEY_PERMISSION | IA64_EXCP_DATA_DIRTY | IA64_EXCP_INST_ACCESS_BIT
  | IA64_EXCP_DATA_ACCESS_BIT | IA64_EXCP_NAT_CONSUMPTION | IA64_EXCP_UNALIGNED
  | IA64_EXCP_UNSUPPORTED_DATA_REFERENCE | IA64_EXCP_PAGE_NOT_PRESENT | IA64_EXCP_UNIMPL_DATA_ADDR
  | IA64_EXCP_DEBUG => true
  | _ => false
  end.

(** The exceptions whose status the raising code has left in [CR.ISR]: the
    first cases of the switch in [ia64_deliver_exception]. *)
Definition reports_isr (excp : IA64Exception) : bool :=
  match excp with
  | IA64_EXCP_VHPT_FAULT | IA64_EXCP_ITLB_FAULT | IA64_EXCP_DTLB_FAULT | IA64_EXCP_ALT_ITLB
  | IA64_EXCP_ALT_DTLB | IA64_EXCP_DATA_NESTED_TLB | IA64_EXCP_DATA_ACCESS | IA64_EXCP_INST_ACCESS
  | IA64_EXCP_INST_KEY_MISS | IA64_EXCP_DATA_KEY_MISS | IA64_EXCP_KEY_PERMISSION | IA64_EXCP_DATA_DIRTY
  | IA64_EXCP_INST_ACCESS_BIT | IA64_EXCP_DATA_ACCESS_BIT | IA64_EXCP_NAT_CONSUMPTION | IA64_EXCP_UNALIGNED
  | IA64_EXCP_UNSUPPORTED_DATA_REFERENCE | IA64_EXCP_PAGE_NOT_PRESENT | IA64_EXCP_UNIMPL_DATA_ADDR
  | IA64_EXCP_UNIMPL_INST_ADDR | IA64_EXCP_PRIVILEGED_OP | IA64_EXCP_PRIVILEGED_REG
  | IA64_EXCP_RESERVED_REG_FIELD | IA64_EXCP_FP_FAULT | IA64_EXCP_FP_TRAP | IA64_EXCP_DISABLED_ISA_TRANSITION
  | IA64_EXCP_DISABLED_FP | IA64_EXCP_IA32_EXCEPTION | IA64_EXCP_IA32_INTERCEPT | IA64_EXCP_IA32_INTERRUPT
  | IA64_EXCP_TAKEN_BRANCH | IA64_EXCP_SINGLE_STEP | IA64_EXCP_DEBUG | IA64_EXCP_LOWER_PRIVILEGE => true
  | _ => false
  end.

Definition ia64_exception_is_translation_fault (excp : IA64Exception) : bool :=
  match excp with
  | IA64_EXCP_VHPT_FAULT | IA64_EXCP_ITLB_FAULT | IA64_EXCP_DTLB_FAULT | IA64_EXCP_ALT_ITLB
  | IA64_EXCP_ALT_DTLB | IA64_EXCP_DATA_NESTED_TLB => true
  | _ => false
  end.

Definition ia64_exception_uses_psr_ri_slot (excp : IA64Exception) (isr : Z) : bool :=
  match excp with
  | IA64_EXCP_EXTINT | IA64_EXCP_ITLB_FAULT | IA64_EXCP_ALT_ITLB | IA64_EXCP_INST_ACCESS
  | IA64_EXCP_INST_ACCESS_BIT | IA64_EXCP_UNIMPL_INST_ADDR => true
  | IA64_EXCP_PAGE_NOT_PRESENT => truth (isr .& IA64_ISR_X)
  | _ => false
  end.

(** The faults that stop a processor without an interruption vector table. *)
Definition stops_bare_loader (excp : IA64Exception) : bool :=
  match excp with
  | IA64_EXCP_BREAK | IA64_EXCP_ILLEGAL | IA64_EXCP_RESERVED_TEMPLATE | IA64_EXCP_PRIVILEGED_OP
  | IA64_EXCP_PRIVILEGED_REG | IA64_EXCP_RESERVED_REG_FIELD | IA64_EXCP_DISABLED_ISA_TRANSITION
  | IA64_EXCP_DISABLED_FP => true
  | _ => false
  end.

(** The exceptions of the switch in [ia64_cpu_do_interrupt] that report the
    address of the instruction. *)
Definition reports_fault_ip (excp : IA64Exception) : bool :=
  match excp with
  | IA64_EXCP_BREAK | IA64_EXCP_ILLEGAL | IA64_EXCP_RESERVED_TEMPLATE | IA64_EXCP_PRIVILEGED_OP
  | IA64_EXCP_PRIVILEGED_REG | IA64_EXCP_RESERVED_REG_FIELD | IA64_EXCP_FP_FAULT | IA64_EXCP_FP_TRAP
  | IA64_EXCP_DISABLED_ISA_TRANSITION | IA64_EXCP_DISABLED_FP | IA64_EXCP_IA32_EXCEPTION
  | IA64_EXCP_IA32_INTERCEPT | IA64_EXCP_IA32_INTERRUPT | IA64_EXCP_TAKEN_BRANCH | IA64_EXCP_SINGLE_STEP
  | IA64_EXCP_LOWER_PRIVILEGE => true
  | _ => false
  end.

(** ** Addresses *)

Definition ia64_pa_canonicalize (cc : IA64CPUClass) (addr : Z) : Z :=
  let implemented_mask := (1 <<< phys_addr_bits cc) - 1 in
  addr .& (IA64_PHYS_UC_BIT .| implemented_mask).

Definition ia64_va_canonicalize (cc : IA64CPUClass) (va : Z) : Z :=
  let msb := impl_va_msb cc in
  let region := va .& (IA64_REGION_MASK <<< IA64_REGION_SHIFT) in
  let implemented_mask := (1 <<< (msb + 1)) - 1 in
  let payload := va .& implemented_mask in
  let payload := if (msb <? 60) && truth (payload .& (1 <<< msb))
                 then payload .| (((1 <<< (60 - msb)) - 1) <<< (msb + 1)) else payload in
  region .| payload.

Definition ia64_rr_index (va : Z) : Z := u8 ((va >>> IA64_REGION_SHIFT) .& IA64_REGION_MASK).

Definition ia64_sal_boot_environment_active (env : CPUIA64State) : bool :=
  (cr_iva env =? IA64_FIRMWARE_IVT_BASE) && truth (psr env .& IA64_PSR_IC).

(** ** The state of the handler *)

Definition IA64_PSR_INTERRUPTION_PRESERVED_MASK : Z :=
  IA64_PSR_UP .| IA64_PSR_MFL .| IA64_PSR_MFH .| IA64_PSR_PK .| IA64_PSR_DT .| IA64_PSR_RT .| IA64_PSR_MC .|
  IA64_PSR_IT.

Definition ia64_interruption_psr (env : CPUIA64State) : Z :=
  let p := psr env .& IA64_PSR_INTERRUPTION_PRESERVED_MASK in
  let p := if truth (cr_dcr env .& IA64_DCR_BE) then p .| IA64_PSR_BE else p in
  if truth (cr_dcr env .& IA64_DCR_PP) then p .| IA64_PSR_PP else p.

(** ** The rest of the machine *)

(** What exception delivery calls.  [cpu_restore_state] recovers the state of
    the instruction that a host fault interrupts, and [cpu_reset_to_boot] is the
    reset of the processor, with its boot information if that is valid. *)
Class DeliveryWorld (W : Type) : Type := {
  ia64_ia32_abort_sse_instruction : rse_sys W -> rse_sys W;
  ia64_ia32_sync_to_ia64 : rse_sys W -> rse_sys W;
  ia64_ia32_virtual_ip : rse_sys W -> Z;
  ia64_ia32_unaligned_access : Z -> bool -> RM W unit;
  cpu_restore_state : rse_sys W -> rse_sys W;
  ia64_current_code_tlb_ed : rse_sys W -> bool;
  ia64_raise_pre_unaligned_data_fault : Z -> bool -> bool -> Z -> Z -> RM W unit;
  ia64_firmware_debug_capture : Z -> bool -> rse_sys W -> rse_sys W;
  ia64_mmu_insert_firmware_tc : Z -> Z -> bool -> Z -> RM W bool;
  ia64_try_emulate_firmware_unaligned : Z -> Z -> RM W bool;
  cpu_reset_to_boot : rse_sys W -> rse_sys W
}.

Section exceptions.
Context {W : Type} `{World : RseWorld W} `{Ras : RasWorld W} `{Delivery : DeliveryWorld W}.

Local Abbreviation cc := (@cpu_class W World).

(** *** Raising an exception *)

Definition ia64_raise_unimplemented_data_address {A} (va access : Z) (is_non_access is_speculative itlb_ed : bool)
    : RM W A :=
  let isr := IA64_GENEX_UNIMPL_DATA_ADDR .| access in
  let isr := if is_non_access then isr .| IA64_ISR_NA else isr in
  let isr := if is_speculative then isr .| IA64_ISR_SP else isr in
  let isr := if itlb_ed then isr .| IA64_ISR_ED else isr in
  modenv (fun env => env <| cr @ IA64_CR_IFA := va |> <| cr @ IA64_CR_ISR := isr |>) ;;;
  let! env := getenv in
  ia64_raise_exception IA64_EXCP_UNIMPL_DATA_ADDR (ia64_ip_bundle_addr (ip env)) 0
    ((psr env .& IA64_PSR_RI_MASK) >>> IA64_PSR_RI_SHIFT).

Definition ia64_raise_unaligned {A} (addr isr_access fault_info : Z) : RM W A :=
  let! env := getenv in
  let unimplemented := if truth (psr env .& IA64_PSR_DT) then negb (ia64_va_is_implemented cc addr)
                       else negb (ia64_pa_is_implemented cc addr) in
  let! ed := mget ia64_current_code_tlb_ed in
  mwhen unimplemented (ia64_raise_unimplemented_data_address addr isr_access false false ed) ;;;
  ia64_raise_pre_unaligned_data_fault addr (negb (isr_access .& IA64_ISR_W =? 0))
    (isr_access .& (IA64_ISR_R .| IA64_ISR_W) =? IA64_ISR_R .| IA64_ISR_W)
    (fault_info .& ~64 3) (fault_info .& 3) ;;;
  modenv (fun env => env <| exception_state; fault_addr := addr |> <| cr @ IA64_CR_ISR := isr_access |>) ;;;
  let! ed := mget ia64_current_code_tlb_ed in
  mwhen ed (modenv (fun env => env <| cr @ IA64_CR_ISR := cr_isr env .| IA64_ISR_ED |>)) ;;;
  ia64_raise_exception IA64_EXCP_UNALIGNED (fault_info .& ~64 3) 0 (fault_info .& 3).

Definition ia64_raise_nat_consumption {A} (isr_access fault_info : Z) : RM W A :=
  let! env := getenv in
  mwhen (truth (psr env .& IA64_PSR_IC)) (modenv (fun env => env <| cr @ IA64_CR_IFA := 0 |>)) ;;;
  modenv (fun env => env <| cr @ IA64_CR_ISR := IA64_ISR_CODE_REG_NAT .| isr_access |>) ;;;
  ia64_raise_exception IA64_EXCP_NAT_CONSUMPTION (fault_info .& ~64 3) 0 (fault_info .& 3).

Definition ia64_cpu_do_unaligned_access (addr : Z) (is_store : bool) : RM W unit :=
  let! env := getenv in
  mwhen (truth (psr env .& IA64_PSR_IS)) (ia64_ia32_unaligned_access addr is_store) ;;;
  mmod cpu_restore_state ;;;
  modenv (fun env =>
    env <| exception_state; fault_ip := ip env |> <| exception_state; fault_addr := addr |>
        <| exception_state; fault_imm := 0 |>
        <| cr @ IA64_CR_ISR := if is_store then IA64_ISR_W else IA64_ISR_R |>) ;;;
  let! ed := mget ia64_current_code_tlb_ed in
  mwhen ed (modenv (fun env => env <| cr @ IA64_CR_ISR := cr_isr env .| IA64_ISR_ED |>)) ;;;
  modenv (fun env => env <| exception_state; exception := IA64_EXCP_UNALIGNED |>) ;;;
  mraise (Exit IA64_EXCP_UNALIGNED).

(** *** Delivery *)

(** [ia32_fault_ip] and [ia32_next_ip]. *)
Definition ia32_record (excp : IA64Exception) (s : rse_sys W) : Z * Z :=
  let x := exception_state (senv s) in
  match excp with
  | IA64_EXCP_IA32_EXCEPTION | IA64_EXCP_IA32_INTERCEPT | IA64_EXCP_IA32_INTERRUPT =>
      let ia32_fault_ip := u32 (fault_ip x) in
      (ia32_fault_ip, if ia32_trap x then u32 (fault_imm x) else ia32_fault_ip)
  | IA64_EXCP_EXTINT => let ia32_fault_ip := ia64_ia32_virtual_ip s in (ia32_fault_ip, ia32_fault_ip)
  | _ => let ia32_fault_ip := u32 (fault_ip x) in (ia32_fault_ip, ia32_fault_ip)
  end.

Definition isr_status (excp : IA64Exception) (env : CPUIA64State) : Z :=
  if reports_isr excp then cr_isr env
  else match excp with
       | IA64_EXCP_EXTINT => if rse_cfle (rse env) then IA64_ISR_IR else 0
       | _ => 0
       end.

(** The interrupted state, when [PSR.ic] has it collected. *)
Definition collect_interruption (excp : IA64Exception) (fault_address slot : Z) (ia32 transition : bool)
    (ia32_ips : Z * Z) (env : CPUIA64State) : CPUIA64State :=
  let x := exception_state env in
  let ipsr := psr env .& ~64 IA64_PSR_RI_MASK in
  let '(ipsr, iip, iipa) :=
    if ia32 && transition then (ipsr, fault_ip x, fault_imm x)
    else if ia32 || transition then (ipsr, snd ia32_ips, fst ia32_ips)
    else if native_completion_trap x
    then (ipsr .| (psr env .& IA64_PSR_RI_MASK), ia64_ip_bundle_addr (ip env), fault_imm x)
    else (ipsr .| ((slot .& 3) <<< IA64_PSR_RI_SHIFT), ia64_ip_bundle_addr (ip env),
          if bool_decide (excp = IA64_EXCP_FP_TRAP) then fault_imm x else last_successful_bundle env) in
  let env := env <| cr @ IA64_CR_IPSR := ipsr |> <| cr @ IA64_CR_IIP := iip |> <| cr @ IA64_CR_IIPA := iipa |> in
  let env := if ia64_exception_writes_ifa excp then env <| cr @ IA64_CR_IFA := fault_address |> else env in
  let env := env <| cr @ IA64_CR_IFS := 0 |> in
  if bool_decide (excp = IA64_EXCP_BREAK) then env <| cr @ IA64_CR_IIM := fault_imm x |> else env.

Definition report_status (excp : IA64Exception) (status slot : Z) (native collect inflight : bool)
    (env : CPUIA64State) : CPUIA64State :=
  if bool_decide (excp = IA64_EXCP_DATA_NESTED_TLB) then env
  else
    let isr := status in
    let isr := if native && (0 <? slot) then isr .| ((slot .& 3) <<< IA64_ISR_EI_SHIFT) else isr in
    let isr := if negb collect || inflight then isr .| IA64_ISR_NI else isr in
    env <| cr @ IA64_CR_ISR := isr |>.

(** The handler starts. *)
Definition enter_handler (excp : IA64Exception) (vector : Z) (cpu : IA64CPU) : IA64CPU :=
  let cpu := cpu <| env; rse ::= fun r => r <| rse_cfle := false |> |> in
  let cpu := ia64_set_psr cpu (ia64_interruption_psr (env cpu)) in
  let cpu := cpu <| env ::= fun env =>
    env <| exception_state; psr_ic_inflight := false |>
        <| ip := (cr_iva env .& ~64 0x7fff) .| vector |> <| instruction_group_start := true |> |> in
  let cpu := if bool_decide (excp = IA64_EXCP_EXTINT) then cpu <| halted := false |> else cpu in
  cpu <| env ::= fun env =>
    env <| exception_state; exception := IA64_EXCP_NONE |> <| exception_state; ia32_trap := false |>
        <| exception_state; ia32_transition_trap := false |> <| exception_state; native_completion_trap := false |>
        <| exception_state; psr_before_insn := 0 |> <| interrupt; pending_extint := 0 |> |>.

Definition ia64_deliver_exception (excp : IA64Exception) (fault_address slot : Z) (s : rse_sys W) : rse_sys W :=
  if bool_decide (excp = IA64_EXCP_NONE) then s
  else
    let ia32 := truth (psr (senv s) .& IA64_PSR_IS) in
    let transition := ia32_transition_trap (exception_state (senv s)) in
    let ia32_ips := ia32_record excp s in
    let s := if ia32 then ia64_ia32_sync_to_ia64 (ia64_ia32_abort_sse_instruction s) else s in
    let vector := ia64_ivt_vectors excp in
    let status := isr_status excp (senv s) in
    let inflight := psr_ic_inflight (exception_state (senv s)) in
    let collect := truth (psr (senv s) .& IA64_PSR_IC) in
    let s := ia64_flush_suppressed_tlb s in
    let s := s <| sys_cpu; env ::= fun env => env <| exception_state; psr_suppression_before_insn := 0 |> |> in
    let s := ia64_tlb_serialize s in
    let s := if collect then s <| sys_cpu; env ::= collect_interruption excp fault_address slot ia32 transition ia32_ips |>
             else s in
    let s := s <| sys_cpu; env ::= report_status excp status slot (negb ia32 || (ia32 && transition)) collect inflight |> in
    let s := ia64_firmware_debug_capture vector collect s in
    s <| sys_cpu ::= enter_handler excp vector |>.

(** *** The firmware's handlers *)

(** [None] when there is no mapping, else the physical address and the page
    shift. *)
Definition ia64_firmware_boot_miss_mapping (cpu : IA64CPU) (va : Z) : option (Z * Z) :=
  let e := env cpu in
  let phys := va .& IA64_REGION7_PHYS_MASK in
  let r := aget (rr e) (ia64_rr_index va) in
  if negb (ia64_sal_boot_environment_active e) then None
  else if (ia64_rr_index va =? 7) && truth (firmware_compat_flags cpu .& IA64_FW_COMPAT_LOADER_DIRECT_ALIAS) &&
          (r .& FW_BOOT_NONSTANDARD_DIRECT_RR_MASK =? FW_BOOT_NONSTANDARD_DIRECT_RR) &&
          negb (truth (cr_pta e .& IA64_PTA_VE)) && (IA64_FW_LOADER_DIRECT_ALIAS_OFFSET <=? phys)
  then
    let direct_pa := phys - IA64_FW_LOADER_DIRECT_ALIAS_OFFSET in
    if negb (boot_info_valid cpu) || (low_ram_size (boot_info cpu) <=? direct_pa) then None
    else Some (direct_pa, 13)
  else if negb (ia64_pa_is_implemented cc phys) then None
  else Some (phys, 12).

Definition ia64_try_defer_sal_speculative_alt_dtlb (excp : IA64Exception) (fault_address slot : Z) : RM W bool :=
  let! env := getenv in
  if negb (bool_decide (excp = IA64_EXCP_ALT_DTLB)) || negb (ia64_sal_boot_environment_active env) ||
     negb (truth (cr_isr env .& IA64_ISR_SP)) || truth (cr_isr env .& IA64_ISR_RS)
  then mret false
  else
    mmod (ia64_deliver_exception excp fault_address slot) ;;;
    modenv (fun env => env <| cr @ IA64_CR_IPSR := cr_ipsr env .| IA64_PSR_ED |>) ;;;
    let! env := getenv in
    ia64_rfi (ip env) 0 ;;;
    mret true.

Definition ia64_try_handle_sal_alt_tlb (excp : IA64Exception) (fault_address : Z) : RM W bool :=
  let is_data := bool_decide (excp = IA64_EXCP_ALT_DTLB) in
  if negb (bool_decide (excp = IA64_EXCP_ALT_ITLB)) && negb is_data then mret false
  else
    let! cpu := mget (fun s => sys_cpu s) in
    match ia64_firmware_boot_miss_mapping cpu fault_address with
    | None => mret false
    | Some (pa, page_shift) =>
        let! inserted := ia64_mmu_insert_firmware_tc fault_address pa is_data page_shift in
        if negb inserted then mret false
        else
          let! env := getenv in
          mwhen (is_data && (cr_isr env .& (IA64_ISR_RS .| IA64_ISR_IR) =? IA64_ISR_RS .| IA64_ISR_IR))
            ia64_rse_resume_incomplete_frame ;;;
          mret true
    end.

(** *** The interrupt entry points *)

(** The address that the exception reports. *)
Definition reported_address (excp : IA64Exception) (entry_trap : bool) (env : CPUIA64State) : Z :=
  let x := exception_state env in
  if reports_fault_ip excp then fault_ip x
  else match excp with
       | IA64_EXCP_UNALIGNED => fault_addr x
       | IA64_EXCP_UNIMPL_INST_ADDR => if entry_trap || native_completion_trap x then fault_ip x else ip env
       | _ => cr_ifa env
       end.

Definition reported_slot (excp : IA64Exception) (entry_trap : bool) (env : CPUIA64State) : Z :=
  let x := exception_state env in
  let slot := u8 (fault_slot x) in
  if entry_trap then slot
  else if truth (psr env .& IA64_PSR_IS) then 0
  else if negb (native_completion_trap x) && ia64_exception_uses_psr_ri_slot excp (cr_isr env)
  then u8 ((psr env .& IA64_PSR_RI_MASK) >>> IA64_PSR_RI_SHIFT) else slot.

(** The instruction pointer of a fault on an unimplemented address. *)
Definition canonical_ip (env : CPUIA64State) : Z :=
  if truth (psr env .& IA64_PSR_IT) then ia64_va_canonicalize cc (ip env) else ia64_pa_canonicalize cc (ip env).

(** The argument is [cs->exception_index] and the result its value after. *)
Definition ia64_cpu_do_interrupt (excp : IA64Exception) : RM W IA64Exception :=
  if bool_decide (excp = IA64_EXCP_NONE) then mret excp
  else
    modenv (fun env => env <| exception_state; fault_exception := excp |>) ;;;
    let! env := getenv in
    let entry_trap := truth (psr env .& IA64_PSR_IS) && ia32_transition_trap (exception_state env) in
    if negb (truth (psr env .& IA64_PSR_IC)) && negb (ia64_exception_is_translation_fault excp) &&
       (cr_iva env =? 0) && stops_bare_loader excp
    then
      if bool_decide (excp = IA64_EXCP_BREAK)
      then modcpu (fun cpu => cpu <| halted := true |>) ;;; mret IA64_EXCP_NONE
      else modenv (fun env => env <| ip := fault_ip (exception_state env) |>) ;;; mret excp
    else
      mwhen (bool_decide (excp = IA64_EXCP_UNIMPL_INST_ADDR) && negb entry_trap &&
             negb (native_completion_trap (exception_state env)))
        (modenv (fun env => env <| ip := canonical_ip env |>)) ;;;
      let! env := getenv in
      let fault_address := reported_address excp entry_trap env in
      let slot := reported_slot excp entry_trap env in
      let! deferred := ia64_try_defer_sal_speculative_alt_dtlb excp fault_address slot in
      if deferred : bool then mret IA64_EXCP_NONE
      else
        let! handled := ia64_try_handle_sal_alt_tlb excp fault_address in
        if handled : bool then mret IA64_EXCP_NONE
        else
          let! emulated :=
            if bool_decide (excp = IA64_EXCP_UNALIGNED)
            then ia64_try_emulate_firmware_unaligned fault_address slot else mret false in
          if emulated : bool then mret IA64_EXCP_NONE
          else
            let! env := getenv in
            (if bool_decide (excp = IA64_EXCP_EXTINT) then
               mwhen (ia64_sapic_has_pending env)
                 (mmod (ia64_deliver_exception excp fault_address slot) ;;;
                  modenv (fun env => env <| interrupt; pending_extint := 0 |>))
             else mmod (ia64_deliver_exception excp fault_address slot)) ;;;
            mret IA64_EXCP_NONE.


(** PMI: the request stays pending when the firmware cannot be entered. *)
Definition take_pmi : RM W bool :=
  let! cpu := mget (fun s => sys_cpu s) in
  let (vector, cpu) := ia64_sapic_accept_pmi cpu in
  modcpu (fun _ => cpu) ;;;
  if vector <? 0 then mret false
  else
    let! entered := ia64_ras_enter_pmi (u8 vector) in
    if entered : bool then mret true
    else
      modcpu (fun cpu => ia64_sapic_update_interrupt
        (cpu <| env; interrupt ::= fun i => i <| sapic_pmi_pending ::= fun p => u16 (p .| (1 <<< vector)) |> |>)) ;;;
      mret false.

End exceptions.
(** ** Outside the interruption state

    The banks, [PSR], [IP], the control registers, the exception and interrupt
    state and the start of an instruction group are what an interruption and a
    return from it change; the engine is left out for its flag. *)
Definition program (e : CPUIA64State) : CPUIA64State :=
  e <| gr := [] |> <| nat_ := [] |> <| banked_gr := [] |> <| banked_nat := 0 |> <| psr := 0 |> <| ip := 0 |>
    <| cr := [] |> <| exception_state := zero_exception |> <| interrupt := zero_interrupt |>
    <| instruction_group_start := false |> <| rse := zero_rse |>.

Lemma program_psr f e : program (e <| psr ::= f |>) = program e. Proof. done. Qed.
Lemma program_ip f e : program (e <| ip ::= f |>) = program e. Proof. done. Qed.
Lemma program_cr f e : program (e <| cr ::= f |>) = program e. Proof. done. Qed.
Lemma program_exception f e : program (e <| exception_state ::= f |>) = program e. Proof. done. Qed.
Lemma program_interrupt f e : program (e <| interrupt ::= f |>) = program e. Proof. done. Qed.
Lemma program_group f e : program (e <| instruction_group_start ::= f |>) = program e. Proof. done. Qed.
Lemma program_rse f e : program (e <| rse ::= f |>) = program e. Proof. done. Qed.

Create Rewrite HintDb program.
#[export] Hint Rewrite program_psr program_ip program_cr program_exception program_interrupt program_group program_rse : program.

Lemma unbanked_program e e' : unbanked e = unbanked e' -> program e = program e' /\ rse e = rse e'.
Proof. intros H. exact (conj (f_equal program H) (f_equal rse H)). Qed.

(** ** The laws of delivery *)

(** The firmware's record of an interruption is outside the processor state;
    the IA-32 engine writes its registers to the static registers and the IA-32
    application registers. *)
Class DeliveryLaws (W : Type) `{World : RseWorld W} `{Laws : !RseWorldLaws W} `{Delivery : DeliveryWorld W} : Prop := {
  capture_inert vector collected : inert (ia64_firmware_debug_capture vector collected);
  abort_inert : inert ia64_ia32_abort_sse_instruction;
  sync_law s : faulted rse_mem s (ia64_ia32_sync_to_ia64 s)
}.

(** The native record of an interruption. *)
Definition recorded (excp : IA64Exception) (fault_address slot : Z) (env : CPUIA64State) : CPUIA64State :=
  let collect := truth (psr env .& IA64_PSR_IC) in
  let e := env <| exception_state; psr_suppression_before_insn := 0 |>
               <| exception_state; psr_ic_inflight := false |> <| exception_state; psr_i_deferred := false |> in
  report_status excp (isr_status excp env) slot true collect (psr_ic_inflight (exception_state env))
    (if collect then collect_interruption excp fault_address slot false false (0, 0) e else e).

Section delivery.
Context {W : Type} `{World : RseWorld W} `{Laws : !RseWorldLaws W} `{Ras : RasWorld W} `{Delivery : DeliveryWorld W}
  `{DLaws : !DeliveryLaws W}.

Lemma inert_faulted f (s : rse_sys W) : inert f -> faulted rse_mem s (f s).
Proof. intros Hf. destruct (Hf s) as [E Hm]. split; [rewrite E; apply kept_refl|done]. Qed.

Lemma env_faulted f (s : rse_sys W) :
  (forall e, kept e (f e)) -> faulted rse_mem s (s <| sys_cpu; env ::= f |>).
Proof. intros Hf. split; [apply Hf|done]. Qed.

Lemma collect_kept excp fa slot ia32 tr ips e : kept e (collect_interruption excp fa slot ia32 tr ips e).
Proof. unfold collect_interruption. repeat case_match; by split. Qed.

Lemma report_kept excp st slot n c i e : kept e (report_status excp st slot n c i e).
Proof. unfold report_status. case_match; by split. Qed.

Lemma enter_kept excp v cpu : kept (env cpu) (env (enter_handler excp v cpu)).
Proof.
  unfold enter_handler. set (c1 := cpu <| env; rse ::= _ |>).
  assert (H1 : kept (env cpu) (env c1)) by (split; done || (by destruct (rse (env cpu)))).
  clearbody c1. cbv zeta. destruct (set_psr_kept c1 (ia64_interruption_psr (env c1))) as [H2 _].
  generalize dependent (ia64_set_psr c1 (ia64_interruption_psr (env c1))). intros c2 H2.
  eapply kept_trans; [exact H1|]. eapply kept_trans; [exact H2|]. case_match; by split.
Qed.

Lemma serialize_faulted s : faulted rse_mem s (ia64_tlb_serialize s).
Proof.
  unfold ia64_tlb_serialize. eapply faulted_trans; [|apply inert_faulted, purges_inert].
  apply env_faulted. by split.
Qed.

(** An interruption leaves the register stack and the memory alone. *)
Lemma deliver_faulted excp fa slot s : faulted rse_mem s (ia64_deliver_exception excp fa slot s).
Proof.
  unfold ia64_deliver_exception. case_match; [by split; [apply kept_refl|]|]. cbv zeta.
  set (s1 := if truth (_ .& IA64_PSR_IS) then _ else s).
  assert (H1 : faulted rse_mem s s1).
  { unfold s1. case_match; [|split; [apply kept_refl|done]].
    eapply faulted_trans; [apply inert_faulted, abort_inert|apply sync_law]. }
  clearbody s1. eapply faulted_trans; [exact H1|]. eapply faulted_trans; [apply inert_faulted, flush_inert|].
  eapply faulted_trans; [apply (env_faulted (fun env => env <| exception_state; psr_suppression_before_insn := 0 |>)); by split|].
  eapply faulted_trans; [apply serialize_faulted|].
  match goal with |- context [ia64_tlb_serialize ?t] => generalize (ia64_tlb_serialize t) end. intros s2.
  match goal with |- context [if truth (psr (senv s1) .& IA64_PSR_IC) then ?a else s2] =>
    set (s3 := if truth (psr (senv s1) .& IA64_PSR_IC) then a else s2) end.
  assert (H3 : faulted rse_mem s2 s3).
  { unfold s3. case_match; [apply env_faulted, collect_kept|split; [apply kept_refl|done]]. }
  clearbody s3. eapply faulted_trans; [exact H3|]. eapply faulted_trans; [apply env_faulted, report_kept|].
  eapply faulted_trans; [apply inert_faulted, capture_inert|]. split; [apply enter_kept|done].
Qed.

(** ** The state of the handler *)

Lemma deliver_native excp fa slot s :
  excp <> IA64_EXCP_NONE -> truth (psr (senv s) .& IA64_PSR_IS) = false ->
  ia32_transition_trap (exception_state (senv s)) = false ->
  sys_cpu (ia64_deliver_exception excp fa slot s) =
  enter_handler excp (ia64_ivt_vectors excp) ((sys_cpu s) <| env ::= recorded excp fa slot |>).
Proof.
  intros Hx His Htr. unfold ia64_deliver_exception. rewrite bool_decide_false by done. cbv zeta. rewrite His, Htr.
  cbn [negb orb andb]. unfold ia64_tlb_serialize.
  set (c := truth (psr (senv s) .& IA64_PSR_IC)).
  match goal with |- context [complete_pending_purges ?t] => set (s2 := t) end.
  destruct (purges_inert s2) as [E2 _]. generalize dependent (complete_pending_purges s2). intros s3 E2.
  match goal with |- context [ia64_firmware_debug_capture ?v c ?t] => set (s4 := t);
    destruct (capture_inert v c s4) as [E4 _] end.
  generalize dependent (ia64_firmware_debug_capture (ia64_ivt_vectors excp) c s4). intros s5 E4.
  change (sys_cpu (s5 <| sys_cpu ::= enter_handler excp (ia64_ivt_vectors excp) |>)) with
    (enter_handler excp (ia64_ivt_vectors excp) (sys_cpu s5)). f_equal. rewrite E4. unfold s4. clear s5 E4 s4.
  change ((sys_cpu s) <| env ::= recorded excp fa slot |>) with ((sys_cpu s) <| env := recorded excp fa slot (senv s) |>).
  unfold recorded. cbv zeta. fold c. assert (E : sys_cpu s2 = (sys_cpu s) <| env ::= fun e =>
    e <| exception_state; psr_suppression_before_insn := 0 |> <| exception_state; psr_ic_inflight := false |>
      <| exception_state; psr_i_deferred := false |> |>).
  { rewrite <- (proj1 (flush_law s)). done. }
  clearbody s2. rewrite E in E2. clear E s2. destruct c.
  - transitivity ((sys_cpu s3) <| env ::= fun e => report_status excp (isr_status excp (senv s)) slot true true
      (psr_ic_inflight (exception_state (senv s))) (collect_interruption excp fa slot false false (0, 0) e) |>); [done|].
    by rewrite E2.
  - transitivity ((sys_cpu s3) <| env ::= fun e => report_status excp (isr_status excp (senv s)) slot true false
      (psr_ic_inflight (exception_state (senv s))) e |>); [done|]. by rewrite E2.
Qed.

Lemma handler_bank e : Z.testbit (ia64_interruption_psr e) 44 = false.
Proof.
  unfold ia64_interruption_psr. repeat case_match; rewrite ?Z.lor_spec, Z.land_spec;
    change (Z.testbit IA64_PSR_INTERRUPTION_PRESERVED_MASK 44) with false; by rewrite andb_false_r.
Qed.

(** The processor in the handler's first instruction. *)
Lemma enter_fields excp v cpu :
  let e := env cpu in
  let e' := env (enter_handler excp v cpu) in
  psr e' = ia64_interruption_psr e /\ cr e' = cr e /\ ip e' = (cr_iva e .& ~64 0x7fff) .| v /\
  bank e' = bank (if Z.testbit (psr e) 44 then ia64_swap_banked_gr e else e) /\
  program e' = program e /\ rse e' = (rse e) <| rse_cfle := false |>.
Proof.
  unfold enter_handler. set (c1 := cpu <| env; rse ::= fun r => r <| rse_cfle := false |> |>). cbv zeta.
  assert (Ep : ia64_interruption_psr (env c1) = ia64_interruption_psr (env cpu)) by done. rewrite Ep. clear Ep.
  set (v' := ia64_interruption_psr (env cpu)). destruct (set_psr_env c1 v') as (x & e & E & Hu & Hb).
  assert (Hbn : Z.testbit v' 44 = false) by apply handler_bank.
  rewrite bank_bit, Hbn, xorb_false_r in Hb. change (psr (env c1)) with (psr (env cpu)) in Hb.
  generalize dependent (ia64_set_psr c1 v'). intros c2 E.
  assert (Ecr : cr e = cr (env cpu)) by exact (f_equal cr Hu).
  assert (Ebk : bank e = bank (if Z.testbit (psr (env cpu)) 44 then ia64_swap_banked_gr (env cpu) else env cpu)).
  { rewrite Hb. destruct (Z.testbit (psr (env cpu)) 44); [|done]. by apply swap_bank. }
  apply unbanked_program in Hu as [Hu Hr]. change (program e = program (env cpu)) in Hu.
  change (rse e = (rse (env cpu)) <| rse_cfle := false |>) in Hr.
  match goal with |- context [if bool_decide (excp = IA64_EXCP_EXTINT) then ?a else ?b] =>
    set (c3 := if bool_decide (excp = IA64_EXCP_EXTINT) then a else b) end.
  assert (E3 : env c3 = e <| psr := v' |> <| exception_state; psr_ic_inflight := false |>
     <| ip := (cr_iva (env cpu) .& ~64 0x7fff) .| v |> <| instruction_group_start := true |>).
  { transitivity ((env c2) <| exception_state; psr_ic_inflight := false |>
      <| ip := (cr_iva (env c2) .& ~64 0x7fff) .| v |> <| instruction_group_start := true |>); [unfold c3; by destruct (bool_decide _)|].
    rewrite E. unfold cr_iva. rewrite <- Ecr. done. }
  clearbody c3. split_and!.
  - change (psr (env c3) = v'). by rewrite E3.
  - change (cr (env c3) = cr (env cpu)). by rewrite E3.
  - change (ip (env c3) = (cr_iva (env cpu) .& ~64 0x7fff) .| v). by rewrite E3.
  - change (bank (env c3) = bank (if Z.testbit (psr (env cpu)) 44 then ia64_swap_banked_gr (env cpu) else env cpu)).
    rewrite <- Ebk, E3. done.
  - match goal with |- program (env (c3 <| env ::= ?f |>)) = _ => change (program (f (env c3)) = program (env cpu)) end.
    cbv beta. autorewrite with program. rewrite E3. autorewrite with program. exact Hu.
  - change (rse (env c3) = (rse (env cpu)) <| rse_cfle := false |>). by rewrite E3.
Qed.

(** *** What is recorded *)

(** The control registers that an interruption with [PSR.ic] set leaves. *)
Definition collected (excp : IA64Exception) (fault_address slot : Z) (e : CPUIA64State) (i : Z) : Z :=
  let x := exception_state e in
  if i =? IA64_CR_IPSR then
    (psr e .& ~64 IA64_PSR_RI_MASK) .|
    (if native_completion_trap x then psr e .& IA64_PSR_RI_MASK else (slot .& 3) <<< IA64_PSR_RI_SHIFT)
  else if i =? IA64_CR_IIP then ia64_ip_bundle_addr (ip e)
  else if i =? IA64_CR_IIPA then
    if native_completion_trap x || bool_decide (excp = IA64_EXCP_FP_TRAP) then fault_imm x else last_successful_bundle e
  else if (i =? IA64_CR_IFA) && ia64_exception_writes_ifa excp then fault_address
  else if i =? IA64_CR_IFS then 0
  else if (i =? IA64_CR_IIM) && bool_decide (excp = IA64_EXCP_BREAK) then fault_imm x
  else aget (cr e) i.

(** The status: a nested TLB miss leaves it alone. *)
Definition reported_isr (excp : IA64Exception) (slot : Z) (e : CPUIA64State) : Z :=
  if bool_decide (excp = IA64_EXCP_DATA_NESTED_TLB) then cr_isr e
  else
    (if 0 <? slot then isr_status excp e .| ((slot .& 3) <<< IA64_ISR_EI_SHIFT) else isr_status excp e) .|
    (if truth (psr e .& IA64_PSR_IC) && negb (psr_ic_inflight (exception_state e)) then 0 else IA64_ISR_NI).

Lemma collect_cr excp fa slot e i :
  length (cr e) = 128%nat -> 0 <= i < 128 ->
  aget (cr (collect_interruption excp fa slot false false (0, 0) e)) i = collected excp fa slot e i.
Proof.
  intros Hl Hi. unfold collect_interruption, collected. cbv zeta. cbn [andb orb].
  assert (Ha : forall (l : list Z) k j v, length l = 128%nat -> 0 <= k < 128 -> aget (aset l k v) j = if k =? j then v else aget l j)
    by (intros l k j v Hlen Hk; apply aget_aset; rewrite Hlen; exact Hk).
  destruct (native_completion_trap (exception_state e)), (ia64_exception_writes_ifa excp),
    (bool_decide (excp = IA64_EXCP_BREAK)), (bool_decide (excp = IA64_EXCP_FP_TRAP)); cbn [orb andb];
    rewrite ?andb_true_r, ?andb_false_r; cbn [cr upd];
    rewrite !Ha by (rewrite ?aset_length; done || lia); rewrite !(Z.eqb_sym _ i);
    repeat match goal with |- context [i =? ?k] => destruct (Z.eqb_spec i k) as [E|_]; [rewrite E; reflexivity|] end; done.
Qed.

Lemma collect_length excp fa slot e :
  length (cr (collect_interruption excp fa slot false false (0, 0) e)) = length (cr e).
Proof. unfold collect_interruption. cbv zeta. repeat case_match; cbn [cr upd]; by rewrite !aset_length. Qed.

Lemma collect_other excp fa slot e :
  let e' := collect_interruption excp fa slot false false (0, 0) e in
  psr e' = psr e /\ bank e' = bank e /\ program e' = program e /\ rse e' = rse e.
Proof.
  cbv zeta. unfold collect_interruption. cbv zeta. repeat case_match; split_and!; try done; by autorewrite with program.
Qed.

Lemma report_fields excp st slot c i e :
  let e' := report_status excp st slot true c i e in
  psr e' = psr e /\ bank e' = bank e /\ program e' = program e /\ rse e' = rse e /\
  length (cr e') = length (cr e) /\ forall k, k <> IA64_CR_ISR -> aget (cr e') k = aget (cr e) k.
Proof.
  cbv zeta. unfold report_status. cbv zeta. case_match; [done|]. split_and!; try done.
  - cbn [cr upd]. by rewrite aset_length.
  - intros k Hk. cbn [cr upd]. by apply aget_aset_ne.
Qed.

Lemma recorded_fields excp fa slot e :
  length (cr e) = 128%nat ->
  let e' := recorded excp fa slot e in
  psr e' = psr e /\ bank e' = bank e /\ program e' = program e /\ rse e' = rse e /\
  cr_isr e' = reported_isr excp slot e /\ length (cr e') = 128%nat /\
  forall i, 0 <= i < 128 -> i <> IA64_CR_ISR ->
    aget (cr e') i = if truth (psr e .& IA64_PSR_IC) then collected excp fa slot e i else aget (cr e) i.
Proof.
  intros Hl. cbv zeta. unfold recorded. cbv zeta.
  set (e1 := e <| exception_state; psr_suppression_before_insn := 0 |> <| exception_state; psr_ic_inflight := false |>
               <| exception_state; psr_i_deferred := false |>).
  assert (H1 : program e1 = program e) by (unfold e1; by autorewrite with program).
  assert (Hc : forall i, collected excp fa slot e1 i = collected excp fa slot e i) by done.
  assert (He : psr e1 = psr e /\ bank e1 = bank e /\ rse e1 = rse e /\ cr e1 = cr e) by done.
  clearbody e1. destruct He as (E1 & E2 & E3 & E4). set (c := truth (psr e .& IA64_PSR_IC)).
  set (e2 := if c then _ else e1).
  assert (H2 : psr e2 = psr e /\ bank e2 = bank e /\ program e2 = program e /\ rse e2 = rse e /\ length (cr e2) = 128%nat /\
    forall i, 0 <= i < 128 -> aget (cr e2) i = if c then collected excp fa slot e i else aget (cr e) i).
  { unfold e2. destruct c.
    - destruct (collect_other excp fa slot e1) as (-> & -> & -> & ->). split_and!; try congruence.
      + by rewrite collect_length, E4.
      + intros i Hi. by rewrite collect_cr, Hc by (rewrite ?E4; done).
    - split_and!; try congruence. }
  clearbody e2. destruct H2 as (P2 & B2 & G2 & R2 & L2 & C2).
  destruct (report_fields excp (isr_status excp e) slot c (psr_ic_inflight (exception_state e)) e2) as (-> & -> & -> & -> & -> & Hk).
  split_and!; try done.
  - unfold report_status, reported_isr, cr_isr. cbv zeta. case_bool_decide; [|].
    + rewrite C2 by done. by destruct c.
    + cbn [cr upd]. rewrite aget_aset_eq by (rewrite L2; done). fold c. cbn [andb].
      destruct (0 <? slot), c, (psr_ic_inflight (exception_state e)); cbn [negb orb andb]; by rewrite ?Z.lor_0_r.
  - intros i Hi Hn. by rewrite Hk, C2.
Qed.

(** *** Delivery *)

Lemma vector_range excp : 0 <= ia64_ivt_vectors excp < 2 ^ 15.
Proof. by destruct excp. Qed.

Lemma handler_psr e b :
  0 <= b ->
  Z.testbit (ia64_interruption_psr e) b =
  Z.testbit (psr e) b && Z.testbit IA64_PSR_INTERRUPTION_PRESERVED_MASK b ||
  Z.testbit (cr_dcr e) 1 && (b =? 1) || Z.testbit (cr_dcr e) 0 && (b =? 21).
Proof.
  intros Hb. unfold ia64_interruption_psr. change IA64_DCR_BE with (2 ^ 1). change IA64_DCR_PP with (2 ^ 0).
  rewrite !truth_land_pow2 by lia. cbv zeta. change IA64_PSR_BE with (2 ^ 1). change IA64_PSR_PP with (2 ^ 21).
  rewrite <- Z.land_spec. destruct (Z.testbit (cr_dcr e) 1), (Z.testbit (cr_dcr e) 0);
    rewrite ?Z.lor_spec, ?pow2_spec, ?(Z.eqb_sym _ b) by lia; cbn [andb]; by rewrite ?orb_false_r.
Qed.

Lemma vector_address iva excp :
  uint 64 iva -> (iva .& ~64 0x7fff) .| ia64_ivt_vectors excp = iva - iva mod 2 ^ 15 + ia64_ivt_vectors excp.
Proof.
  intros Hi. pose proof (vector_range excp) as Hv.
  assert (Hd : (iva .& ~64 0x7fff) .& ia64_ivt_vectors excp = 0).
  { change (uint 15 (ia64_ivt_vectors excp)) in Hv. change 0x7fff with (Z.ones 15). zbits. }
  rewrite land_disjoint_add by done. f_equal.
  assert (E : (iva .& ~64 0x7fff) .| (iva .& 0x7fff) = iva) by (change 0x7fff with (Z.ones 15); zbits).
  rewrite land_disjoint_add in E by (change 0x7fff with (Z.ones 15); zbits). change (iva .& 0x7fff) with (iva .& (2 ^ 15 - 1)) in E.
  rewrite land_mask in E by lia. unfold wrap in E. lia.
Qed.

(** The state in which a native handler starts. *)
Record entered (excp : IA64Exception) (fa slot : Z) (s s' : rse_sys W) : Prop := mkEntered {
  en_psr : psr (senv s') = ia64_interruption_psr (senv s);
  en_ip : ip (senv s') = (cr_iva (senv s) .& ~64 0x7fff) .| ia64_ivt_vectors excp;
  en_bank : bank (senv s') = bank (if Z.testbit (psr (senv s)) 44 then ia64_swap_banked_gr (senv s) else senv s);
  en_program : program (senv s') = program (senv s);
  en_rse : rse (senv s') = (rse (senv s)) <| rse_cfle := false |>;
  en_isr : cr_isr (senv s') = reported_isr excp slot (senv s);
  en_cr i : 0 <= i < 128 -> i <> IA64_CR_ISR ->
    aget (cr (senv s')) i =
    if truth (psr (senv s) .& IA64_PSR_IC) then collected excp fa slot (senv s) i else aget (cr (senv s)) i;
  en_length : length (cr (senv s')) = 128%nat;
  en_kept : kept (senv s) (senv s');
  en_mem be idx a : rse_mem (sys_world s') be idx a = rse_mem (sys_world s) be idx a
}.

Lemma deliver_entered excp fa slot s :
  excp <> IA64_EXCP_NONE -> truth (psr (senv s) .& IA64_PSR_IS) = false ->
  ia32_transition_trap (exception_state (senv s)) = false -> length (cr (senv s)) = 128%nat ->
  entered excp fa slot s (ia64_deliver_exception excp fa slot s).
Proof.
  intros Hx His Htr Hl. destruct (deliver_faulted excp fa slot s) as [Hk M].
  pose proof (deliver_native excp fa slot s Hx His Htr) as E.
  destruct (recorded_fields excp fa slot (senv s) Hl) as (P & B & G & R & I & L & C).
  set (e1 := recorded excp fa slot (senv s)) in *.
  assert (D : cr_dcr e1 = cr_dcr (senv s)).
  { unfold cr_dcr. rewrite C by done. by destruct (truth (psr (senv s) .& IA64_PSR_IC)). }
  assert (V : cr_iva e1 = cr_iva (senv s)).
  { unfold cr_iva. rewrite C by done. by destruct (truth (psr (senv s) .& IA64_PSR_IC)). }
  match type of E with _ = enter_handler excp _ ?c =>
    destruct (enter_fields excp (ia64_ivt_vectors excp) c) as (P' & K' & A' & B' & G' & R'); set (c1 := c) in * end.
  rewrite <- E in P', K', A', B', G', R'. change (env c1) with e1 in *. clearbody e1.
  split; try done.
  - rewrite P'. unfold ia64_interruption_psr. by rewrite P, D.
  - by rewrite A', V.
  - rewrite B', P. destruct (Z.testbit (psr (senv s)) 44); [by apply swap_bank|done].
  - by rewrite G'.
  - by rewrite R', R.
  - unfold cr_isr in *. by rewrite K'.
  - intros i. rewrite K'. exact (C i).
  - by rewrite K'.
Qed.

(** *** Return from an interruption *)

(** [rfi] to native code goes on to the frame. *)
Lemma rfi_start a b (s : rse_sys W) :
  let e := senv s in
  truth (cr_ipsr e .& IA64_PSR_IS) = false ->
  exists s', ia64_rfi a b s =
      (if truth (cr_ifs e .& IA64_IFS_V)
       then ia64_rse_return_to_frame (cr_ifs e .& IA64_IFS_IFM_MASK) (cr_ifs e .& IA64_CFM_SOF_MASK) ;;; ia64_rse_complete_pending_trap
       else let! env := getenv in
            mwhen (rse_completion_pending (rse env) || frame_incomplete env) ia64_rse_resume_incomplete_frame) s' /\
    psr (senv s') = cr_ipsr e /\ ip (senv s') = ia64_ip_bundle_addr (cr_iip e) /\
    bank (senv s') = bank (if xorb (Z.testbit (psr e) 44) (Z.testbit (cr_ipsr e) 44) then ia64_swap_banked_gr e else e) /\
    program (senv s') = program e /\ rse (senv s') = rse e /\ cr (senv s') = cr e /\ kept e (senv s') /\
    forall be idx x, rse_mem (sys_world s') be idx x = rse_mem (sys_world s) be idx x.
Proof.
  intros e His. unfold ia64_rfi. rewrite bind_getenv. fold e. cbv zeta. rewrite His. cbn [andb mwhen].
  change (mbind (mret tt) ?k s) with (k tt s). cbv beta. rewrite bind_modenv. set (s1 := s <| sys_cpu; env ::= _ |>).
  unfold modcpu at 1. rewrite bind_mmod.
  destruct (set_psr_env (sys_cpu s1) (cr_ipsr e)) as (x & e1 & E1 & Hu & Hb). rewrite bank_bit in Hb.
  assert (Hk : kept e (env (ia64_set_psr (sys_cpu s1) (cr_ipsr e)))).
  { eapply kept_trans; [|apply set_psr_kept]. by split. }
  apply unbanked_program in Hu as Hg. destruct Hg as [Hg Hr]. assert (Hc : cr e1 = cr e) by exact (f_equal cr Hu).
  assert (Hg1 : program (env (sys_cpu s1)) = program e).
  { unfold s1. match goal with |- program (env (sys_cpu (s <| sys_cpu; env ::= ?f |>))) = _ => change (program (f e) = program e) end.
    cbv beta. by autorewrite with program. }
  rewrite program_exception, Hg1 in Hg. change (rse e1 = rse e) in Hr.
  assert (Hb1 : bank e1 = bank (if xorb (Z.testbit (psr e) 44) (Z.testbit (cr_ipsr e) 44) then ia64_swap_banked_gr e else e)).
  { rewrite Hb. change (psr (env (sys_cpu s1))) with (psr e). destruct (xorb _ _); [by apply swap_bank|done]. }
  rewrite E1 in Hk.
  set (s2 := s1 <| sys_cpu ::= _ |>). assert (E2 : senv s2 = e1 <| psr := cr_ipsr e |>) by exact E1.
  assert (M2 : sys_world s2 = sys_world s) by done. clearbody s2. clear s1 E1 Hb Hu Hg1.
  rewrite bind_modenv. set (s3 := s2 <| sys_cpu; env ::= _ |>).
  assert (E3 : senv s3 = e1 <| psr := cr_ipsr e |> <| ip := ia64_ip_bundle_addr (cr_iip e) |>).
  { rewrite <- E2. done. }
  assert (M3 : sys_world s3 = sys_world s) by done. clearbody s3. clear s2 E2 M2. rewrite !bind_mmod.
  set (s4 := ia64_tlb_serialize s3). destruct (serialize_env s3) as [C4 M4]. fold s4 in C4, M4.
  assert (E4 : senv s4 = (senv s3) <| exception_state; psr_ic_inflight := false |>
    <| exception_state; psr_i_deferred := false |>) by by rewrite C4. rewrite E3 in E4. clear C4.
  rewrite M3 in M4. clearbody s4. clear s3 E3 M3. set (s5 := ia64_flush_on_pk_change (psr e) s4).
  destruct (pk_change_inert (psr e) s4 : sys_cpu s5 = sys_cpu s4 /\ _) as [E5 M5].
  assert (E6 : senv s5 = senv s4) by (unfold senv; by rewrite E5). clear E5.
  exists s5. rewrite His. split; [done|]. rewrite E6, E4. split_and!; try done.
  - eapply kept_trans; [exact Hk|]. by split.
  - intros. unfold s5. by rewrite M5, M4.
Qed.

(** Without a frame in [CR.IFS] to return to and a frame to complete, [rfi] is
    done. *)
Lemma rfi_plain a b (s : rse_sys W) :
  let e := senv s in
  truth (cr_ipsr e .& IA64_PSR_IS) = false -> truth (cr_ifs e .& IA64_IFS_V) = false ->
  rse_completion_pending (rse e) = false -> frame_incomplete e = false ->
  exists s', ia64_rfi a b s = Ok tt s' /\
    psr (senv s') = cr_ipsr e /\ ip (senv s') = ia64_ip_bundle_addr (cr_iip e) /\
    bank (senv s') = bank (if xorb (Z.testbit (psr e) 44) (Z.testbit (cr_ipsr e) 44) then ia64_swap_banked_gr e else e) /\
    program (senv s') = program e /\ rse (senv s') = rse e /\ cr (senv s') = cr e /\
    forall be idx x, rse_mem (sys_world s') be idx x = rse_mem (sys_world s) be idx x.
Proof.
  intros e His Hifs Hp Hf. destruct (rfi_start a b s His) as (s' & E & P & A & B & G & R & C & _ & M). fold e in E, R.
  rewrite Hifs, bind_getenv in E. unfold frame_incomplete in *. rewrite R, Hp, Hf in E. exists s'. by split_and!.
Qed.

(** What an interruption and the return from it leave of [PSR]: the restart
    slot is the reported one. *)
Definition resumed_psr (slot : Z) (e : CPUIA64State) : Z :=
  (psr e .& ~64 IA64_PSR_RI_MASK) .|
  (if native_completion_trap (exception_state e) then psr e .& IA64_PSR_RI_MASK else (slot .& 3) <<< IA64_PSR_RI_SHIFT).

Lemma resumed_bit slot e b : b < 41 \/ 42 < b -> 0 <= b < 64 -> Z.testbit (resumed_psr slot e) b = Z.testbit (psr e) b.
Proof.
  intros Hb Hr. unfold resumed_psr. change IA64_PSR_RI_MASK with (Z.ones 2 <<< 41). change 3 with (Z.ones 2).
  change IA64_PSR_RI_SHIFT with 41. destruct (native_completion_trap _); autorewrite with zbits; zcmp; autorewrite with zbits; zcmp; btauto.
Qed.

Lemma bundle_idem x : ia64_ip_bundle_addr (ia64_ip_bundle_addr x) = ia64_ip_bundle_addr x.
Proof. unfold ia64_ip_bundle_addr. by rewrite <- Z.land_assoc, Z.land_diag. Qed.

(** The program's state, and that it goes on where the interruption found it. *)
Record resumed (slot : Z) (s s' : rse_sys W) : Prop := mkResumed {
  re_bank : bank (senv s') = bank (senv s);
  re_program : program (senv s') = program (senv s);
  re_rse : rse (senv s') = rse (senv s);
  re_psr : psr (senv s') = resumed_psr slot (senv s);
  re_ip : ip (senv s') = ia64_ip_bundle_addr (ip (senv s));
  re_mem be idx a : rse_mem (sys_world s') be idx a = rse_mem (sys_world s) be idx a
}.

(** A program that an interruption of a given kind can suspend: native code
    with [PSR.ic] set and a complete register frame. *)
Record suspendable (s : rse_sys W) : Prop := mkSuspendable {
  su_native : truth (psr (senv s) .& IA64_PSR_IS) = false;
  su_transition : ia32_transition_trap (exception_state (senv s)) = false;
  su_cr : length (cr (senv s)) = 128%nat;
  su_banks : banks_wf (senv s);
  su_collect : truth (psr (senv s) .& IA64_PSR_IC) = true;
  su_pending : rse_completion_pending (rse (senv s)) = false;
  su_frame : frame_incomplete (senv s) = false;
  su_cfle : rse_cfle (rse (senv s)) = false
}.

Lemma entered_returns excp fa slot a b (s s1 : rse_sys W) :
  suspendable s -> entered excp fa slot s s1 -> exists s', ia64_rfi a b s1 = Ok tt s' /\ resumed slot s s'.
Proof.
  intros [His Htr Hl Hbk Hic Hp Hf Hc] [P A B G R I C _ _ M]. rewrite Hic in C.
  assert (Ei : cr_ipsr (senv s1) = resumed_psr slot (senv s)) by by (unfold cr_ipsr; rewrite C).
  assert (Ep : cr_iip (senv s1) = ia64_ip_bundle_addr (ip (senv s))) by by (unfold cr_iip; rewrite C).
  assert (Ef : cr_ifs (senv s1) = 0) by by (unfold cr_ifs; rewrite C).
  assert (Er : rse (senv s1) = rse (senv s)).
  { rewrite R. clear -Hc. destruct (rse (senv s)). cbn in *. by rewrite Hc. }
  destruct (rfi_plain a b s1) as (s' & E & P' & A' & B' & G' & R' & C' & M').
  - rewrite Ei. change IA64_PSR_IS with (2 ^ 34) in *. rewrite truth_land_pow2 in * by lia. by rewrite resumed_bit by lia.
  - by rewrite Ef.
  - by rewrite Er.
  - unfold frame_incomplete in *. by rewrite Er.
  - exists s'. split; [done|]. split; rewrite ?P', ?A', ?G', ?R', ?Ei, ?Ep, ?Er, ?G; try done.
    + rewrite B', P, Ei, handler_bank, resumed_bit by lia. cbn [xorb].
      destruct (Z.testbit (psr (senv s)) 44); [|done]. rewrite (swap_bank _ _ B). by rewrite swap_involutive.
    + apply bundle_idem.
    + intros. rewrite M'. apply M.
Qed.

(** C6. The state of an interruption handler, bit by bit and register
    by register, for every exception of native code: [PSR] keeps the eight
    preserved bits and takes [be] and [pp] from [DCR]; the handler starts at its
    vector in the interruption table of [IVA]; [ISR] is the status of the fault
    with the slot and [ni]; when interruptions are collected [IPSR], [IIP],
    [IIPA], [IFA], [IFS] and [IIM] describe the interrupted program, otherwise no
    control register but [ISR] changes; bank 0 is in view; and nothing else of
    the program changes. *)
Theorem delivery_exact excp fa slot (s : rse_sys W) :
  excp <> IA64_EXCP_NONE -> truth (psr (senv s) .& IA64_PSR_IS) = false ->
  ia32_transition_trap (exception_state (senv s)) = false -> length (cr (senv s)) = 128%nat -> uint 64 (cr_iva (senv s)) ->
  let e := senv s in
  let e' := senv (ia64_deliver_exception excp fa slot s) in
  (forall b, 0 <= b -> Z.testbit (psr e') b =
    Z.testbit (psr e) b && Z.testbit IA64_PSR_INTERRUPTION_PRESERVED_MASK b ||
    Z.testbit (cr_dcr e) 1 && (b =? 1) || Z.testbit (cr_dcr e) 0 && (b =? 21)) /\
  ip e' = cr_iva e - cr_iva e mod 2 ^ 15 + ia64_ivt_vectors excp /\
  cr_isr e' = reported_isr excp slot e /\
  (forall i, 0 <= i < 128 -> i <> IA64_CR_ISR ->
    aget (cr e') i = if truth (psr e .& IA64_PSR_IC) then collected excp fa slot e i else aget (cr e) i) /\
  bank e' = bank (if Z.testbit (psr e) 44 then ia64_swap_banked_gr e else e) /\
  program e' = program e /\ rse e' = (rse e) <| rse_cfle := false |>.
Proof.
  intros Hx His Htr Hl Hiva. destruct (deliver_entered excp fa slot s Hx His Htr Hl) as [P A B G R I C _ _ _].
  cbv zeta. split_and!; try done.
  - intros b Hb. by rewrite P, handler_psr.
  - by rewrite A, vector_address.
Qed.

(** *** The entry points *)

(** The exceptions that have no handler in the processor's firmware. *)
Definition unassisted (excp : IA64Exception) : bool :=
  match excp with
  | IA64_EXCP_NONE | IA64_EXCP_ALT_ITLB | IA64_EXCP_ALT_DTLB | IA64_EXCP_UNALIGNED | IA64_EXCP_UNIMPL_INST_ADDR => false
  | _ => true
  end.

Lemma do_interrupt_delivers excp (s : rse_sys W) :
  unassisted excp = true -> truth (psr (senv s) .& IA64_PSR_IC) = true ->
  truth (psr (senv s) .& IA64_PSR_IS) = false ->
  (excp = IA64_EXCP_EXTINT -> ia64_sapic_has_pending (senv s) = true) ->
  let s1 := s <| sys_cpu; env ::= fun env => env <| exception_state; fault_exception := excp |> |> in
  let s2 := ia64_deliver_exception excp (reported_address excp false (senv s)) (reported_slot excp false (senv s)) s1 in
  ia64_cpu_do_interrupt excp s = Ok IA64_EXCP_NONE
    (if bool_decide (excp = IA64_EXCP_EXTINT) then s2 <| sys_cpu; env ::= fun env => env <| interrupt; pending_extint := 0 |> |>
     else s2).
Proof.
  intros Hx Hic His Hp s1 s2. unfold ia64_cpu_do_interrupt. rewrite bool_decide_false by by intros ->.
  rewrite bind_modenv. fold s1. rewrite bind_getenv. change (psr (senv s1)) with (psr (senv s)). rewrite Hic, His.
  cbn [negb andb]. rewrite (bool_decide_false (excp = IA64_EXCP_UNIMPL_INST_ADDR)) by by intros ->. cbn [andb mwhen].
  change (mbind (mret tt) ?k s1) with (k tt s1). cbv beta zeta. rewrite bind_getenv.
  change (reported_address excp false (senv s1)) with (reported_address excp false (senv s)).
  change (reported_slot excp false (senv s1)) with (reported_slot excp false (senv s)).
  unfold ia64_try_defer_sal_speculative_alt_dtlb, ia64_try_handle_sal_alt_tlb.
  rewrite !(bool_decide_false (excp = IA64_EXCP_ALT_DTLB)), !(bool_decide_false (excp = IA64_EXCP_ALT_ITLB)),
    !(bool_decide_false (excp = IA64_EXCP_UNALIGNED)) by by intros ->.
  cbn [negb orb andb]. change (mbind (mbind getenv (fun _ => mret false)) ?k s1) with (k false s1). cbv beta iota.
  change (mbind (mret false) ?k s1) with (k false s1). cbv beta iota.
  change (mbind (mret false) ?k s1) with (k false s1). cbv beta iota. rewrite bind_getenv.
  case_bool_decide as Hext; [|done]. change (ia64_sapic_has_pending (senv s1)) with (ia64_sapic_has_pending (senv s)).
  by rewrite Hp.
Qed.

Lemma entered_fault x excp fa slot (s s2 : rse_sys W) :
  entered excp fa slot (s <| sys_cpu; env ::= fun env => env <| exception_state; fault_exception := x |> |>) s2 ->
  entered excp fa slot s s2.
Proof.
  intros [P A B G R I C L Hk M]. split; try done; [|eapply kept_trans; [|exact Hk]; by split]. rewrite B.
  match goal with |- context [Z.testbit (psr ?e) 44] => change (psr e) with (psr (senv s)) end.
  destruct (Z.testbit (psr (senv s)) 44); [by apply swap_bank|done].
Qed.

Lemma entered_extint excp fa slot (s s2 : rse_sys W) :
  entered excp fa slot s s2 ->
  entered excp fa slot s (s2 <| sys_cpu; env ::= fun env => env <| interrupt; pending_extint := 0 |> |>).
Proof. intros [P A B G R I C L Hk M]. split; try done. eapply kept_trans; [exact Hk|by split]. Qed.

Lemma do_interrupt_entered excp (s : rse_sys W) :
  unassisted excp = true -> suspendable s ->
  (excp = IA64_EXCP_EXTINT -> ia64_sapic_has_pending (senv s) = true) ->
  exists s', ia64_cpu_do_interrupt excp s = Ok IA64_EXCP_NONE s' /\
    entered excp (reported_address excp false (senv s)) (reported_slot excp false (senv s)) s s'.
Proof.
  intros Hx [His Htr Hl _ Hic _ _ _] Hp. rewrite do_interrupt_delivers by done. eexists. split; [done|].
  assert (H : entered excp (reported_address excp false (senv s)) (reported_slot excp false (senv s)) s
    (ia64_deliver_exception excp (reported_address excp false (senv s)) (reported_slot excp false (senv s))
      (s <| sys_cpu; env ::= fun env => env <| exception_state; fault_exception := excp |> |>))).
  { apply (entered_fault excp), deliver_entered; try done. by intros ->. }
  case_bool_decide; [by apply entered_extint|done].
Qed.

(** C7. An interruption and the return from it are the identity on the
    interrupted program: from any native program with [PSR.ic] set and a complete
    frame, delivering an exception and executing [rfi] gives back both register
    banks, the register stack, memory and all of the program's state, the same
    [PSR] with the restart slot of the fault, and the bundle that was
    interrupted. *)
Theorem interruption_returns excp a b (s : rse_sys W) :
  unassisted excp = true -> suspendable s ->
  (excp = IA64_EXCP_EXTINT -> ia64_sapic_has_pending (senv s) = true) ->
  exists s', (ia64_cpu_do_interrupt excp ;;; ia64_rfi a b) s = Ok tt s' /\
    resumed (reported_slot excp false (senv s)) s s'.
Proof.
  intros Hx Hs Hp. destruct (do_interrupt_entered excp s Hx Hs Hp) as (s1 & E & Hen).
  destruct (entered_returns excp _ _ a b s s1 Hs Hen) as (s' & E' & Hr). exists s'. split; [|done].
  unfold mbind. by rewrite E.
Qed.










(** *** The register stack's interrupt window *)

Lemma do_extint (s : rse_sys W) :
  let s1 := s <| sys_cpu; env ::= fun env => env <| exception_state; fault_exception := IA64_EXCP_EXTINT |> |> in
  exists fa slot, ia64_cpu_do_interrupt IA64_EXCP_EXTINT s = Ok IA64_EXCP_NONE
    (if ia64_sapic_has_pending (senv s)
     then (ia64_deliver_exception IA64_EXCP_EXTINT fa slot s1) <| sys_cpu; env ::= fun env => env <| interrupt; pending_extint := 0 |> |>
     else s1).
Proof.
  intros s1. set (trap := truth (psr (senv s1) .& IA64_PSR_IS) && ia32_transition_trap (exception_state (senv s1))).
  exists (reported_address IA64_EXCP_EXTINT trap (senv s1)), (reported_slot IA64_EXCP_EXTINT trap (senv s1)). unfold ia64_cpu_do_interrupt. rewrite bool_decide_false by done. rewrite bind_modenv. fold s1.
  rewrite bind_getenv. cbn [stops_bare_loader]. rewrite andb_false_r. rewrite (bool_decide_false (_ = IA64_EXCP_UNIMPL_INST_ADDR)) by done.
  cbn [andb mwhen]. rewrite bind_ret, bind_getenv. unfold ia64_try_defer_sal_speculative_alt_dtlb, ia64_try_handle_sal_alt_tlb.
  rewrite !(bool_decide_false (_ = IA64_EXCP_ALT_DTLB)), !(bool_decide_false (_ = IA64_EXCP_ALT_ITLB)),
    !(bool_decide_false (_ = IA64_EXCP_UNALIGNED)) by done.
  cbn [negb orb andb]. change (mbind (mbind getenv (fun _ => mret false)) ?k s1) with (k false s1). cbv beta iota zeta.
  rewrite !bind_ret. cbv beta iota. rewrite bind_getenv, bool_decide_true by done.
  change (ia64_sapic_has_pending (senv s1)) with (ia64_sapic_has_pending (senv s)).
  by destruct (ia64_sapic_has_pending (senv s)).
Qed.

Lemma do_extint_faulted (s : rse_sys W) :
  exists s', ia64_cpu_do_interrupt IA64_EXCP_EXTINT s = Ok IA64_EXCP_NONE s' /\ faulted rse_mem s s'.
Proof.
  destruct (do_extint s) as (fa & slot & ->). eexists. split; [done|].
  assert (H1 : faulted rse_mem s (s <| sys_cpu; env ::= fun env => env <| exception_state; fault_exception := IA64_EXCP_EXTINT |> |>))
    by (by apply env_faulted).
  destruct (ia64_sapic_has_pending (senv s)); [|done]. eapply faulted_trans; [exact H1|].
  eapply faulted_trans; [apply deliver_faulted|]. by apply env_faulted.
Qed.

(** The memory interface with the processor's own delivery in the windows of
    the register stack, in place of a hook. *)
Definition delivering : RseWorld W := {|
  cpu_class := cpu_class;
  ia64_mmu_check_data_debug := ia64_mmu_check_data_debug;
  ia64_exec_load_mmuidx := ia64_exec_load_mmuidx;
  ia64_exec_store_mmuidx := ia64_exec_store_mmuidx;
  exec_probe_store := exec_probe_store;
  ia64_flush_suppressed_tlb := ia64_flush_suppressed_tlb;
  deliver_external_interrupt := fun s => final (ia64_cpu_do_interrupt IA64_EXCP_EXTINT s);
  ia32_interruptible := ia32_interruptible;
  ia64_ia32_enter := ia64_ia32_enter;
  complete_pending_purges := complete_pending_purges;
  flush_translations := flush_translations;
  alat_memory_generation := alat_memory_generation
|}.

Definition delivering_laws : @RseWorldLaws W delivering.
Proof.
  refine (@Build_RseWorldLaws W delivering (@rse_mem W World Laws) mem_u64 debug_law load_law store_law probe_law flush_law
    purges_law translations_law _).
  intros s. cbn [deliver_external_interrupt delivering]. destruct (do_extint_faulted s) as (s' & E & H). rewrite E. exact H.
Defined.

(** *** Faults that are not collected *)

Lemma raised_ifa {A} excp ip_ imm slot (s : rse_sys W) :
  excp <> IA64_EXCP_NONE -> truth (psr (senv s) .& IA64_PSR_IC) = false -> truth (psr (senv s) .& IA64_PSR_IS) = false ->
  ia32_transition_trap (exception_state (senv s)) = false -> length (cr (senv s)) = 128%nat ->
  exists s', ia64_raise_exception (A := A) excp ip_ imm slot s = Raise (Exit excp) s' /\
    forall fa slot, cr_ifa (senv (ia64_deliver_exception excp fa slot s')) = cr_ifa (senv s).
Proof.
  intros Hx Hic His Htr Hl. eexists. split; [done|]. intros fa slot'.
  match goal with |- cr_ifa (senv (ia64_deliver_exception _ _ _ ?s1)) = _ =>
    destruct (deliver_entered excp fa slot' s1 Hx His Htr Hl) as [_ _ _ _ _ _ C _ _ _]; change (psr (senv s1)) with (psr (senv s)) in C end.
  unfold cr_ifa. by rewrite C, Hic.
Qed.

(** C38. With [PSR.ic] clear an unimplemented data address overwrites
    [CR.IFA] with the address that faulted, and the handler finds it there, while
    a NaT consumption fault keeps the [CR.IFA] of the interruption that is being
    handled. *)
Theorem uncollected_ifa (va access : Z) (na sp ed : bool) (isr info : Z) (s : rse_sys W) :
  truth (psr (senv s) .& IA64_PSR_IC) = false -> truth (psr (senv s) .& IA64_PSR_IS) = false ->
  ia32_transition_trap (exception_state (senv s)) = false -> length (cr (senv s)) = 128%nat ->
  (exists s', ia64_raise_unimplemented_data_address (A := unit) va access na sp ed s =
                Raise (Exit IA64_EXCP_UNIMPL_DATA_ADDR) s' /\
    forall fa slot, cr_ifa (senv (ia64_deliver_exception IA64_EXCP_UNIMPL_DATA_ADDR fa slot s')) = va) /\
  (exists s', ia64_raise_nat_consumption (A := unit) isr info s = Raise (Exit IA64_EXCP_NAT_CONSUMPTION) s' /\
    forall fa slot, cr_ifa (senv (ia64_deliver_exception IA64_EXCP_NAT_CONSUMPTION fa slot s')) = cr_ifa (senv s)).
Proof.
  intros Hic His Htr Hl. split.
  - unfold ia64_raise_unimplemented_data_address. rewrite bind_modenv, bind_getenv.
    match goal with |- context [@ia64_raise_exception _ _ ?e ?a ?b ?c ?s1] => destruct (@raised_ifa unit e a b c s1) as (s' & E & Ei) end;
      [done..| |].
    { cbn. by rewrite !aset_length. }
    exists s'. split; [exact E|]. intros fa slot. rewrite Ei. unfold cr_ifa. cbn.
    by rewrite aget_aset_ne, aget_aset_eq by (done || unfold alen; rewrite Hl; done).
  - unfold ia64_raise_nat_consumption. rewrite bind_getenv, Hic. cbn [mwhen]. rewrite bind_ret, bind_modenv.
    match goal with |- context [@ia64_raise_exception _ _ ?e ?a ?b ?c ?s1] => destruct (@raised_ifa unit e a b c s1) as (s' & E & Ei) end;
      [done..| |].
    { cbn. by rewrite !aset_length. }
    exists s'. split; [exact E|]. intros fa slot. rewrite Ei. unfold cr_ifa. cbn. by rewrite aget_aset_ne by done.
Qed.
End delivery.

(** ** Refused entries *)

(** The highest vector of a mask is taken and put back. *)
Lemma mask_put_back p :
  uint 16 p -> p <> 0 -> let v := 31 - (clz64 p - 32) in
  0 <= v /\ u16 (u16 (p .& ~32 (1 <<< v)) .| (1 <<< v)) = p.
Proof.
  intros Hu Hp v. assert (Hv : v = Z.log2 p) by (unfold v, clz64; destruct (Z.eqb_spec p 0); lia).
  assert (0 < p) by (unfold uint in Hu; lia).
  assert (Hr : 0 <= v < 16) by (rewrite Hv; split; [apply Z.log2_nonneg|apply Z.log2_lt_pow2; [lia|apply Hu]]).
  assert (Ht : Z.testbit p v = true) by (rewrite Hv; apply Z.bit_log2; lia). split; [lia|].
  clearbody v. zbits. replace i with v by lia. done.
Qed.

Lemma pmi_mask_put_back cpu b (f g : Z -> Z) :
  g (f (sapic_pmi_pending (interrupt (env cpu)))) = sapic_pmi_pending (interrupt (env cpu)) ->
  cpu <| env; interrupt ::= fun i => i <| sapic_pmi_pending ::= f |> |> <| interrupt_hard := b |>
      <| env; interrupt ::= fun i => i <| sapic_pmi_pending ::= g |> |> = cpu <| interrupt_hard := b |>.
Proof.
  destruct cpu as [e]. destruct e. destruct interrupt. cbn. intros E. unfold upd. cbn. by rewrite E.
Qed.

Lemma update_line cpu : exists b, ia64_sapic_update_interrupt cpu = cpu <| interrupt_hard := b |>.
Proof. unfold ia64_sapic_update_interrupt. case_match; by eexists. Qed.

Lemma special_line cpu b :
  sapic_special (env cpu) = true -> ia64_sapic_update_interrupt (cpu <| interrupt_hard := b |>) = cpu <| interrupt_hard := true |>.
Proof. intros E. unfold ia64_sapic_update_interrupt. change (env (cpu <| interrupt_hard := b |>)) with (env cpu). by rewrite E. Qed.

Section refusals.
Context {W : Type} `{World : RseWorld W} `{Laws : !RseWorldLaws W} `{Ras : RasWorld W} `{RLaws : !RasLaws W}
  `{Delivery : DeliveryWorld W}.

Local Abbreviation cc := (@cpu_class W World).

Lemma save_keeps address (s : rse_sys W) :
  ensures (ia64_ras_save_min_state address s) (fun _ s' => sys_cpu s' = sys_cpu s) (fun _ _ => False).
Proof.
  unfold ia64_ras_save_min_state. destruct (ia64_min_state_address_valid cc address); cbn [negb]; [|done].
  apply ensures_getenv. unfold ask. match goal with |- context [physical_write ?a ?b s] => destruct (write_law a b s) as [Ec _] end.
  by destruct (physical_write _ _ s).
Qed.

Lemma enter_pmi_refused v (s : rse_sys W) :
  ensures (ia64_ras_enter_pmi v s) (fun ok s' => ok = false -> sys_cpu s' = sys_cpu s) (fun _ _ => False).
Proof.
  unfold ia64_ras_enter_pmi. apply ensures_getenv. destruct (_ =? _); [done|].
  eapply ensures_bind with (P' := fun _ s' => sys_cpu s' = sys_cpu s).
  { destruct (negb (_ =? _)); [|done]. eapply ensures_mono; [apply save_keeps|done|done]. }
  intros [] s' Hs; cbn [negb]; [|by intros _]. done.
Qed.

Lemma accept_pmi_taken cpu :
  ia64_sapic_has_pmi (env cpu) = true ->
  ia64_sapic_accept_pmi cpu =
    let v := 31 - (clz64 (sapic_pmi_pending (interrupt (env cpu))) - 32) in
    (v, ia64_sapic_update_interrupt (cpu <| env; interrupt ::= fun i => i <| sapic_pmi_pending ::= fun p => u16 (p .& ~32 (1 <<< v)) |> |>)).
Proof. unfold ia64_sapic_has_pmi, ia64_sapic_accept_pmi. intros E%negb_true_iff. by rewrite E. Qed.

(** The vector is taken from the mask and put back into it. *)
Lemma pmi_put_back cpu :
  uint 16 (sapic_pmi_pending (interrupt (env cpu))) -> ia64_sapic_has_pmi (env cpu) = true ->
  truth (psr (env cpu) .& IA64_PSR_IC) = true -> pal_pmi_entry (pal (env cpu)) <> 0 ->
  let (v, cpu') := ia64_sapic_accept_pmi cpu in
  0 <= v /\
  ia64_sapic_update_interrupt (cpu' <| env; interrupt ::= fun i => i <| sapic_pmi_pending ::= fun p => u16 (p .| (1 <<< v)) |> |>) =
    cpu <| interrupt_hard := true |>.
Proof.
  intros Hu Hp Hic He. rewrite accept_pmi_taken by done. cbv zeta.
  assert (Hn : sapic_pmi_pending (interrupt (env cpu)) <> 0) by (by apply Z.eqb_neq, negb_true_iff).
  destruct (mask_put_back _ Hu Hn) as [Hv E]. split; [done|].
  match goal with |- ia64_sapic_update_interrupt ?y = _ =>
    match y with context [ia64_sapic_update_interrupt ?c] => destruct (update_line c) as [b ->] end end.
  rewrite pmi_mask_put_back by exact E. apply special_line. unfold sapic_special.
  apply negb_true_iff in Hp. unfold truth at 3. rewrite Hp, Hic. apply Z.eqb_neq in He. rewrite He. cbn. by rewrite !orb_true_r.
Qed.

(** C29. A PMI whose entry is refused is not lost: when the minimal
    state cannot be saved, the vector that was taken is pending again, the
    processor is as it was and the interrupt line is up. *)
Theorem refused_pmi_pending (s : rse_sys W) :
  uint 16 (sapic_pmi_pending (interrupt (senv s))) -> ia64_sapic_has_pmi (senv s) = true ->
  truth (psr (senv s) .& IA64_PSR_IC) = true -> pal_pmi_entry (pal (senv s)) <> 0 ->
  exists entered s', take_pmi s = Ok entered s' /\
    (entered = false -> sys_cpu s' = (sys_cpu s) <| interrupt_hard := true |>).
Proof.
  intros Hu Hp Hic He. unfold take_pmi. change (mbind (mget (fun s => sys_cpu s)) ?k s) with (k (sys_cpu s) s). cbv beta.
  pose proof (pmi_put_back (sys_cpu s) Hu Hp Hic He) as H. destruct (ia64_sapic_accept_pmi (sys_cpu s)) as [v cpu'].
  destruct H as [Hv E]. rewrite bind_modcpu. destruct (Z.ltb_spec v 0); [lia|].
  match goal with |- context [mbind (ia64_ras_enter_pmi ?v) _ ?s1] => pose proof (enter_pmi_refused v s1) as H1 end.
  unfold mbind at 1. destruct (ia64_ras_enter_pmi _ _) as [[] s1|]; [by eexists true, s1| |done]. cbn [ensures] in H1.
  eexists false, _. split; [reflexivity|]. intros _. rewrite <- E. cbn. by rewrite H1.
Qed.

(** *** Unimplemented addresses *)

Lemma pa_canonical addr :
  0 <= phys_addr_bits cc <= 63 -> uint 64 addr ->
  ia64_pa_is_implemented cc (ia64_pa_canonicalize cc addr) = true /\
  (ia64_pa_is_implemented cc addr = true -> ia64_pa_canonicalize cc addr = addr).
Proof.
  intros Hb Hu. unfold ia64_pa_is_implemented, ia64_pa_canonicalize. set (m := IA64_PHYS_UC_BIT .| _). split.
  - apply Z.eqb_eq. zbits.
  - intros H%Z.eqb_eq. apply Z.bits_inj'. intros i Hi. rewrite Z.land_spec.
    apply (f_equal (fun x => Z.testbit x i)) in H. autorewrite with zbits in H.
    destruct (Z.ltb_spec i 64); [|by rewrite (uint_bits 64 addr) by (done || lia)].
    by destruct (Z.testbit addr i), (Z.testbit m i).
Qed.

(** A virtual address is implemented when bit [msb] fills the bits up to 60. *)
Lemma va_implemented_bits va :
  0 <= impl_va_msb cc <= 60 ->
  ia64_va_is_implemented cc va = true <->
  forall i, impl_va_msb cc < i <= 60 -> Z.testbit va i = Z.testbit va (impl_va_msb cc).
Proof.
  intros Hm. unfold ia64_va_is_implemented. cbv zeta. destruct (Z.leb_spec 60 (impl_va_msb cc)); [split; [lia|done]|].
  set (m := impl_va_msb cc) in *. rewrite Z.eqb_eq, !shiftl_1_pow2, truth_land_pow2 by lia.
  rewrite (Z.sub_1_r (2 ^ (60 - m))), <- Z.ones_equiv. split.
  - intros E i Hi. apply (f_equal (fun x => Z.testbit x (i - (m + 1)))) in E. autorewrite with zbits in E.
    rewrite Z.sub_add in E. destruct (Z.ltb_spec (i - (m + 1)) (60 - m)); [|lia]. rewrite andb_true_r in E. rewrite E.
    destruct (Z.testbit va m); autorewrite with zbits; [by apply Z.ltb_lt|done].
  - intros E. apply Z.bits_inj'. intros i Hi. autorewrite with zbits.
    destruct (Z.ltb_spec i (60 - m)); [rewrite andb_true_r, (E (i + (m + 1))) by lia|rewrite andb_false_r];
      destruct (Z.testbit va m); autorewrite with zbits; zcmp; done.
Qed.

Lemma va_canonicalize_bits va i :
  0 <= impl_va_msb cc <= 60 -> uint 64 va -> 0 <= i ->
  Z.testbit (ia64_va_canonicalize cc va) i =
  if (impl_va_msb cc <? i) && (i <=? 60) then Z.testbit va (impl_va_msb cc) else Z.testbit va i.
Proof.
  intros Hm Hu Hi. unfold ia64_va_canonicalize. cbv zeta. set (m := impl_va_msb cc) in *.
  change IA64_REGION_MASK with (Z.ones 3). change IA64_REGION_SHIFT with 61.
  rewrite !shiftl_1_pow2, truth_land_pow2 by lia. rewrite !Z.sub_1_r, <- !Z.ones_equiv.
  rewrite Z.land_spec, ones_spec by lia. destruct (Z.ltb_spec m (m + 1)); [|lia]. rewrite andb_true_r.
  destruct (Z.ltb_spec m 60); cbn [andb]; [destruct (Z.testbit va m) eqn:E|]; zbits_step; zbits_finish;
    try (replace i with m by lia; done).
Qed.

Lemma va_canonical va :
  0 <= impl_va_msb cc <= 60 -> uint 64 va ->
  ia64_va_is_implemented cc (ia64_va_canonicalize cc va) = true /\
  (ia64_va_is_implemented cc va = true -> ia64_va_canonicalize cc va = va).
Proof.
  intros Hm Hu. rewrite !va_implemented_bits by done. split.
  - intros i Hi. rewrite !va_canonicalize_bits by (done || lia). zcmp. done.
  - intros H. apply Z.bits_inj'. intros i Hi. rewrite va_canonicalize_bits by done. zcmp; [|done..]. symmetry. apply H. lia.
Qed.

(** C30. The instruction pointer that a fault on an unimplemented
    address reports is implemented, in the virtual or in the physical address
    space as [PSR.it] says, and an implemented one is reported unchanged. *)
Theorem canonical_ip_implemented (e : CPUIA64State) :
  0 <= impl_va_msb cc <= 60 -> 0 <= phys_addr_bits cc <= 63 -> uint 64 (ip e) ->
  let implemented := if truth (psr e .& IA64_PSR_IT) then ia64_va_is_implemented cc else ia64_pa_is_implemented cc in
  implemented (canonical_ip e) = true /\ (implemented (ip e) = true -> canonical_ip e = ip e).
Proof.
  intros Hv Hp Hu. unfold canonical_ip. cbv zeta. case_match; [by apply va_canonical|by apply pa_canonical].
Qed.
End refusals.

(** ** A machine that is interrupted *)

#[export] Instance flat_delivery : DeliveryWorld flat := {|
  ia64_ia32_abort_sse_instruction := id;
  ia64_ia32_sync_to_ia64 := id;
  ia64_ia32_virtual_ip := fun s => ip (senv s);
  ia64_ia32_unaligned_access := fun _ _ => mret tt;
  cpu_restore_state := id;
  ia64_current_code_tlb_ed := fun _ => false;
  ia64_raise_pre_unaligned_data_fault := fun _ _ _ _ _ => mret tt;
  ia64_firmware_debug_capture := fun _ _ s => s;
  ia64_mmu_insert_firmware_tc := fun _ _ _ _ => mret true;
  ia64_try_emulate_firmware_unaligned := fun _ _ => mret false;
  cpu_reset_to_boot := id
|}.

#[export] Instance flat_delivery_laws c : @DeliveryLaws flat (flat_world c) (flat_laws c) flat_delivery.
Proof. split; [done|done|]. intros s. split; [apply kept_refl|done]. Qed.

#[local] Existing Instance flat_world.
#[local] Abbreviation plain := (flat_world false).

(** A framed processor in bank 1, at slot 1 of a bundle, with interruptions
    collected, vector 0x41 pending and the handlers at 0x18000. *)
Definition suspended : rse_sys flat :=
  mkRseSys (zero_cpu (framed <| psr := IA64_PSR_IC .| IA64_PSR_I .| IA64_PSR_BN .| (1 <<< IA64_PSR_RI_SHIFT) |>
    <| ip := 0x4a0 |> <| cr @ IA64_CR_IVA := 0x18000 |> <| gr @ 20 := 5 |>
    <| interrupt ::= fun i => i <| sapic_irr := [0; 2; 0; 0] |> |>) true) (mkFlat [] None).

Lemma suspended_ok : suspendable suspended.
Proof.
  split; try (vm_compute; reflexivity).
  split; [reflexivity|reflexivity|apply all_uint; vm_compute; reflexivity|reflexivity|uint_const].
Qed.


Lemma delivery_exact_witness :
  let e' := senv (ia64_deliver_exception (World := plain) IA64_EXCP_DTLB_FAULT 0x4a0 1 suspended) in
  ip e' = 0x18800 /\ Z.testbit (psr e') 13 = false /\ aget (cr e') IA64_CR_IIP = 0x4a0.
Proof.
  destruct (delivery_exact (World := plain) IA64_EXCP_DTLB_FAULT 0x4a0 1 suspended) as (Hp & Hi & _ & Hc & _).
  - discriminate.
  - vm_compute. reflexivity.
  - vm_compute. reflexivity.
  - vm_compute. reflexivity.
  - uint_const.
  - cbv zeta in *. rewrite Hi, Hp, (Hc IA64_CR_IIP) by (vm_compute; intuition discriminate). vm_compute. split_and!; reflexivity.
Defined.

Lemma interruption_returns_witness :
  exists s', (ia64_cpu_do_interrupt (World := plain) IA64_EXCP_BREAK ;;; ia64_rfi (World := plain) 0 0) suspended = Ok tt s' /\
    aget (gr (senv s')) 20 = 5 /\ ip (senv s') = 0x4a0.
Proof.
  destruct (interruption_returns (World := plain) IA64_EXCP_BREAK 0 0 suspended) as (s' & E & H).
  - reflexivity.
  - exact suspended_ok.
  - discriminate.
  - exists s'. split; [exact E|]. pose proof (re_bank _ _ _ H) as Hb. injection Hb as Hg _ _ _. rewrite Hg, (re_ip _ _ _ H).
    split; vm_compute; reflexivity.
Defined.


(** The same processor with collection off. *)
Lemma uncollected_ifa_witness :
  let s := suspended <| sys_cpu; env ::= fun e => e <| psr := IA64_PSR_BN |> |> in
  exists s', ia64_raise_unimplemented_data_address (A := unit) 0x123 IA64_ISR_R false false false s =
      Raise (Exit IA64_EXCP_UNIMPL_DATA_ADDR) s' /\
    cr_ifa (senv s) = 0 /\
    cr_ifa (senv (ia64_deliver_exception (World := plain) IA64_EXCP_UNIMPL_DATA_ADDR 0 0 s')) = 0x123.
Proof.
  intros s. destruct (uncollected_ifa (World := plain) 0x123 IA64_ISR_R false false false 0 0 s) as [(s' & E & H) _].
  - vm_compute. reflexivity.
  - vm_compute. reflexivity.
  - vm_compute. reflexivity.
  - vm_compute. reflexivity.
  - exists s'. split; [exact E|]. split; [vm_compute; reflexivity|apply H].
Defined.

(** A PMI with a save area outside the physical memory. *)
Definition refused : rse_sys flat :=
  suspended <| sys_cpu; env ::= fun e => e <| interrupt; sapic_pmi_pending := 6 |>
    <| pal ::= fun p => p <| pal_pmi_entry := 0x9000 |> <| pal_mc_save_addr := 1 |> |> |>.

Lemma refused_pmi_pending_witness :
  exists s', take_pmi (World := plain) refused = Ok false s' /\ sys_cpu s' = (sys_cpu refused) <| interrupt_hard := true |>.
Proof.
  destruct (refused_pmi_pending (World := plain) refused) as (b & s' & E & H).
  - uint_const.
  - reflexivity.
  - vm_compute. reflexivity.
  - vm_compute. discriminate.
  - assert (Hb : match take_pmi (World := plain) refused with Ok b _ => b | Raise _ _ => true end = false) by (vm_compute; reflexivity).
    rewrite E in Hb. subst b. exists s'. split; [exact E|exact (H eq_refl)].
Defined.

Lemma canonical_ip_implemented_witness :
  let e := framed <| ip := 0x00ffffffffffffff |> in
  canonical_ip (World := plain) e = 0x0003ffffffffffff /\
  ia64_pa_is_implemented (@cpu_class flat plain) (canonical_ip (World := plain) e) = true.
Proof.
  intros e. split; [vm_compute; reflexivity|].
  destruct (canonical_ip_implemented (World := plain) e) as [H _]; [vm_compute; intuition discriminate..|uint_const|].
  replace (truth (psr e .& IA64_PSR_IT)) with false in H by (vm_compute; reflexivity). exact H.
Defined.
