(* ===== verification/Handlers.v ===== *)
(** * Interruption handlers

    An interruption handler that leaves the interrupted frame with [cover],
    runs a program on the register stack and returns with [rfi]: the
    composition of exception delivery, the register stack engine and the
    return. *)
From stdpp Require Import list.
From S2P Require Import Prelude Arch Env Alat Registers Interrupt RseMap RseRnat RseOps RsePart RseSteps RseLoads RseFrames RseReturns RseAlloc RseRuns RseContext RseOutside Ras Exception.
Local Open Scope Z_scope.

Section handlers.
Context {W : Type} `{World : RseWorld W} `{Laws : !RseWorldLaws W} `{Ras : RasWorld W} `{Delivery : DeliveryWorld W}
  `{DLaws : !DeliveryLaws W}.

Local Abbreviation clean := (rse_has_clean_partition (@cpu_class W World)).

(** ** Control registers in a program *)

(** A return leaves the control registers [c], and no trap pending. *)
Definition settles (c : list Z) (o : outcome cpu_exit (rse_sys W) unit) : Prop :=
  ensures o (fun _ s' => controls (senv s') = (c, false)) (fun _ _ => True).

Lemma settles_step {A} c (m : RM W A) (k : A -> RM W unit) s :
  cr (senv s) = c -> observed cr m -> (forall a s1, cr (senv s1) = c -> settles c (k a s1)) -> settles c (mbind m k s).
Proof. intros <- Hm Hk. eapply ensures_bind; [apply Hm|]. intros a s1 E. by apply Hk. Qed.

Lemma settles_then c (m k : RM W unit) s :
  settles c (m s) -> (forall s1, controls (senv s1) = (c, false) -> settles c (k s1)) -> settles c ((m ;;; k) s).
Proof. intros Hm Hk. eapply ensures_bind; [exact Hm|]. intros [] s1 E. by apply Hk. Qed.

Lemma settles_observed c (m : RM W unit) s : controls (senv s) = (c, false) -> observed controls m -> settles c (m s).
Proof. intros E Hm. eapply ensures_mono; [apply Hm| |done]. intros [] s' ->. exact E. Qed.

Lemma observed_cr {A} (m : RM W A) : observed controls m -> observed cr m.
Proof. intros Hm s. eapply ensures_mono; [apply Hm| |done]. intros a s' E. exact (f_equal fst E). Qed.

Lemma return_settles c m n s : cr (senv s) = c -> settles c ((ia64_rse_return_to_frame m n ;;; ia64_rse_complete_pending_trap) s).
Proof.
  intros Hc. eapply settles_step; [exact Hc|apply observed_cr, inside_controls, inside_return|]. intros [] s1 <-. apply trap_controls.
Qed.

Lemma settles_assoc c (m k l : RM W unit) s : settles c ((m ;;; k ;;; l) s) -> settles c (((m ;;; k) ;;; l) s).
Proof. unfold settles, mbind. by destruct (m s). Qed.

Lemma pop_settles c pfs s : cr (senv s) = c -> settles c ((ia64_rse_pop_return_frame pfs ;;; ia64_rse_complete_pending_trap) s).
Proof.
  intros Hc. unfold ia64_rse_pop_return_frame. apply settles_assoc.
  eapply settles_step; [exact Hc|by apply observed_modenv|intros [] s5 H5]. by apply return_settles.
Qed.

Lemma br_ret_settles c b_reg ip slot s : cr (senv s) = c -> settles c (ia64_rse_br_ret b_reg ip slot s).
Proof.
  intros Hc. unfold ia64_rse_br_ret. apply ensures_getenv. cbv zeta.
  eapply settles_step; [exact Hc|by apply observed_modenv|intros [] s1 H1].
  eapply settles_step; [exact H1|apply observed_when, observed_cr, set_psr_controls|intros [] s2 H2].
  eapply settles_step; [exact H2|by apply observed_modenv|intros [] s3 H3].
  eapply settles_step; [exact H3|apply observed_modenv; intros e; by case_match|intros [] s4 H4].
  by apply pop_settles.
Qed.

Lemma exec_settles i : forall c s, controls (senv s) = (c, false) -> settles c (exec i s).
Proof.
  induction i as [r v b|r m| |b n t l IH] using insn_ind'; intros c s E; cbn [exec].
  - apply settles_observed; [done|]. apply inside_controls, observed_modenv. intros e. by autorewrite with outside.
  - apply settles_observed; [done|]. apply inside_controls, inside_alloc.
  - apply settles_observed; [done|]. apply inside_controls. unfold ia64_rse_flush. apply observed_bind; [apply observed_getenv|].
    intros e. apply inside_flush_loop.
  - eapply settles_then; [by apply settles_observed, call_controls|]. intros s1 E1. apply ensures_getenv.
    eapply settles_then.
    + clear -IH E1. revert s1 E1. induction IH as [|i l Hi _ IHl]; intros s1 E1; cbn [foldr]; [exact E1|].
      eapply settles_then; [by apply Hi|]. intros s2 E2. by apply IHl.
    + intros s2 E2. eapply settles_step; [exact (f_equal fst E2)|by apply observed_modenv|]. intros [] s3 H3. by apply br_ret_settles.
Qed.

Lemma execs_settles l c : forall s, controls (senv s) = (c, false) -> settles c (execs l s).
Proof.
  induction l as [|i l IH]; intros s E; [exact E|]. unfold execs. cbn [foldr]. eapply settles_then; [by apply exec_settles|exact IH].
Qed.

(** ** Leaving the interrupted frame *)

Lemma core_ars e e' : core e = core e' -> ar e = ar e'.
Proof. by intros [= _ _ _ _ _ _ _ E _]. Qed.

Lemma alat_ars e : ar (ia64_rse_invalidate_stacked_alat e) = ar e.
Proof. apply core_ars, invalidate_alat_core. Qed.

Lemma rotations_ars e : ar (ia64_rse_reset_rotations e) = ar e.
Proof. rewrite (core_ars _ _ (proj1 (reset_rotations_spec e))). done. Qed.

Lemma preserve_pfs e n : ar_pfs (ia64_rse_preserve_frame e n) = ar_pfs e.
Proof. unfold ia64_rse_preserve_frame. case_match; [done|]. by apply aget_aset_ne. Qed.

Lemma cover_frame_pfs cl K e : rse_inv cl K e -> ar_pfs (cover_frame e) = ar_pfs e.
Proof.
  intros Hi. destruct (cover_frame_spec cl K e Hi) as (_ & _ & _ & _ & Hcut). rewrite cover_frame_eq by apply Hcut.
  pose proof (fd_rest _ _ (cu_filed _ _ _ _ _ _ Hcut)) as E0. generalize dependent (ia64_rse_sync_frame_out e). intros e0 _ E0.
  unfold ar_pfs at 1. rewrite alat_ars, rotations_ars.
  change (ar_pfs (ia64_rse_preserve_frame e0 (cfm_sof e)) = ar_pfs e). rewrite preserve_pfs. by rewrite E0.
Qed.

Lemma cover_pfs cl K e : rse_inv cl K e -> ar_pfs (ia64_rse_cover e) = ar_pfs e.
Proof.
  intros Hi. unfold ia64_rse_cover. destruct (negb (truth (psr e .& IA64_PSR_IC))); [|by eapply cover_frame_pfs].
  match goal with |- ar_pfs (cover_frame ?x) = _ => transitivity (ar_pfs x); [apply (cover_frame_pfs cl K)|done] end.
  by apply (stack_fields_inv cl K e).
Qed.

Lemma outside_controls e e' : outside e = outside e' -> controls e = controls e'.
Proof. intros E. exact (f_equal controls E). Qed.

(** [cover] records the frame in [CR.IFS] when interruptions are not collected. *)
Lemma cover_controls e :
  truth (psr e .& IA64_PSR_IC) = false ->
  controls (ia64_rse_cover e) = (aset (cr e) IA64_CR_IFS (IA64_IFS_V .| ia64_rse_current_cfm e), rse_completion_pending (rse e)).
Proof.
  intros Hic. unfold ia64_rse_cover. rewrite Hic. cbn [negb].
  by rewrite (outside_controls _ _ (outside_cover_frame _)).
Qed.

(** The frame marker of the processor is one that a return accepts. *)
Lemma current_cfm_marks cl K e : rse_inv cl K e -> marks (ia64_rse_current_cfm e) e.
Proof.
  intros Hi. destruct (current_cfm_marker cl K e Hi) as (E1 & E2 & E3 & E4 & E5 & E6).
  pose proof (vw_frame _ (ri_views _ _ _ Hi)) as [Hsof Hsor Hrg _]. pose proof (ri_sol _ _ _ Hi) as Hsol.
  destruct (ri_rrb _ _ _ Hi) as [Hf Hp]. split; [done|]. split.
  - split; rewrite ?E1, ?E2, ?E3, ?E4; try lia. destruct (cfm_sor e =? 0); lia.
  - intros b bsp. unfold marker_frame. rewrite E1, E2, E3, E4, E5, E6. by rewrite !Z.mod_small.
Qed.

Lemma ifs_sof m : (IA64_IFS_V .| m) .& IA64_CFM_SOF_MASK = marker_sof m.
Proof. unfold marker_sof. change IA64_CFM_SOF_MASK with (Z.ones 7). change IA64_IFS_V with (2 ^ 63). zbits. Qed.

(** ** Return to the interrupted frame *)

(** [PSR] without the bits that a memory reference clears. *)
Abbreviation lasting p := (p .& ~64 (IA64_PSR_DA .| IA64_PSR_DD)).

Lemma outside_fields e e' :
  outside e = outside e' -> lasting (psr e) = lasting (psr e') /\ ip e = ip e' /\ rse_completion_pending (rse e) = rse_completion_pending (rse e').
Proof.
  intros E. split_and!; [exact (f_equal psr E)|exact (f_equal ip E)|exact (f_equal (fun x => rse_completion_pending (rse x)) E)].
Qed.

Lemma return_outside m n s :
  rse_completion_pending (rse (senv s)) = false ->
  ensures ((ia64_rse_return_to_frame m n ;;; ia64_rse_complete_pending_trap) s)
    (fun _ s' => lasting (psr (senv s')) = lasting (psr (senv s)) /\ ip (senv s') = ip (senv s)) (fun _ _ => True).
Proof.
  intros Hp. eapply ensures_bind; [apply inside_return|]. intros [] s1 E. destruct (outside_fields _ _ E) as (E1 & E2 & E3).
  unfold ia64_rse_complete_pending_trap. apply ensures_getenv. rewrite E3, Hp. by split.
Qed.

Lemma rfi_frame mode K base sg m n a b (s : rse_sys W) :
  stack mode K base sg s -> mode_part (senv s) = mode -> return_pre (W := W) K m n (senv s) ->
  truth (cr_ipsr (senv s) .& IA64_PSR_IS) = false -> Z.testbit (cr_ipsr (senv s)) 27 = Z.testbit (psr (senv s)) 27 ->
  rse_completion_pending (rse (senv s)) = false -> truth (cr_ifs (senv s) .& IA64_IFS_V) = true ->
  cr_ifs (senv s) .& IA64_IFS_IFM_MASK = m -> cr_ifs (senv s) .& IA64_CFM_SOF_MASK = n ->
  exists sg', (forall j, j < K + cfm_sof (senv s) -> sg' j = sg j) /\
    ensures (ia64_rfi a b s)
      (fun _ s' => (stack mode (K - n) base sg' s' /\ frame_part (senv s') = return_to m n (senv s) /\
         0 <= rse_dirty (rse (senv s')) /\ ar_pfs (senv s') = ar_pfs (senv s)) /\
         lasting (psr (senv s')) = lasting (cr_ipsr (senv s)) /\ ip (senv s') = ia64_ip_bundle_addr (cr_iip (senv s)))
      (fun _ s' => stack mode (K - n) base sg' s').
Proof.
  intros Hs Hm Hpre His Hrt Hpend HV Em En.
  destruct (rfi_start a b s His) as (s5 & E & Hp5 & Hi5 & _ & _ & R5 & _ & K5 & M5). rewrite HV, Em, En in E.
  assert (Hst : calm s s5 /\ mode_part (senv s5) = mode_part (senv s)).
  { split; [apply calm_kept; [exact K5|intros [] x; apply M5]|]. apply mode_eq; [apply (kept_ars _ _ K5)|by rewrite Hp5]. }
  destruct (returns_after mode K base sg m n s s5 (ia64_rse_return_to_frame m n ;;; ia64_rse_complete_pending_trap) Hst Hs Hm Hpre)
    as (sg' & Hsg & Hret).
  { intros s'' Hs'' Hm'' Hp''. by apply returns_trap, to_frame_returns. }
  exists sg'. split; [done|]. rewrite E.
  eapply ensures_mono; [eapply ensures_both; [exact Hret|apply return_outside; by rewrite R5]|..].
  - intros [] s' ((H1 & _ & H3 & H4 & H5) & H6 & H7). split.
    + split_and!; [exact H1|exact H3|rewrite H4; apply Z.le_max_r|exact H5].
    + split; [exact (eq_trans H6 (f_equal (fun p => lasting p) Hp5))|exact (eq_trans H7 Hi5)].
  - by intros ? s' [H _].
Qed.

(** ** Handlers *)

(** [cover] and a program.  The handler saves and restores [AR.PFS] around the
    program, which its calls change. *)
Definition covered (l : list insn) : RM W unit :=
  modenv ia64_rse_cover ;;;
  let! env := getenv in
  execs l ;;;
  modenv (fun e => e <| ar @ IA64_AR_PFS := ar_pfs env |>).

Definition handler (l : list insn) (a b : Z) : RM W unit := covered l ;;; ia64_rfi a b.

Lemma mode_rt e e' : mode_part e = mode_part e' -> Z.testbit (psr e) 27 = Z.testbit (psr e') 27.
Proof.
  unfold mode_part, ia64_rse_mmu_index. change IA64_PSR_RT with (2 ^ 27). rewrite !truth_land_pow2 by lia. intros E%(f_equal snd). cbn [snd] in E.
  by destruct (Z.testbit (psr e) 27), (Z.testbit (psr e') 27).
Qed.

(** A handler that has just been entered. *)
Record at_handler (mode : bool * Z) (K base : Z) (sg : Z -> Z * bool) (s : rse_sys W) : Prop := {
  ah_ready : ready mode K base sg s;
  ah_ic : truth (psr (senv s) .& IA64_PSR_IC) = false;
  ah_cr : length (cr (senv s)) = 128%nat;
  ah_pending : rse_completion_pending (rse (senv s)) = false;
  ah_native : truth (cr_ipsr (senv s) .& IA64_PSR_IS) = false;
  ah_rt : Z.testbit (cr_ipsr (senv s)) 27 = Z.testbit (psr (senv s)) 27
}.

(** After [cover] the interrupted frame is a frame that [rfi] returns to. *)
Lemma cover_ifs mode K base sg (s s4 : rse_sys W) :
  at_handler mode K base sg s -> controls (senv s4) = controls (ia64_rse_cover (senv s)) ->
  mode_part (senv s4) = mode ->
  rse_completion_pending (rse (senv s4)) = false /\ truth (cr_ifs (senv s4) .& IA64_IFS_V) = true /\
  cr_ifs (senv s4) .& IA64_IFS_IFM_MASK = ia64_rse_current_cfm (senv s) /\
  cr_ifs (senv s4) .& IA64_CFM_SOF_MASK = cfm_sof (senv s) /\
  cr_ipsr (senv s4) = cr_ipsr (senv s) /\ cr_iip (senv s4) = cr_iip (senv s) /\
  Z.testbit (cr_ipsr (senv s4)) 27 = Z.testbit (psr (senv s4)) 27.
Proof.
  intros [[Hs Hm _ _] Hic Hl Hp _ Hrt] E Hm4. rewrite cover_controls in E by done. injection E as Ec Ep.
  pose proof (st_inv _ _ _ _ _ Hs) as Hi. destruct (current_ifs _ _ _ Hi) as (I1 & I2 & _). destruct (current_cfm_marks _ _ _ Hi) as [Es _].
  assert (Ei : cr_ifs (senv s4) = IA64_IFS_V .| ia64_rse_current_cfm (senv s)).
  { unfold cr_ifs. rewrite Ec. apply aget_aset_eq. unfold alen. rewrite Hl. done. }
  assert (Eo : forall i, i <> IA64_CR_IFS -> aget (cr (senv s4)) i = aget (cr (senv s)) i).
  { intros i Hne. rewrite Ec. apply aget_aset_ne. congruence. }
  rewrite Ei. split_and!; [congruence|done|done|by rewrite ifs_sof|by apply Eo|by apply Eo|].
  unfold cr_ipsr in *. rewrite Eo, Hrt by done. symmetry. apply mode_rt. congruence.
Qed.

(** The interrupted stack, from a fault in the handler. *)
Definition kept_below (mode : bool * Z) (K base top : Z) (sg : Z -> Z * bool) (s' : rse_sys W) : Prop :=
  exists K' sg', K <= K' /\ stack mode K' base sg' s' /\ forall j, j < top -> sg' j = sg j.

Lemma senv_modenv f (s : rse_sys W) : senv (s <| sys_cpu; env ::= f |>) = f (senv s).
Proof. done. Qed.

Lemma ensures_modenv_end f (s : rse_sys W) (P : unit -> rse_sys W -> Prop) Q :
  P tt (s <| sys_cpu; env ::= f |>) -> ensures (modenv f s) P Q.
Proof. done. Qed.

Lemma restore_pfs mode K base sg v (s : rse_sys W) :
  stack mode K base sg s ->
  let s' := s <| sys_cpu; env ::= fun e => e <| ar @ IA64_AR_PFS := v |> |> in
  stack mode K base sg s' /\ mode_part (senv s') = mode_part (senv s) /\ ar_pfs (senv s') = v /\
  controls (senv s') = controls (senv s) /\ rse (senv s') = rse (senv s).
Proof.
  intros Hs s'. split_and!; try done.
  - by apply (stack_env mode K base sg s); [|apply ar_other_fields|].
  - by apply mode_ar.
  - apply aget_aset_eq. rewrite (rn_ar _ (ri_rnat _ _ _ (st_inv _ _ _ _ _ Hs))). done.
Qed.

(** The program and what follows it, [s2] being the state after [cover]. *)
Lemma covered_after mode K base sg n l (s s2 : rse_sys W) :
  ready mode K base sg s -> 0 <= n <= 96 -> left_below mode K base sg s n s2 -> ar_pfs (senv s2) = ar_pfs (senv s) ->
  rse_completion_pending (rse (senv s2)) = false ->
  clean = false -> forallb insn_ok l = true -> top_ok (K + n + 96 * (1 + depths l)) ->
  ensures ((execs l ;;; modenv (fun e => e <| ar @ IA64_AR_PFS := ar_pfs (senv s2) |>)) s2)
    (fun _ s4 => exists sg2, stack mode (K + n) base sg2 s4 /\ mode_part (senv s4) = mode /\
       0 <= rse_dirty (rse (senv s4)) <= rse_dirty (rse (senv s)) + n /\ ar_pfs (senv s4) = ar_pfs (senv s) /\
       controls (senv s4) = controls (senv s2) /\
       rse_bol (rse (senv s4)) = (rse_bol (rse (senv s)) + n) mod 96 /\ forall j, j < K + n -> sg2 j = sg j)
    (fun _ s' => kept_below mode K base (K + n) sg s').
Proof.
  intros [Hs Hm Hd Hp] Hn [Hs2 Hm2 _ Hd2 Hf2] Hpc Hpend Hcl Hok Htop.
  assert (Hcc : controls (senv s2) = (cr (senv s2), false)) by (unfold controls; by rewrite Hpend). eapply ensures_bind.
  { eapply ensures_both; [|apply (execs_settles l _ s2 Hcc)].
    eapply ensures_mono; [apply (execs_ok l (Forall_true _ _ exec_spec) mode (K + n) base sg s2); try done|intros u s' H; exact H|].
    - split; [done|congruence|lia|by rewrite Hpc].
    - intros ? s' (K' & sg' & HK & Hs' & Hsg'). exists K', sg'. split_and!; [lia|done|done]. }
  intros [] s3 ((sg2 & ([Hs3 Hm3 Hd3 _] & Hpl3 & Hdl3 & Hsg3) & _) & Hc3).
  destruct (restore_pfs mode (K + n) base sg2 (ar_pfs (senv s2)) s3 Hs3) as (Hs4 & Hm4 & Hp4 & Hc4 & Hr4).
  apply ensures_modenv_end. match goal with |- context [stack _ _ _ _ ?t] => generalize dependent t end.
  intros s4 Hs4 Hm4 Hp4 Hc4 Hr4. exists sg2. rewrite Hr4, Hc4, Hm4, Hp4, Hc3, Hcc.
  injection Hpl3 as Hb3 _. injection Hf2 as Hb2 _ _ _ _ _ _ _. split_and!; try done; [lia..|congruence].
Qed.

Lemma covered_spec mode K base sg l (s : rse_sys W) :
  let n := cfm_sof (senv s) in
  at_handler mode K base sg s -> clean = false -> forallb insn_ok l = true -> top_ok (K + n + 96 * (1 + depths l)) ->
  ensures (covered l s)
    (fun _ s4 => exists sg2, stack mode (K + n) base sg2 s4 /\ mode_part (senv s4) = mode /\
       0 <= rse_dirty (rse (senv s4)) <= rse_dirty (rse (senv s)) + n /\ ar_pfs (senv s4) = ar_pfs (senv s) /\
       controls (senv s4) = controls (ia64_rse_cover (senv s)) /\
       rse_bol (rse (senv s4)) = (rse_bol (rse (senv s)) + n) mod 96 /\ forall j, j < K + n -> sg2 j = sg j)
    (fun _ s' => kept_below mode K base (K + n) sg s').
Proof.
  intros n [Hr Hic Hl Hpend _ _] Hcl Hok Htop. pose proof Hr as [Hs _ _ _]. pose proof (st_inv _ _ _ _ _ Hs) as Hi.
  pose proof (wf_sof _ (vw_frame _ (ri_views _ _ _ Hi))) as Hsof. fold n in Hsof.
  pose proof (cover_pfs _ _ _ Hi) as Hpc. pose proof (cover_controls (senv s) Hic) as Hcc. rewrite Hpend in Hcc.
  unfold covered. apply ensures_modenv.
  match goal with |- ensures (_ ?t) _ _ =>
    pose proof (senv_modenv ia64_rse_cover s : senv t = _) as E2; assert (Hmem : same_mem s t) by done; generalize dependent t end.
  intros s2 E2 Hmem.
  pose proof (cover_spec mode K base sg s s2 Hs E2 Hmem) as Hlb. apply ensures_getenv. rewrite <- E2 in Hpc, Hcc |- *.
  apply covered_after; try done. exact (f_equal snd Hcc).
Qed.

Lemma handler_spec mode K base sg l a b (s : rse_sys W) :
  let n := cfm_sof (senv s) in
  at_handler mode K base sg s -> clean = false -> forallb insn_ok l = true -> top_ok (K + n + 96 * (1 + depths l)) ->
  ensures (handler l a b s)
    (fun _ s' => (exists sg', stack mode K base sg' s' /\ forall j, j < K + n -> sg' j = sg j) /\
       frame_part (senv s') = frame_part (senv s) /\ 0 <= rse_dirty (rse (senv s')) /\ ar_pfs (senv s') = ar_pfs (senv s) /\
       lasting (psr (senv s')) = lasting (cr_ipsr (senv s)) /\ ip (senv s') = ia64_ip_bundle_addr (cr_iip (senv s)))
    (fun _ s' => kept_below mode K base (K + n) sg s').
Proof.
  intros n Hh Hcl Hok Htop. unfold handler. pose proof Hh as [[Hs _ _ _] _ _ _ His _]. pose proof (st_inv _ _ _ _ _ Hs) as Hi.
  pose proof (wf_sof _ (vw_frame _ (ri_views _ _ _ Hi))) as Hsof. fold n in Hsof.
  pose proof (current_cfm_marks _ _ _ Hi) as Hmk. assert (Hdep : 0 <= depths l).
  { unfold depths. clear. induction l as [|i l IH]; cbn [foldr]; [lia|]. pose proof (depth_nonneg i). lia. }
  eapply ensures_bind; [by apply (covered_spec mode K base sg)|]. fold n.
  intros [] s4 (sg2 & Hs4 & Hm4 & Hd4 & Hp4 & Hc4 & Hb4 & Hsg2).
  destruct (cover_ifs mode K base sg s s4 Hh Hc4 Hm4) as (Hpend & HV & Em & En & Ei & Ep & Hrt). fold n in En.
  assert (Hpre : return_pre (W := W) (K + n) (ia64_rse_current_cfm (senv s)) n (senv s4)).
  { apply (call_return_pre mode K base sg sg2 n _ s s4); try done; [lia|]. eapply top_ok_mono; [|exact Htop]. lia. }
  assert (His4 : truth (cr_ipsr (senv s4) .& IA64_PSR_IS) = false) by by rewrite Ei.
  destruct (rfi_frame mode (K + n) base sg2 _ n a b s4 Hs4 Hm4 Hpre His4 Hrt Hpend HV Em En) as (sg' & Hsg & Hret).
  replace (K + n - n) with K in Hret by lia. pose proof (wf_sof _ (vw_frame _ (ri_views _ _ _ (st_inv _ _ _ _ _ Hs4)))) as Hsof4.
  assert (Hag : forall j, j < K + n -> sg' j = sg j) by (intros j Hj; rewrite Hsg, Hsg2 by lia; done).
  eapply ensures_mono; [exact Hret|..].
  - intros [] s' ((Hs' & Hf' & Hd' & Hp') & Hpsr & Hip). rewrite Ei in Hpsr. rewrite Ep in Hip. split_and!; try done; [by exists sg'| |congruence].
    by apply (returned_frame mode K base sg sg' n _ s s4 s' Hmk Hs Hs' Hb4).
  - intros ? s' Hs'. exists K, sg'. split_and!; [lia|done|done].
Qed.

(** *** From the interruption *)

Lemma entered_mode excp fa slot (s s1 : rse_sys W) : entered excp fa slot s s1 -> mode_part (senv s1) = mode_part (senv s).
Proof.
  intros [P _ _ _ _ _ _ _ Hk _]. apply mode_eq; [apply (kept_ars _ _ Hk)|]. rewrite P, handler_psr by lia.
  change (Z.testbit IA64_PSR_INTERRUPTION_PRESERVED_MASK 27) with true. cbn [Z.eqb Pos.eqb]. by rewrite !andb_false_r, !orb_false_r, andb_true_r.
Qed.

Lemma suspendable_complete (s : rse_sys W) : suspendable s -> 0 <= rse_dirty (rse (senv s)).
Proof. intros [_ _ _ _ _ _ Hf _]. unfold frame_incomplete in Hf. by apply orb_false_iff in Hf as [?%Z.ltb_ge _]. Qed.

Lemma entered_at_handler excp fa slot K (s s1 : rse_sys W) :
  suspendable s -> entered excp fa slot s s1 -> rse_inv clean K (senv s) -> uint 64 (ar_pfs (senv s)) ->
  at_handler (mode_part (senv s)) K (K - rse_dirty (rse (senv s))) (held_stack K (senv s)) s1 /\
  frame_part (senv s1) = frame_part (senv s) /\ ar_pfs (senv s1) = ar_pfs (senv s) /\
  cr_ipsr (senv s1) = resumed_psr slot (senv s) /\ cr_iip (senv s1) = ia64_ip_bundle_addr (ip (senv s)).
Proof.
  intros Hsu Hen Hi Hu. pose proof Hsu as [His Htr Hl Hbk Hic Hp Hf Hc]. pose proof (entered_mode _ _ _ _ _ Hen) as Hmode.
  destruct Hen as [P A B G R I C L Hk M]. rewrite Hic in C.
  assert (Ei : cr_ipsr (senv s1) = resumed_psr slot (senv s)) by by (unfold cr_ipsr; rewrite C).
  assert (Ep : cr_iip (senv s1) = ia64_ip_bundle_addr (ip (senv s))) by by (unfold cr_iip; rewrite C).
  assert (Hd : 0 <= rse_dirty (rse (senv s))) by (by apply suspendable_complete).
  destruct (calm_kept s s1 Hk) as (Hfr & [= Ed _ _ _ _ _ _] & Hpf & Hst); [intros [] x; apply M|].
  split; [|by split_and!]. split; [| |exact L|..].
  - split; [by apply Hst, inv_stack|done|by rewrite Ed|by rewrite Hpf].
  - rewrite P. change IA64_PSR_IC with (2 ^ 13). rewrite truth_land_pow2, handler_psr by lia.
    change (Z.testbit IA64_PSR_INTERRUPTION_PRESERVED_MASK 13) with false. cbn [Z.eqb Pos.eqb]. by rewrite !andb_false_r.
  - by rewrite R.
  - rewrite Ei. change IA64_PSR_IS with (2 ^ 34) in *. rewrite truth_land_pow2 in * by lia. by rewrite resumed_bit by lia.
  - rewrite Ei, resumed_bit by lia. symmetry. by apply mode_rt.
Qed.

(** C2. An interruption handler is invisible to the program that it
    interrupts.  The handler leaves the interrupted frame with [cover], runs any
    program of writes, [alloc], [flushrs] and nested calls on the register stack,
    and returns with [rfi]; the engine may have to store and load the interrupted
    frame.  After the return the frame marker, the rotation, [AR.BSP] and every
    register of the frame, value and NaT bit, are as they were, [AR.PFS] is, and
    the program goes on at the instruction that the interruption reports, with
    its [PSR] (without the bits [da] and [dd] that memory references clear).  If
    a mandatory reference of the handler or of [rfi] faults, or is followed by
    another interrupt, the stack up to the top of the interrupted frame is
    intact. *)
Theorem handler_transparent excp l a b K (s : rse_sys W) :
  unassisted excp = true -> suspendable s -> (excp = IA64_EXCP_EXTINT -> ia64_sapic_has_pending (senv s) = true) ->
  clean = false -> rse_inv clean K (senv s) -> uint 64 (ar_pfs (senv s)) ->
  forallb insn_ok l = true -> top_ok (K + cfm_sof (senv s) + 96 * (1 + depths l)) ->
  ensures ((ia64_cpu_do_interrupt excp ;;; handler l a b) s)
    (fun _ s' => frame_part (senv s') = frame_part (senv s) /\
       (forall v, 0 <= v < cfm_sof (senv s) -> view (senv s') v = view (senv s) v) /\
       ar_pfs (senv s') = ar_pfs (senv s) /\
       lasting (psr (senv s')) = lasting (resumed_psr (reported_slot excp false (senv s)) (senv s)) /\
       ip (senv s') = ia64_ip_bundle_addr (ip (senv s)))
    (fun _ s' => kept_below (mode_part (senv s)) K (K - rse_dirty (rse (senv s))) (K + cfm_sof (senv s))
       (held_stack K (senv s)) s').
Proof.
  intros Hx Hs Hp Hcl Hi Hu Hok Htop. destruct (do_interrupt_entered excp s Hx Hs Hp) as (s1 & E & Hen).
  destruct (entered_at_handler _ _ _ K s s1 Hs Hen Hi Hu) as (Hh & Hf & Hpf & Ei & Ep). unfold mbind at 1. rewrite E.
  assert (Esof : cfm_sof (senv s1) = cfm_sof (senv s)) by (by injection Hf).
  pose proof (handler_spec _ _ _ _ l a b s1 Hh Hcl Hok) as H. rewrite Esof in H. eapply ensures_mono; [by apply H| |done].
  assert (Hd : 0 <= rse_dirty (rse (senv s))) by (by apply suspendable_complete).
  intros [] s' ((sg' & Hs' & Hsg') & Hf' & Hd' & Hp' & Hpsr & Hip). rewrite Ei in Hpsr. rewrite Ep, bundle_idem in Hip.
  split_and!; [congruence| |congruence|exact Hpsr|exact Hip]. intros v Hv.
  eapply (same_view _ K _ _ _ s s'); [by apply inv_stack|exact Hs'|done|done|lia|congruence|done|].
  apply Hsg'. destruct (register_slot K (senv s) (32 + v) (vw_frame _ (ri_views _ _ _ Hi)) ltac:(lia)). lia.
Qed.
End handlers.

(** ** A handler that uses the whole register stack *)

#[local] Existing Instance flat_world.
#[local] Abbreviation plain := (flat_world false).

(** Its frames fill the physical file twice over, so the engine stores and
    loads the registers of the interrupted frame. *)
Definition heavy_handler : list insn :=
  [IAlloc 33 (96 .| (60 <<< 7)); IWrite 50 5 false; ICall 0 0 0 [IAlloc 32 96; IWrite 127 1 true]; IFlush].

(** The processor of Exception, at a [break], with no interrupt pending. *)
Definition trapped : rse_sys flat :=
  suspended <| sys_cpu; env ::= fun e => e <| interrupt; sapic_irr := [0; 0; 0; 0] |> |>.

Definition handled : RM flat unit :=
  ia64_cpu_do_interrupt (World := plain) IA64_EXCP_BREAK ;;; handler (World := plain) heavy_handler 0 0.

Lemma trapped_ok : suspendable trapped.
Proof.
  split; try (vm_compute; reflexivity).
  split; [reflexivity|reflexivity|apply all_uint; vm_compute; reflexivity|reflexivity|uint_const].
Qed.

Lemma trapped_inv : rse_inv false 65 (senv trapped).
Proof. concrete_inv. Qed.

Lemma handled_runs : is_ok (handled trapped) = true.
Proof. vm_compute. reflexivity. Qed.

Lemma handler_transparent_witness :
  exists s', handled trapped = Ok tt s' /\ view (senv s') 8 = (7, true) /\ ip (senv s') = 0x4a0.
Proof.
  pose proof (handler_transparent (World := plain) IA64_EXCP_BREAK heavy_handler 0 0 65 trapped eq_refl trapped_ok
    ltac:(discriminate) eq_refl trapped_inv ltac:(uint_const) ltac:(vm_compute; reflexivity) ltac:(vm_compute; reflexivity)) as H.
  destruct (ensures_ok _ _ _ handled_runs H) as ([] & s' & E & _ & Hv & _ & _ & Hi). exists s'. split; [exact E|]. split.
  - rewrite Hv by (vm_compute; split; [discriminate|reflexivity]). vm_compute. reflexivity.
  - rewrite Hi. vm_compute. reflexivity.
Defined.
