(* ===== verification/RseTheorems.v ===== *)
(** * The register stack: what programs can rely on

    The properties of the register stack engine as a whole, against any
    memory that obeys the laws of [RseWorldLaws]: programs, calls, [flushrs],
    [alloc] and interrupted returns, the engine's own consistency check, and
    programs with the interrupt delivery of Exception in the windows.
    Their witnesses run on the flat memory of RseOps, with faults at chosen
    accesses. *)
From stdpp Require Import list.
From S2P Require Import Prelude Arch Env Alat Registers Interrupt RseMap RseRnat RseOps RsePart RseSteps RseLoads RseFrames RseReturns RseAlloc RseRuns RseContext RseOutside Ras Exception.
Local Open Scope Z_scope.

(** ** Properties *)

Section properties.
Context {W : Type} `{World : RseWorld W} `{Laws : !RseWorldLaws W}.

Local Abbreviation clean := (rse_has_clean_partition (@cpu_class W World)).

(** A state of the engine in which a program starts: the invariant, a frame
    that is not being loaded, and room in the address space for the frames. *)
Record entry (l : list insn) (K : Z) (s : rse_sys W) : Prop := {
  en_clean : clean = false;
  en_ok : forallb insn_ok l = true;
  en_inv : rse_inv clean K (senv s);
  en_complete : 0 <= rse_dirty (rse (senv s));
  en_pfs : uint 64 (ar_pfs (senv s));
  en_top : top_ok (K + 96 * (1 + depths l))
}.

Lemma entry_spec l K s :
  entry l K s ->
  ensures (execs l s)
    (fun _ s' => exists sg',
       done_at (mode_part (senv s)) K (K - rse_dirty (rse (senv s))) (held_stack K (senv s)) s s' sg' /\
       effects l K (senv s) (held_stack K (senv s)) (senv s') sg')
    (fun _ s' => intact (mode_part (senv s)) K (K - rse_dirty (rse (senv s))) (held_stack K (senv s)) s').
Proof.
  intros []. apply execs_ok; try done; [|by apply inv_ready]. apply Forall_true, exec_spec.
Qed.

(** C1. A program is run as on an unbounded register stack: each instruction
    has its effect on the stack (a call none on the caller's frame and local
    registers), whatever the engine spills and fills behind it, and the
    registers of the frame read as the stack has them, values and NaT bits.
    If a mandatory store or load faults, or an instruction is refused, the
    stack below the frame is as it was. *)
Theorem programs_refine_stack l K s :
  entry l K s ->
  ensures (execs l s)
    (fun _ s' => exists sg', effects l K (senv s) (held_stack K (senv s)) (senv s') sg' /\ sees K sg' (senv s') /\
       stack (mode_part (senv s)) K (K - rse_dirty (rse (senv s))) sg' s')
    (fun _ s' => exists K' sg', K <= K' /\ stack (mode_part (senv s)) K' (K - rse_dirty (rse (senv s))) sg' s' /\
       forall j, j < K -> sg' j = held_stack K (senv s) j).
Proof.
  intros He. eapply ensures_mono; [by apply entry_spec| |by intros].
  intros [] s' (sg' & (Hr & _ & _ & _) & Hf). exists sg'. split_and!; [done| |by apply Hr].
  eapply stack_sees; [apply Hr..|]. pose proof (en_complete _ _ _ He). lia.
Qed.

(** C3. A call preserves its caller: when the procedure has returned, the
    frame marker, the rotation and [AR.BSP] are those before the call, and
    every local register reads as before, value and NaT bit, whatever the
    procedure did in its own frames. *)
Theorem call_preserves_locals b_reg next_ip target body K s :
  entry [ICall b_reg next_ip target body] K s ->
  ensures (exec (ICall b_reg next_ip target body) s)
    (fun _ s' => frame_part (senv s') = frame_part (senv s) /\
       forall v, 0 <= v < cfm_sof (senv s) -> register_at K (senv s) (32 + v) < K + cfm_sol (senv s) ->
         view (senv s') v = view (senv s) v)
    (fun _ s' => exists K' sg', K <= K' /\
       stack (mode_part (senv s)) K' (K - rse_dirty (rse (senv s))) sg' s' /\
       forall j, j < K -> sg' j = held_stack K (senv s) j).
Proof.
  intros [Hcl Hok Hi Hd Hp Htop]. pose proof (inv_ready K s Hi Hd Hp) as Hr. cbn [forallb] in Hok.
  rewrite andb_true_r in Hok. unfold depths in Htop. cbn [foldr] in Htop.
  eapply ensures_mono; [apply (exec_spec _ _ K _ _ s Hcl Hok Hr)| |by intros].
  { eapply top_ok_mono; [|exact Htop]. lia. }
  intros [] s' (sg' & (Hr' & _ & _ & _) & Hf & Hsg). split; [done|]. intros v Hv Hl.
  destruct Hr as [Hs _ _ _], Hr' as [Hs' _ Hd' _].
  by apply (same_view _ K _ _ _ s s' v Hs Hs' Hd Hd'); [lia|..|apply Hsg].
Qed.

(** C9. The consistency check that the engine runs on itself after every
    operation ([ia64_rse_check]) never fails in a program: not after the
    instructions, and not where a fault or an interrupt has left them. *)
Theorem rse_check_never_fails l K s :
  entry l K s -> ia64_rse_check_ok cpu_class (senv (final (execs l s))) = true.
Proof.
  intros He. pose proof (entry_spec l K s He) as H. destruct (execs l s) as [[] s'|x s']; cbn [ensures final] in *.
  - destruct H as (sg' & (Hr & _) & _). apply (inv_check _ K). apply Hr.
  - destruct H as (K' & sg' & _ & Hs & _). apply (inv_check _ K'). apply Hs.
Qed.

(** C10. [flushrs] writes every dirty register to the backing store, advances
    [AR.BSPSTORE] to [AR.BSP] and changes no register of the frame.  The NaT bit of a
    register is then in the collection word of its group in memory, or for the
    group not yet complete in [AR.RNAT] or in the latch of the last fill.  A
    fault leaves the frame and every register in place. *)
Theorem flushrs_writes_back K s :
  rse_inv clean K (senv s) -> 0 <= rse_dirty (rse (senv s)) ->
  ensures (ia64_rse_flush s)
    (fun _ s' => frame_part (senv s') = frame_part (senv s) /\ ar_bspstore (senv s') = ar_bsp (senv s) /\
       (forall v, 0 <= v < cfm_sof (senv s) -> view (senv s') v = view (senv s) v) /\
       forall j, K - rse_dirty (rse (senv s)) <= j < K ->
         let (value, nat) := held_stack K (senv s) j in
         smem (mode_part (senv s)) s' (bs_addr j) = value /\
         if coll j =? ia64_rse_collect_word (ar_bsp (senv s))
         then spill_known (senv s') (coll j) (j mod 63) = Some nat \/ load_known (senv s') (coll j) (j mod 63) = Some nat
         else Z.testbit (smem (mode_part (senv s)) s' (coll j)) (j mod 63) = nat)
    (fun _ s' => frame_part (senv s') = frame_part (senv s) /\ (forall p, 0 <= p < 96 -> content (senv s') p = content (senv s) p)).
Proof.
  intros Hi Hd. pose proof (inv_stack K s Hi Hd) as Hs. unfold ia64_rse_flush. apply ensures_getenv.
  eapply ensures_mono; [apply (flush_loop_spec _ K _ _ _ s Hs eq_refl Hd)|..].
  { pose proof (part_complete (ri_part _ _ _ Hi) Hd). unfold dirty_words. lia. }
  2: { intros ? s' (_ & Hf & _). split; [apply Hf|]. intros p. apply Hf. }
  intros [] s' (Hs' & _ & [Hf _ _ _] & Hd' & Hdn'). pose proof (st_inv _ _ _ _ _ Hs') as Hi'.
  assert (Hb : ar_bspstore (senv s') = ar_bsp (senv s)).
  { rewrite (po_bspstore _ _ _ _ _ _ _ _ _ _ (ri_part _ _ _ Hi')), Hd', Hdn'. injection Hf as _ _ _ _ _ _ _ ->. lia. }
  split_and!; [done|done|..].
  - intros v Hv. by apply (same_view _ K _ _ _ s s' v Hs Hs'); try lia.
  - intros j Hj. rewrite <- Hb. destruct (held_stack K (senv s) j) as [x b] eqn:E. split.
    + rewrite (st_mem _ _ _ _ _ Hs' j) by lia. by rewrite E.
    + assert (Hjd : K - rse_dirty (rse (senv s)) <= j < K - rse_dirty (rse (senv s'))) by lia.
      pose proof (st_nat _ _ _ _ _ Hs') as Hn. replace b with (snd (held_stack K (senv s) j)) by (by rewrite E).
      destruct (Z.eqb_spec (coll j) (ia64_rse_collect_word (ar_bspstore (senv s')))) as [Ec|Ec].
      * destruct (Z.eq_dec (rse_rnat_addr (rse (senv s'))) (coll j)) as [Er|Er]; [left; by apply Hn|right].
        apply (na_other _ _ _ _ _ _ Hn j Hjd Er). destruct (na_open _ _ _ _ _ _ Hn j Hjd Ec) as [?|Hl]; [congruence|].
        by rewrite Ec.
      * by apply Hn.
Qed.

Lemma alloc_refused r1 pfm ip slot (s : rse_sys W) :
  let valid := ia64_cfm_frame_fields_valid (pfm .& 0x7f) ((pfm >>> 7) .& 0x7f) ((pfm >>> 14) .& 0x0f) in
  let moved := negb (((pfm >>> 14) .& 0x0f) =? cfm_sor (senv s)) &&
    (truth (cfm_rrb_gr (senv s)) || truth (cfm_rrb_fr (senv s)) || truth (cfm_rrb_pr (senv s))) in
  let refuses x isr := match ia64_rse_alloc r1 pfm ip slot s with
    | Ok _ _ => False
    | Raise x' s' => x' = Exit x /\ cr (senv s') = aset (cr (senv s)) IA64_CR_ISR isr
    end in
  if valid then moved = true -> refuses IA64_EXCP_RESERVED_REG_FIELD 0x30 else refuses IA64_EXCP_ILLEGAL 0.
Proof.
  intros valid moved refuses. unfold refuses, ia64_rse_alloc, getenv. cbv zeta. fold valid.
  destruct valid; [|done]. intros E. unfold moved in E.
  unfold mbind, mget, mwhen. cbn [negb mret]. rewrite E. done.
Qed.

(** C11. [alloc] refuses a frame marker with bad sizes as an illegal operation,
    and a change of the rotating region while the rename bases are not zero as
    a reserved-field fault; both leave the register stack alone.  If one of
    the stores that make room faults, the frame and every register of it read
    as before, so the instruction can be run again. *)
Theorem alloc_restartable r1 pfm ip slot K s :
  rse_inv clean K (senv s) -> 0 <= rse_dirty (rse (senv s)) -> uint 64 (ar_pfs (senv s)) -> 0 <= r1 < 128 ->
  top_ok (K + pfm .& 0x7f) ->
  let valid := ia64_cfm_frame_fields_valid (pfm .& 0x7f) ((pfm >>> 7) .& 0x7f) ((pfm >>> 14) .& 0x0f) in
  let moved := negb (((pfm >>> 14) .& 0x0f) =? cfm_sor (senv s)) &&
    (truth (cfm_rrb_gr (senv s)) || truth (cfm_rrb_fr (senv s)) || truth (cfm_rrb_pr (senv s))) in
  match ia64_rse_alloc r1 pfm ip slot s with
  | Ok _ s' => valid = true /\ moved = false
  | Raise x s' =>
      (valid = false -> x = Exit IA64_EXCP_ILLEGAL /\ cr (senv s') = aset (cr (senv s)) IA64_CR_ISR 0) /\
      (valid = true -> moved = true -> x = Exit IA64_EXCP_RESERVED_REG_FIELD /\
         cr (senv s') = aset (cr (senv s)) IA64_CR_ISR 0x30) /\
      frame_part (senv s') = frame_part (senv s) /\ forall v, 0 <= v < cfm_sof (senv s) -> view (senv s') v = view (senv s) v
  end.
Proof.
  intros Hi Hd Hp Hr Htop valid moved. pose proof (inv_stack K s Hi Hd) as Hs.
  pose proof (alloc_refused r1 pfm ip slot s) as Href. cbv zeta in Href. fold valid moved in Href.
  pose proof (alloc_spec _ K _ _ s r1 pfm ip slot Hs eq_refl Hd Hr Hp Htop) as H. unfold allocates, ensures in H.
  destruct (ia64_rse_alloc r1 pfm ip slot s) as [[] s'|x s'].
  { destruct valid; [|by destruct Href]. destruct moved; [by destruct Href|done]. }
  destruct H as (Hs' & Hf & Hd'). split_and!; [| |done|].
  - intros Ev. by rewrite Ev in Href.
  - intros Ev Em. rewrite Ev in Href. by apply Href.
  - intros v Hv. by apply (same_view _ K _ _ _ s s' v Hs Hs'); try lia.
Qed.

(** C12. A [br.ret] that is left by a fault in its mandatory loads has already
    moved to the caller's frame; when the loads are resumed and finish, the
    frame is complete and its registers read as the stack has them, those of
    the caller among them, and if they fault again they can be resumed again. *)
Theorem faulted_return_resumes mode K base sg b_reg ip slot s :
  let m := ar_pfs (senv s) .& IA64_PFS_PFM_MASK in
  let n := marker_sol (ar_pfs (senv s)) in
  stack mode K base sg s -> mode_part (senv s) = mode -> return_pre K m n (senv s) -> base <= K - n ->
  exists sg', (forall j, j < K + cfm_sof (senv s) -> sg' j = sg j) /\
  match ia64_rse_br_ret b_reg ip slot s with
  | Ok _ s' => frame_part (senv s') = return_to m n (senv s) /\ sees (K - n) sg' (senv s')
  | Raise _ s1 =>
      frame_part (senv s1) = return_to m n (senv s) /\
      (mode_part (senv s1) = mode ->
       ensures (ia64_rse_complete_frame_loads s1)
         (fun _ s' => frame_part (senv s') = return_to m n (senv s) /\ sees (K - n) sg' (senv s'))
         (fun _ s' => frame_part (senv s') = return_to m n (senv s) /\ stack mode (K - n) base sg' s'))
  end.
Proof.
  intros m n Hs Hm Hp Hb. destruct (br_ret_spec mode K base sg s b_reg ip slot Hs Hm Hp) as (sg' & Hsg & H).
  fold m n in H. exists sg'. split; [done|]. unfold ensures in H.
  destruct (ia64_rse_br_ret b_reg ip slot s) as [[] s'|x s1].
  - destruct H as (Hs' & _ & Hf & Hd & _). split; [done|]. apply (stack_sees _ _ _ _ _ Hs'); lia.
  - destruct H as [Hs1 Hf]. split; [done|]. intros Hm1.
    eapply ensures_mono; [by apply (complete_frame_loads_spec mode (K - n) base sg')|..].
    + intros [] s' ((Hs' & Hf' & _) & _ & Hd & _). split; [congruence|]. by apply (stack_sees _ _ _ _ _ Hs').
    + intros ? s' (Hs' & Hf' & _). split; [congruence|done].
Qed.
End properties.

(** The same with the processor's own delivery of external interrupts in the
    windows between the mandatory references. *)
Section interrupted.
Context {W : Type} `{World : RseWorld W} `{Laws : !RseWorldLaws W} `{Ras : RasWorld W} `{Delivery : DeliveryWorld W}
  `{DLaws : !DeliveryLaws W}.

(** C8. The processor's own delivery of external interrupts meets
    the interface against which the register stack is proved.  With it in the
    windows between the mandatory references, programs run as on an unbounded
    register stack, and a program that is left by an interrupt, with the
    processor in the handler, has left the stack below its frame as it was. *)
Theorem interrupted_programs_refine l K s :
  entry (World := delivering) l K s ->
  ensures (execs (World := delivering) l s)
    (fun _ s' => exists sg', effects l K (senv s) (held_stack K (senv s)) (senv s') sg' /\ sees K sg' (senv s'))
    (fun _ s' => exists K' sg', K <= K' /\
       stack (Laws := delivering_laws) (mode_part (senv s)) K' (K - rse_dirty (rse (senv s))) sg' s' /\
       forall j, j < K -> sg' j = held_stack K (senv s) j).
Proof.
  intros He. eapply ensures_mono; [by apply (entry_spec (World := delivering) (Laws := delivering_laws))| |by intros].
  intros [] s' (sg' & (Hr & _ & _ & _) & Hf). exists sg'. split; [done|].
  eapply (stack_sees (World := delivering) (Laws := delivering_laws)); [apply Hr..|].
  pose proof (en_complete (World := delivering) _ _ _ He). lia.
Qed.
End interrupted.

(** ** A machine *)

Definition machine (until_fault : option nat) : rse_sys flat :=
  mkRseSys (zero_cpu framed true) (mkFlat [] until_fault).

#[local] Existing Instance flat_world.
#[local] Abbreviation plain := (flat_world false).

Definition pfm_of (sof sol : Z) : Z := sof .| (sol <<< 7).

Definition faults {A} (o : outcome cpu_exit (rse_sys flat) A) : bool :=
  match o with Raise (Exit IA64_EXCP_DTLB_FAULT) _ => true | _ => false end.

Lemma faults_dtlb {A} (o : outcome cpu_exit (rse_sys flat) A) :
  faults o = true -> exists s, o = Raise (Exit IA64_EXCP_DTLB_FAULT) s.
Proof. destruct o as [|[[]|] s]; try done. eauto. Qed.

(** A procedure whose frames fill the physical file twice over: the engine
    stores and loads the caller's registers. *)
Definition procedure : list insn :=
  [IAlloc 33 (pfm_of 96 60); IWrite 50 5 false; ICall 0 0 0 [IAlloc 32 (pfm_of 96 0); IWrite 127 1 true]; IFlush].

Lemma procedure_entry l n :
  forallb insn_ok l = true -> depths l <= 10 -> entry (World := plain) l 65 (machine n).
Proof.
  intros Hl Hd. split; [reflexivity|done|exact framed_inv|vm_compute; discriminate|exact framed_pfs|].
  apply (top_ok_mono _ 2000); [lia|]. vm_compute. reflexivity.
Qed.

Definition caller : list insn := [IWrite 41 6 false; ICall 0 0 0 procedure; IAlloc 32 (pfm_of 50 10)].

Lemma caller_entry n : entry (World := plain) caller 65 (machine n).
Proof. apply procedure_entry; vm_compute; done. Qed.

Lemma caller_runs :
  is_ok (execs (World := plain) caller (machine None)) = true /\
  view (senv (final (execs (World := plain) caller (machine None)))) 8 = (7, true).
Proof. split; vm_compute; reflexivity. Qed.

Lemma programs_refine_stack_witness :
  exists s' sg', execs (World := plain) caller (machine None) = Ok tt s' /\ sees 65 sg' (senv s') /\
    view (senv s') 8 = (7, true).
Proof.
  destruct caller_runs as [Hok Hv].
  pose proof (programs_refine_stack (World := plain) caller 65 (machine None) (caller_entry None)) as H.
  destruct (ensures_ok _ _ _ Hok H) as ([] & s' & E & sg' & _ & Hs & _). rewrite E in Hv.
  exists s', sg'. split; [exact E|]. split; [exact Hs|exact Hv].
Defined.

(** Vector 0x41 is pending when the program starts: the first store of its
    [alloc] is followed by the interrupt. *)
Definition interrupted_machine : rse_sys flat := suspended <| sys_cpu; interrupt_hard := true |>.

Lemma interrupted_entry : entry (World := delivering (World := plain)) caller 65 interrupted_machine.
Proof.
  split; [reflexivity|vm_compute; reflexivity|concrete_inv|vm_compute; discriminate|uint_const|].
  apply (top_ok_mono _ 2000); [vm_compute; discriminate|vm_compute; reflexivity].
Qed.

Lemma interrupted_programs_refine_witness :
  let o := execs (World := delivering (World := plain)) caller interrupted_machine in
  is_ok o = false /\ ip (senv (final o)) = 0x1b000 /\
  exists K' sg', 65 <= K' /\ rse_inv false K' (senv (final o)) /\ forall j, j < 65 -> sg' j = held_stack 65 (senv suspended) j.
Proof.
  intros o. assert (Ho : is_ok o = false) by (vm_compute; reflexivity). split; [exact Ho|]. split; [vm_compute; reflexivity|].
  pose proof (interrupted_programs_refine (World := plain) caller 65 interrupted_machine interrupted_entry) as H. fold o in H.
  destruct o as [|x s']; [discriminate|]. destruct H as (K' & sg' & HK & Hs & Hsg). exists K', sg'.
  split; [exact HK|]. split; [exact (st_inv _ _ _ _ _ Hs)|exact Hsg].
Defined.

Lemma call_runs : is_ok (exec (World := plain) (ICall 0 0 0 procedure) (machine None)) = true.
Proof. vm_compute. reflexivity. Qed.

Lemma call_preserves_locals_witness :
  exists s', exec (World := plain) (ICall 0 0 0 procedure) (machine None) = Ok tt s' /\
    frame_part (senv s') = frame_part framed.
Proof.
  pose proof (call_preserves_locals (World := plain) 0 0 0 procedure 65 (machine None)
    (procedure_entry [ICall 0 0 0 procedure] None eq_refl ltac:(vm_compute; discriminate))) as H.
  destruct (ensures_ok _ _ _ call_runs H) as ([] & s' & E & Hf & _). exists s'. split; [exact E|exact Hf].
Defined.

(** The thirtieth access of the program faults. *)
Lemma rse_check_never_fails_witness :
  is_ok (execs (World := plain) caller (machine (Some 30%nat))) = false /\
  ia64_rse_check_ok (@cpu_class flat plain) (senv (final (execs (World := plain) caller (machine (Some 30%nat))))) = true.
Proof.
  split; [vm_compute; reflexivity|].
  exact (rse_check_never_fails (World := plain) caller 65 (machine (Some 30%nat)) (caller_entry (Some 30%nat))).
Defined.

Lemma flush_runs : is_ok (ia64_rse_flush (World := plain) (machine None)) = true.
Proof. vm_compute. reflexivity. Qed.

Lemma flushrs_writes_back_witness :
  exists s', ia64_rse_flush (World := plain) (machine None) = Ok tt s' /\ ar_bspstore (senv s') = ar_bsp framed.
Proof.
  pose proof (flushrs_writes_back (World := plain) 65 (machine None) framed_inv ltac:(vm_compute; discriminate)) as H.
  destruct (ensures_ok _ _ _ flush_runs H) as ([] & s' & E & _ & Hb & _). exists s'. split; [exact E|exact Hb].
Defined.

Lemma alloc_faults : faults (ia64_rse_alloc (World := plain) 32 (pfm_of 96 50) 0 0 (machine (Some 1%nat))) = true.
Proof. vm_compute. reflexivity. Qed.

(** The second of the stores that make room faults. *)
Lemma alloc_restartable_witness :
  exists s', ia64_rse_alloc (World := plain) 32 (pfm_of 96 50) 0 0 (machine (Some 1%nat)) = Raise (Exit IA64_EXCP_DTLB_FAULT) s' /\
    frame_part (senv s') = frame_part framed /\ view (senv s') 8 = (7, true).
Proof.
  pose proof (alloc_restartable (World := plain) 32 (pfm_of 96 50) 0 0 65 (machine (Some 1%nat)) framed_inv
    ltac:(vm_compute; discriminate) framed_pfs ltac:(lia) ltac:(vm_compute; reflexivity)) as H.
  destruct (faults_dtlb _ alloc_faults) as (s' & E). rewrite E in H. destruct H as (_ & _ & Hf & Hv).
  exists s'. split; [exact E|]. split; [exact Hf|]. rewrite Hv by (vm_compute; split; [discriminate|reflexivity]).
  vm_compute. reflexivity.
Defined.

(** A procedure is called and its caller flushed; the third load of the return
    faults. *)
Definition called : RM flat unit := modenv (ia64_rse_br_call 0 0 0) ;;; ia64_rse_flush (World := plain).

Lemma called_runs :
  is_ok (called (machine (Some 34%nat))) = true /\
  faults (ia64_rse_br_ret (World := plain) 0 0 0 (final (called (machine (Some 34%nat))))) = true /\
  mode_part (senv (final (ia64_rse_br_ret (World := plain) 0 0 0 (final (called (machine (Some 34%nat))))))) =
    mode_part framed.
Proof. split_and!; vm_compute; reflexivity. Qed.

Lemma called_stack K (s : rse_sys flat) :
  rse_inv false K (senv s) -> 0 <= rse_dirty (rse (senv s)) -> top_ok (K + 96) ->
  ensures (called s)
    (fun _ s' => exists sg,
       stack (World := plain) (mode_part (senv s)) (K + cfm_sol (senv s)) (K - rse_dirty (rse (senv s))) sg s' /\
       mode_part (senv s') = mode_part (senv s) /\ marker_sol (ar_pfs (senv s')) = cfm_sol (senv s) /\
       return_pre (World := plain) (K + cfm_sol (senv s)) (ar_pfs (senv s') .& IA64_PFS_PFM_MASK)
         (marker_sol (ar_pfs (senv s'))) (senv s'))
    (fun _ _ => True).
Proof.
  intros Hi Hd Htop. pose proof (inv_stack (World := plain) K s Hi Hd) as Hs. unfold called. apply ensures_modenv.
  match goal with |- ensures (_ ?t) _ _ => set (s1 := t) end.
  destruct (br_call_spec _ K _ _ s s1 0 0 0 Hs) as [Hlb Hp]; [reflexivity|done|]. clearbody s1.
  pose proof Hlb as [Hs1 Hm1 _ Hd1 _]. pose proof (ri_sol _ _ _ Hi) as Hsol. unfold ia64_rse_flush. apply ensures_getenv.
  eapply ensures_mono; [apply (flush_loop_spec _ _ _ _ _ s1 Hs1 Hm1)|..|done]; [lia| |].
  { pose proof (part_complete (ri_part _ _ _ (st_inv _ _ _ _ _ Hs1)) ltac:(lia)). unfold dirty_words. lia. }
  intros [] s' (Hs' & Hm' & Hf & Hd' & _). exists (held_stack K (senv s)). rewrite (sf_pfs _ _ Hf), Hp.
  destruct (current_pfs_marker _ _ _ Hi) as (-> & Hmk). split_and!; [done|done|done|].
  apply (call_return_pre (World := plain) _ K _ _ _ _ _ s s' Hmk Hsol eq_refl Hs Hs'); [lia|done].
Qed.

Lemma faulted_return_resumes_witness :
  exists s s1 sg', called (machine (Some 34%nat)) = Ok tt s /\
    ia64_rse_br_ret (World := plain) 0 0 0 s = Raise (Exit IA64_EXCP_DTLB_FAULT) s1 /\
    ensures (ia64_rse_complete_frame_loads (World := plain) s1) (fun _ s' => sees 65 sg' (senv s')) (fun _ _ => True).
Proof.
  destruct called_runs as (Hok & Hx & Hm1).
  destruct (ensures_ok _ _ _ Hok (called_stack 65 (machine (Some 34%nat)) framed_inv
    ltac:(vm_compute; discriminate) ltac:(vm_compute; reflexivity))) as ([] & s & E & sg & Hs & Hm & Hn & Hr).
  rewrite E in Hx, Hm1. cbn [final] in Hx, Hm1. destruct (faults_dtlb _ Hx) as [s1 E1]. rewrite E1 in Hm1.
  destruct (faulted_return_resumes (World := plain) _ _ _ sg 0 0 0 s Hs Hm Hr) as (sg' & _ & H).
  { rewrite Hn. vm_compute. discriminate. }
  rewrite E1 in H. destruct H as [_ H]. exists s, s1, sg'. split; [exact E|]. split; [exact E1|].
  eapply ensures_mono; [exact (H Hm1)| |]; [|exact (fun _ _ _ => I)].
  intros ? s' [_ Hv]. rewrite Hn in Hv. exact Hv.
Defined.
